(* ===== verification/_CoqProject ===== *)
-Q . S2P
Prelude.v
Recency.v
Float.v
Money.v
Ledger.v
LedgerInv.v
Json.v
Serde.v
Strings.v
Loops.v
Policy.v
Taint.v
Breaker.v
Savings.v
Backtest.v
Outcomes.v
Timefmt.v
AuditChain.v
SecretBroker.v
Dlp.v
Mcp.v
McpReport.v
McpExposure.v
Cache.v
AgentEvent.v
Compliance.v
UnitLedger.v
Cluster.v
RaftStore.v
RedbStore.v
ClusterNode.v
Router.v
LedgerBackend.v
Identity.v
AppState.v
Wardryx.v
Text.v
Request.v
Provider.v
McpClient.v
Console.v
ClusterMain.v
Radar.v
McpScan.v
McpBroker.v
McpBrokerProps.v
FocusExport.v
TraceCli.v
KeysReport.v
Sinks.v
Respond.v
Gateway.v
Telemetry.v
Startup.v
Adapters.v
Commands.v
GatewaySpec.v
GatewayProps.v
GatewayLedger.v
StartupProps.v
CloudTypes.v
CloudIngest.v
CloudStore.v
CloudJson.v
CloudInv.v
CloudProps.v
CloudGuards.v
CloudAccess.v
CloudTyped.v
CloudDemo.v
CloudSaved.v
CloudAuth.v
CloudApi.v
CloudApiProps.v
CloudTenants.v
CloudApiFacts.v
CloudContract.v
CloudPush.v
CloudStart.v
CloudApiDemo.v
