(* ===== verification/Prelude.v ===== *)
(** * TokenFuse: a verification development

    TokenFuse is a spend-control gateway for agents that call language models.  An agent
    sends its [/v1/messages] request to the gateway; the gateway identifies the caller,
    reserves the estimated cost of the call on the run and on every ancestor of the run,
    applies its policies, forwards the call, settles the real cost and records what it did.
    A cluster replicates the ledger over raft; a control plane collects the records of
    many gateways, raises incidents and lets operators kill runs and set budgets.

    ** The parts of the program and the files that model them

    Libraries shared by the components:
    - [Prelude]: machine integers ([i64_wrap], [u64_wrap], [i64_sat], [u64_sat]), ordered
      and unordered iteration of maps ([index_list], [HashOrder]), lists, automation;
    - [Float]: binary64 on the standard library's executable IEEE-754 specification;
    - [Strings], [Text]: UTF-8 byte strings and the methods of [str] the program calls;
    - [Json]: the [serde_json::Value] documents; [Serde]: readers and writers as serde derives
      them, codecs with the law that what is written is read back.

    The core crate (src/crates/core/src), one file each:
    - [Money] (money.rs, pricing.rs), [Ledger] and [LedgerInv] (ledger.rs), [Policy]
      (policy.rs), [Loops] (loops.rs), [Taint] (taint.rs), [Breaker] (breaker.rs),
      [Savings], [Outcomes], [Backtest] (the reports), [Timefmt] (timefmt.rs),
      [AuditChain] (audit.rs), [SecretBroker] (secretbroker.rs), [Dlp] (dlp.rs), [Cache]
      (cache.rs), [Mcp], [McpReport], [McpExposure] (mcp.rs, mcpreport.rs, mcpexposure.rs),
      [AgentEvent] (jcs.rs, agent_event.rs), [Compliance] (compliance.rs).

    The gateway (src/crates/gateway/src):
    - [UnitLedger] (unitledger.rs), [Router] (estimate.rs, router.rs), [LedgerBackend]
      (ledger_backend.rs, raft_ledger.rs, settle.rs), [Identity] (clientkeys.rs,
      identitymap.rs), [AppState] (state.rs, keystats.rs, firewall.rs), [Wardryx]
      (wardryx.rs), [Provider] (provider.rs), [Sinks] (sink.rs, cloudsink.rs,
      pricebook.rs), [FocusExport] (focusexport.rs),
      [KeysReport] (keysreport.rs), [Adapters] (wasmpolicy.rs, embedder.rs, events.rs and the
      providers of provider.rs);
    - [Request], [Respond] and [Gateway] (proxy.rs): what a request is read as, what it is
      answered, and [messages] itself with every gate in the order of the source;
      [GatewaySpec], [GatewayProps] and [GatewayLedger] hold its theorems;
    - [McpBroker] (mcpbroker.rs) with its theorems in [McpBrokerProps], [McpClient]
      (mcpclient.rs, mcpexposure_probe.rs);
    - the commands: [Console] (the outside world a command sees: files, arguments, output,
      clock), [McpScan] (mcpcli.rs), [TraceCli] (sqlq.rs and the commands over the trace),
      [Telemetry] (otel.rs, obs.rs, the routes of lib.rs, tui.rs), [Startup] (the environment
      and the construction of the state), [Commands] ([main] with its exit codes), and
      [StartupProps] with their theorems.

    The cluster (src/crates/cluster/src): [Cluster] (types.rs), [RaftStore] (store.rs),
    [RedbStore] (redbstore.rs), [ClusterNode] (server.rs: the HTTP surface of a
    node and the forwarding to the leader), [ClusterMain] (net_http.rs, network.rs, lib.rs, main.rs
    and the start of a replica in the gateway's raft_ledger.rs).

    Radar (src/crates/radar): [Radar] (main.rs and the kernel's radar-ebpf/src/main.rs).

    The control plane (src/crates/cloud/src): [Recency], [CloudTypes], [CloudIngest] and
    [CloudStore] (store.rs, devices.rs); [CloudInv], [CloudProps], [CloudGuards],
    [CloudAccess], [CloudTyped] hold its theorems, [CloudDemo] their instances.  [CloudJson] has
    the documents: the records gateways post and the snapshot file, with [CloudSaved] for
    the saving, call by call, and what a saved file restores.
    The HTTP interface of the control plane: [CloudAuth] (keys.rs, oidc.rs, devices.rs and the
    authorization of http.rs) and [CloudApi] (http.rs, replay.rs, audit_sign.rs); their theorems
    are in [CloudApiProps], [CloudTenants] and [CloudApiFacts]; [CloudContract] has the OpenAPI
    document the server publishes; [CloudPush] (push.rs, apns.rs) the alert pipeline and the
    autosave loop; [CloudStart] (main.rs, lib.rs) the start of the process; [CloudApiDemo] the
    instances.

    ** How state and operations correspond to the code

    A method that holds a lock is one function on the locked state; one that takes several locks,
    or reads the clock before a lock, is one step per lock and read ([UnitLedger.ustep],
    [Gateway.try_reserve_unit_op], the tasks of [CloudApi]).  Concurrency is the interleaving of
    such steps: [LedgerInv.step] for the ledger, [CloudInv.step] for the control plane's process
    with its autosaves and restarts.  The replicated backend of [LedgerBackend] has a local replica
    that may lag behind the agreed log and runs its settles as background tasks.  [Gateway] is a monad of its own in which
    the rest of the system may do anything its part of the state allows before each
    critical section of a request, so its theorems quantify over all other requests; a request
    whose client disconnects is a prefix of its actions ([Gateway.respond_dropped]).
    Integers keep their width: [+], [-] and [*] wrap, as the release profile compiles
    them, where the source writes [saturating_*] the model clamps.  A [HashMap] is a
    finite map; where the source iterates one the order is a parameter of class
    [HashOrder], and theorems hold for each order.  Interfaces are classes:
    [LedgerBackend.LedgerBackend] with its laws is what the request path and the
    streaming guard rely on, and the in-process and the replicated ledger are instances.

    ** What the theorems show

    - Ledger: reservations are all or nothing along the ancestor chain, the reserved
      amounts are exactly the outstanding ones, committed spend stays within the budget up
      to the overruns of real over estimated cost and the amounts by which budgets were
      lowered.  The interleavings may open runs in any order and re-open them; excluded are an
      open or close that changes the ancestors of a call in flight, a settle of a reservation
      that was not granted, negative amounts, and sums beyond an [i64].  The unit ledger has the
      same for months, for any overrides, when the clock does not run backwards and a reserve
      takes the lock in the month in which it read the clock.  What happens outside of these
      conditions is shown by [late_parent_releases_foreign_reservation] and
      [stale_month_rolls_back].
    - Request path: every reservation of a request that is served to its end is released exactly
      once (a client that disconnects earlier leaves it held,
      [GatewayLedger.disconnect_holds_reservation]), nothing is forwarded
      without a reservation and a credential, a kill is final, observing modes are
      transparent, a tainted answer is withheld and paid for, rows agree with what happened, and
      with the in-process ledger the exact charge.
    - Cluster: a log entry does what the in-process ledger's method does; replicas with one
      applied id agree; the durable store refines the in-memory one and recovers from any
      crash or failed commit to a prefix with everything it acknowledged; so on every replica,
      and after every recovery, runs stay within their budgets as in the in-process ledger, for
      logs that meet the side conditions above.
    - Control plane: the capped tables stay within their caps under untrusted input, totals are
      exact and the audit trail is complete and verifies for everything the store still has (a
      restart goes back to the last save that succeeded), detectors fire when they should and
      ignore forged decisions, nonces and pairing codes are used once.
    - Interface of the control plane: every write is justified by a credential, a signed
      request is accepted once, tenants can neither read nor change each other's data in the
      store (the file behind the replay is shared by all, [run_id_claims_replay]), each row of the
      evidence pack rests on what was observed, no change goes unsaved, alerts are spaced,
      answers are those of the published document but for a list of exceptions, axum's refusals
      included, and without credentials only pages that say nothing of the store are answered.
    - Documents: the records a gateway posts are read by the control plane as written, a saved
      snapshot is read back as the state, also one written before some fields existed, and a save
      that is cut short at any point leaves the last one whole; the trace is readable across the
      versions of its columns; a replica
      listens with the transport it was configured for.
    - Radar: a connection made in the kernel is the line printed in user space.
    - Commands and start: client keys, the identity map and its strict mode are as configured or
      the process does not start, while a misspelled mode, an unreadable policy module or rules of
      the router leave the default; an unconfigured gateway is a transparent proxy, a green scan
      read a document and found nothing in its tools, the exposure probe only ever sends its own
      requests, the reports change nothing.
    - Decisions: policy evaluation, loop detection, firewall, cache hits, routing and
      identity attribution are characterized exactly.

    ** Bounds and fuel

    The chain walk has fuel [MAX_CHAIN_DEPTH + 1], the length at which the source stops;
    [chain_spec] shows no fuel is missing on any table.  The exposure scan of JSON has 12
    levels, the source's own limit.  The control plane's theorems about recency assume
    [fits], fewer than 2^64/3 records ever ingested, so that the touch counter does not
    wrap.  Everything else is structural recursion or a fold.
    A request to the control plane is a task of type [CloudAuth.Task], a finite tree of critical
    sections, so [CloudAuth.exec] needs no fuel.

    ** Parameters

    Third-party code is a parameter where it is used: SHA-256 and its printing, the JSON
    printer and parser, the regular-expression engine, [DefaultHasher], Unicode tables,
    [HeaderValue]'s and the URL parser, [ryu], the raft library's ids and memberships, redb's
    atomic commit, signature verification.  A theorem that needs one states what
    it needs (no collision among the pre-images at hand, a round trip) as a hypothesis,
    and its witness instantiates it.

    ** Not modelled

    The HTTP, raft and file-system transports (axum, reqwest, openraft's network, the Parquet and
    Arrow writers, DataFusion behind the trace queries), tracing output and the drawing of the
    terminal widgets, the content of the embedded page and of the OpenAPI document beyond its
    operations and schemas, the exporters of the telemetry library, the WebAssembly engine, the SDKs and
    the web pages: they are input and output around the modelled functions, or libraries the
    program only calls, and they are parameters where a modelled function uses them. *)

From Stdlib Require Export ZArith Lia.
From stdpp Require Export base tactics option list list_numbers numbers strings gmap sets sorting pretty.

#[export] Set Warnings "-clear-no-such-hyp,-register-all".

#[global] Open Scope string_scope.
#[global] Open Scope list_scope.
#[global] Open Scope Z_scope.

(** ** Machine integers

    Rust's [i64], [u64], [u32] values are [Z] in range.  The release profile of
    the workspace keeps the default [overflow-checks = false], so [+], [-] and
    [*] wrap; [saturating_*] clamp; [as] casts between integers truncate. *)

Definition i64_max : Z := 9223372036854775807.
Definition i64_min : Z := -9223372036854775808.
Definition u64_max : Z := 18446744073709551615.
Definition u32_max : Z := 4294967295.

Definition in_i64 (z : Z) : Prop := i64_min ≤ z ≤ i64_max.
Definition in_u64 (z : Z) : Prop := 0 ≤ z ≤ u64_max.
Definition in_u32 (z : Z) : Prop := 0 ≤ z ≤ u32_max.

Definition i64_wrap (z : Z) : Z :=
  (z + 9223372036854775808) mod 18446744073709551616 - 9223372036854775808.
Definition u64_wrap (z : Z) : Z := z mod 18446744073709551616.
Definition u32_wrap (z : Z) : Z := z mod 4294967296.

Definition i64_sat (z : Z) : Z := Z.max i64_min (Z.min i64_max z).
Definition u64_sat (z : Z) : Z := Z.max 0 (Z.min u64_max z).

Ltac mach := unfold i64_sat, u64_sat, in_i64, in_u64, in_u32,
                    i64_max, i64_min, u64_max, u32_max in *; try lia.

Lemma u64_wrap_range z : in_u64 (u64_wrap z).
Proof. unfold u64_wrap. pose proof (Z.mod_pos_bound z 18446744073709551616). mach. Qed.

Lemma u64_sat_range z : in_u64 (u64_sat z).
Proof. mach. Qed.

#[global] Instance in_i64_dec z : Decision (in_i64 z).
Proof. unfold in_i64. apply _. Defined.

Lemma i64_wrap_id z : in_i64 z → i64_wrap z = z.
Proof. unfold i64_wrap. intros H. rewrite Z.mod_small; mach. Qed.

Lemma i64_wrap_range z : in_i64 (i64_wrap z).
Proof.
  unfold i64_wrap.
  pose proof (Z.mod_pos_bound (z + 9223372036854775808) 18446744073709551616). mach.
Qed.

Lemma i64_wrap_add_l a b : i64_wrap (i64_wrap a + b) = i64_wrap (a + b).
Proof.
  unfold i64_wrap. f_equal.
  replace ((a + 9223372036854775808) mod 18446744073709551616 - 9223372036854775808 + b
           + 9223372036854775808)
    with ((a + 9223372036854775808) mod 18446744073709551616 + b) by lia.
  rewrite Zplus_mod_idemp_l. f_equal. lia.
Qed.

(** A wrapping left-nested sum of non-negative terms that fits is exact. *)
Lemma i64_wrap4 a b c d :
  0 ≤ a → 0 ≤ b → 0 ≤ c → 0 ≤ d → a + b + c + d ≤ i64_max →
  i64_wrap (i64_wrap (i64_wrap (a + b) + c) + d) = a + b + c + d.
Proof.
  intros. rewrite (i64_wrap_id (a + b)) by mach.
  rewrite (i64_wrap_id (a + b + c)) by mach. apply i64_wrap_id. mach.
Qed.

Lemma u32_wrap_id z : in_u32 z → u32_wrap z = z.
Proof. unfold u32_wrap. intros H. apply Z.mod_small. mach. Qed.

Lemma u64_wrap_id z : in_u64 z → u64_wrap z = z.
Proof. unfold u64_wrap. intros H. apply Z.mod_small. mach. Qed.

Lemma i64_sat_id z : in_i64 z → i64_sat z = z.
Proof. intros; mach. Qed.

Lemma u64_sat_id z : in_u64 z → u64_sat z = z.
Proof. intros; mach. Qed.

Lemma i64_sat_range z : in_i64 (i64_sat z).
Proof. intros; mach. Qed.

Create Rewrite HintDb tf.
#[export] Hint Rewrite i64_wrap_id u32_wrap_id u64_wrap_id i64_sat_id u64_sat_id
  using (solve [mach]) : tf.

(** ** Sums of integers *)

Definition zsum (l : list Z) : Z := foldr Z.add 0 l.

Lemma zsum_app l k : zsum (l ++ k) = zsum l + zsum k.
Proof. induction l; simpl; lia. Qed.

Lemma zsum_perm l k : l ≡ₚ k → zsum l = zsum k.
Proof. induction 1; simpl; lia. Qed.

#[global] Instance zsum_proper : Proper (Permutation ==> eq) zsum.
Proof. intros l k. apply zsum_perm. Qed.

Lemma zsum_nonneg l : Forall (λ z, 0 ≤ z) l → 0 ≤ zsum l.
Proof. induction 1; simpl; lia. Qed.

Lemma zsum_elem_le l z : Forall (λ z, 0 ≤ z) l → z ∈ l → z ≤ zsum l.
Proof.
  intros Hl. revert z. induction Hl as [|x l Hx Hl IH]; intros z Hz; [set_solver|].
  apply elem_of_cons in Hz as [->|Hz]; simpl; pose proof (zsum_nonneg _ Hl);
    [lia | specialize (IH _ Hz); lia].
Qed.

Lemma zsum_replicate n z : zsum (replicate n z) = Z.of_nat n * z.
Proof. induction n; simpl; lia. Qed.

(** ** Small tactics *)

(** Destruct the innermost scrutinee of a [match] in the goal or in [H]. *)
Ltac case_goal :=
  match goal with
  | |- context [ match ?x with _ => _ end ] => destruct x eqn:?
  end.
Ltac case_hyp H :=
  match type of H with
  | context [ match ?x with _ => _ end ] => destruct x eqn:?
  end.
Ltac invert H := inversion H; subst; clear H.

(** Turn boolean comparisons into propositions. *)
Ltac breflect :=
  repeat match goal with
  | H : (_ <? _)%Z = true |- _ => apply Z.ltb_lt in H
  | H : (_ <? _)%Z = false |- _ => apply Z.ltb_ge in H
  | H : (_ <=? _)%Z = true |- _ => apply Z.leb_le in H
  | H : (_ <=? _)%Z = false |- _ => apply Z.leb_gt in H
  | H : (_ =? _)%Z = true |- _ => apply Z.eqb_eq in H
  | H : (_ =? _)%Z = false |- _ => apply Z.eqb_neq in H
  | H : (_ <? _)%nat = true |- _ => apply Nat.ltb_lt in H
  | H : (_ <? _)%nat = false |- _ => apply Nat.ltb_ge in H
  | H : (_ <=? _)%nat = true |- _ => apply Nat.leb_le in H
  | H : (_ <=? _)%nat = false |- _ => apply Nat.leb_gt in H
  | H : bool_decide _ = true |- _ => apply bool_decide_eq_true in H
  | H : bool_decide _ = false |- _ => apply bool_decide_eq_false in H
  | H : andb _ _ = true |- _ => apply andb_true_iff in H as [? ?]
  | H : orb _ _ = false |- _ => apply orb_false_iff in H as [? ?]
  | H : negb _ = true |- _ => apply negb_true_iff in H
  | H : negb _ = false |- _ => apply negb_false_iff in H
  end.

(** ** Results, and in-place updates of several map entries *)

Inductive result (A E : Type) : Type :=
| Ok (a : A)
| Err (e : E).
Arguments Ok {A E} a.
Arguments Err {A E} e.

Definition is_ok {A E} (r : result A E) : bool :=
  match r with Ok _ => true | Err _ => false end.

(** [for id in &ids { update(runs.get_mut(id)) }] *)
Definition alter_all {A} (f : A → A) (ids : list string) (m : gmap string A)
  : gmap string A :=
  foldl (λ m id, alter f id m) m ids.

Lemma alter_all_lookup {A} (f : A → A) ids (m : gmap string A) k :
  NoDup ids →
  alter_all f ids m !! k = if decide (k ∈ ids) then f <$> m !! k else m !! k.
Proof.
  unfold alter_all. intros Hnd. revert m.
  induction Hnd as [|id ids Hid Hnd IH]; intros m; cbn [foldl].
  - rewrite decide_False; [done|set_solver].
  - rewrite IH, lookup_alter. pose proof (elem_of_cons ids k id).
    repeat case_decide; subst; first [done | exfalso; tauto | destruct H; intuition congruence].
Qed.

Lemma alter_all_in {A} (f : A → A) ids (m : gmap string A) k x :
  NoDup ids → k ∈ ids → m !! k = Some x → alter_all f ids m !! k = Some (f x).
Proof. intros. rewrite alter_all_lookup, decide_True by done. by simplify_option_eq. Qed.

Lemma alter_all_notin {A} (f : A → A) ids (m : gmap string A) k :
  NoDup ids → k ∉ ids → alter_all f ids m !! k = m !! k.
Proof. intros. by rewrite alter_all_lookup, decide_False. Qed.

Lemma alter_all_proj {A B} (f : A → A) (g : A → B) ids (m : gmap string A) k :
  (∀ a, g (f a) = g a) → g <$> alter_all f ids m !! k = g <$> m !! k.
Proof.
  intros Hg. unfold alter_all. revert m. induction ids as [|id ids IH]; intros m; simpl; [done|].
  rewrite IH. rewrite lookup_alter. case_decide; [subst|done].
  destruct (m !! k); simpl; [by rewrite Hg|done].
Qed.

(** ** Reachability *)

Lemma rtc_preserves {A} (R : relation A) (P : A → Prop) x y :
  (∀ a b, P a → R a b → P b) → P x → rtc R x y → P y.
Proof. intros HR Hx H. induction H; eauto. Qed.

(** ** Strings and small list functions of the Rust standard library *)

(** [o1.or(o2)] *)
Definition or_else {A} (o1 o2 : option A) : option A := match o1 with Some _ => o1 | None => o2 end.

(** [v.join(sep)] *)
Fixpoint join (sep : string) (l : list string) : string :=
  match l with
  | [] => ""
  | [x] => x
  | x :: l => x +:+ sep +:+ join sep l
  end.

(** [b] as [true] or [false]. *)
Definition show_bool (b : bool) : string := if b then "true" else "false".

(** [it.max().unwrap_or(0)] over unsigned values. *)
Definition max_or_0 (l : list nat) : nat := foldr Nat.max O l.

Lemma max_or_0_ge l x : x ∈ l → (x ≤ max_or_0 l)%nat.
Proof. induction 1; simpl; lia. Qed.

Lemma max_or_0_in l : max_or_0 l = O ∨ max_or_0 l ∈ l.
Proof.
  induction l as [|x l IH]; simpl; [by left|]. right.
  destruct (Nat.max_spec x (max_or_0 l)) as [[Hlt ->]|[_ ->]]; [|by left].
  right. destruct IH as [E|]; [lia|done].
Qed.

(** [Option::filter]-free forms of [iter().any] and [iter().all]. *)
Lemma existsb_Exists {A} (f : A → bool) l : existsb f l = true ↔ Exists (λ x, f x = true) l.
Proof.
  rewrite existsb_exists, Exists_exists. split; intros (x & ? & ?); exists x; split;
    rewrite ?list_elem_of_In in *; done.
Qed.

(** ** Stable sorting ([slice::sort_by], and the iteration order of a [BTreeMap]) *)

Section sort_by.
Context {A : Type} (le : A → A → bool).

Fixpoint insert_by (x : A) (l : list A) : list A :=
  match l with
  | [] => [x]
  | y :: l' => if le x y then x :: l else y :: insert_by x l'
  end.

Definition sort_by (l : list A) : list A := foldr insert_by [] l.

Lemma insert_by_perm x l : insert_by x l ≡ₚ x :: l.
Proof.
  induction l as [|y l IH]; simpl; [done|]. case_match; [done|].
  rewrite IH. apply Permutation_swap.
Qed.

Lemma sort_by_perm l : sort_by l ≡ₚ l.
Proof. induction l as [|x l IH]; simpl; [done|]. by rewrite insert_by_perm, IH. Qed.

Lemma sort_by_length l : length (sort_by l) = length l.
Proof. by rewrite sort_by_perm. Qed.

Lemma sort_by_elem x l : x ∈ sort_by l ↔ x ∈ l.
Proof. by rewrite sort_by_perm. Qed.

Hypothesis le_total : ∀ x y, le x y = true ∨ le y x = true.
Hypothesis le_trans : ∀ x y z, le x y = true → le y z = true → le x z = true.

Lemma insert_by_sorted x l :
  StronglySorted (λ x y, le x y = true) l →
  StronglySorted (λ x y, le x y = true) (insert_by x l).
Proof.
  induction 1 as [|y l Hl IH Hy]; simpl; [repeat constructor|].
  destruct (le x y) eqn:E.
  - repeat constructor; try done. eapply Forall_impl; [exact Hy|]. eauto.
  - constructor; [done|]. rewrite insert_by_perm. constructor; [|done].
    destruct (le_total x y); congruence.
Qed.

Lemma sort_by_sorted l : StronglySorted (λ x y, le x y = true) (sort_by l).
Proof. induction l; simpl; [constructor|]. by apply insert_by_sorted. Qed.
End sort_by.

Definition str_leb (a b : string) : bool := String.leb a b.

Lemma str_leb_total a b : str_leb a b = true ∨ str_leb b a = true.
Proof. apply String.leb_total. Qed.

Lemma str_leb_trans a b c : str_leb a b = true → str_leb b c = true → str_leb a c = true.
Proof. intros H1%Is_true_true H2%Is_true_true. apply Is_true_true. by apply (transitivity (R := String.le) (y := b)). Qed.

(** The entries of a [BTreeMap<String, _>] in iteration order. *)
Definition btree_list {A} (m : gmap string A) : list (string * A) :=
  sort_by (λ p q, str_leb p.1 q.1) (map_to_list m).

Lemma btree_list_elem {A} (m : gmap string A) k x : (k, x) ∈ btree_list m ↔ m !! k = Some x.
Proof. unfold btree_list. by rewrite sort_by_elem, elem_of_map_to_list. Qed.

Lemma btree_list_sorted {A} (m : gmap string A) :
  StronglySorted (λ p q, str_leb p.1 q.1 = true) (btree_list m).
Proof.
  apply sort_by_sorted; [intros; apply str_leb_total|intros ? ? ?; apply str_leb_trans].
Qed.

(** The entries of a [BTreeMap<u64, _>] in iteration order. *)
Definition index_list {A} (m : gmap Z A) : list (Z * A) :=
  sort_by (λ p q, p.1 <=? q.1) (map_to_list m).

Lemma index_list_elem {A} (m : gmap Z A) k x : (k, x) ∈ index_list m ↔ m !! k = Some x.
Proof. unfold index_list. by rewrite sort_by_elem, elem_of_map_to_list. Qed.

Lemma index_list_sorted {A} (m : gmap Z A) :
  StronglySorted (λ p q, (p.1 <=? q.1) = true) (index_list m).
Proof.
  apply sort_by_sorted; [intros [x ?] [y ?]; rewrite !Z.leb_le; simpl; lia|].
  intros [? ?] [? ?] [? ?]. rewrite !Z.leb_le. simpl. lia.
Qed.

Lemma index_list_last {A} (m : gmap Z A) p :
  last (index_list m) = Some p →
  m !! p.1 = Some p.2 ∧ ∀ k, is_Some (m !! k) → k ≤ p.1.
Proof.
  intros Hl. pose proof (index_list_sorted m) as Hs.
  apply last_Some in Hl as [l Hl]. split.
  - destruct p as [k x]. simpl. apply index_list_elem. rewrite Hl. set_solver.
  - intros k [x Hx%index_list_elem]. rewrite Hl in Hx, Hs.
    apply elem_of_app in Hx as [Hx|Hx%list_elem_of_singleton]; [|subst; simpl; lia].
    clear -Hx Hs. induction l as [|q l IH]; [by apply elem_of_nil in Hx|].
    inversion Hs as [|? ? Hs' Hq]; subst. apply elem_of_cons in Hx as [<-|Hx]; [|by apply IH].
    rewrite Forall_forall in Hq. apply Z.leb_le, (Hq p). set_solver.
Qed.

Lemma filter_iff_in {A} (P Q : A → Prop) `{∀ x, Decision (P x)} `{∀ x, Decision (Q x)} (l : list A) :
  (∀ x, x ∈ l → P x ↔ Q x) → filter P l = filter Q l.
Proof.
  induction l as [|x l IH]; intros Hl; [done|]. rewrite !filter_cons.
  rewrite IH by (intros; apply Hl; set_solver). pose proof (Hl x ltac:(set_solver)).
  repeat case_decide; tauto.
Qed.

Lemma filter_all_in {A} (P : A → Prop) `{∀ x, Decision (P x)} (l : list A) :
  (∀ x, x ∈ l → P x) → filter P l = l.
Proof.
  induction l as [|x l IH]; intros Hl; [done|]. rewrite filter_cons, decide_True by set_solver.
  f_equal. apply IH. set_solver.
Qed.

(** Two listings in ascending order of the same entries are the same. *)
Lemma index_list_unique {A} (m : gmap Z A) l :
  StronglySorted (λ p q, (p.1 <=? q.1) = true) l → l ≡ₚ map_to_list m → index_list m = l.
Proof.
  intros Hl Hp. apply (StronglySorted_unique_strong (λ p q, (p.1 <=? q.1) = true));
    [|apply index_list_sorted|done|unfold index_list; by rewrite sort_by_perm, Hp].
  intros [x a] [y b] Hx%index_list_elem Hy. rewrite Hp, elem_of_map_to_list in Hy.
  rewrite !Z.leb_le. simpl. intros. assert (x = y) by lia. by simplify_eq.
Qed.

Lemma StronglySorted_snoc {A} (R : relation A) l x :
  StronglySorted R l → Forall (λ y, R y x) l → StronglySorted R (l ++ [x]).
Proof.
  induction 1 as [|y l Hl IH Hy]; intros Hx; simpl; [repeat constructor|].
  inversion Hx; subst. constructor; [by apply IH|]. apply Forall_app. split; [done|by constructor].
Qed.

Lemma StronglySorted_filter {A} (R : relation A) (P : A → Prop) `{∀ x, Decision (P x)} l :
  StronglySorted R l → StronglySorted R (filter P l).
Proof.
  induction 1 as [|y l Hl IH Hy]; [constructor|]. rewrite filter_cons. case_decide; [|done].
  constructor; [done|]. rewrite Forall_forall in Hy |- *. intros z [_ Hz]%list_elem_of_filter. auto.
Qed.

(** A fresh largest index goes to the end. *)
Lemma index_list_insert_last {A} (m : gmap Z A) k x :
  (∀ j, is_Some (m !! j) → j < k) → index_list (<[k := x]> m) = index_list m ++ [(k, x)].
Proof.
  intros Hk. assert (m !! k = None) as Hn.
  { destruct (m !! k) eqn:E; [|done]. assert (k < k) by eauto. lia. }
  apply index_list_unique.
  - apply StronglySorted_snoc; [apply index_list_sorted|]. apply Forall_forall.
    intros [j y] Hj%index_list_elem. apply Z.leb_le. simpl. assert (j < k) by eauto. lia.
  - rewrite map_to_list_insert by done. unfold index_list. rewrite sort_by_perm.
    by rewrite Permutation_app_comm.
Qed.

Lemma index_list_delete {A} (m : gmap Z A) k :
  index_list (delete k m) = filter (λ p, p.1 ≠ k) (index_list m).
Proof.
  apply index_list_unique; [apply StronglySorted_filter, index_list_sorted|].
  apply NoDup_Permutation.
  - apply NoDup_filter. unfold index_list. rewrite sort_by_perm. apply NoDup_map_to_list.
  - apply NoDup_map_to_list.
  - intros [j x]. rewrite list_elem_of_filter, index_list_elem, elem_of_map_to_list.
    rewrite lookup_delete. simpl. case_decide; naive_solver.
Qed.

(** ** Grouping: [for c in calls { map.entry(key(c)).or_default().push(c) }] *)

Section group_by.
Context {K A : Type} `{Countable K} (key : A → K).

Definition group_push (m : gmap K (list A)) (x : A) : gmap K (list A) :=
  <[key x := default [] (m !! key x) ++ [x]]> m.
Definition group_by (l : list A) : gmap K (list A) := foldl group_push ∅ l.

Lemma group_by_snoc l x : group_by (l ++ [x]) = group_push (group_by l) x.
Proof. unfold group_by. by rewrite foldl_app. Qed.

Lemma group_by_lookup l k :
  group_by l !! k = match filter (λ x, key x = k) l with [] => None | g => Some g end.
Proof.
  induction l as [|x l IH] using rev_ind; [done|].
  rewrite group_by_snoc. unfold group_push.
  rewrite lookup_insert, filter_app, filter_cons, filter_nil.
  destruct (decide (key x = k)) as [->|Hne].
  - rewrite IH. by destruct (filter _ l).
  - by rewrite app_nil_r.
Qed.

Lemma group_by_some l k g :
  group_by l !! k = Some g → g = filter (λ x, key x = k) l ∧ g ≠ [].
Proof. rewrite group_by_lookup. case_match; naive_solver. Qed.

(** A sum over the groups of an additive measure is the measure of the whole. *)
Lemma group_by_sum (f : list A → Z) l :
  f [] = 0 → (∀ l x, f (l ++ [x]) = f l + f [x]) →
  zsum ((λ p, f p.2) <$> map_to_list (group_by l)) = f l.
Proof.
  intros H0 Happ. induction l as [|x l IH] using rev_ind; [by rewrite H0|].
  rewrite group_by_snoc, Happ. unfold group_push.
  destruct (group_by l !! key x) as [g|] eqn:E; simpl.
  - rewrite <- insert_delete_eq, map_to_list_insert by apply lookup_delete_eq.
    rewrite <- map_to_list_delete in IH by exact E. csimpl in *. rewrite Happ. lia.
  - rewrite map_to_list_insert by done. csimpl. lia.
Qed.
End group_by.

Lemma zsum_snoc l z : zsum (l ++ [z]) = zsum l + z.
Proof. rewrite zsum_app. simpl. lia. Qed.

Lemma zsum_fmap_snoc {A} (f : A → Z) l x : zsum (f <$> (l ++ [x])) = zsum (f <$> l) + f x.
Proof. by rewrite fmap_app, zsum_app; simpl; rewrite Z.add_0_r. Qed.

Lemma zsum_fmap_cons {A} (f : A → Z) l x : zsum (f <$> (x :: l)) = f x + zsum (f <$> l).
Proof. done. Qed.

(** ** Updating one field of a record

    [ltac:(setter eta field)] is the function that maps a function over [field],
    where [eta] rebuilds the record from its fields. *)
Ltac setter eta field :=
  let e := eval unfold eta in eta in
  let p := eval pattern field in e in
  match p with ?g _ => exact (λ f r, g (λ x, f (field x)) r) end.

(** ** Hash maps

    The iteration order of a [HashMap] is unspecified: some listing of its entries. *)
Class HashOrder := {
  iter : ∀ {A : Type}, gmap string A → list (string * A);
  iter_perm : ∀ {A : Type} (m : gmap string A), iter m ≡ₚ map_to_list m
}.

Definition values `{HashOrder} {A} (m : gmap string A) : list A := snd <$> iter m.

Lemma iter_elem `{HashOrder} {A} (m : gmap string A) k x : (k, x) ∈ iter m ↔ m !! k = Some x.
Proof. by rewrite iter_perm, elem_of_map_to_list. Qed.

Lemma iter_pair `{HashOrder} {A} (m : gmap string A) p : p ∈ iter m ↔ m !! p.1 = Some p.2.
Proof. destruct p. apply iter_elem. Qed.

Lemma hash_values_elem `{HashOrder} {A} (m : gmap string A) x :
  x ∈ values m ↔ ∃ k, m !! k = Some x.
Proof.
  unfold values. rewrite list_elem_of_fmap. split.
  - intros ([k y] & -> & Hy%iter_elem). eauto.
  - intros [k Hk%iter_elem]. by exists (k, x).
Qed.

(** Some hash order, to evaluate examples with. *)
Definition listing_order : HashOrder := {| iter := λ _ m, map_to_list m; iter_perm := λ _ _, reflexivity _ |}.

(** [len()] of a map, and the loop [while q.len() > cap { q.pop_front(); }]. *)
Definition len {A} (m : gmap string A) : Z := Z.of_nat (size m).
Definition trim_front {A} (cap : Z) (q : list A) : list A :=
  drop (Z.to_nat (Z.of_nat (length q) - cap)) q.

Lemma trim_front_length {A} cap (q : list A) :
  0 ≤ cap → Z.of_nat (length (trim_front cap q)) = Z.min cap (Z.of_nat (length q)).
Proof. intros. unfold trim_front. rewrite length_drop. lia. Qed.

Lemma trim_front_id {A} cap (q : list A) : Z.of_nat (length q) ≤ cap → trim_front cap q = q.
Proof. intros. unfold trim_front. by replace (Z.to_nat _) with O by lia. Qed.
