(* ===== verification/Recency.v ===== *)
(** * The least-recently-used index of the control plane

    [RecencyIndex] of [crates/cloud/src/store.rs]: two maps and a counter that bound
    the cardinality of every map an ingest request can grow.  Its specification is a
    list of keys, the least recently touched first. *)

From S2P Require Import Prelude.

Section recency.
Context {K : Type} `{Countable K}.

(* @src cloud/store.rs RecencyIndex *)
Record RecencyIndex := mkRecency {
  by_seq : gmap Z K;     (* BTreeMap<u64, K> *)
  seq_of : gmap K Z;     (* HashMap<K, u64> *)
  next_seq : Z           (* u64 *)
}.

(* @src cloud/store.rs 646-654 RecencyIndex::default *)
Definition empty_index : RecencyIndex := mkRecency ∅ ∅ 0.

(** [map.remove(&k)] of the optional old position. *)
Definition remove_old (old : option Z) (m : gmap Z K) : gmap Z K :=
  match old with Some s => delete s m | None => m end.

(* @src cloud/store.rs RecencyIndex::touch *)
Definition touch (r : RecencyIndex) (key : K) : RecencyIndex :=
  let by_seq' := remove_old (seq_of r !! key) (by_seq r) in
  let seq := next_seq r in
  mkRecency (<[seq := key]> by_seq') (<[key := seq]> (delete key (seq_of r)))
            (u64_wrap (seq + 1)).

(** The tail both eviction routines share: drop the entry at [seq]. *)
Definition remove_seq (r : RecencyIndex) (seq : Z) : RecencyIndex * option K :=
  match by_seq r !! seq with
  | None => (r, None)
  | Some key => (mkRecency (delete seq (by_seq r)) (delete key (seq_of r)) (next_seq r), Some key)
  end.

(* @src cloud/store.rs RecencyIndex::evict_oldest *)
Definition evict_oldest (r : RecencyIndex) : RecencyIndex * option K :=
  match index_list (by_seq r) with
  | [] => (r, None)
  | (seq, _) :: _ => remove_seq r seq
  end.

(** The loop over [by_seq] with its [fallback_seq]: the position to evict. *)
Fixpoint scan (protected : K → bool) (fallback : option Z) (l : list (Z * K)) : option Z :=
  match l with
  | [] => fallback
  | (seq, key) :: l =>
      let fallback := match fallback with None => Some seq | f => f end in
      if negb (protected key) then Some seq else scan protected fallback l
  end.

(* @src cloud/store.rs RecencyIndex::evict_oldest_unprotected *)
Definition evict_oldest_unprotected (protected : K → bool) (r : RecencyIndex)
  : RecencyIndex * option K :=
  match scan protected None (index_list (by_seq r)) with
  | None => (r, None)
  | Some seq => remove_seq r seq
  end.

(** ** Specification: a list of keys, least recently touched first *)

Definition lru_touch (l : list K) (key : K) : list K := filter (λ k, k ≠ key) l ++ [key].

Definition lru_victim (protected : K → bool) (l : list K) : option K :=
  match filter (λ k, protected k = false) l with k :: _ => Some k | [] => head l end.

Definition lru_evict (protected : K → bool) (l : list K) : list K * option K :=
  match lru_victim protected l with
  | None => (l, None)
  | Some v => (filter (λ k, k ≠ v) l, Some v)
  end.

(** The list an index stands for. *)
Definition order (r : RecencyIndex) : list K := snd <$> index_list (by_seq r).

(** The two maps are inverse to each other and all positions are in the past. *)
Record sound (r : RecencyIndex) : Prop := mkSound {
  s_inverse : ∀ s k, by_seq r !! s = Some k ↔ seq_of r !! k = Some s;
  s_past : ∀ s, is_Some (by_seq r !! s) → 0 ≤ s < next_seq r;
  s_next : in_u64 (next_seq r)
}.

Lemma sound_empty : sound empty_index.
Proof.
  split; simpl.
  - intros s k. by rewrite !lookup_empty.
  - intros s [? Hs]. by rewrite lookup_empty in Hs.
  - mach.
Qed.

Lemma order_elem r k : sound r → k ∈ order r ↔ is_Some (seq_of r !! k).
Proof.
  intros [Hi _ _]. unfold order. rewrite list_elem_of_fmap. split.
  - intros ([s k'] & -> & Hs%index_list_elem%Hi). eauto.
  - intros [s Hs%Hi%index_list_elem]. by exists (s, k).
Qed.

Lemma NoDup_snd {A B} (l : list (A * B)) :
  NoDup l → (∀ x y b, (x, b) ∈ l → (y, b) ∈ l → x = y) → NoDup l.*2.
Proof.
  induction 1 as [|[x b] l Hx Hl IH]; intros Hinj; csimpl; constructor.
  - intros ([y b'] & ? & Hy)%list_elem_of_fmap. simpl in *. subst.
    apply Hx. rewrite (Hinj x y b') by set_solver. done.
  - apply IH. intros. apply (Hinj _ _ b0); set_solver.
Qed.

Lemma order_nodup r : sound r → NoDup (order r).
Proof.
  intros [Hi _ _]. unfold order. apply NoDup_snd.
  - unfold index_list. rewrite sort_by_perm. apply NoDup_map_to_list.
  - intros s t k Hs%index_list_elem%Hi Ht%index_list_elem%Hi. congruence.
Qed.

Lemma order_length r : sound r → length (order r) = size (seq_of r).
Proof.
  intros Hr. rewrite <-(size_dom (seq_of r)), <-(size_list_to_set (C := gset K) (order r))
    by by apply order_nodup.
  f_equal. apply set_eq. intros k. rewrite elem_of_list_to_set, elem_of_dom. by apply order_elem.
Qed.

Lemma order_filter_delete r s k :
  sound r → by_seq r !! s = Some k →
  snd <$> index_list (delete s (by_seq r)) = filter (λ k', k' ≠ k) (order r).
Proof.
  intros [Hi _ _] Hs. rewrite index_list_delete. unfold order.
  assert (∀ l : list (Z * K), (∀ p, p ∈ l → by_seq r !! p.1 = Some p.2) →
    filter (λ p, p.1 ≠ s) l = filter (λ p, p.2 ≠ k) l) as Hf.
  { intros l Hl. apply filter_iff_in. intros [s' k'] Hp%Hl.
    simpl in *. pose proof (proj1 (Hi _ _) Hp). pose proof (proj1 (Hi _ _) Hs). split; intros Hne ->; congruence. }
  rewrite Hf by (intros [? ?]; apply index_list_elem).
  induction (index_list (by_seq r)) as [|[s' k'] l IH]; [done|].
  csimpl. rewrite !filter_cons. simpl. case_decide; csimpl; by rewrite IH.
Qed.

(** ** The index implements the list *)

Lemma remove_seq_spec r s k :
  sound r → by_seq r !! s = Some k →
  let '(r', o) := remove_seq r s in
  sound r' ∧ order r' = filter (λ k', k' ≠ k) (order r) ∧ o = Some k ∧
  seq_of r' = delete k (seq_of r) ∧ next_seq r' = next_seq r.
Proof.
  intros Hr Hs. unfold remove_seq. rewrite Hs. pose proof Hr as [Hi Hp Hn].
  split; [constructor; simpl; [|intros s' [? [_ Hs']%lookup_delete_Some]; eauto|done]|].
  - intros s' k'. rewrite !lookup_delete_Some, (Hi s' k'). pose proof (proj1 (Hi _ _) Hs).
    split; intros [Hne Hs']; (split; [|done]); [congruence|].
    intros <-. apply Hi in Hs'. congruence.
  - split; [|done]. unfold order at 1. simpl. by apply order_filter_delete.
Qed.

Lemma touch_spec r k :
  sound r → next_seq r < u64_max →
  sound (touch r k) ∧ order (touch r k) = lru_touch (order r) k ∧
  seq_of (touch r k) = <[k := next_seq r]> (seq_of r) ∧ next_seq (touch r k) = next_seq r + 1.
Proof.
  intros Hr Hlt. pose proof Hr as [Hi Hp Hn].
  set (old := remove_old (seq_of r !! k) (by_seq r)).
  assert (Hold : ∀ s k', old !! s = Some k' ↔ by_seq r !! s = Some k' ∧ k' ≠ k).
  { intros s k'. unfold old, remove_old. destruct (seq_of r !! k) as [s0|] eqn:E.
    - rewrite lookup_delete_Some. pose proof (proj2 (Hi _ _) E). split.
      + intros [Hne Hs]. split; [done|]. intros ->. apply Hi in Hs. congruence.
      + intros [Hs Hne]. split; [congruence|done].
    - split; [|naive_solver]. intros Hs. split; [done|]. intros ->. apply Hi in Hs. congruence. }
  assert (Hpast : ∀ j, is_Some (old !! j) → j < next_seq r).
  { intros j [k' [Hj _]%Hold]. apply Hp. eauto. }
  unfold touch. fold old. rewrite insert_delete_eq.
  assert (u64_wrap (next_seq r + 1) = next_seq r + 1) as Hw by (apply u64_wrap_id; mach).
  split; [constructor; simpl; rewrite ?Hw; [| |mach]|split; [|done]].
  - intros s k'. rewrite lookup_insert, lookup_insert. repeat case_decide; subst.
    + done.
    + split; [congruence|]. intros Hs%Hi. assert (next_seq r < next_seq r) by (apply Hp; eauto). lia.
    + split; [intros Hs%Hold; naive_solver|]. congruence.
    + rewrite Hold, Hi. naive_solver.
  - intros s [? [[<- _]|[_ Hs%Hold]]%lookup_insert_Some]; [mach|].
    destruct Hs as [Hs _]. assert (0 ≤ s < next_seq r) by eauto. lia.
  - unfold order at 1. simpl. rewrite index_list_insert_last, fmap_app by done.
    unfold lru_touch. f_equal. unfold old, remove_old.
    destruct (seq_of r !! k) as [s0|] eqn:E.
    + apply order_filter_delete; [done|]. by apply Hi.
    + symmetry. apply filter_all_in. intros k' Hk' ->.
      apply order_elem in Hk' as [? ?]; [congruence|done].
Qed.

Lemma scan_some protected s l :
  scan protected (Some s) l =
    Some (default s (fst <$> head (filter (λ p, protected p.2 = false) l))).
Proof.
  induction l as [|[s' k] l IH]; [done|]. simpl. rewrite filter_cons. simpl.
  by destruct (protected k).
Qed.

Lemma scan_spec protected (l : list (Z * K)) :
  match scan protected None l with
  | None => l = []
  | Some s => ∃ k, (s, k) ∈ l ∧ lru_victim protected l.*2 = Some k
  end.
Proof.
  unfold lru_victim. assert (∀ l : list (Z * K), filter (λ k, protected k = false) l.*2
    = (filter (λ p, protected p.2 = false) l).*2) as Hf.
  { clear. induction l as [|[s k] l IH]; [done|]. csimpl. rewrite !filter_cons. simpl.
    destruct (protected k); csimpl; by rewrite IH. }
  rewrite Hf. destruct l as [|[s k] l]; [done|]. simpl. rewrite filter_cons. simpl.
  destruct (protected k) eqn:E; simpl; [|exists k; set_solver].
  rewrite scan_some. destruct (filter _ l) as [|[s' k'] l'] eqn:El; simpl.
  - exists k. set_solver.
  - exists k'. assert ((s', k') ∈ filter (λ p, protected p.2 = false) l) as Hin
      by (rewrite El; set_solver). apply list_elem_of_filter in Hin as [_ Hin]. set_solver.
Qed.

Lemma evict_unprotected_spec protected r :
  sound r →
  let '(r', o) := evict_oldest_unprotected protected r in
  sound r' ∧ (order r', o) = lru_evict protected (order r) ∧ next_seq r' = next_seq r ∧
  seq_of r' = match o with Some v => delete v (seq_of r) | None => seq_of r end.
Proof.
  intros Hr. unfold evict_oldest_unprotected, lru_evict.
  pose proof (scan_spec protected (index_list (by_seq r))) as Hs. fold (order r) in Hs.
  destruct (scan _ _ _) as [s|].
  - destruct Hs as (k & Hk%index_list_elem & ->).
    pose proof (remove_seq_spec r s k Hr Hk) as Hspec.
    destruct (remove_seq r s) as [r' o]. destruct Hspec as (? & -> & -> & -> & ->). done.
  - assert (order r = []) as -> by (unfold order; by rewrite Hs). done.
Qed.

Lemma evict_oldest_eq r : evict_oldest r = evict_oldest_unprotected (λ _, false) r.
Proof.
  unfold evict_oldest, evict_oldest_unprotected. by destruct (index_list (by_seq r)) as [|[]].
Qed.

Lemma evict_spec r :
  sound r →
  let '(r', o) := evict_oldest r in
  sound r' ∧ (order r', o) = lru_evict (λ _, false) (order r) ∧ next_seq r' = next_seq r ∧
  seq_of r' = match o with Some v => delete v (seq_of r) | None => seq_of r end.
Proof. rewrite evict_oldest_eq. apply evict_unprotected_spec. Qed.

End recency.
Arguments RecencyIndex K {_ _}.

(** ** An index that follows a map *)

Section tracks.
Context {K A : Type} `{Countable K}.

(** The index holds exactly the keys of the map, and was touched at most [n] times. *)
Record tracks (n : Z) (m : gmap K A) (r : RecencyIndex K) : Prop := mkTracks {
  t_sound : sound r;
  t_next : next_seq r ≤ n;
  t_keys : ∀ k, is_Some (m !! k) ↔ is_Some (seq_of r !! k)
}.

Lemma tracks_empty n : 0 ≤ n → tracks n ∅ empty_index.
Proof. intros. split; [apply sound_empty|simpl; lia|]. intros k. simpl. rewrite !lookup_empty. split; intros [? [=]]. Qed.

Lemma tracks_mono n n' m r : n ≤ n' → tracks n m r → tracks n' m r.
Proof. intros ? []. split; [done|lia|done]. Qed.

Lemma tracks_touch n m r k x :
  n < u64_max → tracks n m r → tracks (n + 1) (<[k := x]> m) (touch r k).
Proof.
  intros Hn [Hs Hx Hk]. destruct (touch_spec r k Hs ltac:(lia)) as (Hs' & _ & Hq & Hn').
  split; [done|lia|]. intros k'. rewrite Hq, !lookup_insert. case_decide; [by split; eauto|apply Hk].
Qed.

(** Eviction from a followed, non-empty map drops one of its keys: an unprotected one
    if there is any. *)
Lemma tracks_evict n m r protected :
  tracks n m r → m ≠ ∅ →
  ∃ v r', evict_oldest_unprotected protected r = (r', Some v) ∧ is_Some (m !! v) ∧
    tracks n (delete v m) r' ∧
    (protected v = false ∨ ∀ k, is_Some (m !! k) → protected k = true).
Proof.
  intros [Hs Hx Hk] Hm. pose proof (evict_unprotected_spec protected r Hs) as He.
  destruct (evict_oldest_unprotected protected r) as [r' o]. destruct He as (Hs' & Ho & Hn & Hq).
  assert (∀ k, is_Some (m !! k) ↔ k ∈ order r) as Hord.
  { intros k. by rewrite order_elem, Hk by done. }
  assert (∃ v, lru_victim protected (order r) = Some v ∧ v ∈ order r ∧
    (protected v = false ∨ ∀ k, is_Some (m !! k) → protected k = true)) as (v & Hv & Hin & Hp).
  { unfold lru_victim. destruct (filter _ (order r)) as [|v l] eqn:E.
    - destruct (map_choose m Hm) as (k & x & Hkx).
      assert (k ∈ order r) as Hin by (apply Hord; eauto).
      destruct (order r) as [|v l]; [by apply elem_of_nil in Hin|]. exists v.
      split; [done|]. split; [set_solver|]. right. intros k' Hk'%Hord.
      destruct (protected k') eqn:Ep; [done|].
      assert (k' ∈ filter (λ k, protected k = false) (v :: l)) as Hf
        by by apply list_elem_of_filter.
      rewrite E in Hf. by apply elem_of_nil in Hf.
    - exists v. assert (v ∈ filter (λ k, protected k = false) (order r)) as Hf
        by (rewrite E; set_solver). apply list_elem_of_filter in Hf as [??]. auto. }
  unfold lru_evict in Ho. rewrite Hv in Ho. injection Ho as Ho ->.
  exists v, r'. split; [done|]. split; [by apply Hord|]. split; [|done].
  split; [done|lia|]. intros k. rewrite Hq, !lookup_delete. case_decide; [|apply Hk].
  split; intros [? [=]].
Qed.
End tracks.

(** ** Refinement *)

Section refinement.
Context {K : Type} `{Countable K}.

(** What callers do with an index; [None] is the plain eviction. *)
Inductive IndexOp := Touch (key : K) | Evict (protected : option (K → bool)).

Definition index_step (s : RecencyIndex K * list (option K)) (op : IndexOp)
  : RecencyIndex K * list (option K) :=
  match op with
  | Touch key => (touch s.1 key, s.2)
  | Evict None => let '(r, o) := evict_oldest s.1 in (r, s.2 ++ [o])
  | Evict (Some p) => let '(r, o) := evict_oldest_unprotected p s.1 in (r, s.2 ++ [o])
  end.

Definition lru_step (s : list K * list (option K)) (op : IndexOp) : list K * list (option K) :=
  match op with
  | Touch key => (lru_touch s.1 key, s.2)
  | Evict p => let '(l, o) := lru_evict (default (λ _, false) p) s.1 in (l, s.2 ++ [o])
  end.

Lemma index_step_simulates s l op :
  sound s.1 → order s.1 = l.1 → s.2 = l.2 → next_seq s.1 < u64_max →
  let s' := index_step s op in let l' := lru_step l op in
  sound s'.1 ∧ order s'.1 = l'.1 ∧ s'.2 = l'.2 ∧ next_seq s'.1 ≤ next_seq s.1 + 1.
Proof.
  destruct s as [r out], l as [l out']. cbn [fst snd]. intros Hs <- <- Hn. cbv zeta.
  destruct op as [key|[p|]]; cbn [index_step lru_step fst snd from_option]; unfold id.
  - destruct (touch_spec r key Hs Hn) as (? & ? & _ & ->). split_and!; (done || lia).
  - pose proof (evict_unprotected_spec p r Hs) as He.
    destruct (evict_oldest_unprotected p r) as [r' o]. destruct He as (? & Ho & Hx & _).
    destruct (lru_evict p (order r)) as [l' o']. simplify_eq. cbn [fst snd]. split_and!; (done || lia).
  - pose proof (evict_spec r Hs) as He.
    destruct (evict_oldest r) as [r' o]. destruct He as (? & Ho & Hx & _).
    destruct (lru_evict (λ _, false) (order r)) as [l' o']. simplify_eq. cbn [fst snd]. split_and!; (done || lia).
Qed.

(** The index is an LRU list.  Whatever is touched and evicted, in any order, the
    keys it holds, their order, and every key it gives up are those of a list in which
    a touched key moves to the back and the first unprotected key (the first key if all
    are protected) is the one to go. *)
Theorem recency_is_lru ops :
  Z.of_nat (length ops) < u64_max →
  let s := foldl index_step (empty_index, []) ops in
  let l := foldl lru_step ([], []) ops in
  order s.1 = l.1 ∧ s.2 = l.2 ∧ NoDup (order s.1) ∧
  length (order s.1) = size (seq_of s.1).
Proof.
  intros Hlen. cbv zeta.
  assert (∀ s l, sound s.1 → order s.1 = l.1 → s.2 = l.2 →
    next_seq s.1 + Z.of_nat (length ops) < u64_max →
    sound (foldl index_step s ops).1 ∧
    order (foldl index_step s ops).1 = (foldl lru_step l ops).1 ∧
    (foldl index_step s ops).2 = (foldl lru_step l ops).2) as Hsim.
  { clear Hlen. induction ops as [|op ops IH]; intros s l Hs Ho Hout Hn; [done|].
    cbn [foldl length] in *.
    destruct (index_step_simulates s l op Hs Ho Hout ltac:(lia)) as (H1 & H2 & H3 & H4).
    apply IH; [done|done|done|lia]. }
  destruct (Hsim (empty_index, []) ([], [])) as (Hs & Ho & Hout);
    [apply sound_empty|done|done|simpl; lia|].
  split; [done|]. split; [done|]. split; [by apply order_nodup|by apply order_length].
Qed.
End refinement.

Lemma recency_is_lru_witness :
  let ops := [Touch "a"; Touch "b"; Touch "a"; Evict None; Touch "c";
              Evict (Some (λ k, bool_decide (k = "a")))] in
  (foldl index_step (empty_index, []) ops).2 = [Some "b"; Some "c"].
Proof.
  cbv zeta. match goal with |- (foldl _ _ ?ops).2 = _ =>
    destruct (recency_is_lru ops eq_refl) as (_ & H & _) end.
  rewrite H. reflexivity.
Defined.
