(* ===== verification/Float.v ===== *)
(** * Binary64 arithmetic

    [f64] values are the standard library's executable IEEE-754 specification
    ([SpecFloat], precision 53, maximal exponent 1024, round to nearest even).
    Only the operations the program applies at the configuration and reporting
    edges of its integer accounting are defined here. *)

From Stdlib Require Export Floats.SpecFloat.
From S2P Require Import Prelude.

Abbreviation f64 := spec_float.

Definition f64_of_Z (z : Z) : f64 := binary_normalize 53 1024 z 0 false.
Definition f64_mul : f64 → f64 → f64 := SFmul 53 1024.
Definition f64_div : f64 → f64 → f64 := SFdiv 53 1024.

(** A decimal literal [n / d] of the source, correctly rounded. *)
Definition f64_lit (n d : Z) : f64 := f64_div (f64_of_Z n) (f64_of_Z d).

Definition f64_leb (a b : f64) : bool := SFleb a b.
Definition f64_ltb (a b : f64) : bool := SFltb a b.
(** [a >= b]; false when either side is NaN. *)
Definition f64_geb (a b : f64) : bool := SFleb b a.

(** Binary32. *)
Abbreviation f32 := spec_float.

Definition f32_of_Z (z : Z) : f32 := binary_normalize 24 128 z 0 false.
Definition f32_add : f32 → f32 → f32 := SFadd 24 128.
Definition f32_mul : f32 → f32 → f32 := SFmul 24 128.
Definition f32_div : f32 → f32 → f32 := SFdiv 24 128.
Definition f32_sqrt : f32 → f32 := SFsqrt 24 128.
Definition f32_lit (n d : Z) : f32 := f32_div (f32_of_Z n) (f32_of_Z d).
Definition f32_sum (l : list f32) : f32 := foldl f32_add (S754_zero false) l.

Definition signed (s : bool) (z : Z) : Z := if s then - z else z.

(** [f64::round]: nearest integer, ties away from zero. *)
Definition f64_round (x : f64) : f64 :=
  match x with
  | S754_finite s m e =>
      if 0 <=? e then x
      else f64_of_Z (signed s ((2 * Zpos m + 2 ^ (- e)) / 2 ^ (1 - e)))
  | _ => x
  end.

(** [f64::ceil]: least integer not below. *)
Definition f64_ceil (x : f64) : f64 :=
  match x with
  | S754_finite s m e =>
      if 0 <=? e then x
      else f64_of_Z (- (signed (negb s) (Zpos m) / 2 ^ (- e)))
  | _ => x
  end.

(** [x as i64]: truncation, saturating at the ends, NaN to zero. *)
Definition f64_to_i64 (x : f64) : Z :=
  match x with
  | S754_zero _ | S754_nan => 0
  | S754_infinity s => if s then i64_min else i64_max
  | S754_finite s m e =>
      i64_sat (signed s (if 0 <=? e then Zpos m * 2 ^ e else Zpos m / 2 ^ (- e)))
  end.

(** Nearest integer to [m * 2^e * 10^k], ties to even: the digits of [{:.k}]. *)
Definition scaled_digits (k : Z) (m : Z) (e : Z) : Z :=
  let num := m * 10 ^ k in
  if 0 <=? e then num * 2 ^ e
  else
    let d := 2 ^ (- e) in
    let q := num / d in
    let r := num mod d in
    if (2 * r <? d) then q
    else if (d <? 2 * r) then q + 1
    else if Z.even q then q else q + 1.

(** [width] decimal digits of [z], zero padded on the left. *)
Definition pad_left (width : nat) (s : string) : string :=
  String.append
    (String.concat EmptyString (replicate (width - String.length s) "0"%string)) s.

(** [format!("{:.k}", x)] for a finite [x]. *)
Definition f64_fixed (k : nat) (x : f64) : string :=
  let show (s : bool) (z : Z) :=
    let ip := z / 10 ^ Z.of_nat k in
    let fp := z mod 10 ^ Z.of_nat k in
    ((if s then "-" else "") +:+ pretty ip +:+ "." +:+ pad_left k (pretty fp))%string in
  match x with
  | S754_zero s => show s 0
  | S754_infinity s => if s then "-inf"%string else "inf"%string
  | S754_nan => "NaN"%string
  | S754_finite s m e => show s (scaled_digits (Z.of_nat k) (Zpos m) e)
  end.

Lemma f64_to_i64_range x : in_i64 (f64_to_i64 x).
Proof. destruct x as [| [] | |]; try apply i64_sat_range; simpl; mach. Qed.

Example f64_round_half : f64_to_i64 (f64_round (f64_lit 5 2)) = 3.
Proof. reflexivity. Qed.
Example f64_round_neg_half : f64_to_i64 (f64_round (f64_lit (-5) 2)) = -3.
Proof. reflexivity. Qed.
Example f64_ceil_up : f64_to_i64 (f64_ceil (f64_lit 21 10)) = 3.
Proof. reflexivity. Qed.
Example f64_ceil_neg : f64_to_i64 (f64_ceil (f64_lit (-21) 10)) = -2.
Proof. reflexivity. Qed.
Example f64_fixed_ex : f64_fixed 6 (f64_lit 12345 10000) = "1.234500"%string.
Proof. vm_compute. reflexivity. Qed.
