(* ===== verification/Money.v ===== *)
(** * Money, token usage and prices

    [crates/core/src/money.rs] and [crates/core/src/pricing.rs].  An amount is an
    [i64] number of microdollars, so [Microusd] is [Z]; [cost] is the exact
    integer accounting every settled call goes through. *)

From S2P Require Import Prelude Float.

Abbreviation Microusd := Z.

Module Microusd.
(* @src money.rs Microusd::ZERO *)
Definition ZERO : Microusd := 0.

(* @src money.rs Microusd::from_usd *)
Definition from_usd (usd : f64) : Microusd :=
  f64_to_i64 (f64_round (f64_mul usd (f64_of_Z 1000000))).

(* @src money.rs Microusd::as_usd *)
Definition as_usd (m : Microusd) : f64 :=
  f64_div (f64_of_Z m) (f64_of_Z 1000000).

(* @src money.rs Microusd::saturating_add *)
Definition saturating_add (a b : Microusd) : Microusd := i64_sat (a + b).

(* @src money.rs Microusd::saturating_sub *)
Definition saturating_sub (a b : Microusd) : Microusd := Z.max (i64_sat (a - b)) 0.

(* @src money.rs 38-43 Add for Microusd *)
Definition add (a b : Microusd) : Microusd := i64_wrap (a + b).

(* @src money.rs 45-50 Sub for Microusd *)
Definition sub (a b : Microusd) : Microusd := i64_wrap (a - b).

(* @src money.rs 52-56 Display for Microusd *)
Definition display (m : Microusd) : string := ("$" +:+ f64_fixed 6 (as_usd m))%string.

Lemma add_exact a b : in_i64 (a + b) → add a b = a + b.
Proof. apply i64_wrap_id. Qed.

Lemma add_range a b : in_i64 (add a b).
Proof. apply i64_wrap_range. Qed.

Lemma saturating_sub_nonneg a b : 0 ≤ saturating_sub a b.
Proof. unfold saturating_sub. lia. Qed.

Lemma saturating_sub_exact a b :
  in_i64 a → 0 ≤ b ≤ a → saturating_sub a b = a - b.
Proof. unfold saturating_sub. intros. rewrite i64_sat_id; mach. Qed.

Lemma saturating_sub_range a b : in_i64 (saturating_sub a b).
Proof. unfold saturating_sub. pose proof (i64_sat_range (a - b)). mach. Qed.

Lemma from_usd_range u : in_i64 (from_usd u).
Proof. apply f64_to_i64_range. Qed.
End Microusd.

#[export] Hint Rewrite Microusd.add_exact Microusd.saturating_sub_exact
  using (solve [mach]) : tf.

(* @src pricing.rs Usage *)
Record Usage := mkUsage {
  input_tokens : Z;          (* u64 *)
  output_tokens : Z;         (* u64 *)
  cache_read_tokens : Z;     (* u64 *)
  cache_write_tokens : Z;    (* u64 *)
  tool_calls : option Z      (* Option<u32> *)
}.

Definition default_usage : Usage := mkUsage 0 0 0 0 None.

(* @src pricing.rs ModelPrice *)
Record ModelPrice := mkModelPrice {
  input_per_mtok : Microusd;
  output_per_mtok : Microusd;
  cache_read_per_mtok : Microusd;
  cache_write_per_mtok : Microusd
}.

Module ModelPrice.
(* @src pricing.rs ModelPrice::per_mtok_usd *)
Definition per_mtok_usd (input output cache_read cache_write : f64) : ModelPrice :=
  {| input_per_mtok := Microusd.from_usd input;
     output_per_mtok := Microusd.from_usd output;
     cache_read_per_mtok := Microusd.from_usd cache_read;
     cache_write_per_mtok := Microusd.from_usd cache_write |}.

(** [((tokens as i128 * price.0 as i128) / 1_000_000) as i64] *)
(* @src pricing.rs 52-54 ModelPrice::cost *)
Definition part (tokens : Z) (price : Microusd) : Z :=
  i64_wrap (Z.quot (tokens * price) 1000000).

(* @src pricing.rs ModelPrice::cost *)
Definition cost (p : ModelPrice) (u : Usage) : Microusd :=
  i64_wrap (i64_wrap (i64_wrap
    (part (input_tokens u) (input_per_mtok p)
     + part (output_tokens u) (output_per_mtok p))
     + part (cache_read_tokens u) (cache_read_per_mtok p))
     + part (cache_write_tokens u) (cache_write_per_mtok p)).
End ModelPrice.

(* @src pricing.rs PriceBook *)
Record PriceBook := mkPriceBook {
  prices : gmap string ModelPrice;
  fallback : option ModelPrice
}.

Module PriceBook.
(* @src pricing.rs PriceBook::new *)
Definition new : PriceBook := mkPriceBook ∅ None.

(* @src pricing.rs PriceBook::insert *)
Definition insert (model : string) (p : ModelPrice) (b : PriceBook) : PriceBook :=
  mkPriceBook (<[model := p]> (prices b)) (fallback b).

(* @src pricing.rs PriceBook::with *)
Definition with_ (b : PriceBook) (model : string) (p : ModelPrice) : PriceBook :=
  insert model p b.

(* @src pricing.rs PriceBook::with_fallback *)
Definition with_fallback (b : PriceBook) (p : ModelPrice) : PriceBook :=
  mkPriceBook (prices b) (Some p).

(* @src pricing.rs PriceBook::price *)
Definition price (b : PriceBook) (model : string) : option ModelPrice :=
  match prices b !! model with
  | Some p => Some p
  | None => fallback b
  end.

(* @src pricing.rs PriceBook::is_known *)
Definition is_known (b : PriceBook) (model : string) : bool :=
  bool_decide (is_Some (prices b !! model)).

(* @src pricing.rs PriceBook::cost *)
Definition cost (b : PriceBook) (model : string) (u : Usage) : option Microusd :=
  (λ p, ModelPrice.cost p u) <$> price b model.
End PriceBook.

(** ** Correctness of the cost computation *)

Module Pricing.
(** Well-formed inputs: counts are [u64], published prices are not negative. *)
Record wf_usage (u : Usage) : Prop := {
  wf_in : in_u64 (input_tokens u);
  wf_out : in_u64 (output_tokens u);
  wf_cr : in_u64 (cache_read_tokens u);
  wf_cw : in_u64 (cache_write_tokens u)
}.

Record wf_price (p : ModelPrice) : Prop := {
  wp_in : 0 ≤ input_per_mtok p ≤ i64_max;
  wp_out : 0 ≤ output_per_mtok p ≤ i64_max;
  wp_cr : 0 ≤ cache_read_per_mtok p ≤ i64_max;
  wp_cw : 0 ≤ cache_write_per_mtok p ≤ i64_max
}.

(** The price of a usage before any division, in microdollars per million. *)
Definition exact_total (p : ModelPrice) (u : Usage) : Z :=
  input_tokens u * input_per_mtok p + output_tokens u * output_per_mtok p
  + cache_read_tokens u * cache_read_per_mtok p
  + cache_write_tokens u * cache_write_per_mtok p.

(** The total fits: no [as i64] truncation and no wrapping sum. *)
Definition fits (p : ModelPrice) (u : Usage) : Prop :=
  exact_total p u ≤ i64_max * 1000000.

Lemma part_exact t q :
  0 ≤ t * q ≤ i64_max * 1000000 →
  ModelPrice.part t q = t * q / 1000000
  ∧ 0 ≤ t * q / 1000000 ∧ 1000000 * (t * q / 1000000) ≤ t * q
  ∧ t * q < 1000000 * (t * q / 1000000) + 1000000.
Proof.
  intros H. unfold ModelPrice.part. rewrite Z.quot_div_nonneg by lia.
  pose proof (Z.div_pos (t * q) 1000000). pose proof (Z.mul_div_le (t * q) 1000000).
  pose proof (Z.mul_succ_div_gt (t * q) 1000000).
  rewrite i64_wrap_id; [lia|]. mach.
Qed.

Lemma parts_nonneg p u : wf_usage u → wf_price p →
  0 ≤ input_tokens u * input_per_mtok p ∧ 0 ≤ output_tokens u * output_per_mtok p
  ∧ 0 ≤ cache_read_tokens u * cache_read_per_mtok p
  ∧ 0 ≤ cache_write_tokens u * cache_write_per_mtok p.
Proof. intros [] []. unfold in_u64 in *. repeat split; apply Z.mul_nonneg_nonneg; lia. Qed.

Lemma cost_floors p u :
  wf_usage u → wf_price p → fits p u →
  ModelPrice.cost p u
  = input_tokens u * input_per_mtok p / 1000000
    + output_tokens u * output_per_mtok p / 1000000
    + cache_read_tokens u * cache_read_per_mtok p / 1000000
    + cache_write_tokens u * cache_write_per_mtok p / 1000000.
Proof.
  intros Hu Hp Hf. destruct (parts_nonneg p u Hu Hp) as (H1 & H2 & H3 & H4).
  unfold fits, exact_total in Hf. unfold ModelPrice.cost.
  destruct (part_exact (input_tokens u) (input_per_mtok p)) as (-> & ?); [lia|].
  destruct (part_exact (output_tokens u) (output_per_mtok p)) as (-> & ?); [lia|].
  destruct (part_exact (cache_read_tokens u) (cache_read_per_mtok p)) as (-> & ?); [lia|].
  destruct (part_exact (cache_write_tokens u) (cache_write_per_mtok p)) as (-> & ?); [lia|].
  apply i64_wrap4; mach.
Qed.

(** A priced usage that fits costs its exact price rounded down once per
    token kind: never negative, never more than the exact total, and less than
    four microdollars under it. *)
Theorem cost_within_four_micros p u :
  wf_usage u → wf_price p → fits p u →
  0 ≤ ModelPrice.cost p u
  ∧ 1000000 * ModelPrice.cost p u ≤ exact_total p u
  ∧ exact_total p u < 1000000 * (ModelPrice.cost p u + 4).
Proof.
  intros Hu Hp Hf. rewrite cost_floors by done.
  destruct (parts_nonneg p u Hu Hp) as (H1 & H2 & H3 & H4).
  unfold fits, exact_total in *.
  pose proof (part_exact (input_tokens u) (input_per_mtok p)).
  pose proof (part_exact (output_tokens u) (output_per_mtok p)).
  pose proof (part_exact (cache_read_tokens u) (cache_read_per_mtok p)).
  pose proof (part_exact (cache_write_tokens u) (cache_write_per_mtok p)). lia.
Qed.

(** More tokens of every kind never cost less, whatever the tool-call metric says. *)
Lemma cost_mono p u v :
  wf_usage u → wf_usage v → wf_price p → fits p v →
  input_tokens u ≤ input_tokens v → output_tokens u ≤ output_tokens v →
  cache_read_tokens u ≤ cache_read_tokens v →
  cache_write_tokens u ≤ cache_write_tokens v →
  ModelPrice.cost p u ≤ ModelPrice.cost p v.
Proof.
  intros Hu Hv Hp Hf H1 H2 H3 H4.
  assert (∀ a b q, a ≤ b → 0 ≤ q → a * q ≤ b * q) as Hm
    by (intros; apply Z.mul_le_mono_nonneg_r; lia).
  destruct Hp as [Q1 Q2 Q3 Q4] eqn:E.
  assert (fits p u) as Hf'.
  { unfold fits, exact_total in *.
    pose proof (Hm _ _ (input_per_mtok p) H1). pose proof (Hm _ _ (output_per_mtok p) H2).
    pose proof (Hm _ _ (cache_read_per_mtok p) H3).
    pose proof (Hm _ _ (cache_write_per_mtok p) H4). lia. }
  rewrite !cost_floors by done.
  repeat apply Z.add_le_mono; apply Z.div_le_mono; try lia; apply Hm; lia.
Qed.

Definition sonnet : ModelPrice := mkModelPrice 3000000 15000000 300000 3750000.

Example cost_within_four_micros_witness :
  ModelPrice.cost sonnet (mkUsage 1000 500 0 7 None) = 10526 ∧
  1000000 * ModelPrice.cost sonnet (mkUsage 1000 500 0 7 None)
    ≤ exact_total sonnet (mkUsage 1000 500 0 7 None).
Proof.
  split; [reflexivity|].
  apply (cost_within_four_micros sonnet (mkUsage 1000 500 0 7 None));
    [split; vm_compute; split; discriminate .. | vm_compute; discriminate].
Defined.

(** The final narrowing is not covered by the 128-bit intermediate: a token
    count an HTTP client may claim prices a call at a negative amount. *)
Theorem cost_can_be_negative :
  ∃ p u, wf_usage u ∧ wf_price p ∧ ModelPrice.cost p u < 0.
Proof.
  exists sonnet, (mkUsage 0 700000000000000000 0 0 None).
  split; [split; vm_compute; split; discriminate|].
  split; [split; vm_compute; split; discriminate|]. reflexivity.
Qed.
End Pricing.
