(* ===== verification/Ledger.v ===== *)
(** * The in-process reserve/settle ledger

    [crates/core/src/ledger.rs].  The run table behind the [Mutex] is a
    [gmap string RunState]; each method is one critical section, so it is one
    function from a table to a table, and an execution with any number of
    threads is a sequence of such steps. *)

From S2P Require Import Prelude Money.

(* @src ledger.rs RunSnapshot *)
Record RunSnapshot := mkSnapshot {
  budget : Microusd;
  reserved : Microusd;
  spent : Microusd;
  steps : Z    (* u32 *)
}.

Module RunSnapshot.
(* @src ledger.rs RunSnapshot::in_flight *)
Definition in_flight (s : RunSnapshot) : Microusd :=
  Microusd.add (spent s) (reserved s).

(* @src ledger.rs RunSnapshot::remaining *)
Definition remaining (s : RunSnapshot) : Microusd :=
  Microusd.saturating_sub (budget s) (in_flight s).
End RunSnapshot.

(* @src ledger.rs BudgetError *)
Inductive BudgetError :=
| UnknownRun (run_id : string)
| Exceeded (run_id : string) (budget spent would : Microusd).

(* @src ledger.rs Reservation *)
Record Reservation := mkReservation {
  run_id : string;
  amount : Microusd;
  step : Z   (* u32 *)
}.

(* @src ledger.rs RunState *)
Record RunState := mkRunState {
  rs_budget : Microusd;
  rs_reserved : Microusd;
  rs_spent : Microusd;
  rs_steps : Z;   (* u32 *)
  rs_parent : option string
}.

#[export] Instance RunState_eq_dec : EqDecision RunState.
Proof. solve_decision. Defined.
#[export] Instance BudgetError_eq_dec : EqDecision BudgetError.
Proof. solve_decision. Defined.
#[export] Instance Reservation_eq_dec : EqDecision Reservation.
Proof. solve_decision. Defined.

(* @src ledger.rs MAX_CHAIN_DEPTH *)
Definition MAX_CHAIN_DEPTH : nat := 64.

(** ** Field updates *)

(* @src ledger.rs 129-134 Ledger::snapshot *)
Definition snap (s : RunState) : RunSnapshot :=
  mkSnapshot (rs_budget s) (rs_reserved s) (rs_spent s) (rs_steps s).

(* @src ledger.rs 95 Ledger::open_run *)
Definition set_budget (b : Microusd) (s : RunState) : RunState :=
  mkRunState b (rs_reserved s) (rs_spent s) (rs_steps s) (rs_parent s).

(* @src ledger.rs 167 Ledger::reserve *)
Definition add_reserved (est : Microusd) (s : RunState) : RunState :=
  mkRunState (rs_budget s) (Microusd.add (rs_reserved s) est) (rs_spent s)
             (rs_steps s) (rs_parent s).

(* @src ledger.rs 169-170 Ledger::reserve *)
Definition bump_steps (s : RunState) : RunState :=
  mkRunState (rs_budget s) (rs_reserved s) (rs_spent s)
             (u32_wrap (rs_steps s + 1)) (rs_parent s).

(* @src ledger.rs 211-214 Ledger::settle *)
Definition settle_state (amount actual : Microusd) (s : RunState) : RunState :=
  mkRunState (rs_budget s) (Microusd.saturating_sub (rs_reserved s) amount)
             (Microusd.add (rs_spent s) actual) (rs_steps s) (rs_parent s).

(* @src ledger.rs 96-102 Ledger::open_run *)
Definition fresh_run (b : Microusd) (p : option string) : RunState :=
  mkRunState b Microusd.ZERO Microusd.ZERO 0 p.

Module Ledger.
(** The table guarded by the mutex. *)
(* @src ledger.rs Ledger *)
Abbreviation runs_t := (gmap string RunState).

(* @src ledger.rs Ledger::new *)
Definition new : gmap string RunState := ∅.

(* @src ledger.rs Ledger::open_run *)
Definition open_run (runs : gmap string RunState) (id : string) (b : Microusd)
    (parent : option string) : gmap string RunState :=
  match runs !! id with
  | Some s => <[id := set_budget b s]> runs
  | None => <[id := fresh_run b parent]> runs
  end.

(** The [while let] walk: [ids] is the chain collected so far, [cur] the next
    candidate.  The second break bounds the number of turns, so the fuel
    [MAX_CHAIN_DEPTH + 1] of [chain] is enough ([chain_fuel_enough]). *)
(* @src ledger.rs 111-123 Ledger::chain *)
Fixpoint chain_from (fuel : nat) (runs : gmap string RunState)
    (ids : list string) (cur : option string) : list string :=
  match fuel, cur with
  | S fuel, Some id =>
      if bool_decide (id ∈ ids) || (MAX_CHAIN_DEPTH <=? length ids)%nat then ids
      else match runs !! id with
           | Some s => chain_from fuel runs (ids ++ [id]) (rs_parent s)
           | None => ids
           end
  | _, _ => ids
  end.

(* @src ledger.rs Ledger::chain *)
Definition chain (runs : gmap string RunState) (id : string) : list string :=
  chain_from (S MAX_CHAIN_DEPTH) runs [] (Some id).

(* @src ledger.rs Ledger::snapshot *)
Definition snapshot (runs : gmap string RunState) (id : string) : option RunSnapshot :=
  snap <$> runs !! id.

(** What a level would hold with the estimate added. *)
(* @src ledger.rs 153 Ledger::reserve *)
Definition would (s : RunState) (est : Microusd) : Microusd :=
  Microusd.add (Microusd.add (rs_spent s) (rs_reserved s)) est.

(** The first level of the chain the estimate does not fit, as its error.
    (Every chain id is a key, [chain_keys], so indexing cannot fail.) *)
(* @src ledger.rs 151-162 Ledger::reserve *)
Fixpoint check_levels (runs : gmap string RunState) (ids : list string)
    (est : Microusd) : option BudgetError :=
  match ids with
  | [] => None
  | id :: ids =>
      match runs !! id with
      | Some s =>
          if rs_budget s <? would s est
          then Some (Exceeded id (rs_budget s) (rs_spent s) (would s est))
          else check_levels runs ids est
      | None => check_levels runs ids est
      end
  end.

(** Add the estimate on every level, then take one step on the leaf. *)
(* @src ledger.rs 164-177 Ledger::reserve *)
Definition apply_reserve (runs : gmap string RunState) (id : string) (est : Microusd)
  : gmap string RunState * Reservation :=
  let runs1 := alter_all (add_reserved est) (chain runs id) runs in
  let runs2 := alter bump_steps id runs1 in
  (runs2, mkReservation id est (default 0 (rs_steps <$> runs2 !! id))).

(* @src ledger.rs Ledger::reserve *)
Definition reserve (runs : gmap string RunState) (id : string) (est : Microusd)
  : gmap string RunState * result Reservation BudgetError :=
  match runs !! id with
  | None => (runs, Err (UnknownRun id))
  | Some _ =>
      match check_levels runs (chain runs id) est with
      | Some e => (runs, Err e)
      | None => let '(runs', r) := apply_reserve runs id est in (runs', Ok r)
      end
  end.

(* @src ledger.rs Ledger::reserve_unchecked *)
Definition reserve_unchecked (runs : gmap string RunState) (id : string) (est : Microusd)
  : gmap string RunState * Reservation :=
  let runs0 := match runs !! id with
               | Some _ => runs
               | None => <[id := fresh_run Microusd.ZERO None]> runs
               end in
  apply_reserve runs0 id est.

(* @src ledger.rs Ledger::settle *)
Definition settle (runs : gmap string RunState) (r : Reservation) (actual : Microusd)
  : gmap string RunState :=
  alter_all (settle_state (amount r) actual) (chain runs (run_id r)) runs.

(* @src ledger.rs Ledger::list_runs *)
Definition list_runs (runs : gmap string RunState) : list (string * RunSnapshot) :=
  (λ '(id, s), (id, snap s)) <$> map_to_list runs.

(* @src ledger.rs Ledger::close_run *)
Definition close_run (runs : gmap string RunState) (id : string)
  : gmap string RunState * option RunSnapshot :=
  (delete id runs, snap <$> runs !! id).

(** ** The ancestor walk *)

(** The run [n] parent links above [id], when the links exist. *)
Definition cand (runs : gmap string RunState) (id : string) (n : nat) : option string :=
  Nat.iter n (λ c, c ≫= λ i, runs !! i ≫= rs_parent) (Some id).

(** The state of the loop after it pushed [ids]. *)
Record walk (runs : gmap string RunState) (id : string) (ids : list string)
    (cur : option string) : Prop := {
  walk_nodup : NoDup ids;
  walk_len : (length ids ≤ MAX_CHAIN_DEPTH)%nat;
  walk_cand n i : ids !! n = Some i → cand runs id n = Some i ∧ is_Some (runs !! i);
  walk_cur : cand runs id (length ids) = cur
}.

(** Why the loop stops: no candidate, a cycle, an unknown run, or the depth guard. *)
Definition stopped (runs : gmap string RunState) (ids : list string)
    (cur : option string) : Prop :=
  length ids = MAX_CHAIN_DEPTH ∨
  match cur with
  | None => True
  | Some j => j ∈ ids ∨ runs !! j = None
  end.

Lemma walk_push runs id ids i s :
  walk runs id ids (Some i) → i ∉ ids → (length ids < MAX_CHAIN_DEPTH)%nat →
  runs !! i = Some s → walk runs id (ids ++ [i]) (rs_parent s).
Proof.
  intros [Hnd Hlen Hc Hcur] Hi Hlt Hs. split.
  - apply NoDup_app. repeat split; [done| |apply NoDup_singleton].
    by intros j Hj ->%list_elem_of_singleton.
  - rewrite length_app. simpl. lia.
  - intros n j. rewrite lookup_app_Some. intros [H|[Hn H]]; [by apply Hc|].
    apply list_lookup_singleton_Some in H as [Hz <-].
    replace n with (length ids) by lia. by rewrite Hcur, Hs.
  - rewrite length_app. simpl. rewrite Nat.add_1_r. unfold cand in *. simpl.
    by rewrite Hcur; simpl; rewrite Hs.
Qed.

Lemma chain_from_walk fuel runs id ids cur :
  walk runs id ids cur → (MAX_CHAIN_DEPTH - length ids < fuel)%nat →
  ∃ cur', walk runs id (chain_from fuel runs ids cur) cur'
          ∧ stopped runs (chain_from fuel runs ids cur) cur'.
Proof.
  revert ids cur. induction fuel as [|fuel IH]; intros ids cur Hw Hf; [lia|]. cbn [chain_from].
  destruct cur as [i|]; [|exists None; split; [done|by right]].
  pose proof (walk_len _ _ _ _ Hw).
  case_bool_decide as Hi; cbn [orb]; [exists (Some i); split; [done|right; by left]|].
  case_match; breflect; [exists (Some i); split; [done|left; lia]|].
  destruct (runs !! i) as [s|] eqn:Hs; [|exists (Some i); split; [done|right; by right]].
  apply IH; [by apply (walk_push _ _ _ i)|rewrite length_app; simpl; lia].
Qed.

Lemma walk_start runs id : walk runs id [] (Some id).
Proof. split; [constructor|unfold MAX_CHAIN_DEPTH; simpl; lia|done|done]. Qed.

Lemma chain_walk runs id :
  ∃ cur, walk runs id (chain runs id) cur ∧ stopped runs (chain runs id) cur.
Proof. apply chain_from_walk; [apply walk_start|unfold MAX_CHAIN_DEPTH; simpl; lia]. Qed.

Lemma chain_nodup runs id : NoDup (chain runs id).
Proof. destruct (chain_walk runs id) as (? & Hw & _). eapply walk_nodup; eauto. Qed.

Lemma chain_keys runs id k : k ∈ chain runs id → is_Some (runs !! k).
Proof.
  destruct (chain_walk runs id) as (? & Hw & _). intros [n Hn]%list_elem_of_lookup.
  eapply walk_cand; eauto.
Qed.

Lemma chain_from_prefix fuel runs ids cur : ids `prefix_of` chain_from fuel runs ids cur.
Proof.
  revert ids cur. induction fuel as [|fuel IH]; intros ids cur; cbn [chain_from]; [done|].
  destruct cur as [i|]; [|done]. case_match; [done|]. case_match; [|done].
  etrans; [apply prefix_app_r; reflexivity|apply IH].
Qed.

Lemma chain_head runs id s :
  runs !! id = Some s → ∃ tl, chain runs id = id :: tl.
Proof.
  intros Hs. unfold chain.
  change (chain_from (S MAX_CHAIN_DEPTH) runs [] (Some id)) with
    (match runs !! id with
     | Some s => chain_from MAX_CHAIN_DEPTH runs [id] (rs_parent s)
     | None => [] end).
  rewrite Hs. destruct (chain_from_prefix MAX_CHAIN_DEPTH runs [id] (rs_parent s)) as [tl ->].
  by exists tl.
Qed.

Lemma chain_unknown runs id : runs !! id = None → chain runs id = [].
Proof. intros H. unfold chain. simpl. by rewrite H. Qed.

Lemma chain_self runs id : is_Some (runs !! id) → id ∈ chain runs id.
Proof. intros [s Hs]. destruct (chain_head _ _ _ Hs) as [tl ->]. set_solver. Qed.

(** Two tables that agree on the parents of a set closed under parents have the
    same chains from that set. *)
Lemma chain_agree (P : string → Prop) runs runs' id :
  (∀ k, P k → rs_parent <$> runs !! k = rs_parent <$> runs' !! k) →
  (∀ k s p, P k → runs !! k = Some s → rs_parent s = Some p → P p) →
  P id → chain runs id = chain runs' id.
Proof.
  intros Hag Hcl Hid. unfold chain.
  assert (∀ i, Some id = Some i → P i) as Hcur by congruence. revert Hcur.
  generalize (Some id) as cur. generalize (@nil string) as ids.
  induction (S MAX_CHAIN_DEPTH) as [|fuel IH]; intros ids cur Hcur; [done|]. cbn [chain_from].
  destruct cur as [i|]; [|done]. case_match; [done|].
  pose proof (Hag i (Hcur i eq_refl)) as Hi.
  destruct (runs !! i) as [s|] eqn:E1, (runs' !! i) as [s'|] eqn:E2; simplify_eq/=; [|done].
  replace (rs_parent s') with (rs_parent s) by congruence. apply IH. intros p Hp. eapply Hcl; [|exact E1|exact Hp]. by apply Hcur.
Qed.

Lemma chain_ext runs runs' id :
  (∀ k, rs_parent <$> runs !! k = rs_parent <$> runs' !! k) →
  chain runs id = chain runs' id.
Proof. intros H. by apply (chain_agree (λ _, True)). Qed.

(** C3: the walk of [chain] ends on every table, cyclic or not, and returns the
    ancestors of a run in order, leaf first: position [n] holds the run [n] parent
    links up, no run occurs twice, there are at most [MAX_CHAIN_DEPTH] of them,
    and it stops early only where the links end, at an unknown run or at a cycle. *)
Theorem chain_spec runs id :
  NoDup (chain runs id) ∧ (length (chain runs id) ≤ MAX_CHAIN_DEPTH)%nat ∧
  (∀ n i, chain runs id !! n = Some i → cand runs id n = Some i ∧ is_Some (runs !! i)) ∧
  stopped runs (chain runs id) (cand runs id (length (chain runs id))).
Proof.
  destruct (chain_walk runs id) as (cur & [] & Hs). subst cur. eauto.
Qed.

(** ** Reserve and settle, level by level *)

(** The estimate fits a level of the chain. *)
Definition level_fits (runs : gmap string RunState) (est : Microusd) (k : string) : Prop :=
  ∀ s, runs !! k = Some s → would s est ≤ rs_budget s.

Lemma check_levels_none runs ids est :
  check_levels runs ids est = None ↔ Forall (level_fits runs est) ids.
Proof.
  unfold level_fits. induction ids as [|i ids IH]; simpl; [split; [constructor|done]|].
  rewrite Forall_cons. destruct (runs !! i) as [s|] eqn:Hs.
  - case_match; breflect.
    + split; [done|]. intros [H' _]. specialize (H' _ eq_refl). lia.
    + rewrite IH. split; [|tauto]. intros H'; split; [|done]. by intros ? [= <-].
  - rewrite IH. split; [|tauto]. by intros.
Qed.

Lemma check_levels_some runs ids est e :
  check_levels runs ids est = Some e →
  ∃ pre k post s, ids = pre ++ k :: post ∧ Forall (level_fits runs est) pre ∧
    runs !! k = Some s ∧ rs_budget s < would s est ∧
    e = Exceeded k (rs_budget s) (rs_spent s) (would s est).
Proof.
  induction ids as [|i ids IH]; simpl; [done|].
  destruct (runs !! i) as [s|] eqn:Hs.
  - case_match eqn:Hb; breflect; intros H.
    + invert H. exists [], i, ids, s. repeat split; eauto.
    + destruct (IH H) as (pre & k & post & s' & -> & Hpre & Hr).
      exists (i :: pre), k, post, s'. split; [done|]. split; [|done].
      constructor; [|done]. intros ? ?. simplify_eq. done.
  - intros H. destruct (IH H) as (pre & k & post & s' & -> & Hpre & Hr).
    exists (i :: pre), k, post, s'. split; [done|]. split; [|done].
    constructor; [|done]. intros ? ?. simplify_eq.
Qed.

(** What an applied reservation does to one run. *)
Definition reserve_level (runs : gmap string RunState) (id : string) (est : Microusd)
    (k : string) (s : RunState) : RunState :=
  let s := if decide (k ∈ chain runs id) then add_reserved est s else s in
  if decide (k = id) then bump_steps s else s.

Definition settle_level (runs : gmap string RunState) (id : string)
    (amt actual : Microusd) (k : string) (s : RunState) : RunState :=
  if decide (k ∈ chain runs id) then settle_state amt actual s else s.

Lemma apply_reserve_lookup runs id est k :
  (apply_reserve runs id est).1 !! k = reserve_level runs id est k <$> runs !! k.
Proof.
  unfold apply_reserve, reserve_level. simpl. rewrite lookup_alter.
  pose proof (alter_all_lookup (add_reserved est) _ runs k (chain_nodup runs id)) as H.
  repeat case_decide; subst; try done; rewrite H; by destruct (runs !! _).
Qed.

Lemma settle_lookup runs r actual k :
  settle runs r actual !! k
  = settle_level runs (run_id r) (amount r) actual k <$> runs !! k.
Proof.
  unfold settle, settle_level. rewrite alter_all_lookup by apply chain_nodup.
  case_decide; [done|]. by destruct (runs !! k).
Qed.

Lemma reserve_level_parent runs id est k s :
  rs_parent (reserve_level runs id est k s) = rs_parent s.
Proof. unfold reserve_level. by repeat case_decide. Qed.

Lemma settle_level_parent runs id amt a k s :
  rs_parent (settle_level runs id amt a k s) = rs_parent s.
Proof. unfold settle_level. by repeat case_decide. Qed.

Lemma apply_reserve_chain runs id est k :
  chain (apply_reserve runs id est).1 k = chain runs k.
Proof.
  apply chain_ext. intros j. rewrite apply_reserve_lookup.
  destruct (runs !! j); simpl; [by rewrite reserve_level_parent|done].
Qed.

Lemma settle_chain runs r a k : chain (settle runs r a) k = chain runs k.
Proof.
  apply chain_ext. intros j. rewrite settle_lookup.
  destruct (runs !! j); simpl; [by rewrite settle_level_parent|done].
Qed.

Lemma apply_reserve_ticket runs id est :
  run_id (apply_reserve runs id est).2 = id ∧ amount (apply_reserve runs id est).2 = est.
Proof. done. Qed.

(** The outcome of [reserve], by case. *)
Lemma reserve_cases runs id est :
  (runs !! id = None ∧ reserve runs id est = (runs, Err (UnknownRun id)))
  ∨ (∃ e, is_Some (runs !! id) ∧ check_levels runs (chain runs id) est = Some e
          ∧ reserve runs id est = (runs, Err e))
  ∨ (is_Some (runs !! id) ∧ check_levels runs (chain runs id) est = None
     ∧ reserve runs id est
       = ((apply_reserve runs id est).1, Ok (apply_reserve runs id est).2)).
Proof.
  unfold reserve. destruct (runs !! id); [|by left]. right.
  destruct (check_levels runs (chain runs id) est) as [e|]; [left|right]; [by exists e|].
  by destruct (apply_reserve runs id est).
Qed.

(** [reserve] is all or nothing over the whole ancestor chain.  A refusal
    leaves the table untouched and names an unknown run, or the first level of
    the chain, leaf first, whose budget the estimate would exceed, with the
    figures that show it.  A grant happens exactly when every level has room; it
    adds the estimate on every level of the chain and nowhere else, and takes one
    step on the leaf alone. *)
Theorem reserve_all_or_nothing runs id est :
  match reserve runs id est with
  | (runs', Err (UnknownRun k)) => runs' = runs ∧ k = id ∧ runs !! id = None
  | (runs', Err (Exceeded k b sp w)) =>
      runs' = runs ∧ is_Some (runs !! id) ∧
      ∃ pre post s, chain runs id = pre ++ k :: post ∧ Forall (level_fits runs est) pre ∧
        runs !! k = Some s ∧ b = rs_budget s ∧ sp = rs_spent s ∧
        w = would s est ∧ b < w
  | (runs', Ok r) =>
      is_Some (runs !! id) ∧ Forall (level_fits runs est) (chain runs id) ∧
      (∀ k, runs' !! k = reserve_level runs id est k <$> runs !! k) ∧
      run_id r = id ∧ amount r = est ∧ Some (step r) = rs_steps <$> runs' !! id
  end.
Proof.
  destruct (reserve_cases runs id est) as [[H ->]|[(e & Hid & Hc & ->)|(Hid & Hc & ->)]].
  - done.
  - destruct (check_levels_some _ _ _ _ Hc) as (pre & k & post & s & Hch & Hpre & Hk & Hb & ->).
    split; [done|]. split; [done|]. exists pre, post, s. done.
  - apply check_levels_none in Hc. split; [done|]. split; [done|].
    split; [apply apply_reserve_lookup|]. split; [done|]. split; [done|].
    pose proof (apply_reserve_lookup runs id est id) as Hl.
    unfold apply_reserve in *. simpl in *. destruct Hid as [s Hs]. rewrite Hl, Hs. done.
Qed.

(** A level with room for the estimate, without wrap-around. *)
Definition level_sound (s : RunState) (est : Microusd) : Prop :=
  0 ≤ rs_spent s ∧ 0 ≤ rs_reserved s ∧ rs_spent s + rs_reserved s + est ≤ i64_max.

Lemma would_exact s est :
  level_sound s est → 0 ≤ est → would s est = rs_spent s + rs_reserved s + est.
Proof.
  unfold level_sound, would. intros. rewrite (Microusd.add_exact (rs_spent s)) by mach.
  apply Microusd.add_exact. mach.
Qed.

Lemma reserved_exact s est :
  level_sound s est → 0 ≤ est → rs_reserved (add_reserved est s) = rs_reserved s + est.
Proof. unfold level_sound. intros. simpl. apply Microusd.add_exact. mach. Qed.

(** Reserving and settling the ticket, at every run. *)
Lemma apply_reserve_settle runs id est actual k s :
  0 ≤ est →
  (∀ k s, k ∈ chain runs id → runs !! k = Some s →
          level_sound s est ∧ in_i64 (rs_spent s + actual)) →
  runs !! k = Some s →
  ∃ s', settle (apply_reserve runs id est).1 (apply_reserve runs id est).2 actual !! k = Some s' ∧
    rs_budget s' = rs_budget s ∧ rs_parent s' = rs_parent s ∧
    rs_reserved s' = rs_reserved s ∧
    rs_spent s' = (if decide (k ∈ chain runs id) then rs_spent s + actual else rs_spent s) ∧
    rs_steps s' = (if decide (k = id) then u32_wrap (rs_steps s + 1) else rs_steps s).
Proof.
  intros He Hb Hs.
  exists (settle_level runs id est actual k (reserve_level runs id est k s)).
  rewrite settle_lookup, apply_reserve_lookup, Hs.
  destruct (apply_reserve_ticket runs id est) as [-> ->]. cbn [fmap option_fmap option_map].
  unfold settle_level. rewrite apply_reserve_chain. split; [done|].
  unfold reserve_level. destruct (decide (k ∈ chain runs id)) as [Hk|Hk].
  - destruct (Hb k s Hk Hs) as [Hl Ha]. pose proof (reserved_exact s est Hl He) as Hx.
    unfold level_sound in Hl.
    case_decide; simpl in *; repeat split;
      try (rewrite Hx, Microusd.saturating_sub_exact; [lia|mach|mach]);
      by rewrite Microusd.add_exact.
  - case_decide; done.
Qed.

(** Reserving and settling restores the reserved amounts and books exactly the
    real cost, at the leaf and at every ancestor, over- and under-estimates alike;
    every other run is untouched, and the leaf has taken one step. *)
Theorem reserve_settle_roundtrip runs id est actual runs' r :
  reserve runs id est = (runs', Ok r) →
  0 ≤ est →
  (∀ k s, k ∈ chain runs id → runs !! k = Some s →
          level_sound s est ∧ in_i64 (rs_spent s + actual)) →
  ∀ k s, runs !! k = Some s →
    ∃ s', settle runs' r actual !! k = Some s' ∧
      rs_budget s' = rs_budget s ∧ rs_parent s' = rs_parent s ∧
      rs_reserved s' = rs_reserved s ∧
      rs_spent s' = (if decide (k ∈ chain runs id) then rs_spent s + actual else rs_spent s) ∧
      rs_steps s' = (if decide (k = id) then u32_wrap (rs_steps s + 1) else rs_steps s).
Proof.
  intros Hr He Hb k s Hs.
  destruct (reserve_cases runs id est) as [[_ E]|[(e & _ & _ & E)|(Hid & _ & E)]];
    rewrite E in Hr; [done|done|].
  injection Hr as <- <-. by apply apply_reserve_settle.
Qed.
End Ledger.
