(* ===== verification/LedgerInv.v ===== *)
(** * The ledger under arbitrary interleavings

    Every execution of the in-process ledger is a sequence of critical sections.
    [step] is that relation over the table of [Ledger], together with two ghost
    components: the reservations handed out and not yet settled, and the sum of
    the amounts by which real costs overran their estimates and budgets were lowered
    by re-opening a run.  The theorems are the accounting invariants of
    reserve/settle over every reachable state, and the exactness of a fan-out over one
    budget.  What the relation asks of a step is in its comment; the one thing the code
    does not ensure is shown by [late_parent_releases_foreign_reservation]. *)

From S2P Require Import Prelude Money Ledger.

Record Sys := mkSys {
  table : gmap string RunState;
  outs : list Reservation;
  over : Z
}.

(** What the outstanding reservations hold on run [k]. *)
Definition share (runs : gmap string RunState) (k : string) (r : Reservation) : Z :=
  if decide (k ∈ Ledger.chain runs (run_id r)) then amount r else 0.

Definition held (runs : gmap string RunState) (out : list Reservation) (k : string) : Z :=
  zsum (share runs k <$> out).

(** No level of the chain of [id] wraps when [z] is added. *)
Definition room (runs : gmap string RunState) (id : string) (z : Z) : Prop :=
  ∀ k s, k ∈ Ledger.chain runs id → runs !! k = Some s →
         rs_spent s + rs_reserved s + z ≤ i64_max.

(** A change of the table keeps the ancestors of every outstanding reservation. *)
Definition undisturbed (runs runs' : gmap string RunState) (out : list Reservation) : Prop :=
  Forall (λ r, Ledger.chain runs' (run_id r) = Ledger.chain runs (run_id r)) out.

(** By how much opening [id] with budget [b] lowers its budget; a new run has none. *)
Definition lowered (runs : gmap string RunState) (id : string) (b : Z) : Z :=
  Z.max 0 (default 0 (rs_budget <$> runs !! id) - b).

(** One critical section.  A run may be opened at any time, again and with any budget and
    parent, the parent unknown or the run itself included; and closed at any time.  What a
    step may not do is change the ancestors of a call in flight, by opening a run that one
    of them already named as its parent or by closing one of them.  Amounts are
    nonnegative, a settle belongs to a reservation that was granted, and the sums stay
    within an [i64] ([room]).  [enforce] excludes the unchecked reservations of the shadow
    and warn modes. *)
Inductive step (enforce : bool) : Sys → Sys → Prop :=
| step_open runs out o id b parent :
    in_i64 b → undisturbed runs (Ledger.open_run runs id b parent) out →
    step enforce (mkSys runs out o)
      (mkSys (Ledger.open_run runs id b parent) out (o + lowered runs id b))
| step_reserve runs out o id est runs' res :
    Ledger.reserve runs id est = (runs', res) → 0 ≤ est → room runs id est →
    step enforce (mkSys runs out o)
      (mkSys runs' (match res with Ok r => r :: out | Err _ => out end) o)
| step_reserve_unchecked runs out o id est :
    enforce = false → is_Some (runs !! id) → 0 ≤ est → room runs id est →
    step enforce (mkSys runs out o)
      (mkSys (Ledger.reserve_unchecked runs id est).1
             ((Ledger.reserve_unchecked runs id est).2 :: out) o)
| step_settle runs pre r post o actual :
    0 ≤ actual → room runs (run_id r) (actual - amount r) →
    step enforce (mkSys runs (pre ++ r :: post) o)
      (mkSys (Ledger.settle runs r actual) (pre ++ post) (o + Z.max 0 (actual - amount r)))
| step_close runs out o id :
    undisturbed runs (Ledger.close_run runs id).1 out →
    step enforce (mkSys runs out o) (mkSys (Ledger.close_run runs id).1 out o).

Definition init : Sys := mkSys Ledger.new [] 0.

Definition reachable (enforce : bool) : Sys → Prop := rtc (step enforce) init.

(** ** The invariant *)

Record inv (enforce : bool) (st : Sys) : Prop := {
  inv_outs : Forall (λ r, is_Some (table st !! run_id r) ∧ 0 ≤ amount r) (outs st);
  inv_held k s : table st !! k = Some s → rs_reserved s = held (table st) (outs st) k;
  inv_spent k s : table st !! k = Some s →
    0 ≤ rs_spent s ∧ rs_spent s + rs_reserved s ≤ i64_max;
  inv_over : 0 ≤ over st;
  inv_budget k s : enforce = true → table st !! k = Some s →
    rs_spent s + rs_reserved s ≤ rs_budget s + over st
}.

Lemma share_nonneg runs k r : 0 ≤ amount r → 0 ≤ share runs k r.
Proof. unfold share. case_decide; lia. Qed.

Lemma held_nonneg runs out k :
  Forall (λ r, is_Some (runs !! run_id r) ∧ 0 ≤ amount r) out → 0 ≤ held runs out k.
Proof.
  intros H. apply zsum_nonneg, Forall_fmap. eapply Forall_impl; [exact H|].
  intros r [_ Hr]. by apply share_nonneg.
Qed.

Lemma held_app runs pre post k : held runs (pre ++ post) k = held runs pre k + held runs post k.
Proof. unfold held. by rewrite fmap_app, zsum_app. Qed.

(** [held] depends on the chains only. *)
Lemma held_ext runs runs' out k :
  Forall (λ r, Ledger.chain runs (run_id r) = Ledger.chain runs' (run_id r)) out →
  held runs out k = held runs' out k.
Proof.
  intros H. unfold held. f_equal. apply Forall_fmap_ext_1.
  eapply Forall_impl; [exact H|]. unfold share. by intros r ->.
Qed.

Lemma held_absent runs out k : runs !! k = None → held runs out k = 0.
Proof.
  intros H. unfold held. induction out as [|r out IH]; csimpl; [done|].
  rewrite IH. unfold share. rewrite decide_False; [done|].
  intros [s Hs]%Ledger.chain_keys. congruence.
Qed.

Lemma reserved_nonneg enforce st k s :
  inv enforce st → table st !! k = Some s → 0 ≤ rs_reserved s.
Proof. intros [] Hs. erewrite inv_held0 by done. by apply held_nonneg. Qed.

Lemma open_run_new runs id b p :
  runs !! id = None → Ledger.open_run runs id b p = <[id := fresh_run b p]> runs.
Proof. unfold Ledger.open_run. by intros ->. Qed.

Lemma lowered_nonneg runs id b : 0 ≤ lowered runs id b.
Proof. unfold lowered. lia. Qed.

Lemma undisturbed_held runs runs' out k :
  undisturbed runs runs' out → held runs' out k = held runs out k.
Proof. intros H. symmetry. apply held_ext. eapply Forall_impl; [exact H|]. by intros r ->. Qed.

Lemma outs_keep (P Q : Reservation → Prop) (out : list Reservation) :
  Forall P out → (∀ r, P r → Q r) → Forall Q out.
Proof. intros H HPQ. by eapply Forall_impl. Qed.

(** Opening a new run: nothing is held on it, whoever names it. *)
Lemma inv_open_new enforce runs out o id b parent :
  inv enforce (mkSys runs out o) → runs !! id = None → in_i64 b →
  undisturbed runs (Ledger.open_run runs id b parent) out →
  inv enforce (mkSys (Ledger.open_run runs id b parent) out (o + lowered runs id b)).
Proof.
  intros [Ho Hh Hs Hov Hb] Hid Hb64 Hun. simpl in *.
  pose proof (lowered_nonneg runs id b) as Hlow.
  assert (o + - b ≤ o + lowered runs id b) as Hneg by (unfold lowered; rewrite Hid; simpl; lia).
  rewrite open_run_new in * by done. split; simpl.
  - apply (outs_keep _ _ _ Ho). intros r [[s Hr] ?]. split; [|done].
    rewrite lookup_insert. case_decide; eauto.
  - intros k s Hk. rewrite (undisturbed_held runs) by done.
    apply lookup_insert_Some in Hk as [[<- <-]|[Hne Hk]]; [|eauto]. by rewrite held_absent.
  - intros k s [[<- <-]|[Hne Hk]]%lookup_insert_Some; [simpl; unfold Microusd.ZERO; mach|eauto].
  - lia.
  - intros k s He [[<- <-]|[Hne Hk]]%lookup_insert_Some; [simpl; unfold Microusd.ZERO; lia|].
    specialize (Hb k s He Hk). lia.
Qed.

(** A step that keeps the parents and the domain, given what it does per run. *)
Lemma inv_update enforce runs out o runs' out' o' (f : string → RunState → RunState) :
  inv enforce (mkSys runs out o) →
  (∀ k, runs' !! k = f k <$> runs !! k) →
  (∀ k s, rs_parent (f k s) = rs_parent s) →
  Forall (λ r, is_Some (runs !! run_id r) ∧ 0 ≤ amount r) out' →
  o ≤ o' →
  (∀ k s, runs !! k = Some s →
     rs_reserved (f k s) = held runs out' k ∧
     0 ≤ rs_spent (f k s) ∧ rs_spent (f k s) + rs_reserved (f k s) ≤ i64_max ∧
     (enforce = true → rs_spent (f k s) + rs_reserved (f k s) ≤ rs_budget (f k s) + o')) →
  inv enforce (mkSys runs' out' o').
Proof.
  intros [Ho Hh Hs Hov Hb] Hl Hpar Ho' Hoo Hf. simpl in *.
  assert (∀ k, rs_parent <$> runs !! k = rs_parent <$> runs' !! k) as Hpp.
  { intros k. rewrite Hl. destruct (runs !! k); simpl; [by rewrite Hpar|done]. }
  assert (∀ k, held runs' out' k = held runs out' k) as Hheld.
  { intros k. apply held_ext, Forall_forall. intros r _. by apply Ledger.chain_ext. }
  assert (∀ k s', runs' !! k = Some s' → ∃ s, runs !! k = Some s ∧ s' = f k s) as Hinv.
  { intros k s'. rewrite Hl. intros (s & -> & ->)%fmap_Some. eauto. }
  split; simpl.
  - apply (outs_keep _ _ _ Ho'). intros r [[s Hrs] ?]. split; [|done]. rewrite Hl, Hrs. eauto.
  - intros k s' (s & Hk & ->)%Hinv. rewrite Hheld. by apply Hf.
  - intros k s' (s & Hk & ->)%Hinv. by destruct (Hf k s Hk) as (_ & ? & ? & _).
  - lia.
  - intros k s' He (s & Hk & ->)%Hinv. by apply Hf.
Qed.

Lemma inv_redeclare enforce runs out o id s b parent :
  inv enforce (mkSys runs out o) → runs !! id = Some s → in_i64 b →
  inv enforce (mkSys (Ledger.open_run runs id b parent) out (o + lowered runs id b)).
Proof.
  intros Hi Hid Hb. pose proof Hi as [Ho Hh Hs Hov Hbud]. simpl in *.
  pose proof (lowered_nonneg runs id b) as Hlow.
  apply (inv_update enforce runs out o _ _ _ (λ k s, if decide (k = id) then set_budget b s else s));
    [done| |by intros; case_decide|done|lia|].
  - intros k. unfold Ledger.open_run. rewrite Hid, lookup_insert.
    case_decide as Hk; [subst; rewrite Hid; simpl; by rewrite decide_True|].
    destruct (runs !! k); simpl; [by rewrite decide_False by congruence|done].
  - intros k s' Hk. specialize (Hh k s' Hk). specialize (Hs k s' Hk).
    case_decide; simpl; subst; (split; [done|]; split; [lia|]; split; [lia|]);
      intros He; specialize (Hbud _ _ He Hk); [|lia].
    unfold lowered. rewrite Hk. simpl. lia.
Qed.

Lemma level_sound_of enforce runs out o id est k s :
  inv enforce (mkSys runs out o) → room runs id est → 0 ≤ est →
  k ∈ Ledger.chain runs id → runs !! k = Some s → Ledger.level_sound s est.
Proof.
  intros Hi Hr He Hk Hs. pose proof (reserved_nonneg _ _ _ _ Hi Hs).
  pose proof (inv_spent _ _ Hi k s Hs). specialize (Hr k s Hk Hs).
  unfold Ledger.level_sound. lia.
Qed.

Lemma inv_apply enforce runs out o id est :
  inv enforce (mkSys runs out o) → is_Some (runs !! id) → 0 ≤ est → room runs id est →
  (enforce = true → Forall (Ledger.level_fits runs est) (Ledger.chain runs id)) →
  inv enforce (mkSys (Ledger.apply_reserve runs id est).1
                     ((Ledger.apply_reserve runs id est).2 :: out) o).
Proof.
  intros Hi Hid He Hr Hfit. pose proof Hi as [Ho Hh Hs Hov Hbud]. simpl in *.
  eapply (inv_update enforce runs out o _ _ _ (Ledger.reserve_level runs id est));
    [done|apply Ledger.apply_reserve_lookup|apply Ledger.reserve_level_parent| |done|].
  - by constructor.
  - intros k s Hk. specialize (Hh k s Hk). specialize (Hs k s Hk).
    unfold held. csimpl. fold (held runs out k). unfold share at 1. simpl.
    unfold Ledger.reserve_level.
    destruct (decide (k ∈ Ledger.chain runs id)) as [Hin|Hin].
    + pose proof (level_sound_of _ _ _ _ _ _ _ _ Hi Hr He Hin Hk) as Hls.
      pose proof (Ledger.reserved_exact s est Hls He) as Hx. specialize (Hr k s Hin Hk).
      assert (enforce = true → rs_spent s + rs_reserved s + est ≤ rs_budget s + o) as Hb.
      { intros E. specialize (Hfit E). rewrite Forall_forall in Hfit.
        specialize (Hfit k Hin s Hk). rewrite Ledger.would_exact in Hfit by done. lia. }
      case_decide; simpl in *; rewrite Hx; (repeat split; try lia);
        intros E; specialize (Hb E); lia.
    + assert (∀ P Q : RunState, (if decide (k = id) then P else Q) = Q) as Hne.
      { intros. rewrite decide_False; [done|]. intros ->. by apply Hin, Ledger.chain_self. }
      rewrite Hne. repeat split; eauto; lia.
Qed.

Lemma inv_settle enforce runs pre r post o actual :
  inv enforce (mkSys runs (pre ++ r :: post) o) → 0 ≤ actual →
  room runs (run_id r) (actual - amount r) →
  inv enforce (mkSys (Ledger.settle runs r actual) (pre ++ post)
                     (o + Z.max 0 (actual - amount r))).
Proof.
  intros Hi Ha Hr. pose proof Hi as [Ho Hh Hs Hov Hbud]. simpl in *.
  apply Forall_app in Ho as [Hpre [[Hkey Hamt] Hpost]%Forall_cons].
  eapply (inv_update enforce runs _ o _ _ _
            (Ledger.settle_level runs (run_id r) (amount r) actual));
    [done|apply Ledger.settle_lookup|apply Ledger.settle_level_parent|by apply Forall_app|lia|].
  intros k s Hk. specialize (Hh k s Hk). specialize (Hs k s Hk).
  pose proof (held_nonneg runs pre k Hpre). pose proof (held_nonneg runs post k Hpost).
  assert (enforce = true → rs_spent s + rs_reserved s ≤ rs_budget s + o) as Hb by eauto.
  rewrite held_app in *. unfold held in *. csimpl in Hh. unfold share at 2 in Hh. unfold Ledger.settle_level. revert Hh.
  destruct (decide (k ∈ Ledger.chain runs (run_id r))) as [Hin|Hin]; intros Hh; simpl.
  - specialize (Hr k s Hin Hk).
    rewrite Microusd.saturating_sub_exact, Microusd.add_exact by mach.
    repeat split; try lia. intros E. specialize (Hb E). lia.
  - repeat split; try lia. intros E. specialize (Hb E). lia.
Qed.

Lemma inv_close enforce runs out o id :
  inv enforce (mkSys runs out o) → undisturbed runs (Ledger.close_run runs id).1 out →
  inv enforce (mkSys (Ledger.close_run runs id).1 out o).
Proof.
  intros [Ho Hh Hs Hov Hb] Hun. simpl in *. unfold undisturbed in Hun. split; simpl.
  - apply Forall_forall. intros r Hr. rewrite Forall_forall in Ho, Hun.
    destruct (Ho r Hr) as [Hsome ?]. split; [|done].
    apply (Ledger.chain_keys _ (run_id r)). rewrite (Hun r Hr). by apply Ledger.chain_self.
  - intros k s [_ Hk]%lookup_delete_Some. rewrite (undisturbed_held runs) by done. eauto.
  - intros k s [_ Hk]%lookup_delete_Some. eauto.
  - done.
  - intros k s He [_ Hk]%lookup_delete_Some. eauto.
Qed.

Lemma inv_init enforce : inv enforce init.
Proof. split; simpl; try done; try (by constructor); by intros ? ? ?. Qed.

Lemma inv_step enforce st st' : inv enforce st → step enforce st st' → inv enforce st'.
Proof.
  intros Hi Hst. destruct Hst as [runs out o id b p Hb Hun
    |runs out o id est runs' res Hr He Hroom|runs out o id est E Hid He Hroom
    |runs pre r post o actual Ha Hroom|runs out o id Hun].
  - destruct (runs !! id) as [s|] eqn:Hid; [by eapply inv_redeclare|by apply inv_open_new].
  - destruct (Ledger.reserve_cases runs id est) as [[_ E]|[(e & _ & _ & E)|(Hid & Hc & E)]];
      rewrite E in Hr; [invert Hr; done|invert Hr; done|].
    assert (runs' = (Ledger.apply_reserve runs id est).1
            ∧ res = Ok (Ledger.apply_reserve runs id est).2) as [-> ->] by (split; congruence).
    apply inv_apply; try done. intros _. by apply Ledger.check_levels_none.
  - subst. destruct Hid as [s Hid]. unfold Ledger.reserve_unchecked. rewrite Hid.
    apply inv_apply; eauto. done.
  - by apply inv_settle.
  - by apply inv_close.
Qed.

Lemma reachable_inv enforce st : reachable enforce st → inv enforce st.
Proof. apply rtc_preserves; [apply inv_step|apply inv_init]. Qed.


(** C1: over every interleaving of opens and re-opens, reserves, settles in any order and
    closes of the in-process ledger in which every reservation is checked (no unchecked
    reserve of the shadow and warn modes), no open or close changes the ancestors of a call
    in flight, each settle belongs to a granted reservation, amounts are nonnegative and
    sums stay within an [i64]: spending and reservations of a run and of all its
    descendants exceed the run's budget by at most the sum of the amounts by which real
    costs overran their estimates and by which budgets were lowered by re-opening a run
    (the two amounts [over] counts): while estimates are upper bounds and no budget is
    lowered, they stay within the budget in every reachable state. *)
Theorem committed_within_budget st k s :
  reachable true st → table st !! k = Some s →
  0 ≤ rs_reserved s ∧ 0 ≤ rs_spent s ∧
  rs_spent s + rs_reserved s ≤ rs_budget s + over st.
Proof.
  intros Hr%reachable_inv Hs. pose proof (inv_spent _ _ Hr k s Hs).
  pose proof (inv_budget _ _ Hr k s eq_refl Hs).
  pose proof (reserved_nonneg _ _ _ _ Hr Hs). lia.
Qed.

(** ** A fan-out of calls racing for one budget *)

(** [n] calls of estimate [e], in the order the lock is taken, and how many pass. *)
Fixpoint fan_out (runs : gmap string RunState) (id : string) (e : Z) (n : nat)
  : gmap string RunState * nat :=
  match n with
  | O => (runs, O)
  | S n =>
      let '(runs', res) := Ledger.reserve runs id e in
      let '(runs'', g) := fan_out runs' id e n in
      (runs'', if is_ok res then S g else g)
  end.

Lemma chain_root runs id s :
  runs !! id = Some s → rs_parent s = None → Ledger.chain runs id = [id].
Proof. intros Hs Hp. unfold Ledger.chain. simpl. by rewrite Hs, Hp. Qed.

Lemma fan_out_refused runs id e n er :
  Ledger.reserve runs id e = (runs, Err er) → fan_out runs id e n = (runs, O).
Proof. intros H. induction n as [|n IH]; simpl; [done|]. by rewrite H, IH. Qed.

Lemma reserve_root runs id s e :
  runs !! id = Some s → rs_parent s = None → Ledger.level_sound s e → 0 ≤ e →
  (rs_budget s < rs_spent s + rs_reserved s + e ∧
   ∃ er, Ledger.reserve runs id e = (runs, Err er))
  ∨ (rs_spent s + rs_reserved s + e ≤ rs_budget s ∧
     ∃ runs' r s', Ledger.reserve runs id e = (runs', Ok r) ∧ runs' !! id = Some s' ∧
       rs_budget s' = rs_budget s ∧ rs_spent s' = rs_spent s ∧ rs_parent s' = None ∧
       rs_reserved s' = rs_reserved s + e).
Proof.
  intros Hs Hp Hl He. pose proof (chain_root _ _ _ Hs Hp) as Hch.
  pose proof (Ledger.would_exact s e Hl He) as Hw.
  destruct (Ledger.reserve_cases runs id e) as [[Hn _]|[(er & _ & Hc & E)|(_ & Hc & E)]].
  - congruence.
  - left. rewrite Hch in Hc. apply Ledger.check_levels_some in Hc
      as (pre & k & post & s' & Heq & _ & Hk & Hb & _). split; [|eauto].
    destruct pre as [|? [|]]; simplify_eq/=. lia.
  - right. apply Ledger.check_levels_none in Hc. rewrite Hch in Hc.
    rewrite Forall_singleton in Hc. specialize (Hc s Hs). split; [lia|].
    eexists _, _, _. split; [exact E|]. rewrite Ledger.apply_reserve_lookup, Hs.
    split; [done|]. unfold Ledger.reserve_level.
    rewrite Hch, decide_True, decide_True by set_solver. repeat split; [done|].
    by apply (Ledger.reserved_exact s e).
Qed.

Lemma min_div_step n a e :
  0 < e → e ≤ a → Nat.min (S n) (Z.to_nat (a / e)) = S (Nat.min n (Z.to_nat ((a - e) / e))).
Proof.
  intros He Ha. replace a with (a - e + 1 * e) at 1 by lia. rewrite Z.div_add by lia.
  pose proof (Z.div_pos (a - e) e). lia.
Qed.

(** However many calls of one estimate race for a root run, exactly as many are
    admitted as fit in what is left of its budget, and each of them is accounted:
    no two calls pass on the same remaining money. *)
Theorem fan_out_exact runs id s e n :
  runs !! id = Some s → rs_parent s = None → 0 < e →
  0 ≤ rs_spent s → 0 ≤ rs_reserved s → rs_spent s + rs_reserved s ≤ rs_budget s →
  rs_budget s + e ≤ i64_max →
  ∃ s', (fan_out runs id e n).1 !! id = Some s' ∧
    (fan_out runs id e n).2
    = Nat.min n (Z.to_nat ((rs_budget s - (rs_spent s + rs_reserved s)) / e)) ∧
    rs_reserved s' = rs_reserved s + Z.of_nat (fan_out runs id e n).2 * e ∧
    rs_spent s' + rs_reserved s' ≤ rs_budget s' ∧ rs_budget s' = rs_budget s.
Proof.
  revert runs s. induction n as [|n IH]; intros runs s Hs Hp He H1 H2 H3 H4.
  { exists s. repeat split; try done; simpl; lia. }
  assert (Ledger.level_sound s e) as Hl by (unfold Ledger.level_sound; lia).
  destruct (reserve_root runs id s e Hs Hp Hl) as
    [[Hno [er E]]|(Hok & runs' & r & s' & E & Hs' & Hb' & Hsp' & Hp' & Hr')]; [lia| |].
  - rewrite (fan_out_refused _ _ _ _ er E). exists s. split; [done|].
    rewrite Z.div_small by lia. repeat split; simpl; lia.
  - cbn [fan_out]. rewrite E.
    destruct (IH runs' s' Hs' Hp' He) as (s'' & Hs'' & Hg & Hr'' & Hfin & Hb''); try lia.
    destruct (fan_out runs' id e n) as [runs'' g]. cbn [fst snd is_ok] in *. exists s''. split; [done|].
    rewrite Hg. rewrite min_div_step by lia.
    replace (rs_budget s' - (rs_spent s' + rs_reserved s'))
      with (rs_budget s - (rs_spent s + rs_reserved s) - e) in * by lia.
    repeat split; lia.
Qed.

(** ** Concrete traces *)

(** A child opened before its parent, and the parent's budget lowered from 120 to 100. *)
Definition demo_runs : gmap string RunState :=
  Ledger.open_run
    (Ledger.open_run (Ledger.open_run Ledger.new "child" 60 (Some "root"%string)) "root" 120 None)
    "root" 100 None.

Definition demo_res : Reservation := mkReservation "child" 25 1.

Lemma demo_reachable :
  reachable true (mkSys (Ledger.reserve demo_runs "child" 25).1 [demo_res] 20).
Proof.
  eapply rtc_l; [apply (step_open true _ [] 0 "child" 60 (Some "root"%string)); [mach|constructor]|].
  eapply rtc_l; [apply (step_open true _ [] _ "root" 120 None); [mach|constructor]|].
  eapply rtc_l; [apply (step_open true _ [] _ "root" 100 None); [mach|constructor]|].
  match goal with |- rtc _ (mkSys _ _ ?z) _ => change z with 20 end.
  apply rtc_once. apply (step_reserve true demo_runs [] 20 "child" 25 _ (Ok demo_res)); [done|lia|].
  intros k s Hk Hs. change (Ledger.chain _ _) with ["child"; "root"]%string in Hk.
  apply elem_of_cons in Hk as [->|Hk%list_elem_of_singleton]; subst;
    vm_compute in Hs; invert Hs; vm_compute; discriminate.
Qed.


Lemma committed_within_budget_witness :
  ∃ s, (Ledger.reserve demo_runs "child" 25).1 !! "root"%string = Some s ∧
       rs_spent s + rs_reserved s ≤ rs_budget s + 20 ∧ rs_reserved s = 25.
Proof.
  eexists. split; [by vm_compute|]. split; [|done].
  eapply (committed_within_budget _ "root" _ demo_reachable). by vm_compute.
Defined.

Lemma fan_out_exact_witness :
  ∃ s', (fan_out (Ledger.open_run Ledger.new "r" 100 None) "r" 30 10).1 !! "r"%string = Some s'
        ∧ rs_reserved s' = 90.
Proof.
  destruct (fan_out_exact (Ledger.open_run Ledger.new "r" 100 None) "r"
              (fresh_run 100 None) 30 10) as (s' & Hs & Hg & Hr & _);
    [done|done|lia|done|done|done|done|].
  exists s'. split; [exact Hs|]. rewrite Hr, Hg. by vm_compute.
Defined.

Lemma reserve_settle_roundtrip_witness :
  ∃ s', Ledger.settle (Ledger.reserve demo_runs "child" 25).1 demo_res 31 !! "root"%string
        = Some s' ∧ rs_spent s' = 31 ∧ rs_reserved s' = 0.
Proof.
  destruct (Ledger.reserve_settle_roundtrip demo_runs "child" 25 31
              (Ledger.reserve demo_runs "child" 25).1 demo_res) with
    (k := "root"%string) (s := fresh_run 100 None) as (s' & H & _ & _ & Hr & Hs & _).
  - done.
  - lia.
  - intros k s Hk Hs. change (Ledger.chain _ _) with ["child"; "root"]%string in Hk.
    apply elem_of_cons in Hk as [->|Hk%list_elem_of_singleton]; subst;
      vm_compute in Hs; invert Hs; unfold Ledger.level_sound; simpl; mach.
  - done.
  - exists s'. split; [exact H|]. by rewrite Hr, Hs.
Defined.

(** A parent that is opened only after its child has a call in flight was not
    charged for that call, but settling the call releases the amount there all the
    same: the parent's own outstanding reservation is released early. *)
Theorem late_parent_releases_foreign_reservation :
  ∃ runs1 runs2 r1 r2 s,
    Ledger.reserve (Ledger.open_run Ledger.new "child" 100 (Some "p"%string)) "child" 40
      = (runs1, Ok r1) ∧
    Ledger.reserve (Ledger.open_run runs1 "p" 100 None) "p" 40 = (runs2, Ok r2) ∧
    Ledger.settle runs2 r1 10 !! "p"%string = Some s ∧
    held (Ledger.settle runs2 r1 10) [r2] "p" = 40 ∧ rs_reserved s = 0.
Proof. do 5 eexists. repeat split; by vm_compute. Qed.
