(* ===== verification/Json.v ===== *)
(** * JSON documents

    The [serde_json::Value] documents the gateway and the scanners read: the
    data type and the accessors the sources call on it.  Objects are
    [serde_json]'s default map, a [BTreeMap], that is a list of pairs in strictly
    increasing key order.  Printing ([Value::to_string]) and parsing belong to the
    library and are parameters where a component uses them. *)

From S2P Require Import Prelude Float.

Inductive Num : Type :=
| PosInt (n : Z)     (* u64 *)
| NegInt (n : Z)     (* i64, negative *)
| FloatNum (x : f64).

Inductive Value : Type :=
| Null
| Bool (b : bool)
| Number (n : Num)
| Str (s : string)
| Arr (l : list Value)
| Obj (m : list (string * Value)).

Definition assoc {A} (k : string) (m : list (string * A)) : option A :=
  snd <$> find (λ p, bool_decide (p.1 = k)) m.

(** [v.get(key)] *)
Definition get (k : string) (v : Value) : option Value :=
  match v with Obj m => assoc k m | _ => None end.

Definition as_array (v : Value) : option (list Value) :=
  match v with Arr l => Some l | _ => None end.

Definition as_object (v : Value) : option (list (string * Value)) :=
  match v with Obj m => Some m | _ => None end.

Definition as_str (v : Value) : option string :=
  match v with Str s => Some s | _ => None end.

Definition as_bool (v : Value) : option bool :=
  match v with Bool b => Some b | _ => None end.

Definition as_u64 (v : Value) : option Z :=
  match v with Number (PosInt n) => Some n | _ => None end.

Definition as_i64 (v : Value) : option Z :=
  match v with
  | Number (PosInt n) => if n <=? i64_max then Some n else None
  | Number (NegInt n) => Some n
  | _ => None
  end.

Definition is_object (v : Value) : bool := match v with Obj _ => true | _ => false end.
Definition is_null (v : Value) : bool := match v with Null => true | _ => false end.

(** [v.get(k).and_then(|x| x.as_str())] and its siblings. *)
Definition get_str (k : string) (v : Value) : option string := get k v ≫= as_str.
Definition get_array (k : string) (v : Value) : option (list Value) := get k v ≫= as_array.
Definition get_u64 (k : string) (v : Value) : option Z := get k v ≫= as_u64.

Section value_ind.
Variable P : Value → Prop.
Hypothesis HNull : P Null.
Hypothesis HBool : ∀ b, P (Bool b).
Hypothesis HNum : ∀ n, P (Number n).
Hypothesis HStr : ∀ s, P (Str s).
Hypothesis HArr : ∀ l, Forall P l → P (Arr l).
Hypothesis HObj : ∀ m, Forall (λ p, P p.2) m → P (Obj m).

Fixpoint Value_ind' (v : Value) : P v :=
  match v with
  | Null => HNull
  | Bool b => HBool b
  | Number n => HNum n
  | Str s => HStr s
  | Arr l =>
      HArr l ((fix go l : Forall P l :=
                 match l with
                 | [] => Forall_nil_2 _
                 | x :: l => Forall_cons_2 _ _ _ (Value_ind' x) (go l)
                 end) l)
  | Obj m =>
      HObj m ((fix go m : Forall (λ p, P p.2) m :=
                 match m with
                 | [] => Forall_nil_2 _
                 | p :: m => Forall_cons_2 _ _ _ (Value_ind' p.2) (go m)
                 end) m)
  end.
End value_ind.
