(* ===== verification/Serde.v ===== *)
(** * Structs as JSON

    What [serde]'s derived implementations do with the types the crates exchange: a struct is
    written as an object with its fields in order, and read from an object, or from an array of
    its fields in order; a field may have a default; a member of another name is skipped, one
    that occurs twice is an error.  A codec is a writer, a reader and the domain on which
    reading gives back what was written; the text of a document is [serde_json]'s. *)

From S2P Require Import Prelude Float Json.

(** ** Fields *)

(** What is left of the document a struct is read from.  Unlike in a [Value] of the library,
    the members are as written: in any order, a name perhaps several times. *)
Inductive Source := Members (m : list (string * Value)) | Items (l : list Value).

Record Field (A : Type) := mkField {
  f_name : string;
  f_read : Value → option A;
  f_absent : option A;          (* an object without the member *)
  f_short : option A            (* an array that ends before it *)
}.
Arguments mkField {A}. Arguments f_name {A}. Arguments f_read {A}.
Arguments f_absent {A}. Arguments f_short {A}.

(** A member that may be [null]. *)
Definition nullable {A} (read : Value → option A) (v : Value) : option (option A) :=
  match v with Null => Some None | _ => Some <$> read v end.

Definition required {A} (name : string) (read : Value → option A) : Field A :=
  mkField name read None None.
(** [#[serde(default)]] *)
Definition defaulted {A} (name : string) (read : Value → option A) (d : A) : Field A :=
  mkField name read (Some d) (Some d).
(** An [Option] without [#[serde(default)]]: a struct without the member has [None]. *)
Definition optional {A} (name : string) (read : Value → option A) : Field (option A) :=
  mkField name (nullable read) (Some None) None.
(** An [Option] with it. *)
Definition optional_defaulted {A} (name : string) (read : Value → option A) : Field (option A) :=
  defaulted name (nullable read) None.

(** The values of the members of one name. *)
Fixpoint members (name : string) (m : list (string * Value)) : list Value :=
  match m with
  | [] => []
  | (k, v) :: m => if bool_decide (k = name) then v :: members name m else members name m
  end.

Definition field {A} (f : Field A) (s : Source) : option (A * Source) :=
  match s with
  | Members m =>
      a ← match members (f_name f) m with
          | [] => f_absent f
          | [v] => f_read f v
          | _ => None
          end;
      Some (a, s)
  | Items [] => a ← f_short f; Some (a, s)
  | Items (v :: l) => a ← f_read f v; Some (a, Items l)
  end.

Definition struct {A} (fields : Source → option (A * Source)) (v : Value) : option A :=
  match v with
  | Obj m => fst <$> fields (Members m)
  | Arr l => '(a, s) ← fields (Items l); match s with Items (_ :: _) => None | _ => Some a end
  | _ => None
  end.

(** ** Codecs *)

Record Codec (A : Type) := mkCodec {
  to_value : A → Value;
  from_value : Value → option A;
  domain : A → Prop
}.
Arguments mkCodec {A}. Arguments to_value {A}. Arguments from_value {A}. Arguments domain {A}.

Class Lawful {A} (c : Codec A) : Prop :=
  from_to a : domain c a → from_value c (to_value c a) = Some a.

(** A reader that never takes [null] for a value. *)
Class NotNull {A} (c : Codec A) : Prop := not_null a : to_value c a ≠ Null.

(** A codec of everything of its type. *)
Class Total {A} (c : Codec A) : Prop := total a : domain c a.

Definition int_value (z : Z) : Value := Number (if z <? 0 then NegInt z else PosInt z).
Definition read_int (lo hi : Z) (v : Value) : option Z :=
  match v with
  | Number (PosInt z) | Number (NegInt z) => if (lo <=? z) && (z <=? hi) then Some z else None
  | _ => None
  end.
Definition c_int (lo hi : Z) : Codec Z := mkCodec int_value (read_int lo hi) (λ z, lo ≤ z ≤ hi).
Abbreviation c_i64 := (c_int i64_min i64_max).
Abbreviation c_u64 := (c_int 0 u64_max).
Abbreviation c_u32 := (c_int 0 u32_max).

Definition c_string : Codec string := mkCodec Str as_str (λ _, True).
Definition c_bool : Codec bool := mkCodec Bool as_bool (λ _, True).
Definition c_option {A} (c : Codec A) : Codec (option A) :=
  mkCodec (from_option (to_value c) Null) (nullable (from_value c)) (from_option (domain c) True).
Definition c_list {A} (c : Codec A) : Codec (list A) :=
  mkCodec (λ l, Arr (to_value c <$> l))
    (λ v, match v with Arr l => mapM (from_value c) l | _ => None end) (Forall (domain c)).

(** A map in the order it is iterated; of a name that occurs twice the last value counts. *)
Definition c_map `{HashOrder} {A} (c : Codec A) : Codec (gmap string A) :=
  mkCodec (λ m, Obj (prod_map id (to_value c) <$> iter m))
    (λ v, match v with
          | Obj l => (λ ps, list_to_map (reverse ps)) <$>
                       mapM (λ p, pair p.1 <$> from_value c p.2) l
          | _ => None
          end)
    (map_Forall (λ _, domain c)).

(** A [HashSet] of strings, in the order of its table: that of a map to units. *)
Definition c_set `{HashOrder} : Codec (gset string) :=
  mkCodec (λ s, Arr (Str ∘ fst <$> iter (gset_to_gmap () s)))
    (λ v, match v with Arr l => list_to_set <$> mapM as_str l | _ => None end) (λ _, True).

(** ** Laws *)

#[export] Instance c_int_lawful lo hi : Lawful (c_int lo hi).
Proof. intros z Hz. cbn in *. unfold int_value. destruct (z <? 0); cbn; by rewrite !Zle_imp_le_bool by lia. Qed.
#[export] Instance c_int_not_null lo hi : NotNull (c_int lo hi).
Proof. done. Qed.
#[export] Instance c_string_lawful : Lawful c_string.
Proof. done. Qed.
#[export] Instance c_string_not_null : NotNull c_string.
Proof. done. Qed.
#[export] Instance c_bool_lawful : Lawful c_bool.
Proof. done. Qed.

Lemma nullable_to {A} (c : Codec A) `{!Lawful c, !NotNull c} a :
  domain c a → nullable (from_value c) (to_value c a) = Some (Some a).
Proof.
  intros Ha. unfold nullable. rewrite from_to by done. by destruct (to_value c a) eqn:E; [apply not_null in E|..].
Qed.

#[export] Instance c_option_lawful {A} (c : Codec A) `{!Lawful c, !NotNull c} : Lawful (c_option c).
Proof. intros [a|] Ha; cbn in *; [by rewrite nullable_to|done]. Qed.

#[export] Instance c_string_total : Total c_string.
Proof. done. Qed.
#[export] Instance c_bool_total : Total c_bool.
Proof. done. Qed.
#[export] Instance c_option_total {A} (c : Codec A) `{!Total c} : Total (c_option c).
Proof. intros [a|]; [apply (total (c := c))|done]. Qed.

#[export] Instance c_list_lawful {A} (c : Codec A) `{!Lawful c} : Lawful (c_list c).
Proof.
  intros l Hl. cbn in *. induction Hl as [|a l Ha _ IH]; [done|]. cbn. by rewrite (from_to a), IH.
Qed.

Lemma mapM_pairs {A} (c : Codec A) `{!Lawful c} (l : list (string * A)) :
  Forall (λ p, domain c p.2) l →
  mapM (λ p, pair p.1 <$> from_value c p.2) (prod_map id (to_value c) <$> l) = Some l.
Proof. induction 1 as [|[k a] l Ha _ IH]; [done|]. cbn in *. by rewrite (from_to a), IH. Qed.

Lemma listed_map `{HashOrder} {A} (m : gmap string A) : list_to_map (reverse (iter m)) = m.
Proof.
  assert (NoDup (reverse (iter m)).*1) as Hd.
  { rewrite reverse_Permutation, iter_perm. apply NoDup_fst_map_to_list. }
  rewrite (list_to_map_proper (M := gmap string) _ (map_to_list m) Hd);
    [apply list_to_map_to_list|by rewrite reverse_Permutation, iter_perm].
Qed.

#[export] Instance c_map_lawful `{HashOrder} {A} (c : Codec A) `{!Lawful c} : Lawful (c_map c).
Proof.
  intros m Hm. cbn. rewrite (mapM_pairs c); [cbn; by rewrite listed_map|].
  apply Forall_forall. intros [k a] Hk%iter_elem. by apply (Hm k).
Qed.
#[export] Instance c_map_not_null `{HashOrder} {A} (c : Codec A) : NotNull (c_map c).
Proof. done. Qed.

#[export] Instance c_set_lawful `{HashOrder} : Lawful c_set.
Proof.
  intros s _. cbn. rewrite list_fmap_compose.
  rewrite (mapM_fmap_Some as_str Str) by done. cbn. f_equal.
  apply set_eq. intros x. rewrite elem_of_list_to_set, list_elem_of_fmap. split.
  - intros ([y []] & -> & Hy%iter_elem). by apply lookup_gset_to_gmap_Some in Hy as [? _].
  - intros Hx. exists (x, ()). split; [done|]. apply iter_elem. by apply lookup_gset_to_gmap_Some.
Qed.

(** A field of an object with that member once. *)
Lemma field_found {A} (f : Field A) m v a :
  members (f_name f) m = [v] → f_read f v = Some a → field f (Members m) = Some (a, Members m).
Proof. intros Hm Hr. unfold field. by rewrite Hm, Hr. Qed.

Lemma field_absent {A} (f : Field A) m a :
  members (f_name f) m = [] → f_absent f = Some a → field f (Members m) = Some (a, Members m).
Proof. intros Hm Hr. unfold field. by rewrite Hm, Hr. Qed.

(** Dropping members and the ones that are left. *)
Definition without (ks : gset string) (m : list (string * Value)) : list (string * Value) :=
  filter (λ p, p.1 ∉ ks) m.

Lemma members_without ks name m :
  members name (without ks m) = if bool_decide (name ∈ ks) then [] else members name m.
Proof.
  unfold without. induction m as [|[k v] m IH]; [by case_bool_decide|].
  rewrite filter_cons. cbn [fst]. destruct (decide (k ∉ ks)) as [Hk|Hk]; cbn [members]; rewrite IH.
  - destruct (decide (k = name)) as [->|]; [by rewrite bool_decide_true, bool_decide_false|].
    by rewrite bool_decide_false by done.
  - case_bool_decide; [done|]. rewrite bool_decide_false; [done|]. intros ->. by apply Hk.
Qed.

(** Adding members the reader does not know. *)
Lemma members_app name m m' : members name (m ++ m') = members name m ++ members name m'.
Proof. induction m as [|[k v] m IH]; [done|]. cbn. case_bool_decide; cbn; by rewrite IH. Qed.

Lemma members_none name m : name ∉ m.*1 → members name m = [].
Proof.
  induction m as [|[k v] m IH]; [done|]. cbn. rewrite not_elem_of_cons. intros [? ?].
  rewrite bool_decide_false by done. by apply IH.
Qed.
