(* ===== verification/Strings.v ===== *)
(** * Byte strings

    A Rust [&str] is its UTF-8 bytes, a [string].  This file has the methods of the
    standard library the program calls on strings, and the lemmas on separators the
    canonical encodings rest on. *)

From S2P Require Import Prelude.
From Stdlib Require Export Ascii.

#[local] Arguments String.append : simpl nomatch.

Lemma append_assoc (a b c : string) : (a +:+ b) +:+ c = a +:+ b +:+ c.
Proof. induction a; simpl; congruence. Qed.

Lemma append_nil_r (a : string) : a +:+ "" = a.
Proof. induction a; simpl; congruence. Qed.

Lemma append_length (a b : string) :
  String.length (a +:+ b) = (String.length a + String.length b)%nat.
Proof. induction a; simpl; congruence. Qed.

Lemma append_inj_len (a b x y : string) :
  String.length a = String.length b → a +:+ x = b +:+ y → a = b ∧ x = y.
Proof.
  revert b. induction a as [|c a IH]; intros [|d b] Hl Heq; simpl in *; try done.
  injection Hl as Hl. injection Heq as -> Heq. by destruct (IH b Hl Heq) as [-> ->].
Qed.

(** ** Characters *)

Fixpoint str_all (f : ascii → bool) (s : string) : bool :=
  match s with
  | "" => true
  | String c s => f c && str_all f s
  end.

Lemma str_all_append f a b : str_all f (a +:+ b) = str_all f a && str_all f b.
Proof. induction a as [|c a IH]; simpl; [done|]. by rewrite IH, andb_assoc. Qed.

Lemma str_all_impl (f g : ascii → bool) s :
  (∀ c, f c = true → g c = true) → str_all f s = true → str_all g s = true.
Proof.
  intros H. induction s as [|c s IH]; simpl; [done|].
  rewrite !andb_true_iff. intros [? ?]. auto.
Qed.

Fixpoint str_map (f : ascii → string) (s : string) : string :=
  match s with
  | "" => ""
  | String c s => f c +:+ str_map f s
  end.

Fixpoint count_char (c : ascii) (s : string) : nat :=
  match s with
  | "" => O
  | String d s => if bool_decide (c = d) then S (count_char c s) else count_char c s
  end.

Lemma count_char_append c a b : count_char c (a +:+ b) = (count_char c a + count_char c b)%nat.
Proof. induction a as [|d a IH]; simpl; [done|]. case_match; lia. Qed.

(** [c] does not occur in [s]. *)
Definition free_of (c : ascii) (s : string) : Prop := count_char c s = O.

Lemma free_of_all c s f :
  f c = false → str_all f s = true → free_of c s.
Proof.
  unfold free_of. intros Hc. induction s as [|d s IH]; simpl; [done|].
  rewrite andb_true_iff. intros [Hd Hs]. case_bool_decide; [congruence|auto].
Qed.

Definition digit_or_minus (c : ascii) : bool :=
  let n := nat_of_ascii c in ((n =? 45) || ((48 <=? n) && (n <=? 57)))%nat.

Lemma pretty_N_go_all (f : ascii → bool) x s :
  (∀ y, f (pretty_N_char y) = true) → str_all f s = true →
  str_all f (pretty_N_go x s) = true.
Proof.
  intros Hf. revert s. induction (N.lt_wf_0 x) as [x _ IH]. intros s Hs.
  assert (x = 0 ∨ 0 < x)%N as [->|Hx] by lia; [by rewrite pretty_N_go_0|].
  rewrite pretty_N_go_step by done. apply IH; [by apply N.div_lt|]. simpl. by rewrite Hf.
Qed.

Lemma pretty_Z_digits (z : Z) : str_all digit_or_minus (pretty z) = true.
Proof.
  assert (∀ y, digit_or_minus (pretty_N_char y) = true) as Hf
    by (intros y; unfold pretty_N_char; by repeat case_match).
  assert (∀ n : N, str_all digit_or_minus (pretty n) = true) as HN.
  { intros n. unfold pretty, pretty_N. case_decide; [done|]. by apply pretty_N_go_all. }
  destruct z as [|p|p]; [done|apply (HN (Npos p))|]. simpl. apply (HN (Npos p)).
Qed.

(** ** Joining with a separator character *)

Fixpoint join_char (c : ascii) (l : list string) : string :=
  match l with
  | [] => ""
  | [x] => x
  | x :: l => x +:+ String c (join_char c l)
  end.

Lemma join_char_cons c x y l :
  join_char c (x :: y :: l) = x +:+ String c (join_char c (y :: l)).
Proof. done. Qed.

Lemma count_join c x l :
  count_char c (join_char c (x :: l))
  = (length l + foldr (λ s n, count_char c s + n) 0 (x :: l))%nat.
Proof.
  revert x. induction l as [|y l IH]; intros x; [simpl; lia|].
  rewrite join_char_cons, count_char_append. cbn [count_char].
  rewrite bool_decide_true by done. rewrite IH. simpl. lia.
Qed.

(** A separator-free head is determined. *)
Lemma sep_split c a b x y :
  free_of c a → free_of c b → a +:+ String c x = b +:+ String c y → a = b ∧ x = y.
Proof.
  unfold free_of. revert b. induction a as [|d a IH]; intros [|e b] Ha Hb Heq; simpl in *;
    simplify_eq; try done.
  - rewrite bool_decide_true in Hb by done. done.
  - rewrite bool_decide_true in Ha by done. done.
  - case_bool_decide; [done|]. destruct (IH b Ha Hb) as [-> ->]; done.
Qed.

Lemma sep_split_count c a b x y :
  a +:+ String c x = b +:+ String c y → count_char c x = count_char c y → a = b ∧ x = y.
Proof.
  revert b. induction a as [|d a IH]; intros [|e b] Heq Hn; simpl in Heq.
  - by injection Heq.
  - injection Heq as -> ->. rewrite count_char_append in Hn. simpl in Hn.
    rewrite bool_decide_true in Hn by done. lia.
  - injection Heq as -> <-. rewrite count_char_append in Hn. simpl in Hn.
    rewrite bool_decide_true in Hn by done. lia.
  - injection Heq as -> Heq. destruct (IH b Heq Hn) as [-> ->]. done.
Qed.

(** A tuple of separator-free fields is determined by its joined form among all
    tuples of its length, whatever their fields contain. *)
Lemma join_char_inj c l k :
  length l = length k → Forall (free_of c) l → join_char c l = join_char c k → l = k.
Proof.
  intros Hlen Hl Heq.
  assert (Forall (free_of c) k) as Hk.
  { destruct l as [|x l], k as [|y k]; [constructor|done|done|]. injection Hlen as Hlen.
    pose proof (f_equal (count_char c) Heq) as Hc. rewrite !count_join in Hc.
    assert (∀ l, Forall (free_of c) l → foldr (λ s n, count_char c s + n)%nat O l = O) as Hz.
    { intros l'. unfold free_of. induction 1; simpl; lia. }
    rewrite (Hz (x :: l)) in Hc by done.
    assert (∀ l, foldr (λ s n, count_char c s + n)%nat O l = O → Forall (free_of c) l) as Hz'.
    { intros l'. unfold free_of. induction l'; simpl; constructor; [lia|]. apply IHl'. lia. }
    apply Hz'. lia. }
  revert k Hlen Hk Heq. induction Hl as [|x l Hx Hl IH]; intros [|y k] Hlen Hk Heq;
    [done|done|done|]. injection Hlen as Hlen. inversion Hk as [|? ? Hy Hk']; subst.
  destruct l as [|x' l], k as [|y' k]; [simpl in Heq; by subst|done|done|].
  rewrite !join_char_cons in Heq. apply sep_split in Heq as [-> Heq]; [|done|done]. f_equal. by apply IH.
Qed.

(** ** Searching and splitting *)

Fixpoint strip_prefix (p s : string) : option string :=
  match p, s with
  | "", _ => Some s
  | String c p, String d s => if bool_decide (c = d) then strip_prefix p s else None
  | String _ _, "" => None
  end.

Definition starts_with (p s : string) : bool :=
  match strip_prefix p s with Some _ => true | None => false end.

Lemma strip_prefix_some p s r : strip_prefix p s = Some r ↔ s = p +:+ r.
Proof.
  revert s. induction p as [|c p IH]; intros s; simpl; [naive_solver|].
  destruct s as [|d s]; [naive_solver|]. case_bool_decide; subst; [|naive_solver].
  rewrite IH. naive_solver.
Qed.

(** [s.split_once(pat)]: what precedes and what follows the first occurrence. *)
Fixpoint split_once (pat s : string) : option (string * string) :=
  match strip_prefix pat s with
  | Some r => Some ("", r)
  | None =>
      match s with
      | "" => None
      | String c s' =>
          match split_once pat s' with
          | Some (a, b) => Some (String c a, b)
          | None => None
          end
      end
  end.

Definition contains (pat s : string) : bool :=
  match split_once pat s with Some _ => true | None => false end.

Lemma split_once_some pat s a b : split_once pat s = Some (a, b) → s = a +:+ pat +:+ b.
Proof.
  revert a. induction s as [|c s IH]; intros a; simpl.
  - destruct (strip_prefix pat "") eqn:E; [|done]. intros [= <- <-]. by apply strip_prefix_some in E.
  - destruct (strip_prefix pat (String c s)) eqn:E.
    + intros [= <- <-]. by apply strip_prefix_some in E.
    + destruct (split_once pat s) as [[a' b']|]; [|done]. intros [= <- <-].
      simpl. f_equal. by apply IH.
Qed.

(** The first occurrence: nothing before it contains the pattern. *)
Lemma split_once_first pat s a b :
  pat ≠ "" → split_once pat s = Some (a, b) → ∀ x y, a ≠ x +:+ pat +:+ y.
Proof.
  intros Hp. revert a. induction s as [|c s IH]; intros a; simpl.
  - destruct (strip_prefix pat "") eqn:E; [|done]. intros [= <- <-] x y H.
    destruct x; [|done]. by destruct pat.
  - destruct (strip_prefix pat (String c s)) eqn:E.
    + intros [= <- <-] x y H. destruct x; [|done]. by destruct pat.
    + destruct (split_once pat s) as [[a' b']|] eqn:E2; [|done]. intros [= <- <-] x y H.
      destruct x as [|d x]; simpl in H.
      * apply split_once_some in E2. assert (strip_prefix pat (String c s) = Some (y +:+ pat +:+ b')).
        { apply strip_prefix_some. rewrite E2.
          change (String c (a' +:+ pat +:+ b')) with (String c a' +:+ pat +:+ b').
          by rewrite H, append_assoc. }
        congruence.
      * injection H as <- H. by apply (IH a' eq_refl x y).
Qed.

(** Where a long enough prefix ends inside a concatenation. *)
Lemma append_suffix (a b x y : string) :
  (String.length a ≤ String.length x)%nat → a +:+ b = x +:+ y → ∃ z, b = z +:+ y.
Proof.
  revert x. induction a as [|c a IH]; intros x Hl Heq; simpl in *; [by exists x|].
  destruct x as [|d x]; simpl in *; [lia|]. injection Heq as -> Heq.
  apply (IH x); [lia|done].
Qed.

Lemma split_once_none pat s : split_once pat s = None → ∀ a b, s ≠ a +:+ pat +:+ b.
Proof.
  induction s as [|c s IH]; simpl.
  - destruct (strip_prefix pat "") eqn:E; [done|]. intros _ [|x a] b H; [|done].
    assert (strip_prefix pat "" = Some b) by (apply strip_prefix_some; exact H). congruence.
  - destruct (strip_prefix pat (String c s)) eqn:E; [done|].
    destruct (split_once pat s) as [[a' b']|]; [done|]. intros _ [|x a] b H.
    + assert (strip_prefix pat (String c s) = Some b) by (apply strip_prefix_some; exact H). congruence.
    + simplify_eq/=. by eapply IH.
Qed.

Lemma contains_iff pat s : contains pat s = true ↔ ∃ a b, s = a +:+ pat +:+ b.
Proof.
  unfold contains. destruct (split_once pat s) as [[a b]|] eqn:E; split; try done.
  - intros _. exists a, b. by apply split_once_some.
  - intros (a & b & H). by destruct (split_once_none _ _ E a b).
Qed.

(** [s.split(c)] *)
Fixpoint split_char (c : ascii) (s : string) : list string :=
  match s with
  | "" => [""]
  | String d s =>
      if bool_decide (c = d) then "" :: split_char c s
      else match split_char c s with
           | x :: l => String d x :: l
           | [] => [String d ""]
           end
  end.

Lemma split_char_nonempty c s : split_char c s ≠ [].
Proof. destruct s; simpl; [done|]. case_match; [done|]. by destruct (split_char _ _). Qed.

Lemma join_split_char c s : join_char c (split_char c s) = s.
Proof.
  induction s as [|d s IH]; simpl; [done|]. pose proof (split_char_nonempty c s).
  destruct (split_char c s) as [|x l]; [done|]. rewrite <- IH. case_bool_decide as E.
  - rewrite join_char_cons, E. done.
  - by destruct l.
Qed.

(** ** Case and white space *)

Definition ascii_lower (c : ascii) : ascii :=
  let n := nat_of_ascii c in
  if ((65 <=? n) && (n <=? 90))%nat then ascii_of_nat (n + 32) else c.

(** [to_ascii_lowercase] *)
Fixpoint to_ascii_lowercase (s : string) : string :=
  match s with
  | "" => ""
  | String c s => String (ascii_lower c) (to_ascii_lowercase s)
  end.

Definition eq_ignore_ascii_case (a b : string) : bool :=
  bool_decide (to_ascii_lowercase a = to_ascii_lowercase b).

(** The UTF-8 encodings of the characters with the [White_Space] property: one,
    two and three bytes long. *)
Definition ws1 (a : ascii) : bool :=
  let n := nat_of_ascii a in ((n =? 32) || ((9 <=? n) && (n <=? 13)))%nat.
Definition ws2 (a b : ascii) : bool :=
  ((nat_of_ascii a =? 194)
   && ((nat_of_ascii b =? 133) || (nat_of_ascii b =? 160)))%nat.
Definition ws3 (a b c : ascii) : bool :=
  let '(x, y, z) := (nat_of_ascii a, nat_of_ascii b, nat_of_ascii c) in
  (((x =? 225) && (y =? 154) && (z =? 128))
   || ((x =? 226) && (y =? 128)
       && (((128 <=? z) && (z <=? 138)) || (z =? 168) || (z =? 169) || (z =? 175)))
   || ((x =? 226) && (y =? 129) && (z =? 159))
   || ((x =? 227) && (y =? 128) && (z =? 128)))%nat.

Fixpoint trim_with (w2 : ascii → ascii → bool) (w3 : ascii → ascii → ascii → bool)
    (s : string) : string :=
  match s with
  | String a r1 =>
      if ws1 a then trim_with w2 w3 r1
      else match r1 with
           | String b r2 =>
               if w2 a b then trim_with w2 w3 r2
               else match r2 with
                    | String c r3 => if w3 a b c then trim_with w2 w3 r3 else s
                    | "" => s
                    end
           | "" => s
           end
  | "" => ""
  end.

Definition trim_start : string → string := trim_with ws2 ws3.
Definition trim_end (s : string) : string :=
  String.rev (trim_with (λ b a, ws2 a b) (λ c b a, ws3 a b c) (String.rev s)).
Definition trim (s : string) : string := trim_end (trim_start s).

Definition is_empty_str (s : string) : bool := match s with "" => true | _ => false end.

(** [s.repeat(n)] *)
Fixpoint repeat_str (s : string) (n : nat) : string :=
  match n with O => "" | S n => s +:+ repeat_str s n end.

(** The longest prefix without a character of [f], and the rest. *)
Fixpoint span_not (f : ascii → bool) (s : string) : string * string :=
  match s with
  | "" => ("", "")
  | String c t =>
      if f c then ("", s) else let '(a, b) := span_not f t in (String c a, b)
  end.

(** [s.trim_start_matches(f)], [s.trim_matches(f)] for a set of characters. *)
Fixpoint trim_start_chars (f : ascii → bool) (s : string) : string :=
  match s with
  | String c t => if f c then trim_start_chars f t else s
  | "" => ""
  end.
Definition trim_end_chars (f : ascii → bool) (s : string) : string :=
  String.rev (trim_start_chars f (String.rev s)).
Definition trim_chars (f : ascii → bool) (s : string) : string :=
  trim_end_chars f (trim_start_chars f s).

(** [s.rsplit_once(c)]: around the last occurrence. *)
Fixpoint rsplit_char (c : ascii) (s : string) : option (string * string) :=
  match s with
  | "" => None
  | String d t =>
      match rsplit_char c t with
      | Some (a, b) => Some (String d a, b)
      | None => if bool_decide (c = d) then Some ("", t) else None
      end
  end.

(** [s.parse::<uN>()] with the given maximum: an optional [+] and decimal digits. *)
Definition digit_value (c : ascii) : option Z :=
  let n := nat_of_ascii c in
  if ((48 <=? n) && (n <=? 57))%nat then Some (Z.of_nat n - 48) else None.
Fixpoint parse_digits (acc : Z) (s : string) : option Z :=
  match s with
  | "" => Some acc
  | String c s =>
      match digit_value c with
      | Some d => parse_digits (acc * 10 + d) s
      | None => None
      end
  end.
Definition parse_decimal (s : string) : option Z :=
  match s with "" => None | _ => parse_digits 0 s end.
Definition parse_unsigned (max : Z) (s : string) : option Z :=
  match parse_decimal (match strip_prefix "+" s with Some r => r | None => s end) with
  | Some z => if z <=? max then Some z else None
  | None => None
  end.
(** [s.parse::<i64>()] *)
Definition parse_i64 (s : string) : option Z :=
  match strip_prefix "-" s with
  | Some r =>
      match parse_decimal r with
      | Some z => if z <=? - i64_min then Some (- z) else None
      | None => None
      end
  | None => parse_unsigned i64_max s
  end.

(** [s.chars().count()]: the bytes that start a character. *)
Fixpoint char_count (s : string) : nat :=
  match s with
  | "" => O
  | String c s =>
      let n := nat_of_ascii c in
      if ((128 <=? n) && (n <? 192))%nat then char_count s else S (char_count s)
  end.

(** [s.chars()], each character as its bytes. *)
Fixpoint char_list (s : string) : list string :=
  match s with
  | "" => []
  | String c s =>
      let n := nat_of_ascii c in
      match char_list s with
      | String d r :: l =>
          let m := nat_of_ascii d in
          if ((128 <=? m) && (m <? 192))%nat then String c (String d r) :: l
          else String c "" :: String d r :: l
      | l => String c "" :: l
      end
  end.

(** [c.is_whitespace()] *)
Definition is_ws_char (c : string) : bool :=
  match c with
  | String a "" => ws1 a
  | String a (String b "") => ws2 a b
  | String a (String b (String d "")) => ws3 a b d
  | _ => false
  end.

Fixpoint concat_str (l : list string) : string :=
  match l with [] => "" | x :: l => x +:+ concat_str l end.

(** [s.split_whitespace()]: the words of the characters. *)
Definition push_word (w : string) (l : list string) : list string :=
  if is_empty_str w then l else w :: l.
Fixpoint words (l : list string) : string * list string :=
  match l with
  | [] => ("", [])
  | c :: l =>
      let '(w, ws) := words l in
      if is_ws_char c then ("", push_word w ws) else (c +:+ w, ws)
  end.
Definition split_whitespace (s : string) : list string :=
  let '(w, ws) := words (char_list s) in push_word w ws.

Example split_whitespace_words : split_whitespace " admin  ops" = ["admin"; "ops"].
Proof. reflexivity. Qed.

(** The double quote. *)
Definition DQ : string := String (ascii_of_nat 34) "".

(** ** Byte ranges *)

(** [&s[..n]] and [&s[n..]]. *)
Fixpoint str_take (n : nat) (s : string) : string :=
  match n, s with
  | S n, String c s => String c (str_take n s)
  | _, _ => ""
  end.
Fixpoint str_drop (n : nat) (s : string) : string :=
  match n, s with
  | S n, String _ s => str_drop n s
  | _, _ => s
  end.

Lemma str_take_drop n s : str_take n s +:+ str_drop n s = s.
Proof. revert s. induction n as [|n IH]; intros [|c s]; simpl; [done..|]. by rewrite IH. Qed.

Lemma str_take_length n s : (n ≤ String.length s)%nat → String.length (str_take n s) = n.
Proof. revert s. induction n as [|n IH]; intros [|c s]; simpl; try lia. intros. rewrite IH; lia. Qed.

Lemma str_take_all s : str_take (String.length s) s = s.
Proof. induction s as [|c s IH]; simpl; [done|by rewrite IH]. Qed.

Lemma str_drop_length n s : (String.length (str_drop n s) = String.length s - n)%nat.
Proof. revert s. induction n as [|n IH]; intros [|c s]; simpl; [done..|apply IH]. Qed.

Lemma str_take_app n a b : (n ≤ String.length a)%nat → str_take n (a +:+ b) = str_take n a.
Proof. revert a. induction n as [|n IH]; intros [|c a]; simpl; try lia; intros; [done..|]. by rewrite IH by lia. Qed.

Lemma str_drop_app a b : str_drop (String.length a) (a +:+ b) = b.
Proof. induction a as [|c a IH]; simpl; [by destruct b|done]. Qed.

Lemma str_take_take n m s : (n ≤ m)%nat → str_take n (str_take m s) = str_take n s.
Proof.
  revert m s. induction n as [|n IH]; intros [|m] [|c s] H; simpl; try done; try lia.
  by rewrite IH by lia.
Qed.

(** The bytes from [p] up to [q]. *)
Definition str_slice (p q : nat) (s : string) : string := str_drop p (str_take q s).

Lemma str_take_slice p q s : (p ≤ q)%nat → str_take q s = str_take p s +:+ str_slice p q s.
Proof. intros H. unfold str_slice. by rewrite <- (str_take_take p q s H), str_take_drop. Qed.

(** [s.is_char_boundary(i)]: not inside a multi-byte character. *)
Definition is_continuation (c : ascii) : bool :=
  let n := nat_of_ascii c in ((128 <=? n) && (n <? 192))%nat.
Definition is_char_boundary (s : string) (i : nat) : bool :=
  if (i =? 0)%nat then true
  else if (String.length s <=? i)%nat then (i =? String.length s)%nat
  else match String.get i s with Some c => negb (is_continuation c) | None => false end.

Lemma get_app_l a b i : (i < String.length a)%nat → String.get i (a +:+ b) = String.get i a.
Proof. revert i. induction a as [|c a IH]; intros [|i] H; simpl in *; try lia; [done|]. apply IH. lia. Qed.

Lemma get_app_r a b : String.get (String.length a) (a +:+ b) = String.get 0 b.
Proof. induction a as [|c a IH]; simpl; [by destruct b|done]. Qed.

Lemma get_take i n s : (i < n)%nat → String.get i (str_take n s) = String.get i s.
Proof.
  revert i s. induction n as [|n IH]; intros [|i] [|c s] H; simpl; try lia; try done.
  apply IH. lia.
Qed.

Lemma get_drop p s : String.get 0 (str_drop p s) = String.get p s.
Proof. revert s. induction p as [|p IH]; intros [|c s]; simpl; try done. Qed.

Lemma get_none p s : String.get p s = None ↔ (String.length s ≤ p)%nat.
Proof.
  revert s. induction p as [|p IH]; intros [|c s]; simpl; try (split; [done|lia]).
  - split; [lia|done].
  - split; [lia|done].
  - rewrite IH. lia.
Qed.

Lemma str_drop_all p s : (String.length s ≤ p)%nat → str_drop p s = "".
Proof. revert s. induction p as [|p IH]; intros [|c s] H; simpl in *; try done; [lia|]. apply IH. lia. Qed.

(** ** Hexadecimal *)

Definition hex_digit (n : nat) : ascii :=
  ascii_of_nat (if (n <? 10)%nat then 48 + n else 87 + n).

(** [{b:02x}] *)
Definition hex_byte (c : ascii) : string :=
  let n := nat_of_ascii c in
  String (hex_digit (n / 16)) (String (hex_digit (n mod 16)) "").

Definition is_hex (c : ascii) : bool :=
  let n := nat_of_ascii c in
  (((48 <=? n) && (n <=? 57)) || ((97 <=? n) && (n <=? 102)))%nat.

Lemma all_ascii (P : ascii → Prop) :
  Forall P (ascii_of_nat <$> seq 0 256) → ∀ c, P c.
Proof.
  intros H c. rewrite Forall_fmap, Forall_forall in H.
  rewrite <- (ascii_nat_embedding c). apply H, elem_of_seq.
  pose proof (nat_ascii_bounded c). lia.
Qed.

#[global] Arguments hex_byte : simpl never.

Lemma hex_byte_hex c : str_all is_hex (hex_byte c) = true.
Proof.
  revert c. apply all_ascii. apply Forall_forall.
  assert (forallb (λ c, str_all is_hex (hex_byte c)) (ascii_of_nat <$> seq 0 256) = true)
    as H by (vm_compute; reflexivity).
  rewrite forallb_forall in H. intros c Hc. by apply H, list_elem_of_In.
Qed.

Definition unhex (c : ascii) : nat :=
  let n := nat_of_ascii c in if (n <=? 57)%nat then n - 48 else n - 87.

Lemma hex_byte_inj c d : hex_byte c = hex_byte d → c = d.
Proof.
  intros H.
  assert (∀ e, match hex_byte e with
               | String a (String b _) => ascii_of_nat (unhex a * 16 + unhex b) = e
               | _ => False end) as Hu.
  { apply all_ascii, Forall_forall.
    assert (forallb (λ e, match hex_byte e with
               | String a (String b _) => bool_decide (ascii_of_nat (unhex a * 16 + unhex b) = e)
               | _ => false end) (ascii_of_nat <$> seq 0 256) = true)
      as Hall by (vm_compute; reflexivity).
    rewrite forallb_forall in Hall. intros e He%list_elem_of_In%Hall.
    destruct (hex_byte e) as [|a [|b r]]; try done. by apply bool_decide_eq_true in He. }
  pose proof (Hu c) as Hc. pose proof (Hu d) as Hd. rewrite H in Hc.
  destruct (hex_byte d) as [|a [|b r]]; try done. congruence.
Qed.

(** ** Decimal digits: the parser inverts the printer *)

Lemma digit_value_char x : (x < 10)%N → digit_value (pretty_N_char x) = Some (Z.of_N x).
Proof.
  intros H. assert (Forall (λ x, digit_value (pretty_N_char x) = Some (Z.of_N x))
    [0;1;2;3;4;5;6;7;8;9]%N) as Hall by (repeat constructor).
  rewrite Forall_forall in Hall. apply Hall.
  rewrite !elem_of_cons. lia.
Qed.
Lemma parse_digits_go x s : parse_digits 0 (pretty_N_go x s) = parse_digits (Z.of_N x) s.
Proof.
  revert s. induction (N.lt_wf_0 x) as [x _ IH]. intros s.
  assert (x = 0 ∨ 0 < x)%N as [->|Hx] by lia; [by rewrite pretty_N_go_0|].
  rewrite pretty_N_go_step by done. rewrite IH by (by apply N.div_lt). simpl.
  rewrite digit_value_char by (by apply N.mod_lt). f_equal.
  rewrite N2Z.inj_div, N2Z.inj_mod. pose proof (Z.div_mod (Z.of_N x) 10). simpl. lia.
Qed.
Lemma parse_digits_pretty z : 0 ≤ z → parse_digits 0 (pretty z) = Some z.
Proof.
  destruct z as [|p|p]; [done| |lia]. intros _.
  change (pretty (Z.pos p)) with (pretty (N.pos p)). unfold pretty, pretty_N.
  case_decide; [done|]. by rewrite parse_digits_go.
Qed.

(** ** Reversal, suffixes and splitting *)

(** [s.strip_suffix(p)] *)
Definition strip_suffix (p s : string) : option string :=
  String.rev <$> strip_prefix (String.rev p) (String.rev s).

Lemma cons_app c a b : String c a +:+ b = String c (a +:+ b).
Proof. done. Qed.
Lemma rev_app_spec a b : String.rev_app a b = String.rev a +:+ b.
Proof.
  unfold String.rev. revert b. induction a as [|c a IH]; intros b; [done|]. simpl.
  by rewrite IH, (IH (String c "")), append_assoc.
Qed.
Lemma str_rev_append a b : String.rev (a +:+ b) = String.rev b +:+ String.rev a.
Proof.
  induction a as [|c a IH]; simpl; [by rewrite append_nil_r|].
  unfold String.rev in *. simpl. rewrite !(rev_app_spec _ (String c "")). unfold String.rev.
  by rewrite IH, append_assoc.
Qed.
Lemma str_rev_length s : String.length (String.rev s) = String.length s.
Proof.
  induction s as [|c s IH]; [done|]. change (String c s) with (String c "" +:+ s).
  rewrite str_rev_append, append_length, IH. cbn. lia.
Qed.

Lemma str_rev_rev s : String.rev (String.rev s) = s.
Proof.
  induction s as [|c s IH]; [done|]. change (String c s) with (String c "" +:+ s).
  by rewrite !str_rev_append, IH.
Qed.
Lemma strip_suffix_append a p : strip_suffix p (a +:+ p) = Some a.
Proof.
  unfold strip_suffix. rewrite str_rev_append.
  rewrite (proj2 (strip_prefix_some _ _ _) eq_refl). cbn. by rewrite str_rev_rev.
Qed.

Lemma str_all_rev f s : str_all f (String.rev s) = str_all f s.
Proof.
  induction s as [|c s IH]; [done|]. change (String c s) with (String c "" +:+ s).
  rewrite str_rev_append, !str_all_append, IH. apply andb_comm.
Qed.

Lemma split_char_free c s : free_of c s → split_char c s = [s].
Proof.
  unfold free_of. induction s as [|d s IH]; simpl; [done|]. case_bool_decide; [done|].
  intros Hf. by rewrite IH.
Qed.
Lemma split_char_cons c a b : free_of c a → split_char c (a +:+ String c b) = a :: split_char c b.
Proof.
  unfold free_of. induction a as [|d a IH]; simpl; [by rewrite bool_decide_true|].
  case_bool_decide; [done|]. intros Hf. by rewrite IH.
Qed.

(** A visible ASCII character. *)
Definition visible (c : ascii) : bool :=
  let n := nat_of_ascii c in ((33 <=? n) && (n <=? 126))%nat.

Lemma visible_plain c :
  visible c = true →
  ws1 c = false ∧ (∀ d, ws2 c d = false ∧ ws2 d c = false) ∧
  ∀ d e, ws3 c d e = false ∧ ws3 e d c = false.
Proof.
  unfold visible, ws1, ws2, ws3. rewrite andb_true_iff, !Nat.leb_le. intros [H1 H2].
  assert (∀ k, (k < 33 ∨ 126 < k)%nat → (nat_of_ascii c =? k)%nat = false) as Hk
    by (intros k ?; apply Nat.eqb_neq; lia).
  assert (((128 <=? nat_of_ascii c) = false)%nat) as Hl by (apply Nat.leb_gt; lia).
  assert (((nat_of_ascii c <=? 13) = false)%nat) as Hm by (apply Nat.leb_gt; lia).
  split_and!.
  - by rewrite Hk, Hm, andb_false_r by lia.
  - intros d. split; rewrite !Hk by lia; [done|by rewrite andb_false_r].
  - intros d e. split; cbn; rewrite !Hk by lia; cbn [andb orb]; [done|].
    cbn in Hl |- *. rewrite ?Hl, ?andb_false_r. done.
Qed.

Lemma trim_with_visible w2 w3 s :
  (∀ c d, visible c = true → w2 c d = false) → (∀ c d e, visible c = true → w3 c d e = false) →
  str_all visible s = true → trim_with w2 w3 s = s.
Proof.
  intros H2 H3. destruct s as [|c s]; [done|]. simpl. intros [Hc _]%andb_true_iff.
  rewrite (proj1 (visible_plain c Hc)). destruct s as [|d s]; [done|]. rewrite H2 by done.
  destruct s as [|e s]; [done|]. by rewrite H3.
Qed.

(** A text of visible ASCII characters is its own trimming. *)
Lemma trim_visible s : str_all visible s = true → trim s = s.
Proof.
  intros H. assert (trim_start s = s) as Hs.
  { apply trim_with_visible; [| |done]; intros c d; intros.
    - by destruct (visible_plain c) as (_ & H2 & _); [|apply H2].
    - by destruct (visible_plain c) as (_ & _ & H3); [|apply H3]. }
  unfold trim. rewrite Hs. unfold trim_end. rewrite trim_with_visible; [apply str_rev_rev| | |].
  - intros c d Hc. by destruct (visible_plain c Hc) as (_ & H2 & _); apply H2.
  - intros c d e Hc. by destruct (visible_plain c Hc) as (_ & _ & H3); apply H3.
  - by rewrite str_all_rev.
Qed.
