(* ===== verification/Loops.v ===== *)
(** * Runaway and loop detection

    [crates/core/src/loops.rs].  A signature is the 64-bit hash of a tool call;
    the hash function ([DefaultHasher], whose algorithm the standard library leaves
    unspecified) and the JSON printer are parameters of the extraction; the
    detectors work on the signatures alone. *)

From S2P Require Import Prelude Float Json.

(* @src loops.rs Window *)
Record Window := mkWindow { window : nat; threshold : nat }.

(* @src loops.rs Growth *)
Record Growth := mkGrowth { factor : f64; consecutive : nat }.

(* @src loops.rs AnomalyConfig *)
Record AnomalyConfig := mkAnomalyConfig {
  identical_tool_call : option Window;
  pingpong_pair : option Window;
  context_growth : option Growth
}.

Definition default_anomalies : AnomalyConfig := mkAnomalyConfig None None None.

Definition is_none {A} (o : option A) : bool :=
  match o with None => true | Some _ => false end.

(* @src loops.rs AnomalyConfig::is_empty *)
Definition is_empty (c : AnomalyConfig) : bool :=
  is_none (identical_tool_call c) && is_none (pingpong_pair c) && is_none (context_growth c).

Section signatures.
Context (signature : string → string → Z) (to_string : Value → string).

(** The signature of an Anthropic content block, when it is a tool call. *)
(* @src loops.rs 70-79 tool_call_signatures *)
Definition block_signature (block : Value) : option Z :=
  if bool_decide (get_str "type" block = Some "tool_use") then
    Some (signature (default "" (get_str "name" block))
                    (default "" (to_string <$> get "input" block)))
  else None.

(** The signature of an entry of an OpenAI [tool_calls] array. *)
(* @src loops.rs 82-95 tool_call_signatures *)
Definition call_signature (call : Value) : Z :=
  let func := get "function" call in
  signature (default "" (func ≫= get_str "name"))
            (default "" (to_string <$> (func ≫= get "arguments"))).

(* @src loops.rs tool_call_signatures *)
Definition tool_call_signatures (request : Value) : list Z :=
  match get_array "messages" request with
  | None => []
  | Some messages =>
      messages ≫= λ msg,
        match get_array "content" msg with
        | Some content => omap block_signature content
        | None => []
        end ++
        match get_array "tool_calls" msg with
        | Some calls => call_signature <$> calls
        | None => []
        end
  end.
End signatures.

(* @src loops.rs tail *)
Definition tail {A} (l : list A) (n : nat) : list A := drop (length l - n) l.

(** The per-signature counts of the window. *)
(* @src loops.rs 107-111 detect_identical *)
Definition counts (w : list Z) : gmap Z nat :=
  foldl (λ m s, <[s := S (default O (m !! s))]> m) ∅ w.

(* @src loops.rs 112 detect_identical *)
Definition max_count (w : list Z) : nat :=
  max_or_0 (snd <$> map_to_list (counts w)).

(* @src loops.rs detect_identical *)
Definition detect_identical (sigs : list Z) (cfg : Window) : option string :=
  let max := max_count (tail sigs (window cfg)) in
  if ((threshold cfg <=? max) && (0 <? threshold cfg))%nat then
    Some ("identical tool call repeated " +:+ pretty max +:+ "x within the last "
          +:+ pretty (window cfg) +:+ " calls")
  else None.

(* @src loops.rs 129-132 detect_pingpong *)
Definition alternates (a b c d : Z) : bool := (a =? c) && (b =? d) && negb (a =? b).

(** The number of positions [i] where [w[i..i+4]] alternates. *)
(* @src loops.rs 126-135 detect_pingpong *)
Fixpoint cycles (w : list Z) : nat :=
  match w with
  | a :: ((b :: c :: d :: _) as t) =>
      if alternates a b c d then S (cycles t) else cycles t
  | _ => O
  end.

(* @src loops.rs detect_pingpong *)
Definition detect_pingpong (sigs : list Z) (cfg : Window) : option string :=
  let n := cycles (tail sigs (window cfg)) in
  if ((threshold cfg <=? n) && (0 <? threshold cfg))%nat then
    Some ("ping-pong tool alternation detected (" +:+ pretty n
          +:+ " cycles) within the last " +:+ pretty (window cfg) +:+ " calls")
  else None.

(** The guard of one pair of consecutive sizes. *)
(* @src loops.rs 154 detect_context_growth *)
Definition grew (factor : f64) (a b : Z) : bool :=
  (0 <? a) && f64_geb (f64_of_Z b) (f64_mul (f64_of_Z a) factor).

(** The loop over consecutive pairs: does the run length reach [need]? *)
(* @src loops.rs 152-166 detect_context_growth *)
Fixpoint growth_run (factor : f64) (need run : nat) (l : list Z) : bool :=
  match l with
  | a :: ((b :: _) as t) =>
      if grew factor a b then
        if (need <=? S run)%nat then true else growth_run factor need (S run) t
      else growth_run factor need 0 t
  | _ => false
  end.

(* @src loops.rs detect_context_growth *)
Definition detect_context_growth (input_sizes : list Z) (cfg : Growth) : option string :=
  if ((consecutive cfg =? 0) || (length input_sizes <=? consecutive cfg))%nat then None
  else if growth_run (factor cfg) (consecutive cfg) 0 input_sizes then
    Some ("context grew ≥" +:+ f64_fixed 1 (factor cfg) +:+ "x for "
          +:+ pretty (consecutive cfg) +:+ " consecutive steps")
  else None.

(* @src loops.rs detect *)
Definition detect (sigs input_sizes : list Z) (cfg : AnomalyConfig) : option string :=
  or_else (identical_tool_call cfg ≫= detect_identical sigs)
    (or_else (pingpong_pair cfg ≫= detect_pingpong sigs)
             (context_growth cfg ≫= detect_context_growth input_sizes)).

(** ** Correctness *)

(** How often [s] occurs. *)
Definition occurrences (s : Z) (w : list Z) : nat := length (filter (λ x, x = s) w).

Lemma occurrences_snoc s w x :
  occurrences s (w ++ [x]) = (occurrences s w + if decide (x = s) then 1 else 0)%nat.
Proof.
  unfold occurrences. rewrite filter_app, length_app. f_equal.
  rewrite filter_cons, filter_nil. by case_decide.
Qed.

Lemma occurrences_pos s w : (0 < occurrences s w)%nat ↔ s ∈ w.
Proof.
  unfold occurrences. split; intros H.
  - destruct (filter (λ x, x = s) w) as [|y l] eqn:E; simpl in H; [lia|].
    assert (y ∈ filter (λ x, x = s) w) as [<- ?]%list_elem_of_filter; [|done].
    rewrite E. by left.
  - apply Nat.neq_0_lt_0. intros Hz%length_zero_iff_nil.
    assert (s ∈ filter (λ x, x = s) w) as Hs by by apply list_elem_of_filter.
    rewrite Hz in Hs. by apply not_elem_of_nil in Hs.
Qed.

Lemma counts_lookup w s :
  counts w !! s = if decide (s ∈ w) then Some (occurrences s w) else None.
Proof.
  unfold counts. induction w as [|x w IH] using rev_ind; [done|].
  rewrite foldl_app. cbn [foldl]. rewrite lookup_insert, occurrences_snoc.
  pose proof (elem_of_app w [x] s) as He. rewrite list_elem_of_singleton in He.
  pose proof (occurrences_pos s w) as Hp. destruct (decide (x = s)) as [->|Hne]; rewrite IH.
  - rewrite (decide_True (P := s ∈ w ++ [s])) by tauto. f_equal.
    case_decide as Hs; [|rewrite <- Hp in Hs]; simpl; lia.
  - rewrite Nat.add_0_r. apply decide_ext. naive_solver.
Qed.

Lemma max_count_ge w s : (occurrences s w ≤ max_count w)%nat.
Proof.
  destruct (decide (s ∈ w)) as [Hs|Hs]; [|rewrite <- occurrences_pos in Hs; lia].
  apply max_or_0_ge, list_elem_of_fmap. exists (s, occurrences s w). split; [done|].
  apply elem_of_map_to_list. by rewrite counts_lookup, decide_True.
Qed.

Lemma max_count_in w : max_count w = O ∨ ∃ s, max_count w = occurrences s w.
Proof.
  destruct (max_or_0_in (snd <$> map_to_list (counts w))) as [H|H]; [by left|right].
  apply list_elem_of_fmap in H as ([s n] & Hn & Hin%elem_of_map_to_list).
  rewrite counts_lookup in Hin. case_decide; simplify_eq/=. by exists s.
Qed.

Lemma max_count_reaches w t :
  (0 < t)%nat → (t ≤ max_count w)%nat ↔ ∃ s, (t ≤ occurrences s w)%nat.
Proof.
  intros Ht. split.
  - intros H. destruct (max_count_in w) as [E|[s E]]; [lia|]. exists s. lia.
  - intros [s Hs]. pose proof (max_count_ge w s). lia.
Qed.

(** Some call occurs at least [threshold] times in the window. *)
Definition repeats (sigs : list Z) (cfg : Window) : Prop :=
  (0 < threshold cfg)%nat ∧
  ∃ s, (threshold cfg ≤ occurrences s (tail sigs (window cfg)))%nat.

Lemma threshold_guard (cfg : Window) n :
  ((threshold cfg <=? n) && (0 <? threshold cfg))%nat = true
  ↔ (0 < threshold cfg)%nat ∧ (threshold cfg ≤ n)%nat.
Proof. rewrite andb_true_iff, Nat.leb_le, Nat.ltb_lt. tauto. Qed.

Lemma is_Some_if {A} (b : bool) (x : A) : is_Some (if b then Some x else None) ↔ b = true.
Proof. destruct b; [by split; eauto|]. by split; [intros [? ?]|]. Qed.

Lemma detect_identical_iff sigs cfg :
  is_Some (detect_identical sigs cfg) ↔ repeats sigs cfg.
Proof.
  unfold detect_identical, repeats. rewrite is_Some_if, threshold_guard.
  split; intros [Ht H]; (split; [done|]); by apply max_count_reaches.
Qed.

(** Position [i] starts an alternation of two distinct calls. *)
Definition alternation_at (w : list Z) (i : nat) : Prop :=
  ∃ a b, a ≠ b ∧ take 4 (drop i w) = [a; b; a; b].

Definition alternation_b (w : list Z) (i : nat) : bool :=
  match take 4 (drop i w) with
  | [a; b; c; d] => alternates a b c d
  | _ => false
  end.

Lemma alternates_iff a b c d : alternates a b c d = true ↔ c = a ∧ d = b ∧ a ≠ b.
Proof.
  unfold alternates. rewrite !andb_true_iff, negb_true_iff, !Z.eqb_eq, Z.eqb_neq. naive_solver.
Qed.

Lemma alternation_b_iff w i : alternation_b w i = true ↔ alternation_at w i.
Proof.
  unfold alternation_b, alternation_at.
  destruct (take 4 (drop i w)) as [|a [|b [|c [|d [|]]]]]; try (split; [done|naive_solver]).
  rewrite alternates_iff. naive_solver.
Qed.

#[export] Instance alternation_at_dec w i : Decision (alternation_at w i).
Proof.
  destruct (alternation_b w i) eqn:E; [left; by apply alternation_b_iff|right].
  intros H%alternation_b_iff. congruence.
Defined.

Definition alternations (w : list Z) : nat :=
  length (filter (alternation_at w) (seq 0 (length w))).

Lemma filter_S_length (P Q : nat → Prop) `{∀ i, Decision (P i), ∀ i, Decision (Q i)} l :
  (∀ i, P (S i) ↔ Q i) → length (filter P (S <$> l)) = length (filter Q l).
Proof.
  intros HPQ. induction l as [|i l IH]; [done|]. rewrite fmap_cons, !filter_cons.
  specialize (HPQ i). repeat case_decide; simpl; rewrite ?IH; tauto.
Qed.

Lemma cycles_alternations w : cycles w = alternations w.
Proof.
  unfold alternations. induction w as [|a w IH]; [done|].
  cbn [length seq]. rewrite <- fmap_S_seq, filter_cons.
  pose proof (filter_S_length (alternation_at (a :: w)) (alternation_at w)
                (seq 0 (length w)) (λ i, iff_refl _)) as Hs.
  assert (cycles (a :: w) = ((if alternation_b (a :: w) 0 then 1 else 0) + cycles w)%nat) as ->.
  { destruct w as [|b [|c [|d w]]]; try done. simpl. unfold alternation_b. simpl.
    by destruct (alternates a b c d). }
  rewrite IH. pose proof (alternation_b_iff (a :: w) 0) as Hb.
  case_decide as Hd; simpl; rewrite Hs; [by rewrite (proj2 Hb Hd)|].
  destruct (alternation_b (a :: w) 0); [|done]. exfalso. by apply Hd, Hb.
Qed.

Definition ping_pongs (sigs : list Z) (cfg : Window) : Prop :=
  (0 < threshold cfg)%nat ∧ (threshold cfg ≤ alternations (tail sigs (window cfg)))%nat.

Lemma detect_pingpong_iff sigs cfg :
  is_Some (detect_pingpong sigs cfg) ↔ ping_pongs sigs cfg.
Proof.
  unfold detect_pingpong, ping_pongs.
  by rewrite is_Some_if, threshold_guard, cycles_alternations.
Qed.

(** Step [i] of the input sizes grows by the factor. *)
Definition grew_at (f : f64) (l : list Z) (i : nat) : Prop :=
  ∃ a b, l !! i = Some a ∧ l !! S i = Some b ∧ grew f a b = true.

Definition grows_from (f : f64) (n : nat) (l : list Z) (i : nat) : Prop :=
  ∀ j, (j < n)%nat → grew_at f l (i + j).

Lemma grew_at_cons f a l i : grew_at f (a :: l) (S i) ↔ grew_at f l i.
Proof. done. Qed.

Lemma grows_from_cons f n a l i : grows_from f n (a :: l) (S i) ↔ grows_from f n l i.
Proof. done. Qed.

Lemma grows_from_0 f n a b l :
  grows_from f (S n) (a :: b :: l) 0 ↔ grew f a b = true ∧ grows_from f n (b :: l) 0.
Proof.
  split.
  - intros H. split; [|intros j Hj; apply (H (S j)); lia].
    destruct (H O) as (x & y & ? & ? & ?); [lia|]. by simplify_eq/=.
  - intros [Hg H] [|j] Hj; [by exists a, b|]. apply (H j). lia.
Qed.

Lemma grows_from_le f n m l i : (m ≤ n)%nat → grows_from f n l i → grows_from f m l i.
Proof. intros Hm H j Hj. apply H. lia. Qed.

Lemma growth_run_cons f need run a b l :
  growth_run f need run (a :: b :: l)
  = if grew f a b then
      if (need <=? S run)%nat then true else growth_run f need (S run) (b :: l)
    else growth_run f need 0 (b :: l).
Proof. done. Qed.

Lemma growth_run_iff f need run l :
  (run < need)%nat →
  growth_run f need run l = true ↔
  grows_from f (need - run) l 0 ∨ ∃ i, grows_from f need l i.
Proof.
  revert run. induction l as [|a [|b l] IH]; intros run Hr.
  1,2: split; [done|]; intros [H|[i H]];
    (destruct (H O) as (x & y & ? & Hy & _); [lia|]); simpl in *; try done;
    by rewrite ?Nat.add_0_r in *; destruct i.
  assert (∀ n, (∃ i, grows_from f n (a :: b :: l) i) ↔
          grows_from f n (a :: b :: l) 0 ∨ ∃ i, grows_from f n (b :: l) i) as Hex.
  { intros n. split; [intros [[|i] Hi]; [by left|right; by exists i]|]. intros [Hi|[i Hi]]; [by exists O|by exists (S i)]. }
  rewrite Hex, growth_run_cons.
  destruct need as [|need]; [lia|].
  replace (S need - run)%nat with (S (need - run)) by lia. rewrite !grows_from_0.
  destruct (grew f a b); [case_match; breflect|].
  - replace (need - run)%nat with O by lia. split; [|done]. intros _. left. split; [done|].
    intros j ?. lia.
  - rewrite IH by lia. replace (S need - S run)%nat with (need - run)%nat by lia.
    split; [naive_solver|]. intros [[_ Hg]|[[_ Hg]|Hg]]; auto. left.
    by eapply grows_from_le; [|exact Hg]; lia.
  - rewrite IH by lia. rewrite Nat.sub_0_r.
    split; [|naive_solver]. intros [Hg|Hg]; eauto.
Qed.

Definition balloons (sizes : list Z) (cfg : Growth) : Prop :=
  (0 < consecutive cfg)%nat ∧ ∃ i, grows_from (factor cfg) (consecutive cfg) sizes i.

Lemma grows_from_length f n l i :
  (0 < n)%nat → grows_from f n l i → (i + n < length l)%nat.
Proof.
  intros Hn H. destruct (H (n - 1)%nat) as (x & y & _ & Hy & _); [lia|].
  apply lookup_lt_Some in Hy. lia.
Qed.

Lemma detect_context_growth_iff sizes cfg :
  is_Some (detect_context_growth sizes cfg) ↔ balloons sizes cfg.
Proof.
  unfold detect_context_growth, balloons. case_match eqn:E.
  - split; [by intros [? ?]|]. intros [Hc [i H]]. pose proof (grows_from_length _ _ _ _ Hc H).
    apply orb_true_iff in E as [Ez%Nat.eqb_eq|Ez]; breflect; lia.
  - rewrite is_Some_if. apply orb_false_iff in E as [Ez%Nat.eqb_neq El]. breflect.
    rewrite growth_run_iff by lia. rewrite Nat.sub_0_r. split.
    + intros [H|H]; (split; [lia|]); eauto.
    + intros [_ H]. by right.
Qed.

Lemma is_Some_or_else {A} (o1 o2 : option A) :
  is_Some (or_else o1 o2) ↔ is_Some o1 ∨ is_Some o2.
Proof.
  destruct o1; simpl; [split; eauto|]. split; [by right|]. by intros [[? ?]|].
Qed.

Lemma is_Some_bind {A B} (o : option A) (f : A → option B) :
  is_Some (o ≫= f) ↔ ∃ x, o = Some x ∧ is_Some (f x).
Proof. destruct o; simpl; split; [eauto|naive_solver|by intros [? ?]|naive_solver]. Qed.

(** The runaway detector fires exactly when an enabled detector's condition
    holds: some call occurs [threshold] times in the last [window] calls; or the last
    [window] calls contain [threshold] overlapping A-B-A-B alternations of two
    distinct calls; or the input size grew by the factor over [consecutive] steps in
    a row anywhere in the history. *)
Theorem detect_iff sigs sizes cfg :
  is_Some (detect sigs sizes cfg) ↔
  (∃ w, identical_tool_call cfg = Some w ∧ repeats sigs w) ∨
  (∃ w, pingpong_pair cfg = Some w ∧ ping_pongs sigs w) ∨
  (∃ g, context_growth cfg = Some g ∧ balloons sizes g).
Proof.
  unfold detect. rewrite !is_Some_or_else, !is_Some_bind.
  setoid_rewrite detect_identical_iff. setoid_rewrite detect_pingpong_iff.
  by setoid_rewrite detect_context_growth_iff.
Qed.

Lemma is_empty_detects_nothing sigs sizes cfg :
  is_empty cfg = true → detect sigs sizes cfg = None.
Proof. destruct cfg as [[] [] []]; by intros. Qed.

(** Both wire shapes of one looping conversation, with a toy hash. *)
Example signatures_ex :
  tool_call_signatures (λ n a, Z.of_nat (String.length n + 10 * String.length a))
    (λ v, match v with Str s => s | _ => "{}" end)
    (Obj [("messages", Arr [
       Obj [("content", Arr [Obj [("input", Str "abc"); ("name", Str "f"); ("type", Str "tool_use")]])];
       Obj [("tool_calls", Arr [Obj [("function", Obj [("name", Str "gg")])]])]])])
  = [31; 2].
Proof. reflexivity. Qed.

Example detect_ex :
  detect [7; 7; 7] [] (mkAnomalyConfig (Some (mkWindow 5 3)) None None)
  = Some "identical tool call repeated 3x within the last 5 calls".
Proof. reflexivity. Qed.
