(* ===== verification/Policy.v ===== *)
(** * Policy evaluation

    [crates/core/src/policy.rs]: the limits other than the run budget, and the
    rollout mode. *)

From S2P Require Import Prelude Float Money Ledger Loops.

(* @src policy.rs Mode *)
Inductive Mode := Shadow | Warn | Enforce.

(* @src policy.rs Policy *)
Record Policy := mkPolicy {
  mode : Mode;
  budget_per_run : option Microusd;
  budget_per_step : option Microusd;
  max_steps : option Z;    (* u32 *)
  anomalies : AnomalyConfig
}.

(* @src policy.rs 46-56 Default for Policy *)
Definition default_policy : Policy := mkPolicy Shadow None None None default_anomalies.

(* @src policy.rs Decision *)
Inductive Decision :=
| Allow
| DWarn (reason : string)
| Block (reason : string).

(* @src policy.rs Decision::is_blocking *)
Definition is_blocking (d : Decision) : bool :=
  match d with Block _ => true | _ => false end.

(* @src policy.rs Evaluation *)
Record Evaluation := mkEvaluation { decision : Decision; violated : option string }.

(* @src policy.rs first_violation *)
Definition first_violation (p : Policy) (s : RunSnapshot) (estimate : Microusd)
  : option string :=
  let step_budget :=
    match budget_per_step p with
    | Some cap =>
        if cap <? estimate then
          Some ("per-step budget exceeded: estimate " +:+ Microusd.display estimate
                +:+ " over cap " +:+ Microusd.display cap)
        else None
    | None => None
    end in
  match max_steps p with
  | Some max =>
      if max <=? steps s then
        Some ("max steps reached: " +:+ pretty (steps s) +:+ " of " +:+ pretty max
              +:+ " already taken")
      else step_budget
  | None => step_budget
  end.

(* @src policy.rs evaluate *)
Definition evaluate (p : Policy) (s : RunSnapshot) (estimate : Microusd) : Evaluation :=
  let v := first_violation p s estimate in
  mkEvaluation
    (match v with
     | None => Allow
     | Some reason =>
         match mode p with
         | Shadow => Allow
         | Warn => DWarn reason
         | Enforce => Block reason
         end
     end) v.

(** The limits a policy states. *)
Definition within_limits (p : Policy) (s : RunSnapshot) (estimate : Microusd) : Prop :=
  (∀ max, max_steps p = Some max → steps s < max) ∧
  (∀ cap, budget_per_step p = Some cap → estimate ≤ cap).

Lemma first_violation_none p s e : first_violation p s e = None ↔ within_limits p s e.
Proof.
  unfold first_violation, within_limits.
  destruct (max_steps p) as [max|], (budget_per_step p) as [cap|];
    repeat case_match; breflect; (split; [|intros [H1 H2]]);
    try specialize (H1 _ eq_refl); try specialize (H2 _ eq_refl);
    try done; try lia; intros _; split; intros ? [= <-]; lia.
Qed.

(** The rule that tripped is reported in every rollout mode, and only when a
    stated limit is broken; the call is blocked exactly when a limit is broken and
    the mode is [Enforce], warned about only in [Warn], and in [Shadow] always
    allowed; the step cap takes precedence over the per-step budget. *)
Theorem evaluate_correct p s e :
  (violated (evaluate p s e) = None ↔ within_limits p s e) ∧
  (is_blocking (decision (evaluate p s e)) = true ↔ ¬ within_limits p s e ∧ mode p = Enforce) ∧
  (∀ r, decision (evaluate p s e) = DWarn r →
        mode p = Warn ∧ violated (evaluate p s e) = Some r) ∧
  (∀ r, decision (evaluate p s e) = Block r → violated (evaluate p s e) = Some r) ∧
  (∀ max, max_steps p = Some max → max ≤ steps s →
          violated (evaluate p s e)
          = Some ("max steps reached: " +:+ pretty (steps s) +:+ " of " +:+ pretty max
                  +:+ " already taken")).
Proof.
  unfold evaluate. simpl. split; [apply first_violation_none|].
  rewrite <- first_violation_none. split; [|split; [|split]].
  - destruct (first_violation p s e), (mode p); simpl; naive_solver.
  - destruct (first_violation p s e), (mode p); simpl; naive_solver.
  - destruct (first_violation p s e), (mode p); simpl; naive_solver.
  - intros max Hm Hs. unfold first_violation. rewrite Hm.
    case_match; breflect; [done|lia].
Qed.

Example evaluate_ex :
  evaluate (mkPolicy Enforce None (Some 10) None default_anomalies) (mkSnapshot 100 0 0 0) 11
  = mkEvaluation
      (Block "per-step budget exceeded: estimate $0.000011 over cap $0.000010")
      (Some "per-step budget exceeded: estimate $0.000011 over cap $0.000010").
Proof. vm_compute. reflexivity. Qed.
