(* ===== verification/Taint.v ===== *)
(** * The taint firewall

    [crates/core/src/taint.rs]: extraction of tool names from requests and
    responses, the labels and capabilities they map to, and the rules that deny a
    capability in a tainted context. *)

From S2P Require Import Prelude Float Json.

Abbreviation Labels := (gset string).

(* @src taint.rs FirewallMode *)
Inductive FirewallMode := FwOff | FwShadow | FwEnforce.

(* @src taint.rs TaintRule *)
Record TaintRule := mkTaintRule { when_any : list string; deny : list string }.

(* @src taint.rs push_tool_use_from_content *)
Definition push_tool_use_from_content (content : option Value) : list string :=
  match content ≫= as_array with
  | Some blocks =>
      omap (λ b, if bool_decide (get_str "type" b = Some "tool_use") then get_str "name" b
                 else None) blocks
  | None => []
  end.

(* @src taint.rs push_openai_tool_calls *)
Definition push_openai_tool_calls (calls : option Value) : list string :=
  match calls ≫= as_array with
  | Some arr => omap (λ tc, get "function" tc ≫= get_str "name") arr
  | None => []
  end.

(* @src taint.rs tool_names_in *)
Definition tool_names_in (v : Value) : list string :=
  push_tool_use_from_content (get "content" v) ++
  match get_array "messages" v with
  | Some msgs =>
      msgs ≫= λ m, push_tool_use_from_content (get "content" m)
                   ++ push_openai_tool_calls (get "tool_calls" m)
  | None => []
  end ++
  match get_array "choices" v with
  | Some choices =>
      choices ≫= λ ch, push_openai_tool_calls (get "message" ch ≫= get "tool_calls")
  | None => []
  end.

(* @src taint.rs declared_tool_names_in *)
Definition declared_tool_names_in (v : Value) : list string :=
  match get_array "tools" v with
  | Some tools =>
      tools ≫= λ t, option_list (get_str "name" t)
                    ++ option_list (get "function" t ≫= get_str "name")
  | None => []
  end.

(* @src taint.rs labels_for_tools *)
Definition labels_for_tools (names : list string) (sources : gmap string string) : Labels :=
  foldl (λ labels n, labels ∪ {[ default "unclassified" (sources !! n) ]}) ∅ names.

(* @src taint.rs capabilities_for_tools *)
Definition capabilities_for_tools (names : list string) (caps : gmap string string)
  : gset string :=
  list_to_set (omap (λ n, caps !! n) names).

(** Byte order on strings: the iteration order of a [BTreeSet<String>]. *)
Definition sorted_elements (s : gset string) : list string :=
  merge_sort String.le (elements s).

(* @src taint.rs evaluate *)
Fixpoint evaluate (labels : Labels) (requested : gset string) (rules : list TaintRule)
  : option string :=
  match rules with
  | [] => None
  | rule :: rules =>
      if existsb (λ l, bool_decide (l ∈ labels)) (when_any rule) then
        match filter (λ c, c ∈ requested) (deny rule) with
        | [] => evaluate labels requested rules
        | denied =>
            Some ("tainted context [" +:+ join ", " (sorted_elements labels)
                  +:+ "] denies capability [" +:+ join ", " denied +:+ "]")
        end
      else evaluate labels requested rules
  end.

(** ** Correctness *)

(** A rule denies something in this context. *)
Definition fires (labels : Labels) (requested : gset string) (r : TaintRule) : Prop :=
  (∃ l, l ∈ when_any r ∧ l ∈ labels) ∧ (∃ c, c ∈ deny r ∧ c ∈ requested).

Lemma label_hit (labels : Labels) (r : TaintRule) :
  existsb (λ l, bool_decide (l ∈ labels)) (when_any r) = true ↔
  ∃ l, l ∈ when_any r ∧ l ∈ labels.
Proof. rewrite existsb_Exists, Exists_exists. by setoid_rewrite bool_decide_eq_true. Qed.

Lemma denied_nil (requested : gset string) (r : TaintRule) :
  filter (λ c, c ∈ requested) (deny r) ≠ [] ↔ ∃ c, c ∈ deny r ∧ c ∈ requested.
Proof.
  split.
  - destruct (filter _ (deny r)) as [|c l] eqn:E; [done|]. intros _. exists c.
    assert (c ∈ filter (λ c, c ∈ requested) (deny r)) as [? ?]%list_elem_of_filter;
      [rewrite E; by left|done].
  - intros (c & Hc & Hr) E. assert (c ∈ filter (λ c, c ∈ requested) (deny r)) as H
      by (by apply list_elem_of_filter). rewrite E in H. by apply not_elem_of_nil in H.
Qed.

Lemma evaluate_iff labels requested rules :
  is_Some (evaluate labels requested rules) ↔ Exists (fires labels requested) rules.
Proof.
  induction rules as [|r rules IH]; simpl; [split; [by intros [? ?]|by intros H%Exists_nil]|].
  rewrite Exists_cons. unfold fires at 1. rewrite <- label_hit, <- denied_nil.
  destruct (existsb _ (when_any r)); [|rewrite IH; naive_solver].
  destruct (filter _ (deny r)); [rewrite IH; naive_solver|]. split; [|by eauto].
  intros _. left. done.
Qed.

Lemma fires_mono labels labels' requested requested' r :
  labels ⊆ labels' → requested ⊆ requested' →
  fires labels requested r → fires labels' requested' r.
Proof. unfold fires. set_solver. Qed.

(** An action is denied exactly when some rule's label is in the context and one
    of its capabilities is requested; hence taint is never washed out: a context
    that only grows never makes a denied action allowed. *)
Theorem firewall_monotone labels labels' requested requested' rules :
  (is_Some (evaluate labels requested rules) ↔ Exists (fires labels requested) rules) ∧
  (labels ⊆ labels' → requested ⊆ requested' →
   is_Some (evaluate labels requested rules) → is_Some (evaluate labels' requested' rules)).
Proof.
  split; [apply evaluate_iff|]. intros Hl Hr. rewrite !evaluate_iff.
  intros H. eapply Exists_impl; [exact H|]. intros r. by apply fires_mono.
Qed.

Lemma labels_for_tools_elem names sources l :
  l ∈ labels_for_tools names sources ↔
  ∃ n, n ∈ names ∧ l = default "unclassified" (sources !! n).
Proof.
  unfold labels_for_tools. induction names as [|n names IH] using rev_ind; simpl; [set_solver|].
  rewrite foldl_app. simpl. set_solver.
Qed.

(** Every tool a conversation used leaves a label: an unmapped one is untrusted. *)
Lemma unknown_tool_is_untrusted names sources n :
  n ∈ names → sources !! n = None →
  "unclassified" ∈ labels_for_tools names sources.
Proof. intros Hn Hs. apply labels_for_tools_elem. exists n. by rewrite Hs. Qed.

Lemma capabilities_for_tools_elem names caps c :
  c ∈ capabilities_for_tools names caps ↔ ∃ n, n ∈ names ∧ caps !! n = Some c.
Proof.
  unfold capabilities_for_tools. rewrite elem_of_list_to_set, list_elem_of_omap. naive_solver.
Qed.

Definition web_rules : list TaintRule :=
  [mkTaintRule ["web"; "unclassified"] ["exec"; "egress"]].

Lemma firewall_monotone_witness :
  is_Some (evaluate {["web"; "secrets"]} {["exec"]} web_rules).
Proof.
  apply (firewall_monotone {["web"]} {["web"; "secrets"]} {["exec"]} {["exec"]} web_rules).
  - set_solver.
  - done.
  - by eexists.
Defined.

(** What a request may make a tainted run do is decided from the conversation:
    if the request's history or the response contains an invocation of a tool the
    operator did not classify, and the response asks for a tool whose capability an
    [unclassified] rule denies, the call is denied. *)
Theorem unclassified_tool_denies history response sources caps rules t n c :
  n ∈ tool_names_in history → sources !! n = None →
  t ∈ tool_names_in response → caps !! t = Some c →
  Exists (λ r, "unclassified" ∈ when_any r ∧ c ∈ deny r) rules →
  is_Some (evaluate (labels_for_tools (tool_names_in history) sources)
                    (capabilities_for_tools (tool_names_in response) caps) rules).
Proof.
  intros Hn Hs Ht Hc Hr. apply evaluate_iff. eapply Exists_impl; [exact Hr|].
  intros r [Hu Hd]. split.
  - exists "unclassified". split; [done|]. by eapply unknown_tool_is_untrusted.
  - exists c. split; [done|]. apply capabilities_for_tools_elem. by exists t.
Qed.

Definition demo_history : Value :=
  Obj [("messages", Arr [Obj [("content",
    Arr [Obj [("name", Str "browse"); ("type", Str "tool_use")]])]])].
Definition demo_response : Value :=
  Obj [("choices", Arr [Obj [("message", Obj [("tool_calls",
    Arr [Obj [("function", Obj [("name", Str "shell")])]])])]])].

Lemma unclassified_tool_denies_witness :
  is_Some (evaluate (labels_for_tools (tool_names_in demo_history) ∅)
                    (capabilities_for_tools (tool_names_in demo_response) {["shell" := "exec"]})
                    web_rules).
Proof.
  apply (unclassified_tool_denies demo_history demo_response ∅ {["shell" := "exec"]} web_rules
           "shell" "browse" "exec").
  - vm_compute. constructor.
  - done.
  - vm_compute. constructor.
  - done.
  - apply Exists_cons_hd. split; vm_compute; repeat constructor.
Defined.

Lemma declared_covers_anthropic v tools t n :
  get_array "tools" v = Some tools → t ∈ tools → get_str "name" t = Some n →
  n ∈ declared_tool_names_in v.
Proof.
  intros Ht Hin Hn. unfold declared_tool_names_in. rewrite Ht.
  apply list_elem_of_bind. exists t. split; [|done]. rewrite Hn. simpl. by left.
Qed.
