(* ===== verification/Breaker.v ===== *)
(** * The breaker verdict and its wire contract

    [crates/core/src/breaker.rs]: one type for the reasons a run is stopped, their
    wire strings and statuses, and the error body.  The [serde] attributes of
    [WireError] (renaming, omission of absent fields) are written out. *)

From S2P Require Import Prelude Float Json.

(* @src breaker.rs BreakerReason *)
Inductive BreakerReason :=
| BudgetExceeded
| PolicyViolation
| LoopDetected
| Killed
| WasmPolicy
| TaintBlocked
| DlpBlocked
| UnitBudgetExceeded
| IdentityMismatch.

#[export] Instance BreakerReason_eq_dec : EqDecision BreakerReason.
Proof. solve_decision. Defined.

(* @src breaker.rs BreakerReason::as_wire_str *)
Definition as_wire_str (r : BreakerReason) : string :=
  match r with
  | BudgetExceeded => "budget_exceeded"
  | PolicyViolation => "policy_violation"
  | LoopDetected => "loop_detected"
  | Killed => "killed"
  | WasmPolicy => "wasm_policy"
  | TaintBlocked => "taint_blocked"
  | DlpBlocked => "dlp_blocked"
  | UnitBudgetExceeded => "unit_budget_exceeded"
  | IdentityMismatch => "identity_mismatch"
  end.

(* @src breaker.rs BreakerReason::http_status *)
Definition http_status (r : BreakerReason) : Z :=
  match r with
  | TaintBlocked | DlpBlocked | IdentityMismatch => 403
  | BudgetExceeded | PolicyViolation | LoopDetected | Killed | WasmPolicy
  | UnitBudgetExceeded => 402
  end.

(* @src breaker.rs BreakerVerdict *)
Record BreakerVerdict := mkVerdict {
  tripped : bool;
  reason : option BreakerReason;
  detail : option string;
  budget_usd : option f64;
  spent_usd : option f64;
  policy_id : option string;
  would_trip_only : bool
}.

(* @src breaker.rs BreakerVerdict::allow *)
Definition allow : BreakerVerdict := mkVerdict false None None None None None false.

(** A finite float is a JSON number, NaN and infinities are [null]. *)
Definition json_f64 (x : f64) : Value :=
  match x with
  | S754_zero _ | S754_finite _ _ _ => Number (FloatNum x)
  | S754_infinity _ | S754_nan => Null
  end.

(** [skip_serializing_if = "Option::is_none"]. *)
Definition opt_field {A} (k : string) (f : A → Value) (o : option A) : list (string * Value) :=
  match o with Some x => [(k, f x)] | None => [] end.

(** The [WireError] object; a JSON object lists its keys in order. *)
(* @src breaker.rs WireError *)
Definition wire_error (kind run_id : string) (budget spent : option f64)
    (policy : option string) (why : string) (retryable : bool) : Value :=
  Obj (opt_field "budget_usd" json_f64 budget ++ opt_field "policy_id" Str policy
       ++ [("reason", Str why); ("retryable", Bool retryable); ("run_id", Str run_id)]
       ++ opt_field "spent_usd" json_f64 spent ++ [("type", Str kind)]).

(* @src breaker.rs BreakerVerdict::to_error_json *)
Definition to_error_json (v : BreakerVerdict) (run_id : string) : Value :=
  let kind := default "" (as_wire_str <$> reason v) in
  Obj [("error", wire_error kind run_id (budget_usd v) (spent_usd v) (policy_id v)
                            (default "" (detail v)) false)].

Definition all_reasons : list BreakerReason :=
  [BudgetExceeded; PolicyViolation; LoopDetected; Killed; WasmPolicy; TaintBlocked;
   DlpBlocked; UnitBudgetExceeded; IdentityMismatch].

Lemma all_reasons_complete r : r ∈ all_reasons.
Proof. destruct r; set_solver. Qed.

#[export] Instance as_wire_str_inj : Inj (=) (=) as_wire_str.
Proof. intros [] []; done. Qed.

(** Every reason has its own wire string; the rendered body carries it with the
    run id and the detail, is never retryable, states the money figures and the
    policy exactly when the verdict has them, and a finite figure is stated as is. *)
Theorem error_body_contract v run_id :
  let e := get "error" (to_error_json v run_id) in
  (e ≫= get_str "type") = Some (default "" (as_wire_str <$> reason v)) ∧
  (∀ w, reason v ≠ None → (e ≫= get_str "type") = Some (as_wire_str w) → reason v = Some w) ∧
  (e ≫= get_str "run_id") = Some run_id ∧
  (e ≫= get_str "reason") = Some (default "" (detail v)) ∧
  (e ≫= get "retryable") = Some (Bool false) ∧
  (e ≫= get "budget_usd") = json_f64 <$> budget_usd v ∧
  (e ≫= get "spent_usd") = json_f64 <$> spent_usd v ∧
  (e ≫= get "policy_id") = Str <$> policy_id v.
Proof.
  destruct v as [t r d b s p w]. unfold to_error_json, wire_error. cbn -[as_wire_str].
  destruct b, s, p; cbn -[as_wire_str]; (split; [done|]);
    (split; [|done]); intros x Hr [= Hx]; destruct r as [r|]; try done;
    simpl in Hx; by apply as_wire_str_inj in Hx as ->.
Qed.

Lemma http_status_family r : http_status r = 402 ∨ http_status r = 403.
Proof. destruct r; simpl; tauto. Qed.
