(* ===== verification/Savings.v ===== *)
(** * What enforcement saved

    [crates/core/src/savings.rs]: the aggregation of the recorded calls into the
    savings report.  Sums are [i64] and wrap. *)

From S2P Require Import Prelude Breaker.

(* @src savings.rs Call *)
Record Call := mkCall {
  run_id : string;
  decision : string;
  cost_microusd : Z;    (* i64 *)
  saved_microusd : Z    (* i64 *)
}.

(* @src savings.rs BUDGET_PROTECTION_REASONS *)
Definition BUDGET_PROTECTION_REASONS : list string :=
  ["budget_exceeded"; "loop_detected"; "policy_violation"; "wasm_policy"; "killed"].

(* @src savings.rs is_budget_protection *)
Definition is_budget_protection (d : string) : bool :=
  bool_decide (d ∈ BUDGET_PROTECTION_REASONS).

(* @src savings.rs SavingsReport *)
Record SavingsReport := mkSavings {
  blocked_spend_microusd : Z;
  budget_breaks_prevented : nat;
  blocked_calls : nat;
  by_reason_microusd : gmap string Z;
  cache_saved_microusd : Z;
  router_saved_microusd : Z
}.

(** The accumulators of the loop. *)
Record Acc := mkAcc {
  a_spend : Z; a_calls : nat; a_breaks : gset string; a_by_reason : gmap string Z;
  a_cache : Z; a_router : Z
}.

Definition acc0 : Acc := mkAcc 0 0 ∅ ∅ 0 0.

(** The body of the loop. *)
(* @src savings.rs 95-113 compute_savings *)
Definition add_call (a : Acc) (c : Call) : Acc :=
  let cache := if bool_decide (decision c = "cache_hit")
               then i64_wrap (a_cache a + saved_microusd c) else a_cache a in
  let router := if bool_decide (decision c = "allow")
                then i64_wrap (a_router a + saved_microusd c) else a_router a in
  if is_budget_protection (decision c) then
    mkAcc (i64_wrap (a_spend a + cost_microusd c)) (S (a_calls a))
          (a_breaks a ∪ {[run_id c]})
          (<[decision c :=
               i64_wrap (default 0 (a_by_reason a !! decision c) + cost_microusd c)]>
             (a_by_reason a))
          cache router
  else mkAcc (a_spend a) (a_calls a) (a_breaks a) (a_by_reason a) cache router.

(* @src savings.rs compute_savings *)
Definition compute_savings (calls : list Call) : SavingsReport :=
  let a := foldl add_call acc0 calls in
  mkSavings (a_spend a) (size (a_breaks a)) (a_calls a) (a_by_reason a)
            (a_cache a) (a_router a).

(** ** Correctness *)

Definition protecting (calls : list Call) : list Call :=
  filter (λ c, is_budget_protection (decision c) = true) calls.
Definition deciding (d : string) (calls : list Call) : list Call :=
  filter (λ c, decision c = d) calls.

(** The loop state after [calls], in closed form. *)
Record summarises (calls : list Call) (a : Acc) : Prop := {
  sum_spend : a_spend a = i64_wrap (zsum (cost_microusd <$> protecting calls));
  sum_calls : a_calls a = length (protecting calls);
  sum_breaks : a_breaks a = list_to_set (run_id <$> protecting calls);
  sum_reason d : a_by_reason a !! d =
    (if decide (is_budget_protection d = true ∧ deciding d calls ≠ []) then
       Some (i64_wrap (zsum (cost_microusd <$> deciding d calls))) else None);
  sum_cache : a_cache a = i64_wrap (zsum (saved_microusd <$> deciding "cache_hit" calls));
  sum_router : a_router a = i64_wrap (zsum (saved_microusd <$> deciding "allow" calls))
}.

Lemma deciding_snoc d calls c :
  deciding d (calls ++ [c]) = deciding d calls ++ (if decide (decision c = d) then [c] else []).
Proof. unfold deciding. by rewrite filter_app, filter_cons, filter_nil. Qed.

Lemma protecting_snoc calls c :
  protecting (calls ++ [c])
  = protecting calls ++ (if is_budget_protection (decision c) then [c] else []).
Proof.
  unfold protecting. rewrite filter_app, filter_cons, filter_nil.
  by destruct (is_budget_protection _).
Qed.

(** One wrapping sum extended by one more row. *)
Lemma sum_dim d (f : Call → Z) calls c old :
  old = i64_wrap (zsum (f <$> deciding d calls)) →
  (if bool_decide (decision c = d) then i64_wrap (old + f c) else old)
  = i64_wrap (zsum (f <$> deciding d (calls ++ [c]))).
Proof.
  intros ->. rewrite deciding_snoc.
  case_bool_decide as E; [rewrite decide_True by done|rewrite decide_False by done].
  - by rewrite zsum_fmap_snoc, i64_wrap_add_l.
  - by rewrite app_nil_r.
Qed.

Lemma by_reason_step calls a c d :
  summarises calls a →
  a_by_reason (add_call a c) !! d =
    (if decide (is_budget_protection d = true ∧ deciding d (calls ++ [c]) ≠ []) then
       Some (i64_wrap (zsum (cost_microusd <$> deciding d (calls ++ [c])))) else None).
Proof.
  intros [_ _ _ Hr _ _]. unfold add_call.
  destruct (is_budget_protection (decision c)) eqn:Hb; simpl; rewrite deciding_snoc.
  - rewrite lookup_insert. destruct (decide (decision c = d)) as [<-|Hne].
    + rewrite (decide_True (P := _ ∧ _)).
      2: { split; [done|]. by destruct (deciding _ calls). }
      rewrite zsum_fmap_snoc, Hr.
      case_decide as Hd; simpl; [by rewrite i64_wrap_add_l|].
      destruct (deciding (decision c) calls); [done|]. exfalso. by apply Hd.
    + by rewrite app_nil_r, Hr.
  - rewrite Hr. destruct (decide (decision c = d)) as [<-|Hne]; [|by rewrite app_nil_r].
    rewrite !decide_False; [done| |]; rewrite Hb; by intros [? _].
Qed.

Lemma add_call_summarises calls a c :
  summarises calls a → summarises (calls ++ [c]) (add_call a c).
Proof.
  intros H. pose proof (by_reason_step calls a c) as Hr. destruct H as [H1 H2 H3 H4 H5 H6].
  split; [| | |intros d; apply Hr; by split| |]; unfold add_call; rewrite ?protecting_snoc;
    destruct (is_budget_protection (decision c)) eqn:Hb; simpl; rewrite ?app_nil_r;
    try done; try (by apply sum_dim).
  - by rewrite H1, zsum_fmap_snoc, i64_wrap_add_l.
  - rewrite H2, length_app. simpl. lia.
  - rewrite H3, fmap_app, list_to_set_app_L. simpl. by rewrite union_empty_r_L.
Qed.

Lemma fold_summarises calls : summarises calls (foldl add_call acc0 calls).
Proof.
  induction calls as [|c calls IH] using rev_ind.
  - split; try done. intros d. rewrite decide_False; [done|]. by intros [_ ?].
  - rewrite foldl_app. by apply add_call_summarises.
Qed.

(** The savings report is the sum, per dimension, of exactly the rows of that
    dimension: blocked spend and blocked calls over the budget-protection rows, the
    runs among them counted once, each reason's spend over its own rows, cache and
    router savings over the [cache_hit] and the [allow] rows. *)
Theorem savings_by_dimension calls :
  blocked_spend_microusd (compute_savings calls)
    = i64_wrap (zsum (cost_microusd <$> protecting calls)) ∧
  blocked_calls (compute_savings calls) = length (protecting calls) ∧
  budget_breaks_prevented (compute_savings calls)
    = size (list_to_set (C := gset string) (run_id <$> protecting calls)) ∧
  (∀ d, by_reason_microusd (compute_savings calls) !! d
    = if decide (is_budget_protection d = true ∧ deciding d calls ≠ []) then
        Some (i64_wrap (zsum (cost_microusd <$> deciding d calls))) else None) ∧
  cache_saved_microusd (compute_savings calls)
    = i64_wrap (zsum (saved_microusd <$> deciding "cache_hit" calls)) ∧
  router_saved_microusd (compute_savings calls)
    = i64_wrap (zsum (saved_microusd <$> deciding "allow" calls)).
Proof.
  destruct (fold_summarises calls) as [H1 H2 H3 H4 H5 H6]. unfold compute_savings. simpl.
  by rewrite H3.
Qed.

(** The security blocks are not dollar savings; of the reasons the breaker gives the
    402 budget status, all are counted but the business unit's cap. *)
Theorem budget_reasons_counted r :
  is_budget_protection (as_wire_str r) = true ↔
  http_status r = 402 ∧ r ≠ UnitBudgetExceeded.
Proof. destruct r; vm_compute; naive_solver. Qed.
