(* ===== verification/Backtest.v ===== *)
(** * Policy backtesting

    [crates/core/src/backtest.rs]: the replay of a candidate policy over the
    recorded calls.  Runs are visited in key order, each in step order. *)

From S2P Require Import Prelude.

(* @src backtest.rs Call *)
Record Call := mkCall { run_id : string; step : Z (* u32 *); cost_microusd : Z (* i64 *) }.

(* @src backtest.rs BacktestPolicy *)
Record BacktestPolicy := mkBacktestPolicy {
  budget_per_run_micro : option Z;
  budget_per_step_micro : option Z;
  max_steps : option Z
}.

(* @src backtest.rs BacktestPolicy::is_empty *)
Definition is_empty (p : BacktestPolicy) : bool :=
  match budget_per_run_micro p, budget_per_step_micro p, max_steps p with
  | None, None, None => true
  | _, _, _ => false
  end.

(* @src backtest.rs BacktestReport *)
Record BacktestReport := mkReport {
  runs_total : Z;
  runs_affected : Z;
  calls_total : Z;
  calls_blocked : Z;
  spent_microusd : Z;
  saved_microusd : Z
}.

(* @src backtest.rs BacktestReport::projected_microusd *)
Definition projected_microusd (r : BacktestReport) : Z :=
  i64_wrap (spent_microusd r - saved_microusd r).

(** The variables of the replay of one run. *)
Record Replay := mkReplay {
  report : BacktestReport;
  running : Z;
  steps : Z;
  stopped : bool;
  affected : bool
}.

(** [calls_blocked += 1; saved += cost; affected = true]. *)
Definition block_call (stop : bool) (s : Replay) (c : Call) : Replay :=
  let r := report s in
  mkReplay
    (mkReport (runs_total r) (runs_affected r) (calls_total r)
              (u64_wrap (calls_blocked r + 1)) (spent_microusd r)
              (i64_wrap (saved_microusd r + cost_microusd c)))
    (running s) (steps s) (stopped s || stop) true.

Definition over (limit : option Z) (test : Z → bool) : bool :=
  match limit with Some l => test l | None => false end.

(** One turn of the inner loop, the four [continue]s included. *)
(* @src backtest.rs 83-121 backtest *)
Definition replay_call (p : BacktestPolicy) (s : Replay) (c : Call) : Replay :=
  if stopped s then block_call false s c
  else if over (max_steps p) (λ max, max <=? steps s) then block_call true s c
  else if over (budget_per_run_micro p) (λ b, b <? i64_wrap (running s + cost_microusd c))
       then block_call true s c
  else if over (budget_per_step_micro p) (λ cap, cap <? cost_microusd c)
       then block_call false s c
  else mkReplay (report s) (i64_wrap (running s + cost_microusd c))
                (u32_wrap (steps s + 1)) false (affected s).

(** The replay of one run on top of the report so far. *)
(* @src backtest.rs 76-125 backtest *)
Definition replay_run (p : BacktestPolicy) (r : BacktestReport) (calls : list Call)
  : BacktestReport :=
  let s := foldl (replay_call p) (mkReplay r 0 0 false false)
                 (sort_by (λ a b, step a <=? step b) calls) in
  let r := report s in
  if affected s then
    mkReport (runs_total r) (u64_wrap (runs_affected r + 1)) (calls_total r)
             (calls_blocked r) (spent_microusd r) (saved_microusd r)
  else r.

(* @src backtest.rs backtest *)
Definition backtest (calls : list Call) (p : BacktestPolicy) : BacktestReport :=
  let by_run := group_by run_id calls in
  let r := mkReport (Z.of_nat (size by_run)) 0 (Z.of_nat (length calls)) 0
                    (foldl (λ z c, i64_wrap (z + cost_microusd c)) 0 calls) 0 in
  foldl (replay_run p) r (snd <$> btree_list by_run).

(** ** Conservation *)

Definition total (calls : list Call) : Z := zsum (cost_microusd <$> calls).

Lemma total_snoc l c : total (l ++ [c]) = total l + cost_microusd c.
Proof. apply zsum_fmap_snoc. Qed.

Definition costs_nonneg (calls : list Call) : Prop :=
  Forall (λ c, 0 ≤ cost_microusd c) calls.

Lemma total_nonneg l : costs_nonneg l → 0 ≤ total l.
Proof. intros H. by apply zsum_nonneg, Forall_fmap. Qed.

Lemma total_perm l k : l ≡ₚ k → total l = total k.
Proof. unfold total. by intros ->. Qed.

(** Within one run: what was saved plus what was let through is what was spent. *)
Definition replay_ok (p : BacktestPolicy) (saved0 : Z) (done_ : Z) (s : Replay) : Prop :=
  saved_microusd (report s) + running s = saved0 + done_ ∧
  0 ≤ running s ∧ saved0 ≤ saved_microusd (report s) ∧
  (∀ b, budget_per_run_micro p = Some b → running s ≤ Z.max 0 b).

Lemma replay_call_ok p saved0 d s c :
  0 ≤ saved0 → 0 ≤ cost_microusd c → saved0 + d + cost_microusd c ≤ i64_max →
  replay_ok p saved0 d s → replay_ok p saved0 (d + cost_microusd c) (replay_call p s c).
Proof.
  intros H0 Hc Hmax (H1 & H2 & H3 & H4). unfold replay_call.
  assert (∀ stop, replay_ok p saved0 (d + cost_microusd c) (block_call stop s c)) as Hblk.
  { intros stop. unfold replay_ok, block_call. simpl.
    rewrite i64_wrap_id by mach. repeat split; try done; lia. }
  case_match; [apply Hblk|]. case_match; [apply Hblk|]. case_match eqn:Hb; [apply Hblk|].
  case_match; [apply Hblk|]. unfold replay_ok. simpl.
  rewrite i64_wrap_id in * by mach. repeat split; try lia.
  intros b Hbud. rewrite Hbud in Hb. simpl in Hb. breflect. lia.
Qed.

Lemma replay_fold_ok p saved0 l s d :
  0 ≤ saved0 → costs_nonneg l → saved0 + d + total l ≤ i64_max → replay_ok p saved0 d s →
  replay_ok p saved0 (d + total l) (foldl (replay_call p) s l).
Proof.
  intros H0 Hl. revert s d. induction Hl as [|c l Hc Hl IH]; intros s d Hm Hs; simpl.
  - by rewrite Z.add_0_r.
  - unfold total in *. rewrite zsum_fmap_cons in *. rewrite Z.add_assoc in *.
    pose proof (total_nonneg l Hl) as Hp. unfold total in Hp.
    apply IH; [lia|]. apply replay_call_ok; try done. lia.
Qed.

(** The untouched figures. *)
Lemma replay_fold_frame p l s :
  spent_microusd (report (foldl (replay_call p) s l)) = spent_microusd (report s).
Proof.
  revert s. induction l as [|c l IH]; intros s; simpl; [done|]. rewrite IH.
  unfold replay_call, block_call. by repeat case_match.
Qed.

Definition cap_of (p : BacktestPolicy) (t : Z) : Z :=
  match budget_per_run_micro p with Some b => Z.max 0 b | None => t end.

Lemma replay_run_ok p r calls :
  0 ≤ saved_microusd r → costs_nonneg calls → saved_microusd r + total calls ≤ i64_max →
  spent_microusd (replay_run p r calls) = spent_microusd r ∧
  ∃ kept, saved_microusd (replay_run p r calls) + kept = saved_microusd r + total calls ∧
          0 ≤ kept ≤ total calls ∧ kept ≤ cap_of p (total calls).
Proof.
  intros H0 Hc Hm.
  set (s0 := mkReplay r 0 0 false false). set (l := sort_by (λ a b, step a <=? step b) calls).
  assert (total l = total calls) as Ht by apply total_perm, sort_by_perm.
  assert (costs_nonneg l) as Hl.
  { unfold costs_nonneg, l. by rewrite sort_by_perm. }
  destruct (replay_fold_ok p (saved_microusd r) l s0 0) as (H1 & H2 & H3 & H4);
    [done|done|lia|unfold replay_ok; simpl; repeat split; intros; lia|].
  pose proof (replay_fold_frame p l s0) as Hf.
  unfold replay_run. fold l. fold s0. set (s := foldl (replay_call p) s0 l) in *.
  split; [by destruct (affected s)|]. exists (running s).
  assert (saved_microusd (if affected s then
     mkReport (runs_total (report s)) (u64_wrap (runs_affected (report s) + 1))
       (calls_total (report s)) (calls_blocked (report s)) (spent_microusd (report s))
       (saved_microusd (report s)) else report s) = saved_microusd (report s)) as ->
    by by destruct (affected s).
  split; [lia|]. split; [lia|]. unfold cap_of.
  destruct (budget_per_run_micro p) as [b|]; [by apply H4|lia].
Qed.

Lemma runs_fold_ok p gs r :
  0 ≤ saved_microusd r → Forall costs_nonneg gs →
  saved_microusd r + zsum (total <$> gs) ≤ i64_max →
  spent_microusd (foldl (replay_run p) r gs) = spent_microusd r ∧
  ∃ kept, saved_microusd (foldl (replay_run p) r gs) + kept
          = saved_microusd r + zsum (total <$> gs) ∧ 0 ≤ kept ≤ zsum (total <$> gs) ∧
          kept ≤ zsum ((λ g, cap_of p (total g)) <$> gs).
Proof.
  intros H0 Hg. revert r H0. induction Hg as [|g gs Hc Hgs IH]; intros r H0 Hm; cbn [foldl].
  - split; [done|]. exists 0. simpl in *. lia.
  - rewrite !zsum_fmap_cons in *. pose proof (total_nonneg g Hc).
    assert (0 ≤ zsum (total <$> gs)).
    { apply zsum_nonneg, Forall_fmap. eapply Forall_impl; [exact Hgs|]. apply total_nonneg. }
    destruct (replay_run_ok p r g) as (Hs & k1 & Hk1 & ? & Hc1); [done|done|lia|].
    destruct (IH (replay_run p r g)) as (Hs' & k2 & Hk2 & ? & Hc2); [lia|lia|].
    split; [congruence|]. exists (k1 + k2). lia.
Qed.

Lemma spent_sum calls z :
  0 ≤ z → costs_nonneg calls → z + total calls ≤ i64_max →
  foldl (λ z c, i64_wrap (z + cost_microusd c)) z calls = z + total calls.
Proof.
  intros Hz Hc. revert z Hz. induction Hc as [|c l Hc Hl IH]; intros z Hz Hm; simpl.
  - unfold total. simpl. lia.
  - unfold total in *. rewrite zsum_fmap_cons in *. pose proof (total_nonneg l Hl) as Hp.
    unfold total in Hp. rewrite i64_wrap_id by mach. rewrite IH; lia.
Qed.

(** A backtest accounts for every microdollar of the trace: what the candidate
    policy would have saved and what it would have let through add up to what was
    spent, and with a per-run budget what it lets through is at most that budget
    for each run. *)
Theorem backtest_conserves calls p :
  costs_nonneg calls → total calls ≤ i64_max →
  let r := backtest calls p in
  spent_microusd r = total calls ∧
  0 ≤ saved_microusd r ≤ spent_microusd r ∧
  saved_microusd r + projected_microusd r = spent_microusd r ∧
  (∀ b, budget_per_run_micro p = Some b → 0 ≤ b →
        projected_microusd r ≤ b * Z.of_nat (size (group_by run_id calls))).
Proof.
  intros Hc Hm r. pose proof (total_nonneg calls Hc) as Ht.
  set (gs := snd <$> btree_list (group_by run_id calls)).
  assert (zsum (total <$> gs) = total calls) as Hsum.
  { unfold gs. rewrite <- list_fmap_compose. unfold btree_list. rewrite sort_by_perm.
    apply (group_by_sum run_id total); [done|]. intros l x. rewrite total_snoc.
    unfold total. simpl. lia. }
  assert (Forall costs_nonneg gs) as Hgs.
  { apply Forall_fmap, Forall_forall. intros [k g]. rewrite btree_list_elem.
    intros [-> _]%group_by_some. apply Forall_forall. intros c [_ Hin]%list_elem_of_filter.
    by eapply Forall_forall in Hc. }
  destruct (runs_fold_ok p gs (mkReport (Z.of_nat (size (group_by run_id calls))) 0
      (Z.of_nat (length calls)) 0
      (foldl (λ z c, i64_wrap (z + cost_microusd c)) 0 calls) 0))
    as (Hs & kept & Hk & Hb & Hcap); [done|done|simpl; lia|].
  cbn [saved_microusd spent_microusd] in *.
  change (foldl (replay_run p) _ gs) with r in Hs, Hk.
  rewrite spent_sum in Hs by (try done; lia).
  assert (projected_microusd r = kept) as Hp.
  { unfold projected_microusd. rewrite i64_wrap_id by mach. lia. }
  split; [lia|]. split; [lia|]. split; [lia|]. intros b Hbud Hb0. rewrite Hp.
  etrans; [exact Hcap|]. unfold cap_of. rewrite Hbud.
  assert (∀ g : list (list Call), zsum ((λ _, Z.max 0 b) <$> g) = Z.of_nat (length g) * b) as ->.
  { intros g. induction g as [|x g IH]; [done|]. rewrite zsum_fmap_cons, IH. simpl. lia. }
  unfold gs. rewrite length_fmap. unfold btree_list. rewrite sort_by_length, length_map_to_list. lia.
Qed.

Definition demo_trace : list Call :=
  [mkCall "a" 2 30; mkCall "b" 1 5; mkCall "a" 1 40; mkCall "a" 3 50].

Lemma backtest_conserves_witness :
  saved_microusd (backtest demo_trace (mkBacktestPolicy (Some 60) None None)) = 80 ∧
  projected_microusd (backtest demo_trace (mkBacktestPolicy (Some 60) None None)) <= 60 * 2.
Proof.
  split; [by vm_compute|].
  apply (backtest_conserves demo_trace (mkBacktestPolicy (Some 60) None None));
    [repeat constructor; simpl; lia|vm_compute; discriminate|done|lia].
Defined.
