(* ===== verification/Outcomes.v ===== *)
(** * Unit economics per outcome tag

    [crates/core/src/outcomes.rs]: the last non-empty tag of a run wins, and every
    call is folded into the bucket of its run's tag. *)

From S2P Require Import Prelude Breaker.

(* @src outcomes.rs Call *)
Record Call := mkCall {
  run_id : string;
  decision : string;
  cost_microusd : Z;   (* i64 *)
  outcome : string;
  step : Z             (* u32 *)
}.

(* @src outcomes.rs BLOCKED_DECISIONS *)
Definition BLOCKED_DECISIONS : list BreakerReason :=
  [BudgetExceeded; PolicyViolation; LoopDetected; Killed; WasmPolicy; TaintBlocked;
   DlpBlocked; UnitBudgetExceeded; IdentityMismatch].

(* @src outcomes.rs is_blocked_decision *)
Definition is_blocked_decision (d : string) : bool :=
  existsb (λ r, bool_decide (as_wire_str r = d)) BLOCKED_DECISIONS.

(* @src outcomes.rs OutcomeRow *)
Record OutcomeRow := mkRow {
  row_outcome : option string;
  runs : Z;
  total_cost_microusd : Z;
  row_calls : nat;
  blocked_calls : nat
}.

(* @src outcomes.rs OutcomeRow::mean_cost_microusd *)
Definition mean_cost_microusd (r : OutcomeRow) : Z :=
  if runs r =? 0 then 0 else Z.quot (total_cost_microusd r) (runs r).

(** Ordering of pass 1: by run, then by step. *)
(* @src outcomes.rs 135 compute_outcomes *)
Definition call_leb (a b : Call) : bool :=
  if bool_decide (run_id a = run_id b) then step a <=? step b
  else str_leb (run_id a) (run_id b).

(* @src outcomes.rs 134-141 compute_outcomes *)
Definition winners (calls : list Call) : gmap string string :=
  foldl (λ w c, if bool_decide (outcome c = "") then w else <[run_id c := outcome c]> w)
        ∅ (sort_by call_leb calls).

(* @src outcomes.rs 144-150 Acc *)
Record Acc := mkAcc {
  acc_runs : gset string;
  acc_cost : Z;
  acc_calls : nat;
  acc_blocked : nat
}.

Definition acc0 : Acc := mkAcc ∅ 0 0 0.

(* @src outcomes.rs 155-161 compute_outcomes *)
Definition acc_add (a : Acc) (c : Call) : Acc :=
  if is_blocked_decision (decision c)
  then mkAcc (acc_runs a ∪ {[run_id c]}) (acc_cost a) (S (acc_calls a)) (S (acc_blocked a))
  else mkAcc (acc_runs a ∪ {[run_id c]}) (i64_wrap (acc_cost a + cost_microusd c))
             (S (acc_calls a)) (acc_blocked a).

(* @src outcomes.rs 151-162 compute_outcomes *)
Definition buckets (w : gmap string string) (calls : list Call) : gmap (option string) Acc :=
  foldl (λ m c, <[w !! run_id c := acc_add (default acc0 (m !! (w !! run_id c))) c]> m) ∅ calls.

(** By tag, the untagged row last. *)
(* @src outcomes.rs 174-179 compute_outcomes *)
Definition row_leb (a b : OutcomeRow) : bool :=
  match row_outcome a, row_outcome b with
  | None, None => true
  | None, Some _ => false
  | Some _, None => true
  | Some x, Some y => str_leb x y
  end.

(* @src outcomes.rs compute_outcomes *)
Definition compute_outcomes (calls : list Call) : list OutcomeRow :=
  let w := winners calls in
  sort_by row_leb
    ((λ '(t, a), mkRow t (Z.of_nat (size (acc_runs a))) (acc_cost a) (acc_calls a)
                       (acc_blocked a)) <$> map_to_list (buckets w calls)).

(** ** Correctness *)

Definition unblocked (l : list Call) : list Call :=
  filter (λ c, is_blocked_decision (decision c) = false) l.
Definition blocked (l : list Call) : list Call :=
  filter (λ c, is_blocked_decision (decision c) = true) l.

(** The bucket of a group of calls, and its row. *)
Definition acc_of (g : list Call) : Acc :=
  mkAcc (list_to_set (run_id <$> g)) (i64_wrap (zsum (cost_microusd <$> unblocked g)))
        (length g) (length (blocked g)).

Definition row_of (t : option string) (g : list Call) : OutcomeRow :=
  mkRow t (Z.of_nat (size (list_to_set (C := gset string) (run_id <$> g))))
        (i64_wrap (zsum (cost_microusd <$> unblocked g))) (length g) (length (blocked g)).

Definition tag (calls : list Call) (c : Call) : option string := winners calls !! run_id c.

Lemma acc_of_snoc g c : acc_of (g ++ [c]) = acc_add (acc_of g) c.
Proof.
  unfold acc_of, acc_add, unblocked, blocked.
  rewrite !filter_app, !filter_cons, !filter_nil, length_app, fmap_app, list_to_set_app_L.
  destruct (is_blocked_decision (decision c)); simpl;
    rewrite ?app_nil_r, ?zsum_fmap_snoc, ?i64_wrap_add_l, ?length_app, union_empty_r_L,
      Nat.add_1_r; f_equal; simpl; lia.
Qed.

Lemma buckets_group w calls :
  buckets w calls = acc_of <$> group_by (λ c, w !! run_id c) calls.
Proof.
  induction calls as [|c l IH] using rev_ind; [done|].
  unfold buckets in *. rewrite foldl_app, group_by_snoc. cbn [foldl]. rewrite IH.
  unfold group_push. rewrite fmap_insert, acc_of_snoc, lookup_fmap.
  by destruct (group_by _ l !! _).
Qed.

Lemma outcome_rows calls :
  compute_outcomes calls ≡ₚ
  (λ p, row_of p.1 p.2) <$> map_to_list (group_by (tag calls) calls).
Proof.
  unfold compute_outcomes. rewrite sort_by_perm, buckets_group, map_to_list_fmap.
  rewrite <- list_fmap_compose. erewrite list_fmap_ext; [reflexivity|]. by intros i [t g].
Qed.

Lemma row_leb_total a b : row_leb a b = true ∨ row_leb b a = true.
Proof.
  unfold row_leb. destruct (row_outcome a), (row_outcome b); auto. apply str_leb_total.
Qed.

Lemma row_leb_trans a b c : row_leb a b = true → row_leb b c = true → row_leb a c = true.
Proof.
  unfold row_leb. destruct (row_outcome a), (row_outcome b), (row_outcome c); try done.
  apply str_leb_trans.
Qed.

(** The winner of a run is its last non-empty tag, in step order. *)
Lemma winners_last calls r :
  winners calls !! r
  = last (outcome <$> filter (λ c, run_id c = r ∧ outcome c ≠ "") (sort_by call_leb calls)).
Proof.
  unfold winners. induction (sort_by call_leb calls) as [|c l IH] using rev_ind; [done|].
  rewrite foldl_app, filter_app, filter_cons, filter_nil, fmap_app. cbn [foldl].
  case_bool_decide as He.
  - rewrite decide_False by tauto. by rewrite app_nil_r.
  - rewrite lookup_insert. destruct (decide (run_id c = r)) as [<-|Hne].
    + rewrite decide_True by done. simpl. by rewrite last_snoc.
    + rewrite decide_False by tauto. by rewrite app_nil_r.
Qed.

(** The outcome report has one row per tag that wins some run, with exactly the
    figures of the calls of those runs (blocked rows counted but never charged); the
    rows are ordered by tag, the untagged one last; and they partition the trace:
    every call and every blocked call is counted in exactly one row. *)
Theorem outcomes_partition calls :
  (∀ row, row ∈ compute_outcomes calls ↔
     ∃ g, group_by (tag calls) calls !! row_outcome row = Some g ∧
          row = row_of (row_outcome row) g) ∧
  StronglySorted (λ a b, row_leb a b = true) (compute_outcomes calls) ∧
  zsum ((λ r, Z.of_nat (row_calls r)) <$> compute_outcomes calls) = Z.of_nat (length calls) ∧
  zsum ((λ r, Z.of_nat (blocked_calls r)) <$> compute_outcomes calls)
    = Z.of_nat (length (blocked calls)).
Proof.
  split; [|split; [|split]].
  - intros row. rewrite outcome_rows, list_elem_of_fmap. split.
    + intros ([t g] & -> & Hg%elem_of_map_to_list). simpl. eauto.
    + intros (g & Hg & Hr). exists (row_outcome row, g). split; [done|].
      by apply elem_of_map_to_list.
  - apply sort_by_sorted; [apply row_leb_total|apply row_leb_trans].
  - rewrite outcome_rows, <- list_fmap_compose.
    apply (group_by_sum (tag calls) (λ g, Z.of_nat (length g))); [done|].
    intros l x. rewrite length_app. simpl. lia.
  - rewrite outcome_rows, <- list_fmap_compose.
    apply (group_by_sum (tag calls) (λ g, Z.of_nat (length (blocked g)))); [done|].
    intros l x. unfold blocked. rewrite filter_app, length_app. lia.
Qed.

(** The blocked decisions are the breaker's reasons, all of them. *)
Lemma is_blocked_decision_iff d : is_blocked_decision d = true ↔ ∃ r, as_wire_str r = d.
Proof.
  unfold is_blocked_decision. rewrite existsb_Exists, Exists_exists.
  setoid_rewrite bool_decide_eq_true. split; [intros (r & _ & <-); eauto|].
  intros [r <-]. exists r. split; [apply all_reasons_complete|done].
Qed.
