(* ===== verification/Timefmt.v ===== *)
(** * Calendar arithmetic

    [crates/core/src/timefmt.rs]: days since the epoch to a civil date and back, and
    the RFC 3339 forms.  [div_euclid] and [rem_euclid] by a positive constant are
    [Z.div] and [Z.modulo]; the other divisions are of non-negative numbers. *)

From S2P Require Import Prelude Float.

(* @src timefmt.rs civil_from_days *)
Definition civil_from_days (z : Z) : Z * Z * Z :=
  let z := i64_wrap (z + 719468) in
  let era := z / 146097 in
  let doe := z mod 146097 in
  let yoe := (doe - doe / 1460 + doe / 36524 - doe / 146096) / 365 in
  let y := yoe + era * 400 in
  let doy := doe - (365 * yoe + yoe / 4 - yoe / 100) in
  let mp := (5 * doy + 2) / 153 in
  let d := doy - (153 * mp + 2) / 5 + 1 in
  let m := if mp <? 10 then mp + 3 else mp - 9 in
  let y := if m <=? 2 then y + 1 else y in
  (y, m, d).

(* @src timefmt.rs days_from_civil *)
Definition days_from_civil (y m d : Z) : Z :=
  let y := if m <=? 2 then y - 1 else y in
  let era := y / 400 in
  let yoe := y mod 400 in
  let mp := (m + 9) mod 12 in
  let doy := (153 * mp + 2) / 5 + d - 1 in
  let doe := yoe * 365 + yoe / 4 - yoe / 100 + doy in
  era * 146097 + doe - 719468.

(** [{z:0width}]: zero padding after the sign. *)
Definition pad0 (width : nat) (z : Z) : string :=
  if z <? 0 then "-" +:+ pad_left (width - 1) (pretty (- z)) else pad_left width (pretty z).

Definition date_time (secs : Z) : string :=
  let '(y, m, d) := civil_from_days (secs / 86400) in
  let secs_of_day := secs mod 86400 in
  pad0 4 y +:+ "-" +:+ pad0 2 m +:+ "-" +:+ pad0 2 d +:+ "T"
  +:+ pad0 2 (secs_of_day / 3600) +:+ ":" +:+ pad0 2 (secs_of_day mod 3600 / 60)
  +:+ ":" +:+ pad0 2 (secs_of_day mod 60).

(* @src timefmt.rs ts_millis_to_rfc3339 *)
Definition ts_millis_to_rfc3339 (ms : Z) : string := date_time (ms / 1000) +:+ "Z".

(* @src timefmt.rs ts_millis_to_rfc3339_millis *)
Definition ts_millis_to_rfc3339_millis (ms : Z) : string :=
  date_time (ms / 1000) +:+ "." +:+ pad0 3 (ms mod 1000) +:+ "Z".

(** ** The Gregorian calendar *)

Definition leap (y : Z) : bool :=
  (y mod 4 =? 0) && (negb (y mod 100 =? 0) || (y mod 400 =? 0)).

Definition month_length (y m : Z) : Z :=
  if m =? 2 then (if leap y then 29 else 28)
  else if (m =? 4) || (m =? 6) || (m =? 9) || (m =? 11) then 30 else 31.

Definition valid_date (y m d : Z) : bool :=
  (1 <=? m) && (m <=? 12) && (1 <=? d) && (d <=? month_length y m).

(** The year of the era of a day of the era, and the first day of a year of the era
    (years start in March). *)
Definition yoe_of (doe : Z) : Z := (doe - doe / 1460 + doe / 36524 - doe / 146096) / 365.
Definition year_start (y : Z) : Z := 365 * y + y / 4 - y / 100.
Definition leap_after (y : Z) : Prop :=
  (y + 1) mod 4 = 0 ∧ ((y + 1) mod 100 ≠ 0 ∨ y = 399).

Ltac div_lia := Z.to_euclidean_division_equations; lia.

(** Split on the century and on the last day of the era, and solve. *)
Ltac era_cases doe :=
  let H1 := fresh in let H2 := fresh in
  assert (doe / 36524 = 0 ∨ doe / 36524 = 1 ∨ doe / 36524 = 2 ∨ doe / 36524 = 3
          ∨ doe / 36524 = 4) as H1 by div_lia;
  assert (doe / 146096 = 0 ∨ doe / 146096 = 1) as H2 by div_lia;
  destruct H1 as [H1|[H1|[H1|[H1|H1]]]]; destruct H2 as [H2|H2];
  rewrite ?H1, ?H2; div_lia.

Lemma yoe_bounds doe :
  0 ≤ doe < 146097 →
  0 ≤ yoe_of doe ≤ 399 ∧ 0 ≤ doe - year_start (yoe_of doe) ≤ 365.
Proof. unfold yoe_of, year_start. intros H. era_cases doe. Qed.

Lemma yoe_last_day doe :
  0 ≤ doe < 146097 → doe - year_start (yoe_of doe) = 365 → leap_after (yoe_of doe).
Proof. unfold yoe_of, year_start, leap_after. intros H. era_cases doe. Qed.

Lemma year_day_bounds y doy :
  0 ≤ y ≤ 399 → 0 ≤ doy ≤ 365 → (doy = 365 → leap_after y) →
  0 ≤ year_start y + doy < 146097.
Proof. unfold year_start, leap_after. intros. div_lia. Qed.

Lemma yoe_of_day y doy :
  0 ≤ y ≤ 399 → 0 ≤ doy ≤ 365 → (doy = 365 → leap_after y) →
  yoe_of (year_start y + doy) = y.
Proof.
  intros Hy Hd Hl. pose proof (year_day_bounds y doy Hy Hd Hl) as H.
  remember (year_start y + doy) as doe eqn:Ed. revert Ed Hl.
  unfold yoe_of, year_start, leap_after. era_cases doe.
Qed.

Lemma leap_iff y : leap y = true ↔ y mod 4 = 0 ∧ (y mod 100 ≠ 0 ∨ y mod 400 = 0).
Proof.
  unfold leap. rewrite andb_true_iff, orb_true_iff, negb_true_iff, !Z.eqb_eq, Z.eqb_neq. tauto.
Qed.

Lemma leap_era yoe era : 0 ≤ yoe ≤ 399 → leap_after yoe ↔ leap (yoe + era * 400 + 1) = true.
Proof. intros H. rewrite leap_iff. unfold leap_after. div_lia. Qed.

Lemma valid_date_iff y m d :
  valid_date y m d = true ↔ 1 ≤ m ≤ 12 ∧ 1 ≤ d ≤ month_length y m.
Proof. unfold valid_date. rewrite !andb_true_iff, !Z.leb_le. lia. Qed.

(** Month [mp] of the March year, as a calendar month, and its days. *)
Definition month_of (mp : Z) : Z := if mp <? 10 then mp + 3 else mp - 9.

Lemma month_split (P : Z → Prop) :
  P 0 → P 1 → P 2 → P 3 → P 4 → P 5 → P 6 → P 7 → P 8 → P 9 → P 10 → P 11 →
  ∀ mp, 0 ≤ mp ≤ 11 → P mp.
Proof.
  intros. assert (mp = 0 ∨ mp = 1 ∨ mp = 2 ∨ mp = 3 ∨ mp = 4 ∨ mp = 5 ∨ mp = 6 ∨ mp = 7
                  ∨ mp = 8 ∨ mp = 9 ∨ mp = 10 ∨ mp = 11) by lia. naive_solver.
Qed.

(** A day of the March year is a day of its month. *)
Lemma month_day y doy :
  0 ≤ doy ≤ 365 → (doy = 365 → leap (y + 1) = true) →
  let mp := (5 * doy + 2) / 153 in
  let m := month_of mp in
  0 ≤ mp ≤ 11 ∧ (m + 9) mod 12 = mp ∧
  valid_date (if m <=? 2 then y + 1 else y) m (doy - (153 * mp + 2) / 5 + 1) = true.
Proof.
  intros Hd Hl mp m. assert (0 ≤ mp ≤ 11) as Hmp by (unfold mp; div_lia). split; [done|].
  assert (153 * mp ≤ 5 * doy + 2 < 153 * mp + 153) as Hb by (unfold mp; div_lia).
  unfold m. clearbody mp. clear m. rewrite valid_date_iff. revert Hb.
  pattern mp. revert mp Hmp. apply month_split; intros Hb; unfold month_of, month_length;
    cbn [Z.ltb Z.eqb Z.leb Z.compare Pos.compare Pos.compare_cont Pos.eqb orb];
    (split; [done|]); try (simpl; div_lia).
  simpl. destruct (leap (y + 1)) eqn:E; [div_lia|].
  assert (doy ≠ 365) by (intros ->; by specialize (Hl eq_refl)). div_lia.
Qed.

(** A valid day of a month gives back its month. *)
Lemma day_month y m d :
  valid_date y m d = true →
  let mp := (m + 9) mod 12 in
  let doy := (153 * mp + 2) / 5 + d - 1 in
  0 ≤ doy ≤ 365 ∧ (5 * doy + 2) / 153 = mp ∧ month_of mp = m ∧
  (doy = 365 → m <= 2 ∧ leap y = true).
Proof.
  intros Hv%valid_date_iff mp. destruct Hv as [Hm Hd].
  assert (m = 1 ∨ m = 2 ∨ m = 3 ∨ m = 4 ∨ m = 5 ∨ m = 6 ∨ m = 7 ∨ m = 8 ∨ m = 9 ∨ m = 10
          ∨ m = 11 ∨ m = 12) as H by lia. clear Hm. subst mp.
  repeat (destruct H as [->|H]); try subst m; unfold month_length in Hd; simpl in *;
    try (destruct (leap y)); unfold month_of; simpl; (split; [div_lia|]); (split; [div_lia|]);
    (split; [done|]); intros E; first [exfalso; div_lia | split; [lia|done]].
Qed.

Lemma civil_from_days_eq z :
  in_i64 (z + 719468) →
  civil_from_days z =
  let era := (z + 719468) / 146097 in
  let yoe := yoe_of ((z + 719468) mod 146097) in
  let doy := (z + 719468) mod 146097 - year_start yoe in
  let mp := (5 * doy + 2) / 153 in
  ((if month_of mp <=? 2 then yoe + era * 400 + 1 else yoe + era * 400),
   month_of mp, doy - (153 * mp + 2) / 5 + 1).
Proof. intros H. unfold civil_from_days. by rewrite i64_wrap_id. Qed.

Lemma days_from_civil_eq y m d :
  days_from_civil y m d =
  let y := if m <=? 2 then y - 1 else y in
  y / 400 * 146097
  + (year_start (y mod 400) + ((153 * ((m + 9) mod 12) + 2) / 5 + d - 1)) - 719468.
Proof. unfold days_from_civil, year_start. simpl. lia. Qed.

Lemma day_roundtrip z :
  in_i64 (z + 719468) →
  let '(y, m, d) := civil_from_days z in
  valid_date y m d = true ∧ days_from_civil y m d = z.
Proof.
  intros Hz. rewrite civil_from_days_eq by done. cbv zeta.
  set (n := z + 719468). pose proof (Z.mod_pos_bound n 146097).
  set (doe := n mod 146097) in *. destruct (yoe_bounds doe) as [Hy Hdoy]; [lia|].
  set (yoe := yoe_of doe) in *. set (doy := doe - year_start yoe) in *.
  set (era := n / 146097).
  destruct (month_day (yoe + era * 400) doy) as (Hmp & Hback & Hv); [done| |].
  { intros E. apply leap_era; [done|]. apply yoe_last_day; [lia|done]. }
  set (mp := (5 * doy + 2) / 153) in *. split; [exact Hv|].
  rewrite days_from_civil_eq. cbv zeta. rewrite Hback.
  assert ((if month_of mp <=? 2 then (if month_of mp <=? 2 then yoe + era * 400 + 1
                                      else yoe + era * 400) - 1
           else (if month_of mp <=? 2 then yoe + era * 400 + 1 else yoe + era * 400))
          = yoe + era * 400) as -> by (destruct (month_of mp <=? 2); lia).
  replace ((yoe + era * 400) / 400) with era by div_lia.
  replace ((yoe + era * 400) mod 400) with yoe by div_lia.
  pose proof (Z.div_mod n 146097). fold era doe in H0. unfold doy. lia.
Qed.

Lemma date_roundtrip y m d :
  valid_date y m d = true → in_i64 (days_from_civil y m d + 719468) →
  civil_from_days (days_from_civil y m d) = (y, m, d).
Proof.
  intros Hv Hr. rewrite civil_from_days_eq by done. cbv zeta. rewrite days_from_civil_eq in *.
  cbv zeta in *. destruct (day_month y m d Hv) as (Hdoy & Hmp & Hm & Hleap).
  set (mp := (m + 9) mod 12) in *. set (doy := (153 * mp + 2) / 5 + d - 1) in *.
  set (y' := if m <=? 2 then y - 1 else y) in *.
  assert (doy = 365 → leap_after (y' mod 400)) as Hl.
  { intros E. destruct (Hleap E) as [H2 Hy].
    rewrite (leap_era _ (y' / 400)) by div_lia.
    replace (y' mod 400 + y' / 400 * 400 + 1) with y; [done|].
    unfold y'. rewrite (proj2 (Z.leb_le m 2) H2). div_lia. }
  pose proof (year_day_bounds (y' mod 400) doy) as Hb.
  pose proof (yoe_of_day (y' mod 400) doy) as Hyoe.
  assert (0 ≤ y' mod 400 ≤ 399) as Hy400 by div_lia.
  specialize (Hb Hy400 Hdoy Hl). specialize (Hyoe Hy400 Hdoy Hl).
  set (doe := year_start (y' mod 400) + doy) in *.
  replace (y' / 400 * 146097 + doe - 719468 + 719468) with (doe + y' / 400 * 146097) by lia.
  rewrite Z.mod_add, Z.div_add, (Z.mod_small doe), (Z.div_small doe) by lia. rewrite Hyoe.
  replace (doe - year_start (y' mod 400)) with doy by (unfold doe; lia).
  rewrite Hmp, Hm. f_equal; [f_equal|unfold doy; lia]. unfold y'.
  destruct (m <=? 2); div_lia.
Qed.

(** The calendar conversions are inverse to each other between all days an
    [i64] can name and all valid Gregorian dates, leap years included. *)
Theorem civil_roundtrip :
  (∀ z, in_i64 (z + 719468) →
        let '(y, m, d) := civil_from_days z in
        valid_date y m d = true ∧ days_from_civil y m d = z) ∧
  (∀ y m d, valid_date y m d = true → in_i64 (days_from_civil y m d + 719468) →
            civil_from_days (days_from_civil y m d) = (y, m, d)).
Proof. split; [apply day_roundtrip|apply date_roundtrip]. Qed.

Example civil_ex : civil_from_days 20643 = (2026, 7, 9).
Proof. reflexivity. Qed.
Example rfc3339_ex : ts_millis_to_rfc3339_millis 1783566764100 = "2026-07-09T03:12:44.100Z".
Proof. vm_compute. reflexivity. Qed.

Lemma civil_roundtrip_witness :
  civil_from_days 19782 = (2024, 2, 29) ∧ days_from_civil 2024 2 29 = 19782.
Proof.
  split; [reflexivity|].
  assert (in_i64 (19782 + 719468)) as H by mach.
  exact (proj2 (proj1 civil_roundtrip 19782 H)).
Defined.
