(* ===== verification/AuditChain.v ===== *)
(** * The hash-chained audit trail

    [crates/core/src/audit.rs].  SHA-256 is a function from bytes to a digest; the
    theorems that need it assume no collision among the pre-images at hand. *)

From S2P Require Import Prelude Strings.

(* @src audit.rs SEP *)
Definition SEP : ascii := ascii_of_nat 31.

(* @src audit.rs AuditEntry *)
Record AuditEntry := mkEntry {
  seq : Z;              (* u64 *)
  ts_millis : Z;        (* i64 *)
  actor : string;
  action : string;
  subject : string;
  detail : string;
  prev_hash : string;
  entry_hash : string
}.

#[export] Instance AuditEntry_eq_dec : EqDecision AuditEntry.
Proof. solve_decision. Defined.

Definition is_control (c : ascii) : bool := (nat_of_ascii c <? 32)%nat.

(** U+FFFD in UTF-8. *)
Definition REPLACEMENT : string :=
  String (ascii_of_nat 239) (String (ascii_of_nat 191) (String (ascii_of_nat 189) "")).

(** A control character is one byte, and no other character has such a byte, so
    the map over characters is a map over bytes. *)
(* @src audit.rs sanitize_field *)
Definition sanitize_field (s : string) : string :=
  if str_all (λ c, negb (is_control c)) s then s
  else str_map (λ c, if is_control c then REPLACEMENT else String c "") s.

(* @src audit.rs hex_lower *)
Definition hex_lower (bytes : string) : string := str_map hex_byte bytes.

(** The joined fields an entry is hashed over. *)
(* @src audit.rs 102-104 compute_hash *)
Definition pre_image (seq ts : Z) (actor action subject detail prev : string) : string :=
  join_char SEP [pretty seq; pretty ts; actor; action; subject; detail; prev].

(* @src audit.rs manifest_signing_bytes *)
Definition manifest_signing_bytes (org : string) (tip_seq : Z) (tip_hash : string)
    (entry_count signed_at : Z) : string :=
  join_char SEP [org; pretty tip_seq; tip_hash; pretty entry_count; pretty signed_at].

Section chain.
(** [Sha256::digest] *)
Context (sha256 : string → string).

(* @src audit.rs compute_hash *)
Definition compute_hash (seq ts : Z) (actor action subject detail prev : string) : string :=
  hex_lower (sha256 (pre_image seq ts actor action subject detail prev)).

(* @src audit.rs append *)
Definition append (prev : option AuditEntry) (ts : Z) (actor action subject detail : string)
  : AuditEntry :=
  let n := match prev with Some p => u64_wrap (seq p + 1) | None => 0 end in
  let ph := match prev with Some p => entry_hash p | None => "" end in
  let actor := sanitize_field actor in
  let action := sanitize_field action in
  let subject := sanitize_field subject in
  let detail := sanitize_field detail in
  mkEntry n ts actor action subject detail ph
          (compute_hash n ts actor action subject detail ph).

(** The two guards of one turn of the verification loop. *)
(* @src audit.rs 172-188 verify_chain *)
Definition link_ok (prev : option AuditEntry) (e : AuditEntry) : bool :=
  let expected_seq := match prev with Some p => u64_wrap (seq p + 1) | None => 0 end in
  let expected_prev := match prev with Some p => entry_hash p | None => "" end in
  (seq e =? expected_seq) && bool_decide (prev_hash e = expected_prev)
  && bool_decide (compute_hash (seq e) (ts_millis e) (actor e) (action e) (subject e)
                               (detail e) (prev_hash e) = entry_hash e).

Fixpoint verify_from (prev : option AuditEntry) (i : nat) (es : list AuditEntry)
  : result unit nat :=
  match es with
  | [] => Ok tt
  | e :: es => if link_ok prev e then verify_from (Some e) (S i) es else Err i
  end.

(* @src audit.rs verify_chain *)
Definition verify_chain (es : list AuditEntry) : result unit nat := verify_from None 0 es.

(** A log filled through [append], oldest first. *)
Record Event := mkEvent { ev_ts : Z; ev_actor : string; ev_action : string;
                          ev_subject : string; ev_detail : string }.

Definition record (log : list AuditEntry) (ev : Event) : list AuditEntry :=
  log ++ [append (last log) (ev_ts ev) (ev_actor ev) (ev_action ev) (ev_subject ev)
                 (ev_detail ev)].

Definition log_of (evs : list Event) : list AuditEntry := foldl record [] evs.

(** ** Verification *)

Definition before (prev : option AuditEntry) (es : list AuditEntry) (i : nat)
  : option AuditEntry :=
  match i with O => prev | S i => es !! i end.

Lemma verify_from_ok prev i es :
  verify_from prev i es = Ok tt ↔
  ∀ j e, es !! j = Some e → link_ok (before prev es j) e = true.
Proof.
  revert prev i. induction es as [|e es IH]; intros prev i; simpl; [done|].
  destruct (link_ok prev e) eqn:E.
  - rewrite IH. split.
    + intros H [|j] e' Hj; simplify_eq/=; [done|]. specialize (H j e' Hj).
      by destruct j.
    + intros H j e' Hj. specialize (H (S j) e' Hj). by destruct j.
  - split; [done|]. intros H. specialize (H O e eq_refl). simpl in H. congruence.
Qed.

Lemma verify_from_err prev i es k :
  verify_from prev i es = Err k →
  ∃ j e, k = (i + j)%nat ∧ es !! j = Some e ∧ link_ok (before prev es j) e = false ∧
         ∀ j' e', (j' < j)%nat → es !! j' = Some e' → link_ok (before prev es j') e' = true.
Proof.
  revert prev i. induction es as [|e es IH]; intros prev i; simpl; [done|].
  destruct (link_ok prev e) eqn:E.
  - intros (j & e' & -> & Hj & Hf & Hb)%IH. exists (S j), e'.
    split; [lia|]. split; [done|]. split; [by destruct j|].
    intros [|j'] e'' Hlt Hj'; simplify_eq/=; [done|]. specialize (Hb j' e'').
    destruct j'; apply Hb; (lia || done).
  - intros [= <-]. exists O, e. split; [lia|]. split; [done|]. split; [done|]. lia.
Qed.

Lemma append_link_ok prev ts a b c d : link_ok prev (append prev ts a b c d) = true.
Proof.
  unfold link_ok, append. simpl. rewrite Z.eqb_refl. by rewrite !bool_decide_true.
Qed.

Lemma verify_snoc es e :
  verify_chain es = Ok tt → link_ok (last es) e = true → verify_chain (es ++ [e]) = Ok tt.
Proof.
  unfold verify_chain. rewrite !verify_from_ok. intros H He j e' Hj.
  assert (∀ n, (n ≤ length es)%nat → before None (es ++ [e]) n = before None es n) as Hb.
  { intros [|n] Hn; simpl; [done|]. by apply lookup_app_l. }
  apply lookup_app_Some in Hj as [Hj|[Hle Hj]].
  - rewrite Hb; [auto|]. apply lookup_lt_Some in Hj. lia.
  - apply list_lookup_singleton_Some in Hj as [Hz <-].
    rewrite Hb by lia. replace j with (length es) by lia.
    rewrite last_lookup in He. destruct es; simpl in *; [done|]. done.
Qed.

Lemma log_of_verifies evs : verify_chain (log_of evs) = Ok tt.
Proof.
  unfold log_of. induction evs as [|ev evs IH] using rev_ind; [done|].
  rewrite foldl_app. simpl. apply verify_snoc; [done|]. apply append_link_ok.
Qed.

(** A log filled through [append] verifies end to end; and [verify_chain] fails
    on any other sequence at its first broken entry: every entry before it links
    to its predecessor and re-hashes to its own hash, and it does not. *)
Theorem verify_chain_first_break evs es :
  verify_chain (log_of evs) = Ok tt ∧
  match verify_chain es with
  | Ok _ => ∀ j e, es !! j = Some e → link_ok (before None es j) e = true
  | Err j => ∃ e, es !! j = Some e ∧ link_ok (before None es j) e = false ∧
                  ∀ j' e', (j' < j)%nat → es !! j' = Some e' →
                           link_ok (before None es j') e' = true
  end.
Proof.
  split; [apply log_of_verifies|]. destruct (verify_chain es) as [[]|k] eqn:E; unfold verify_chain in E.
  - by rewrite verify_from_ok in E.
  - apply verify_from_err in E as (j & e & -> & Hj & Hf & Hb). by exists e.
Qed.

(** ** Tamper evidence *)

Lemma sanitize_free s : free_of SEP (sanitize_field s).
Proof.
  unfold sanitize_field. destruct (str_all _ s) eqn:E; [by eapply free_of_all; [|exact E]|].
  clear E. unfold free_of. induction s as [|c s IH]; simpl; [done|].
  rewrite count_char_append, IH, Nat.add_0_r. destruct (is_control c) eqn:Hc; [done|].
  simpl. rewrite bool_decide_false; [done|]. by intros <-.
Qed.

Lemma hex_lower_hex s : str_all is_hex (hex_lower s) = true.
Proof.
  unfold hex_lower. induction s as [|c s IH]; cbn [str_map]; [done|].
  by rewrite str_all_append, hex_byte_hex.
Qed.

Lemma hex_free s : free_of SEP (hex_lower s).
Proof. by apply (free_of_all SEP _ is_hex), hex_lower_hex. Qed.

Lemma pretty_free (z : Z) : free_of SEP (pretty z).
Proof. by apply (free_of_all SEP _ digit_or_minus), pretty_Z_digits. Qed.

Lemma hex_lower_inj s t : hex_lower s = hex_lower t → s = t.
Proof.
  unfold hex_lower. revert t. induction s as [|c s IH]; intros [|d t]; try done.
  intros H. cbn [str_map] in H.
  apply append_inj_len in H as [Hc Hs]; [|done].
  by rewrite (hex_byte_inj _ _ Hc), (IH _ Hs).
Qed.

Definition entry_pre (e : AuditEntry) : string :=
  pre_image (seq e) (ts_millis e) (actor e) (action e) (subject e) (detail e) (prev_hash e).

(** The fields [append] writes. *)
Definition clean (e : AuditEntry) : Prop :=
  free_of SEP (actor e) ∧ free_of SEP (action e) ∧ free_of SEP (subject e) ∧
  free_of SEP (detail e) ∧ free_of SEP (prev_hash e).

Lemma pre_image_inj e e' :
  clean e → entry_pre e = entry_pre e' → entry_hash e = entry_hash e' → e = e'.
Proof.
  intros (H1 & H2 & H3 & H4 & H5) Hp Hh. unfold entry_pre, pre_image in Hp.
  apply join_char_inj in Hp; [|done|repeat constructor; auto using pretty_free].
  destruct e, e'; simpl in *. injection Hp as Hs Ht -> -> -> -> ->.
  apply (inj pretty) in Hs, Ht. by subst.
Qed.

Lemma log_clean evs : Forall clean (log_of evs).
Proof.
  assert (Forall (λ e, clean e ∧ free_of SEP (entry_hash e)) (log_of evs)) as H.
  { unfold log_of. induction evs as [|ev evs IH] using rev_ind; [constructor|].
    rewrite foldl_app. cbn [foldl]. unfold record at 1. apply Forall_app. split; [done|].
    constructor; [|constructor]. split; [|apply hex_free].
    unfold clean, append. simpl. repeat split; try apply sanitize_free.
    destruct (last _) as [p|] eqn:El; [|done].
    apply last_Some_elem_of in El. rewrite Forall_forall in IH. by apply IH. }
  eapply Forall_impl; [exact H|]. by intros e [? _].
Qed.

(** No two different pre-images among the two sequences collide. *)
Definition no_collision (es es' : list AuditEntry) : Prop :=
  ∀ e e', e ∈ es → e' ∈ es' → sha256 (entry_pre e) = sha256 (entry_pre e') →
          entry_pre e = entry_pre e'.

Lemma link_hash prev e : link_ok prev e = true → hex_lower (sha256 (entry_pre e)) = entry_hash e.
Proof.
  unfold link_ok. rewrite !andb_true_iff, !bool_decide_eq_true. by intros [_ H].
Qed.

Lemma link_prev p e : link_ok (Some p) e = true → prev_hash e = entry_hash p.
Proof.
  unfold link_ok. rewrite !andb_true_iff, !bool_decide_eq_true. by intros [[_ H] _].
Qed.

Lemma link_seq prev e :
  link_ok prev e = true →
  seq e = match prev with Some p => u64_wrap (seq p + 1) | None => 0 end.
Proof. unfold link_ok. rewrite !andb_true_iff, Z.eqb_eq. by intros [[H _] _]. Qed.

Lemma verified_seq es i e :
  verify_chain es = Ok tt → Z.of_nat (length es) ≤ u64_max → es !! i = Some e →
  seq e = Z.of_nat i.
Proof.
  unfold verify_chain. rewrite verify_from_ok. intros Hv Hlen. revert e.
  induction i as [|i IH]; intros e Hi; pose proof (Hv _ _ Hi) as Hl%link_seq; simpl in Hl.
  - done.
  - pose proof (lookup_lt_Some _ _ _ Hi). destruct (lookup_lt_is_Some_2 es i) as [p Hp]; [lia|].
    rewrite Hp, (IH p Hp) in Hl. rewrite u64_wrap_id in Hl by mach. lia.
Qed.

(** Verified entries of equal hash are equal, and so are all before them. *)
Lemma same_hash_same_prefix evs es' i e e' :
  verify_chain es' = Ok tt → no_collision (log_of evs) es' →
  log_of evs !! i = Some e → es' !! i = Some e' → entry_hash e = entry_hash e' →
  ∀ j, (j ≤ i)%nat → log_of evs !! j = es' !! j.
Proof.
  intros Hv' Hnc. pose proof (log_of_verifies evs) as Hv. pose proof (log_clean evs) as Hc.
  unfold verify_chain in Hv, Hv'. rewrite verify_from_ok in Hv, Hv'.
  rewrite Forall_forall in Hc. revert e e'.
  induction i as [|i IH]; intros e e' Hi Hi' Hh j Hj;
    pose proof (Hv _ _ Hi) as Hl; pose proof (Hv' _ _ Hi') as Hl';
    (assert (e = e') as <-;
     [apply pre_image_inj; [by eapply Hc, list_elem_of_lookup_2| |done];
      apply Hnc; [by eapply list_elem_of_lookup_2..|];
      apply hex_lower_inj; by rewrite (link_hash _ _ Hl), (link_hash _ _ Hl')|]).
  - replace j with O by lia. congruence.
  - simpl in Hl, Hl'.
    pose proof (lookup_lt_Some _ _ _ Hi). destruct (lookup_lt_is_Some_2 (log_of evs) i) as [p Hp]; [lia|].
    pose proof (lookup_lt_Some _ _ _ Hi'). destruct (lookup_lt_is_Some_2 es' i) as [p' Hp']; [lia|].
    rewrite Hp in Hl. rewrite Hp' in Hl'. apply link_prev in Hl, Hl'.
    destruct (decide (j = S i)) as [->|]; [congruence|].
    apply (IH p p' Hp Hp'); [congruence|lia].
Qed.

(** C36: tamper evidence.  A sequence of entries that verifies and ends in the tip
    of a genuine log is that log: no past entry was edited, removed, added or
    reordered, whatever bytes an editor put into the fields, as long as SHA-256
    has no collision among the entries involved. *)
Theorem audit_tamper_evident evs es' e e' :
  verify_chain es' = Ok tt →
  no_collision (log_of evs) es' →
  Z.of_nat (length es') ≤ u64_max → Z.of_nat (length (log_of evs)) ≤ u64_max →
  last (log_of evs) = Some e → last es' = Some e' → entry_hash e = entry_hash e' →
  es' = log_of evs.
Proof.
  intros Hv' Hnc Hlen' Hlen He He' Hh. pose proof (log_of_verifies evs) as Hv.
  rewrite last_lookup in He, He'.
  assert (e = e') as <-.
  { pose proof Hv as Hlv. pose proof Hv' as Hlv'. unfold verify_chain in Hlv, Hlv'.
    rewrite verify_from_ok in Hlv, Hlv'.
    apply pre_image_inj; [|apply Hnc|done].
    - pose proof (log_clean evs) as Hc. rewrite Forall_forall in Hc.
      by eapply Hc, list_elem_of_lookup_2.
    - by eapply list_elem_of_lookup_2.
    - by eapply list_elem_of_lookup_2.
    - apply hex_lower_inj. rewrite (link_hash _ _ (Hlv _ _ He)), (link_hash _ _ (Hlv' _ _ He')).
      done. }
  pose proof (verified_seq _ _ _ Hv Hlen He) as Hs.
  pose proof (verified_seq _ _ _ Hv' Hlen' He') as Hs'.
  pose proof (lookup_lt_Some _ _ _ He). pose proof (lookup_lt_Some _ _ _ He').
  assert (length es' = length (log_of evs)) as Hl by lia. rewrite Hl in He'.
  apply list_eq. intros j. destruct (decide (j < length es')%nat).
  - symmetry. eapply (same_hash_same_prefix evs es'); try done. lia.
  - rewrite !lookup_ge_None_2 by lia. done.
Qed.

(** the signed manifest binds its org, tip, count and time: two manifests over
    the same bytes agree in every field, even for an org name that contains the
    separator. *)
Theorem manifest_binds org seq1 hash1 n1 t1 org' seq1' hash1' n1' t1' :
  manifest_signing_bytes org seq1 (hex_lower hash1) n1 t1
  = manifest_signing_bytes org' seq1' (hex_lower hash1') n1' t1' →
  org = org' ∧ seq1 = seq1' ∧ hash1 = hash1' ∧ n1 = n1' ∧ t1 = t1'.
Proof.
  unfold manifest_signing_bytes. rewrite !join_char_cons. intros Heq.
  rewrite <- !(join_char_cons SEP) in Heq.
  set (l := [pretty seq1; hex_lower hash1; pretty n1; pretty t1]) in *.
  set (l' := [pretty seq1'; hex_lower hash1'; pretty n1'; pretty t1']) in *.
  change (org +:+ String SEP (join_char SEP l) = org' +:+ String SEP (join_char SEP l')) in Heq.
  assert (Forall (free_of SEP) l ∧ Forall (free_of SEP) l') as [Hl Hl']
    by (split; repeat constructor; auto using pretty_free, hex_free).
  apply sep_split_count in Heq as [-> Hj].
  - apply join_char_inj in Hj; [|done|done]. injection Hj as Hs Hh Hn Ht.
    apply (inj pretty) in Hs, Hn, Ht. apply hex_lower_inj in Hh. done.
  - unfold l, l' in *. rewrite !count_join. simpl.
    repeat match goal with H : Forall _ (_ :: _) |- _ => inversion H; subst; clear H end.
    unfold free_of in *. lia.
Qed.
End chain.

(** A toy digest that keeps the whole input. *)
Definition toy (s : string) : string := s.

Definition demo_events : list Event :=
  [mkEvent 10 "key:ab" "control.kill" "run-1" "hard"; mkEvent 12 "dev:1" "control.budget" "run-2" "5"].

Lemma audit_tamper_evident_witness :
  log_of toy demo_events = log_of toy demo_events ∧ length (log_of toy demo_events) = 2%nat.
Proof.
  split; [|by vm_compute].
  destruct (last (log_of toy demo_events)) as [e|] eqn:E; [|by vm_compute in E].
  refine (audit_tamper_evident toy demo_events (log_of toy demo_events) e e _ _ _ _ E E eq_refl).
  - by vm_compute.
  - by intros ? ? _ _.
  - by vm_compute.
  - by vm_compute.
Defined.

Lemma manifest_binds_witness :
  "o" = "o" ∧ (3 : Z) = 3 ∧ "h" = "h" ∧ (4 : Z) = 4 ∧ (9 : Z) = 9.
Proof. apply (manifest_binds "o" 3 "h" 4 9 "o" 3 "h" 4 9). reflexivity. Defined.

Example sanitize_ex :
  sanitize_field (String SEP "x") = REPLACEMENT +:+ "x" ∧ sanitize_field "run-1" = "run-1".
Proof. done. Qed.
