(* ===== verification/SecretBroker.v ===== *)
(** * Credential brokering

    [crates/core/src/secretbroker.rs]: the vault and the substitution of
    [{{secret:NAME}}] handles inside the strings of a JSON document. *)

From S2P Require Import Prelude Float Json Strings.

(* @src secretbroker.rs SecretVault *)
Abbreviation SecretVault := (gmap string string).

Module SecretVault.
(* @src secretbroker.rs SecretVault::new *)
Definition new : SecretVault := ∅.

(* @src secretbroker.rs SecretVault::insert *)
Definition insert (name value : string) (v : SecretVault) : SecretVault := <[name := value]> v.

(* @src secretbroker.rs SecretVault::get *)
Definition get (v : SecretVault) (name : string) : option string := v !! name.

(* @src secretbroker.rs SecretVault::is_empty *)
Definition is_empty (v : SecretVault) : bool := bool_decide (v = ∅).

(* @src secretbroker.rs SecretVault::len *)
Definition len (v : SecretVault) : nat := size v.

(* @src secretbroker.rs SecretVault::from_pairs *)
Definition from_pairs (spec : string) : SecretVault :=
  foldl (λ v pair,
           if is_empty_str (trim pair) then v
           else match split_once "=" pair with
                | Some (name, value) => insert (trim name) (trim value) v
                | None => v
                end) new (split_char "," spec).
End SecretVault.

(* @src secretbroker.rs Injection *)
Record Injection := mkInjection { replaced : nat; missing : list string }.

Definition no_injection : Injection := mkInjection 0 [].

(* @src secretbroker.rs OPEN *)
Definition OPEN : string := "{{secret:".
(* @src secretbroker.rs CLOSE *)
Definition CLOSE : string := "}}".

(** The [while let] loop on [rest]; [out] is the text emitted so far.  Every turn
    consumes at least the opening mark, so the length of the text is enough fuel. *)
Fixpoint replace_loop (fuel : nat) (vault : SecretVault) (inj : Injection)
    (out rest : string) : string * Injection :=
  match fuel with
  | O => (out +:+ rest, inj)
  | S fuel =>
      match split_once OPEN rest with
      | None => (out +:+ rest, inj)
      | Some (before, after) =>
          let out := out +:+ before in
          match split_once CLOSE after with
          | Some (name, rest) =>
              match SecretVault.get vault name with
              | Some secret =>
                  replace_loop fuel vault (mkInjection (S (replaced inj)) (missing inj))
                               (out +:+ secret) rest
              | None =>
                  replace_loop fuel vault (mkInjection (replaced inj) (missing inj ++ [name]))
                               (out +:+ OPEN +:+ name +:+ CLOSE) rest
              end
          | None => (out +:+ OPEN +:+ after, inj)
          end
      end
  end.

(* @src secretbroker.rs replace_handles *)
Definition replace_handles (s : string) (vault : SecretVault) (inj : Injection)
  : string * Injection :=
  replace_loop (S (String.length s)) vault inj "" s.

(* @src secretbroker.rs walk *)
Fixpoint walk (v : Value) (vault : SecretVault) (inj : Injection) : Value * Injection :=
  match v with
  | Str s =>
      if contains OPEN s then
        let '(s, inj) := replace_handles s vault inj in (Str s, inj)
      else (Str s, inj)
  | Arr items =>
      let '(items, inj) :=
        (fix go (l : list Value) (inj : Injection) : list Value * Injection :=
           match l with
           | [] => ([], inj)
           | it :: l =>
               let '(it, inj) := walk it vault inj in
               let '(l, inj) := go l inj in (it :: l, inj)
           end) items inj in (Arr items, inj)
  | Obj m =>
      let '(m, inj) :=
        (fix go (m : list (string * Value)) (inj : Injection)
           : list (string * Value) * Injection :=
           match m with
           | [] => ([], inj)
           | (k, val) :: m =>
               let '(val, inj) := walk val vault inj in
               let '(m, inj) := go m inj in ((k, val) :: m, inj)
           end) m inj in (Obj m, inj)
  | _ => (v, inj)
  end.

(* @src secretbroker.rs inject_secrets *)
Definition inject_secrets (v : Value) (vault : SecretVault) : Value * Injection :=
  walk v vault no_injection.

(** ** Correctness *)

(** A text as literals and handles, in order. *)
Inductive piece := Lit (s : string) | Handle (name : string).

Definition unparse_piece (p : piece) : string :=
  match p with Lit s => s | Handle n => OPEN +:+ n +:+ CLOSE end.
Fixpoint unparse (l : list piece) : string :=
  match l with [] => "" | p :: l => unparse_piece p +:+ unparse l end.

(** What the broker makes of a piece. *)
Definition fill (vault : SecretVault) (p : piece) : string :=
  match p with
  | Lit s => s
  | Handle n => default (OPEN +:+ n +:+ CLOSE) (vault !! n)
  end.
Fixpoint fill_all (vault : SecretVault) (l : list piece) : string :=
  match l with [] => "" | p :: l => fill vault p +:+ fill_all vault l end.

Definition handle_known (vault : SecretVault) (p : piece) : bool :=
  match p with Handle n => bool_decide (is_Some (vault !! n)) | Lit _ => false end.
Definition handle_unknown (vault : SecretVault) (p : piece) : option string :=
  match p with
  | Handle n => match vault !! n with None => Some n | Some _ => None end
  | Lit _ => None
  end.

Definition known (vault : SecretVault) (l : list piece) : nat :=
  length (filter (λ p, handle_known vault p = true) l).
Definition unknown (vault : SecretVault) (l : list piece) : list string :=
  omap (handle_unknown vault) l.

(** The reading of a text: it does not depend on the vault. *)
Fixpoint parse (fuel : nat) (s : string) : list piece :=
  match fuel with
  | O => [Lit s]
  | S fuel =>
      match split_once OPEN s with
      | None => [Lit s]
      | Some (a, after) =>
          match split_once CLOSE after with
          | Some (n, rest) => Lit a :: Handle n :: parse fuel rest
          | None => [Lit a; Lit (OPEN +:+ after)]
          end
      end
  end.

Definition pieces (s : string) : list piece := parse (S (String.length s)) s.

Lemma parse_unparse fuel s : unparse (parse fuel s) = s.
Proof.
  revert s. induction fuel as [|fuel IH]; intros s; cbn [parse].
  - simpl. by rewrite append_nil_r.
  - destruct (split_once OPEN s) as [[a after]|] eqn:E; [|simpl; by rewrite append_nil_r].
    apply split_once_some in E as ->.
    destruct (split_once CLOSE after) as [[n rest]|] eqn:E2;
      cbn [unparse unparse_piece]; [|by rewrite append_nil_r].
    apply split_once_some in E2 as ->. rewrite IH. by rewrite !append_assoc.
Qed.

(** A handle, opened and closed, occurs in the text. *)
Definition has_handle (s : string) : Prop := ∃ x n y, s = x +:+ OPEN +:+ n +:+ CLOSE +:+ y.

Definition well_read (p : piece) : Prop :=
  match p with Handle n => contains CLOSE n = false | Lit s => ¬ has_handle s end.

Lemma no_open_no_handle s : (∀ x y, s ≠ x +:+ OPEN +:+ y) → ¬ has_handle s.
Proof. intros H (x & n & y & E). by eapply H. Qed.

Lemma contains_false_iff pat s : contains pat s = false ↔ ∀ x y, s ≠ x +:+ pat +:+ y.
Proof.
  destruct (contains pat s) eqn:E.
  - apply contains_iff in E as (a & b & E). split; [done|]. intros H. by destruct (H a b).
  - split; [|done]. intros _ x y H. assert (contains pat s = true); [|congruence].
    apply contains_iff. eauto.
Qed.

(** Nothing that could be read as a handle is left in a literal. *)
Lemma parse_well_read fuel s : (String.length s < fuel)%nat → Forall well_read (parse fuel s).
Proof.
  revert s. induction fuel as [|fuel IH]; intros s Hf; [lia|]. cbn [parse].
  destruct (split_once OPEN s) as [[a after]|] eqn:E.
  - pose proof (split_once_first OPEN _ _ _ ltac:(discriminate) E) as Ha. apply split_once_some in E.
    destruct (split_once CLOSE after) as [[n rest]|] eqn:E2.
    + pose proof (split_once_first CLOSE _ _ _ ltac:(discriminate) E2) as Hn.
      apply split_once_some in E2. subst. rewrite !append_length in Hf. simpl in Hf.
      constructor; [exact (no_open_no_handle _ Ha)|].
      constructor; [by apply contains_false_iff|apply IH; lia].
    + constructor; [exact (no_open_no_handle _ Ha)|]. constructor; [|constructor].
      intros (x & m & y & H). rewrite <- (append_assoc x) in H.
      apply append_suffix in H as [z Hz]; [|rewrite append_length; lia].
      rewrite <- append_assoc in Hz. by apply (split_once_none _ _ E2) in Hz.
  - constructor; [|constructor]. by apply no_open_no_handle, split_once_none.
Qed.

Lemma known_handle vault n l :
  known vault (Handle n :: l)
  = (match vault !! n with Some _ => 1 | None => 0 end + known vault l)%nat.
Proof.
  unfold known. rewrite filter_cons. simpl. by destruct (vault !! n).
Qed.

Lemma known_lit vault s l : known vault (Lit s :: l) = known vault l.
Proof. done. Qed.

Lemma replace_loop_spec fuel vault inj out s :
  replace_loop fuel vault inj out s
  = (out +:+ fill_all vault (parse fuel s),
     mkInjection (replaced inj + known vault (parse fuel s))
                 (missing inj ++ unknown vault (parse fuel s))).
Proof.
  revert inj out s. induction fuel as [|fuel IH]; intros inj out s; cbn [replace_loop parse].
  - simpl. rewrite append_nil_r, Nat.add_0_r, app_nil_r. by destruct inj.
  - destruct (split_once OPEN s) as [[a after]|].
    2: { simpl. rewrite append_nil_r, Nat.add_0_r, app_nil_r. by destruct inj. }
    destruct (split_once CLOSE after) as [[n rest]|].
    2: { simpl. rewrite append_nil_r, Nat.add_0_r, app_nil_r, append_assoc. by destruct inj. }
    unfold SecretVault.get. rewrite known_lit, known_handle.
    unfold unknown. cbn [fill_all fill omap list_omap handle_unknown].
    destruct (vault !! n) as [secret|]; rewrite IH; simpl; rewrite !append_assoc; f_equal;
      f_equal; [lia|by rewrite <- app_assoc].
Qed.

(** Brokering a text replaces exactly its handles: the text reads as a sequence of
    literals, none of which contains a handle, and handles; every handle of a known
    name becomes its secret and is counted; every other byte, unknown handles
    included, is kept in place, and the unknown names are reported in order. *)
Theorem replace_handles_spec s vault inj :
  unparse (pieces s) = s ∧ Forall well_read (pieces s) ∧
  replace_handles s vault inj
  = (fill_all vault (pieces s),
     mkInjection (replaced inj + known vault (pieces s))
                 (missing inj ++ unknown vault (pieces s))).
Proof.
  split; [apply parse_unparse|]. split; [apply parse_well_read; lia|].
  apply replace_loop_spec.
Qed.

Lemma fill_all_empty l : fill_all ∅ l = unparse l.
Proof. induction l as [|[] l IH]; simpl; [done|by rewrite IH|]. by rewrite lookup_empty, IH. Qed.

(** The document with every string blanked: keys, order, numbers and nesting. *)
Fixpoint skeleton (v : Value) : Value :=
  match v with
  | Str _ => Str ""
  | Arr l => Arr (map skeleton l)
  | Obj m => Obj (map (λ p, (p.1, skeleton p.2)) m)
  | _ => v
  end.

(** The two inner loops of [walk]. *)
Definition walk_items (vault : SecretVault) :=
  fix go (l : list Value) (inj : Injection) : list Value * Injection :=
    match l with
    | [] => ([], inj)
    | it :: l =>
        let '(it, inj) := walk it vault inj in
        let '(l, inj) := go l inj in (it :: l, inj)
    end.

Definition walk_members (vault : SecretVault) :=
  fix go (m : list (string * Value)) (inj : Injection) : list (string * Value) * Injection :=
    match m with
    | [] => ([], inj)
    | (k, val) :: m =>
        let '(val, inj) := walk val vault inj in
        let '(m, inj) := go m inj in ((k, val) :: m, inj)
    end.

Lemma walk_items_eq vault l inj :
  walk (Arr l) vault inj = (Arr (walk_items vault l inj).1, (walk_items vault l inj).2).
Proof.
  change (walk (Arr l) vault inj)
    with (let '(items, inj) := walk_items vault l inj in (Arr items, inj)).
  by destruct (walk_items vault l inj).
Qed.

Lemma walk_members_eq vault m inj :
  walk (Obj m) vault inj = (Obj (walk_members vault m inj).1, (walk_members vault m inj).2).
Proof.
  change (walk (Obj m) vault inj)
    with (let '(m, inj) := walk_members vault m inj in (Obj m, inj)).
  by destruct (walk_members vault m inj).
Qed.

(** Brokering a document touches only the contents of its strings: keys, order,
    nesting, numbers and booleans are kept; and with an empty vault the document
    itself is returned. *)
Theorem inject_preserves v vault inj :
  skeleton (walk v vault inj).1 = skeleton v ∧ (walk v ∅ inj).1 = v.
Proof.
  revert inj. induction v as [| | |s|l IH|m IH] using Value_ind'; intros inj; try done.
  - simpl. destruct (contains OPEN s); [|done].
    destruct (replace_handles_spec s vault inj) as (_ & _ & ->).
    destruct (replace_handles_spec s ∅ inj) as (Hu & _ & ->).
    simpl. by rewrite fill_all_empty, Hu.
  - split.
    + rewrite walk_items_eq. simpl. f_equal.
      revert inj. induction IH as [|x l Hx _ IHl]; intros inj; [done|]. simpl.
      pose proof (proj1 (Hx inj)). destruct (walk x vault inj) as [x' inj1]. simpl in *.
      pose proof (IHl inj1). destruct (walk_items vault l inj1). simpl in *. congruence.
    + rewrite walk_items_eq. simpl. f_equal.
      revert inj. induction IH as [|x l Hx _ IHl]; intros inj; [done|]. simpl.
      pose proof (proj2 (Hx inj)). destruct (walk x ∅ inj) as [x' inj1]. simpl in *.
      pose proof (IHl inj1). destruct (walk_items ∅ l inj1). simpl in *. congruence.
  - split.
    + rewrite walk_members_eq. simpl. f_equal.
      revert inj. induction IH as [|[k x] l Hx _ IHl]; intros inj; [done|]. simpl in *.
      pose proof (proj1 (Hx inj)). destruct (walk x vault inj) as [x' inj1]. simpl in *.
      pose proof (IHl inj1). destruct (walk_members vault l inj1). simpl in *. congruence.
    + rewrite walk_members_eq. simpl. f_equal.
      revert inj. induction IH as [|[k x] l Hx _ IHl]; intros inj; [done|]. simpl in *.
      pose proof (proj2 (Hx inj)). destruct (walk x ∅ inj) as [x' inj1]. simpl in *.
      pose proof (IHl inj1). destruct (walk_members ∅ l inj1). simpl in *. congruence.
Qed.

Example inject_ex :
  inject_secrets (Obj [("a", Str "Bearer {{secret:gh}} {{secret:x}}"); ("n", Null)])
                 (SecretVault.from_pairs " gh = tok ,, bad ")
  = (Obj [("a", Str "Bearer tok {{secret:x}}"); ("n", Null)], mkInjection 1 ["x"]).
Proof. vm_compute. reflexivity. Qed.
