(* ===== verification/Dlp.v ===== *)
(** * Secret and PII detection

    [crates/core/src/dlp.rs].  The regular-expression engine is a parameter: the
    match spans of a pattern in a text, in order, as [Regex::find_iter] reports
    them.  The patterns themselves, the Luhn gate, the de-overlapping pass, the
    redaction and the summaries are the program's. *)

From S2P Require Import Prelude Strings.

(* @src dlp.rs DlpMode *)
Inductive DlpMode := DlpOff | DlpShadow | DlpMask | DlpBlock.

(* @src dlp.rs Finding *)
Record Finding := mkFinding { kind : string; start : nat; end_ : nat }.

#[export] Instance Finding_eq_dec : EqDecision Finding.
Proof. solve_decision. Defined.

(* @src dlp.rs spans_overlap *)
Definition spans_overlap (a b : Finding) : bool :=
  ((start a <? end_ b) && (start b <? end_ a))%nat.

(* @src dlp.rs patterns *)
Definition patterns : list (string * string) :=
  [("private_key", "-----BEGIN [A-Z ]*PRIVATE KEY-----");
   ("anthropic_key", "sk-ant-[A-Za-z0-9_\-]{20,}");
   ("openai_key", "sk-[A-Za-z0-9_\-]{20,}");
   ("aws_access_key", "AKIA[0-9A-Z]{16}");
   ("google_api_key", "AIza[0-9A-Za-z_\-]{35}");
   ("github_token", "gh[pousr]_[A-Za-z0-9]{36,}");
   ("slack_token", "xox[baprs]-[A-Za-z0-9\-]{10,}");
   ("jwt", "eyJ[A-Za-z0-9_\-]+\.[A-Za-z0-9_\-]+\.[A-Za-z0-9_\-]+");
   ("bearer_token", "Bearer\s+[A-Za-z0-9._\-]{20,}")].

(* @src dlp.rs pii_patterns *)
Definition pii_patterns : list (string * string) :=
  [("pii_email", "[A-Za-z0-9._%+-]+@[A-Za-z0-9.-]+\.[A-Za-z]{2,}");
   ("pii_card", "\b\d(?:[ -]?\d){12,18}\b");
   ("pii_phone", "\+\d(?:[ ()\-]?\d){6,14}\b")].

(** ** The Luhn gate *)

Definition is_digit (c : ascii) : bool :=
  let n := nat_of_ascii c in ((48 <=? n) && (n <=? 57))%nat.

(** [c.to_digit(10)] *)
Definition to_digit (c : ascii) : option Z :=
  if is_digit c then Some (Z.of_nat (nat_of_ascii c) - 48) else None.

(** The contribution of a digit. *)
(* @src dlp.rs 185-194 luhn_valid *)
Definition luhn_digit (double : bool) (d : Z) : Z :=
  if double then (let doubled := d * 2 in if 9 <? doubled then doubled - 9 else doubled)
  else d.

(** The loop over the reversed digits; the [u32] sum of at most nine per byte of a
    string cannot reach its limit for any text under 400 MB. *)
(* @src dlp.rs 179-197 luhn_valid *)
Fixpoint luhn_sum (l : list ascii) (double : bool) (sum : Z) : option Z :=
  match l with
  | [] => Some sum
  | c :: l =>
      match to_digit c with
      | None => None
      | Some d => luhn_sum l (negb double) (u32_wrap (sum + luhn_digit double d))
      end
  end.

Definition chars (s : string) : list ascii := String.list_ascii_of_string s.

(* @src dlp.rs luhn_valid *)
Definition luhn_valid (digits : string) : bool :=
  if is_empty_str digits then false
  else match luhn_sum (rev (chars digits)) false 0 with
       | Some sum => sum mod 10 =? 0
       | None => false
       end.

(* @src dlp.rs all_same_digit *)
Definition all_same_digit (digits : string) : bool :=
  match digits with
  | String first rest => str_all (λ c, bool_decide (c = first)) rest
  | "" => false
  end.

(** ** Scanning *)

(** The order of the de-overlapping pass: leftmost, then longest. *)
Definition span_leb (a b : Finding) : bool :=
  if (start a =? start b)%nat then (end_ b <=? end_ a)%nat else (start a <? start b)%nat.

(* @src dlp.rs 220-228 dedup_overlaps *)
Fixpoint keep_disjoint (last_end : nat) (l : list Finding) : list Finding :=
  match l with
  | [] => []
  | f :: l =>
      if (last_end <=? start f)%nat then f :: keep_disjoint (end_ f) l
      else keep_disjoint last_end l
  end.

(* @src dlp.rs dedup_overlaps *)
Definition dedup_overlaps (found : list Finding) : list Finding :=
  keep_disjoint 0 (sort_by span_leb found).

Section scanning.
(** [re.find_iter(text)] as byte spans. *)
Context (find_iter : string → string → list (nat * nat)).

(* @src dlp.rs scan *)
Definition scan (text : string) : list Finding :=
  dedup_overlaps
    (patterns ≫= λ '(kind, re), (λ '(a, b), mkFinding kind a b) <$> find_iter re text).

(* @src dlp.rs 157-162 scan_pii *)
Definition card_rejected (text : string) (a b : nat) : bool :=
  let digits := str_map (λ c, if is_digit c then String c "" else "") (str_slice a b text) in
  all_same_digit digits || negb (luhn_valid digits).

(* @src dlp.rs scan_pii *)
Definition scan_pii (text : string) : list Finding :=
  dedup_overlaps
    (pii_patterns ≫= λ '(kind, re),
       omap (λ '(a, b),
               if bool_decide (kind = "pii_card") && card_rejected text a b then None
               else Some (mkFinding kind a b)) (find_iter re text)).
End scanning.

(** ** Redaction and summaries *)

Definition label (f : Finding) : string := "[REDACTED:" +:+ kind f +:+ "]".

(* @src dlp.rs 238-240 redact *)
Definition redact_one (s : string) (f : Finding) : string :=
  if (end_ f <=? String.length s)%nat && is_char_boundary s (start f)
     && is_char_boundary s (end_ f)
  then str_take (start f) s +:+ label f +:+ str_drop (end_ f) s
  else s.

(* @src dlp.rs redact *)
Definition redact (text : string) (findings : list Finding) : string :=
  foldl redact_one text (sort_by (λ a b, start b <=? start a)%nat findings).

(** [Vec::dedup] *)
Fixpoint dedup (l : list string) : list string :=
  match l with
  | a :: ((b :: _) as t) => if bool_decide (a = b) then dedup t else a :: dedup t
  | _ => l
  end.

(* @src dlp.rs format_summary *)
Definition format_summary (findings : list Finding) (noun : string) : string :=
  pretty (length findings) +:+ " " +:+ noun +:+ ": "
  +:+ join ", " (dedup (sort_by str_leb (kind <$> findings))).

(* @src dlp.rs summary *)
Definition summary (findings : list Finding) : string := format_summary findings "secret(s)".

(* @src dlp.rs pii_summary *)
Definition pii_summary (findings : list Finding) : string :=
  format_summary findings "pii finding(s)".

Example luhn_ex : luhn_valid "4111111111111111" = true ∧ luhn_valid "4111111111111112" = false.
Proof. done. Qed.

Example summary_ex :
  summary [mkFinding "jwt" 0 3; mkFinding "aws_access_key" 5 7; mkFinding "jwt" 9 12]
  = "3 secret(s): aws_access_key, jwt".
Proof. vm_compute. reflexivity. Qed.

Example redact_ex :
  redact "key AKIA1 and jwt eyJ" [mkFinding "aws" 4 9; mkFinding "jwt" 18 21]
  = "key [REDACTED:aws] and jwt [REDACTED:jwt]".
Proof. vm_compute. reflexivity. Qed.

(** ** De-overlapping *)

Definition disjoint_from (pos : nat) (l : list Finding) : Prop :=
  Forall (λ f, (pos ≤ start f)%nat) l.

(** Ascending, pairwise disjoint spans that begin at or after [pos]. *)
Fixpoint chained (pos : nat) (l : list Finding) : Prop :=
  match l with
  | [] => True
  | f :: l => (pos ≤ start f)%nat ∧ (start f < end_ f)%nat ∧ chained (end_ f) l
  end.

Lemma span_leb_total a b : span_leb a b = true ∨ span_leb b a = true.
Proof. unfold span_leb. repeat case_match; breflect; rewrite ?Nat.eqb_eq, ?Nat.eqb_neq in *;
  rewrite ?Nat.leb_le, ?Nat.ltb_lt; lia. Qed.

Lemma span_leb_trans a b c : span_leb a b = true → span_leb b c = true → span_leb a c = true.
Proof. unfold span_leb. repeat case_match; rewrite ?Nat.eqb_eq, ?Nat.eqb_neq in *;
  rewrite ?Nat.leb_le, ?Nat.ltb_lt in *; intros; try done; lia. Qed.

Lemma span_leb_start a b : span_leb a b = true → (start a ≤ start b)%nat.
Proof. unfold span_leb. case_match; rewrite ?Nat.eqb_eq in *; rewrite ?Nat.ltb_lt; lia. Qed.

Lemma keep_disjoint_chained pos l :
  Forall (λ f, (start f < end_ f)%nat) l → chained pos (keep_disjoint pos l).
Proof.
  intros Hl. revert pos. induction Hl as [|f l Hf Hl IH]; intros pos; simpl; [done|].
  case_match; breflect; [|done]. simpl. auto.
Qed.

Lemma keep_disjoint_sub pos l f : f ∈ keep_disjoint pos l → f ∈ l.
Proof.
  revert pos. induction l as [|g l IH]; intros pos; simpl; [done|].
  case_match; rewrite ?elem_of_cons; naive_solver.
Qed.

(** What is dropped starts inside something kept, or before [pos]. *)
Lemma keep_disjoint_dropped pos l f :
  StronglySorted (λ a b, span_leb a b = true) l → f ∈ l → f ∉ keep_disjoint pos l →
  (start f < pos)%nat ∨
  ∃ g, g ∈ keep_disjoint pos l ∧ (start g ≤ start f < end_ g)%nat.
Proof.
  intros Hs. revert pos. induction Hs as [|g l Hs IH Hg]; intros pos Hin Hnot; [set_solver|].
  simpl in *. apply elem_of_cons in Hin.
  destruct (pos <=? start g)%nat eqn:E; breflect.
  - rewrite not_elem_of_cons in Hnot. destruct Hnot as [Hne Hnot].
    destruct Hin as [->|Hin]; [done|]. rewrite Forall_forall in Hg.
    pose proof (span_leb_start _ _ (Hg f Hin)).
    destruct (IH (end_ g) Hin Hnot) as [Hlt|(h & Hh & ?)].
    + right. exists g. split; [by left|lia].
    + right. exists h. split; [by right|done].
  - destruct Hin as [->|Hin]; [by left|]. by apply IH.
Qed.

(** The de-overlapping pass keeps only reported findings, in ascending and
    pairwise disjoint spans, and drops a finding only if it starts inside a kept one:
    every reported secret starts in a span that will be masked. *)
Theorem dedup_overlaps_spec found :
  Forall (λ f, (start f < end_ f)%nat) found →
  chained 0 (dedup_overlaps found) ∧
  (∀ f, f ∈ dedup_overlaps found → f ∈ found) ∧
  (∀ f, f ∈ found →
     ∃ g, g ∈ dedup_overlaps found ∧ (start g ≤ start f < end_ g)%nat).
Proof.
  intros Hf. unfold dedup_overlaps.
  assert (StronglySorted (λ a b, span_leb a b = true) (sort_by span_leb found)) as Hs
    by (apply sort_by_sorted; [apply span_leb_total|apply span_leb_trans]).
  split; [apply keep_disjoint_chained; by rewrite sort_by_perm|].
  split; [intros f H%keep_disjoint_sub; by rewrite sort_by_elem in H|].
  intros f Hin. destruct (decide (f ∈ keep_disjoint 0 (sort_by span_leb found))) as [Hk|Hk].
  - exists f. split; [done|]. rewrite Forall_forall in Hf. specialize (Hf f Hin). lia.
  - destruct (keep_disjoint_dropped 0 _ f Hs) as [?|?]; [by rewrite sort_by_elem|done|lia|done].
Qed.

(** ** Redaction *)

(** The text from byte [pos] on, with each finding replaced by its label. *)
Fixpoint masked (text : string) (pos : nat) (l : list Finding) : string :=
  match l with
  | [] => str_drop pos text
  | f :: l => str_slice pos (start f) text +:+ label f +:+ masked text (end_ f) l
  end.

(** The findings are spans of whole characters of the text. *)
Definition aligned (text : string) (f : Finding) : Prop :=
  (end_ f ≤ String.length text)%nat ∧ is_char_boundary text (start f) = true ∧
  is_char_boundary text (end_ f) = true.

Lemma sort_desc_rev pos l :
  chained pos l → sort_by (λ a b, start b <=? start a)%nat l = rev l.
Proof.
  assert (∀ x k, Forall (λ y, (start x < start y)%nat) k →
                 insert_by (λ a b, start b <=? start a)%nat x k = k ++ [x]) as Hins.
  { intros x k. induction 1 as [|y k Hy _ IH]; simpl; [done|].
    case_match; breflect; [lia|]. by rewrite IH. }
  assert (∀ p k, chained p k → Forall (λ y, (p ≤ start y)%nat) k) as Hall.
  { intros p k. revert p. induction k as [|y k IH]; intros p; simpl; [constructor|].
    intros (H1 & H2 & H3). constructor; [done|]. eapply Forall_impl; [by apply IH|].
    simpl. intros. lia. }
  revert pos. induction l as [|f l IH]; intros pos; simpl; [done|]. intros (H1 & H2 & H3).
  unfold sort_by in *. simpl. rewrite (IH _ H3). apply Hins. rewrite Forall_forall.
  intros y Hy.
  pose proof (Hall _ _ H3) as Ha. rewrite Forall_forall in Ha.
  rewrite list_elem_of_In, <- in_rev, <- list_elem_of_In in Hy. specialize (Ha y Hy). simpl in Ha. lia.
Qed.

Lemma boundary_take n s r i :
  (n ≤ String.length s)%nat → (i < n)%nat →
  is_char_boundary (str_take n s +:+ r) i = is_char_boundary s i.
Proof.
  intros Hn Hi. unfold is_char_boundary. rewrite append_length, str_take_length by done.
  destruct (i =? 0)%nat; [done|].
  rewrite (proj2 (Nat.leb_gt (n + _) i)), (proj2 (Nat.leb_gt (String.length s) i)) by lia.
  rewrite get_app_l by (rewrite str_take_length; done). by rewrite get_take.
Qed.

Lemma label_head f r : String.get 0 (label f +:+ r) = Some "["%char.
Proof. done. Qed.

(** The first byte of the masked rest starts a character. *)
Lemma masked_head text pos l c :
  is_char_boundary text pos = true → (0 < pos ≤ String.length text)%nat → chained pos l →
  Forall (aligned text) l →
  String.get 0 (masked text pos l) = Some c → is_continuation c = false.
Proof.
  intros Hb Hpos Hch Hal Hget.
  assert (∀ q r, (pos < q ≤ String.length text)%nat →
                 String.get 0 (str_slice pos q text +:+ r) = String.get pos text) as Hs.
  { intros q r Hq. unfold str_slice.
    assert (String.get 0 (str_drop pos (str_take q text)) = String.get pos text) as Hd
      by (by rewrite get_drop, get_take by lia).
    rewrite <- Hd. destruct (str_drop pos (str_take q text)) as [|d t] eqn:E; [|done].
    symmetry in Hd. simpl in Hd. apply get_none in Hd. lia. }
  assert (String.get pos text = Some c → is_continuation c = false) as Hc.
  { intros Hg. unfold is_char_boundary in Hb. case_match; breflect; rewrite ?Nat.eqb_eq in *; [lia|].
    case_match eqn:Hlen; breflect; rewrite ?Nat.eqb_eq in *.
    - assert (String.get pos text = None) by (apply get_none; lia). congruence.
    - rewrite Hg in Hb. by apply negb_true_iff in Hb. }
  destruct l as [|f l]; simpl in Hget.
  - apply Hc. by rewrite get_drop in Hget.
  - destruct Hch as (H1 & H2 & _). apply Forall_cons in Hal as [(Ha & _ & _) _].
    destruct (decide (start f = pos)) as [E|Hne].
    + rewrite E in Hget. unfold str_slice in Hget. rewrite str_drop_all in Hget.
      * injection Hget as <-. done.
      * rewrite str_take_length; lia.
    + apply Hc. rewrite <- Hget. symmetry. apply Hs. lia.
Qed.

Lemma boundary_end n s r :
  (n ≤ String.length s)%nat → (0 < n)%nat →
  (∀ c, String.get 0 r = Some c → is_continuation c = false) →
  is_char_boundary (str_take n s +:+ r) n = true.
Proof.
  intros Hn H0 Hr. unfold is_char_boundary. rewrite append_length, str_take_length by done.
  case_match; [done|]. case_match; breflect.
  - apply Nat.eqb_eq. lia.
  - assert (String.get n (str_take n s +:+ r) = String.get 0 r) as ->.
    { rewrite <- (str_take_length n s) at 1 by done. apply get_app_r. }
    destruct r as [|c r]; [simpl in *; lia|]. simpl. by rewrite (Hr c eq_refl).
Qed.

Lemma redact_from text l pos :
  chained pos l → Forall (aligned text) l → (pos ≤ String.length text)%nat →
  foldl redact_one text (rev l) = str_take pos text +:+ masked text pos l.
Proof.
  revert pos. induction l as [|f l IH]; intros pos Hch Hal Hpos; [simpl; by rewrite str_take_drop|].
  cbn [rev]. destruct Hch as (H1 & H2 & H3). apply Forall_cons in Hal as [(Ha & Hs & He) Hal].
  rewrite foldl_app. cbn [foldl]. rewrite (IH (end_ f) H3 Hal Ha).
  unfold redact_one. rewrite boundary_take, Hs by done.
  rewrite boundary_end; [|done|lia|intros c; apply masked_head; try done; lia].
  rewrite append_length, str_take_length by done.
  rewrite (proj2 (Nat.leb_le _ _)) by lia. cbn [andb masked].
  rewrite str_take_app, str_take_take by (rewrite ?str_take_length; lia).
  rewrite <- (str_take_length (end_ f) text) at 1 by done. rewrite str_drop_app.
  by rewrite (str_take_slice pos (start f)), !append_assoc.
Qed.

(** Masking a de-overlapped scan replaces each finding by its label and keeps
    every byte outside the findings, in place: the replacements, made from the end,
    never disturb one another. *)
Theorem redact_masks_exactly text l :
  chained 0 l → Forall (aligned text) l → redact text l = masked text 0 l.
Proof.
  intros Hch Hal. unfold redact. rewrite (sort_desc_rev 0) by done.
  apply (redact_from text l 0); [done|done|lia].
Qed.

Lemma redact_masks_exactly_witness :
  redact "key AKIA1 and jwt eyJ" [mkFinding "aws" 4 9; mkFinding "jwt" 18 21]
  = "key [REDACTED:aws] and jwt [REDACTED:jwt]".
Proof.
  rewrite redact_masks_exactly; [vm_compute; reflexivity|simpl; lia|].
  repeat constructor; simpl; try lia; reflexivity.
Defined.

Lemma dedup_overlaps_spec_witness :
  chained 0 (dedup_overlaps [mkFinding "openai_key" 3 40; mkFinding "anthropic_key" 3 40;
                             mkFinding "jwt" 50 60]).
Proof.
  apply (dedup_overlaps_spec [mkFinding "openai_key" 3 40; mkFinding "anthropic_key" 3 40;
                             mkFinding "jwt" 50 60]).
  repeat constructor; simpl; lia.
Defined.

(** ** The Luhn check *)

Lemma luhn_digit_inj b d e :
  0 ≤ d ≤ 9 → 0 ≤ e ≤ 9 → luhn_digit b d mod 10 = luhn_digit b e mod 10 → d = e.
Proof.
  intros Hd He. unfold luhn_digit. destruct b; [|rewrite !Z.mod_small; lia].
  repeat case_match; breflect; rewrite ?Z.mod_small; lia.
Qed.

Lemma to_digit_range c d : to_digit c = Some d → 0 ≤ d ≤ 9.
Proof.
  unfold to_digit, is_digit. case_match; [|done]. breflect. intros [= <-].
  rewrite ?Nat.leb_le in *. lia.
Qed.

Lemma u32_mod10 z k : 0 ≤ z → 0 ≤ k → (z + k) ≤ u32_max → u32_wrap (z + k) = z + k.
Proof. intros. apply u32_wrap_id. mach. Qed.

(** The sum from a state is the starting value plus a term of the text alone. *)
Fixpoint luhn_terms (l : list ascii) (double : bool) : option Z :=
  match l with
  | [] => Some 0
  | c :: l =>
      match to_digit c, luhn_terms l (negb double) with
      | Some d, Some t => Some (luhn_digit double d + t)
      | _, _ => None
      end
  end.

Lemma luhn_digit_bound b d : 0 ≤ d ≤ 9 → 0 ≤ luhn_digit b d ≤ 9.
Proof. unfold luhn_digit. intros. destruct b; [case_match; breflect|]; lia. Qed.

Lemma luhn_terms_bound l b t : luhn_terms l b = Some t → 0 ≤ t ≤ 9 * Z.of_nat (length l).
Proof.
  revert b t. induction l as [|c l IH]; intros b t; simpl; [intros [= <-]; lia|].
  destruct (to_digit c) as [d|] eqn:Hd; [|done]. destruct (luhn_terms l (negb b)) as [t'|] eqn:Ht; [|done].
  intros [= <-]. pose proof (IH _ _ Ht). pose proof (luhn_digit_bound b d (to_digit_range _ _ Hd)). lia.
Qed.

Lemma luhn_sum_terms l b z :
  0 ≤ z → z + 9 * Z.of_nat (length l) ≤ u32_max →
  luhn_sum l b z = (λ t, z + t) <$> luhn_terms l b.
Proof.
  revert b z. induction l as [|c l IH]; intros b z Hz Hb; simpl; [by rewrite Z.add_0_r|].
  simpl in Hb. destruct (to_digit c) as [d|] eqn:Hd; [|done].
  pose proof (luhn_digit_bound b d (to_digit_range _ _ Hd)).
  rewrite u32_wrap_id by mach. rewrite IH by lia.
  destruct (luhn_terms l (negb b)); simpl; [f_equal; lia|done].
Qed.

Lemma luhn_terms_update l b i c d :
  l !! i = Some c → is_Some (to_digit c) → is_Some (to_digit d) → c ≠ d →
  is_Some (luhn_terms l b) →
  ∃ t t', luhn_terms l b = Some t ∧ luhn_terms (<[i := d]> l) b = Some t' ∧
          t mod 10 ≠ t' mod 10.
Proof.
  revert b i. induction l as [|x l IH]; intros b [|i] Hi [dc Hc] [dd Hd] Hne [t Ht];
    simplify_eq/=.
  - rewrite Hc, Hd in *. destruct (luhn_terms l (negb b)) as [t0|]; [|done]. simplify_eq.
    eexists _, _. split; [done|]. split; [done|]. intros Heq. apply Hne.
    assert (dc = dd) as ->.
    { apply (luhn_digit_inj b); [by eapply to_digit_range..|].
      apply (f_equal (λ z, (z - t0) mod 10)) in Heq. revert Heq.
      rewrite !Zminus_mod_idemp_l. by rewrite !Z.add_simpl_r. }
    unfold to_digit in Hc, Hd. repeat case_match; simplify_eq.
    assert (nat_of_ascii c = nat_of_ascii d) as E by lia.
    apply (f_equal ascii_of_nat) in E. by rewrite !ascii_nat_embedding in E.
  - destruct (to_digit x) as [dx|] eqn:Hx; [|done].
    destruct (luhn_terms l (negb b)) as [t0|] eqn:Ht0; [|done]. simplify_eq.
    destruct (IH (negb b) i Hi) as (t1 & t2 & E1 & E2 & Hne'); eauto. rewrite E2.
    simplify_eq. eexists _, _. split; [done|]. split; [done|]. intros Heq. apply Hne'.
    apply (f_equal (λ z, (z - luhn_digit b dx) mod 10)) in Heq. revert Heq.
    rewrite !Zminus_mod_idemp_l. by rewrite !(Z.add_comm (luhn_digit b dx)), !Z.add_simpl_r.
Qed.

Lemma luhn_valid_terms s :
  s ≠ "" → 9 * Z.of_nat (length (chars s)) ≤ u32_max →
  luhn_valid s = true ↔ ∃ t, luhn_terms (rev (chars s)) false = Some t ∧ t mod 10 = 0.
Proof.
  intros Hs Hlen. unfold luhn_valid. destruct (is_empty_str s) eqn:E; [by destruct s|].
  rewrite luhn_sum_terms by (rewrite ?length_rev; lia).
  destruct (luhn_terms (rev (chars s)) false) as [t|]; simpl; [|split; naive_solver].
  rewrite Z.eqb_eq. naive_solver.
Qed.

Lemma reverse_insert {A} (l : list A) i x :
  (i < length l)%nat → rev (<[i := x]> l) = <[(length l - S i)%nat := x]> (rev l).
Proof.
  revert i. induction l as [|y l IH]; intros [|i] Hi; simpl in *; [lia|lia|..].
  - rewrite Nat.sub_0_r. rewrite insert_app_r_alt by (rewrite length_rev; lia).
    rewrite length_rev, Nat.sub_diag. done.
  - rewrite IH by lia. rewrite insert_app_l; [done|]. rewrite length_rev. lia.
Qed.

(** the card gate notices every mistyped digit: replacing any one digit of a
    number that passes the Luhn check by another makes it fail. *)
Theorem luhn_detects_single_digit s s' i c d :
  luhn_valid s = true → 9 * Z.of_nat (length (chars s)) ≤ u32_max →
  chars s !! i = Some c → is_digit d = true → c ≠ d →
  chars s' = <[i := d]> (chars s) →
  luhn_valid s' = false.
Proof.
  intros Hv Hlen Hi Hd Hne Hs'. pose proof (lookup_lt_Some _ _ _ Hi) as Hlt.
  assert (s ≠ "") as Hs by (by intros ->). pose proof Hv as Hv2.
  apply luhn_valid_terms in Hv as (t & Ht & Ht0); [|done|done].
  apply not_true_iff_false. intros Hv'.
  assert (s' ≠ "") as Hns.
  { intros ->. simpl in Hs'. apply (f_equal length) in Hs'. rewrite length_insert in Hs'.
    simpl in Hs'. lia. }
  apply luhn_valid_terms in Hv' as (t' & Ht' & Ht0'); [|done|by rewrite Hs', length_insert].
  rewrite Hs', reverse_insert in Ht' by done.
  assert (rev (chars s) !! (length (chars s) - S i)%nat = Some c) as Hr.
  { rewrite <- Hi. rewrite rev_alt.
    change (rev_append (chars s) []) with (reverse (chars s)).
    rewrite reverse_lookup by lia. f_equal. lia. }
  destruct (luhn_terms_update (rev (chars s)) false _ c d Hr) as (u & u' & Hu & Hu' & Hne').
  - clear - Ht Hr. revert Ht Hr. generalize false. generalize (length (chars s) - S i)%nat.
    revert t. induction (rev (chars s)) as [|x l IH]; intros t [|n] b Ht Hr; simplify_eq/=.
    + destruct (to_digit c); [by eexists|done].
    + destruct (to_digit x); [|done]. destruct (luhn_terms l (negb b)) as [t0|] eqn:E; [|done].
      by eapply IH.
  - unfold to_digit. rewrite Hd. by eexists.
  - done.
  - by eexists.
  - congruence.
Qed.

Lemma luhn_detects_single_digit_witness : luhn_valid "4111111111111112" = false.
Proof.
  apply (luhn_detects_single_digit "4111111111111111" "4111111111111112" 15
           "1"%char "2"%char); try reflexivity; [vm_compute; discriminate|discriminate].
Defined.
