(* ===== verification/Mcp.v ===== *)
(** * MCP tool scanning and pinning

    [crates/core/src/mcp.rs].  The fingerprint hash ([DefaultHasher]), Unicode
    lower-casing and the JSON printer are parameters. *)

From S2P Require Import Prelude Float Json Loops Strings.

(* @src mcp.rs McpTool *)
Record McpTool := mkTool { name : string; description : string; fingerprint_ : Z (* u64 *) }.

(* @src mcp.rs ScanFinding *)
Record ScanFinding := mkScan { tool : string; issue : string }.

(* @src mcp.rs INJECTION_MARKERS *)
Definition INJECTION_MARKERS : list string :=
  ["ignore previous"; "ignore all previous"; "disregard previous"; "disregard all";
   "ignore your instructions"; "system prompt"; "do not tell"; "do not mention";
   "without telling"; "exfiltrat"; "send it to"; "<important>"; "<instructions>";
   "you must call"; "always call"; "api_key"; "secret"].

(** U+200B, U+200C, U+200D and U+FEFF in UTF-8. *)
Definition zero_width : list string :=
  let ch := λ a b c, String (ascii_of_nat a) (String (ascii_of_nat b)
                       (String (ascii_of_nat c) "")) in
  [ch 226 128 139; ch 226 128 140; ch 226 128 141; ch 239 187 191]%nat.

Section mcp.
Context (fingerprint : string → string → string → Z)
        (to_string : Value → string) (to_lowercase : string → string).

(** One entry of the array; an entry without a string name is skipped. *)
(* @src mcp.rs 42-59 parse_tools *)
Definition parse_tool (t : Value) : option McpTool :=
  match get_str "name" t with
  | None => None
  | Some name =>
      let description := default "" (get_str "description" t) in
      let schema := default "" (to_string <$> get "inputSchema" t) in
      Some (mkTool name description (fingerprint name description schema))
  end.

(* @src mcp.rs parse_tools *)
Definition parse_tools (v : Value) : list McpTool :=
  match or_else (get "tools" v) (get "result" v ≫= get "tools") ≫= as_array with
  | None => []
  | Some arr => omap parse_tool arr
  end.

(* @src mcp.rs 95-118 scan_injection *)
Definition scan_tool (t : McpTool) : list ScanFinding :=
  let lower := to_lowercase (description t) in
  ((λ m, mkScan (name t) ("suspicious phrase in description: " +:+ DQ +:+ m +:+ DQ))
     <$> filter (λ m, contains m lower = true) INJECTION_MARKERS)
  ++ (if existsb (λ z, contains z (description t)) zero_width
      then [mkScan (name t) "hidden zero-width characters in description"] else [])
  ++ (if (2000 <? char_count (description t))%nat
      then [mkScan (name t) "unusually long description (possible hidden payload)"] else []).

(* @src mcp.rs scan_injection *)
Definition scan_injection (tools : list McpTool) : list ScanFinding := tools ≫= scan_tool.
End mcp.

(* @src mcp.rs Lock *)
Abbreviation Lock := (gmap string Z).

(* @src mcp.rs Lock::from_tools *)
Definition from_tools (tools : list McpTool) : Lock :=
  foldl (λ m t, <[name t := fingerprint_ t]> m) ∅ tools.

(* @src mcp.rs Drift *)
Inductive Drift := Added (n : string) | Removed (n : string) | Changed (n : string).

#[export] Instance Drift_eq_dec : EqDecision Drift.
Proof. solve_decision. Defined.

(* @src mcp.rs 156-162 diff *)
Definition drift_of (lock : Lock) (t : McpTool) : option Drift :=
  match lock !! name t with
  | None => Some (Added (name t))
  | Some fp => if fp =? fingerprint_ t then None else Some (Changed (name t))
  end.

(* @src mcp.rs diff *)
Definition diff (current : list McpTool) (lock : Lock) : list Drift :=
  let cur := from_tools current in
  omap (drift_of lock) current
  ++ omap (λ '(n, _), if bool_decide (is_Some (cur !! n)) then None else Some (Removed n))
          (btree_list lock).

(** ** Correctness *)

Lemma from_tools_some tools n : is_Some (from_tools tools !! n) ↔ ∃ t, t ∈ tools ∧ name t = n.
Proof.
  unfold from_tools. induction tools as [|t l IH] using rev_ind.
  - split; [by intros [? ?]|]. by intros (t & Ht%not_elem_of_nil & _).
  - rewrite foldl_app. cbn [foldl]. rewrite lookup_insert_is_Some', IH.
    setoid_rewrite elem_of_app. setoid_rewrite list_elem_of_singleton. naive_solver.
Qed.

Lemma diff_elem current lock d :
  d ∈ diff current lock ↔
  match d with
  | Added n => lock !! n = None ∧ ∃ t, t ∈ current ∧ name t = n
  | Changed n => ∃ t fp, t ∈ current ∧ name t = n ∧ lock !! n = Some fp ∧ fp ≠ fingerprint_ t
  | Removed n => is_Some (lock !! n) ∧ ∀ t, t ∈ current → name t ≠ n
  end.
Proof.
  unfold diff, drift_of. rewrite elem_of_app, !list_elem_of_omap. destruct d as [n|n|n]; split.
  - intros [(t & Ht & H)|([m fp] & _ & H)]; [|by case_match].
    destruct (lock !! name t) eqn:E; [by case_match|]. simplify_eq. eauto.
  - intros (Hl & t & Ht & <-). left. exists t. by rewrite Hl.
  - intros [(t & Ht & H)|([m fp] & Hin%btree_list_elem & H)]; [by repeat case_match|].
    case_bool_decide as Hc; simplify_eq. split; [eauto|]. intros t Ht Hn. apply Hc.
    apply from_tools_some. eauto.
  - intros [[fp Hl] Hn]. right. exists (n, fp). split; [by apply btree_list_elem|].
    rewrite bool_decide_false; [done|]. intros (t & Ht & E)%from_tools_some. by apply (Hn t).
  - intros [(t & Ht & H)|([m fp] & _ & H)]; [|by case_match].
    destruct (lock !! name t) as [fp|] eqn:E; [|done]. case_match; simplify_eq. breflect. eauto 6.
  - intros (t & fp & Ht & <- & Hl & Hne). left. exists t. rewrite Hl.
    by rewrite (proj2 (Z.eqb_neq _ _) Hne).
Qed.

Lemma diff_nil current lock :
  diff current lock = [] ↔
     (∀ t, t ∈ current → lock !! name t = Some (fingerprint_ t)) ∧
     (∀ n, is_Some (lock !! n) → ∃ t, t ∈ current ∧ name t = n).
Proof.
  split.
  - intros Hd. assert (∀ d, d ∉ diff current lock) as Hno by (rewrite Hd; apply not_elem_of_nil).
    split.
    + intros t Ht. destruct (lock !! name t) as [fp|] eqn:E.
      * destruct (decide (fp = fingerprint_ t)) as [->|Hne]; [done|].
        destruct (Hno (Changed (name t))). apply diff_elem. eauto 8.
      * destruct (Hno (Added (name t))). apply diff_elem. eauto.
    + intros n Hn. destruct (decide (Exists (λ t, name t = n) current)) as [He|He].
      * apply Exists_exists in He. naive_solver.
      * destruct (Hno (Removed n)). apply diff_elem. split; [done|].
        intros t Ht Ht'. apply He, Exists_exists. eauto.
  - intros [H1 H2]. destruct (diff current lock) as [|d l] eqn:E; [done|]. exfalso.
    assert (d ∈ diff current lock) as Hd by (rewrite E; by left).
    apply diff_elem in Hd. destruct d.
    + destruct Hd as (Hl & t & Ht & <-). rewrite (H1 t Ht) in Hl. done.
    + destruct Hd as [Hs Hn]. destruct (H2 _ Hs) as (t & Ht & <-). by apply (Hn t).
    + destruct Hd as (t & fp & Ht & <- & Hl & Hne). rewrite (H1 t Ht) in Hl. by simplify_eq.
Qed.

(** The lock comparison reports no drift exactly when every tool offered is pinned
    with its fingerprint and every pinned tool is still offered; and a tool whose
    definition differs from the pinned one is always reported as changed, also when
    the server offers a second tool of the same name that matches. *)
Theorem diff_detects_drift current lock :
  (diff current lock = [] ↔
     (∀ t, t ∈ current → lock !! name t = Some (fingerprint_ t)) ∧
     (∀ n, is_Some (lock !! n) → ∃ t, t ∈ current ∧ name t = n)) ∧
  (∀ t fp, t ∈ current → lock !! name t = Some fp → fp ≠ fingerprint_ t →
           Changed (name t) ∈ diff current lock).
Proof.
  split; [apply diff_nil|]. intros t fp Ht Hl Hne. apply diff_elem. eauto 8.
Qed.

(** Pinning what is offered leaves no drift, when names are unique. *)
Lemma diff_pinned tools : NoDup (name <$> tools) → diff tools (from_tools tools) = [].
Proof.
  intros Hnd. apply diff_nil. split; [|intros n; apply from_tools_some].
  unfold from_tools. induction tools as [|t l IH] using rev_ind; [by intros ? ?%not_elem_of_nil|].
  rewrite fmap_app in Hnd. apply NoDup_app in Hnd as (Hl & Hdis & _).
  rewrite foldl_app. cbn [foldl]. intros u [Hu| ->%list_elem_of_singleton]%elem_of_app.
  - rewrite lookup_insert_ne; [by apply IH|]. intros E. apply (Hdis (name u)).
    + by apply list_elem_of_fmap_2.
    + rewrite <- E. by left.
  - apply lookup_insert_eq.
Qed.
