(* ===== verification/McpReport.v ===== *)
(** * The scan report and its exit code

    [crates/core/src/mcpreport.rs].  Only severities that occur are in the summary;
    the SARIF document lists its keys in order, as every JSON object does. *)

From S2P Require Import Prelude Float Json Strings Mcp.

(* @src mcpreport.rs Severity *)
Inductive Severity := Info | Low | Medium | High | Critical.

#[export] Instance Severity_eq_dec : EqDecision Severity.
Proof. solve_decision. Defined.

(** The derived order is the order of declaration. *)
Definition rank (s : Severity) : nat :=
  match s with Info => 0 | Low => 1 | Medium => 2 | High => 3 | Critical => 4 end.

Definition severity_geb (a b : Severity) : bool := (rank b <=? rank a)%nat.

(* @src mcpreport.rs Severity::as_str *)
Definition as_str (s : Severity) : string :=
  match s with
  | Info => "info" | Low => "low" | Medium => "medium" | High => "high"
  | Critical => "critical"
  end.

#[export] Instance as_str_inj : Inj (=) (=) as_str.
Proof. intros [] []; done. Qed.

(* @src mcpreport.rs Finding *)
Record Finding := mkFinding {
  f_kind : string;
  f_severity : Severity;
  f_tool : option string;
  f_message : string
}.

(* @src mcpreport.rs ScanReport *)
Record ScanReport := mkReport {
  version : string;
  tool_count : nat;
  findings : list Finding;
  report_summary : gmap string nat
}.

Section severity.
Context (to_lowercase : string → string).

(* @src mcpreport.rs 46-61 FromStr for Severity *)
Definition from_str (s : string) : result Severity string :=
  let low := to_lowercase s in
  if bool_decide (low = "info") then Ok Info
  else if bool_decide (low = "low") then Ok Low
  else if bool_decide (low = "medium") then Ok Medium
  else if bool_decide (low = "high") then Ok High
  else if bool_decide (low = "critical") then Ok Critical
  else Err ("invalid severity '" +:+ low
            +:+ "' (expected info|low|medium|high|critical)").
End severity.

Definition max_by_rank (a b : Severity) : Severity := if severity_geb a b then a else b.

(* @src mcpreport.rs ScanReport::max_severity *)
Definition max_severity (r : ScanReport) : option Severity :=
  foldl (λ m f, Some (match m with Some s => max_by_rank (f_severity f) s
                                 | None => f_severity f end)) None (findings r).

Definition count_severity (m : gmap string nat) (f : Finding) : gmap string nat :=
  <[as_str (f_severity f) := S (default O (m !! as_str (f_severity f)))]> m.

(* @src mcpreport.rs ScanReport::push_findings *)
Definition push_findings (r : ScanReport) (extra : list Finding) : ScanReport :=
  mkReport (version r) (tool_count r) (findings r ++ extra)
           (foldl count_severity (report_summary r) extra).

(* @src mcpreport.rs 125-144 ScanReport::from_scan *)
Definition drift_finding (d : Drift) : Finding :=
  match d with
  | Changed n => mkFinding "rug_pull" Critical (Some n)
                   "tool definition changed vs lock (possible rug pull)"
  | Added n => mkFinding "new_tool" Medium (Some n) "tool not present in lock"
  | Removed n => mkFinding "removed_tool" Low (Some n) "tool in lock no longer offered"
  end.

(* @src mcpreport.rs ScanReport::from_scan *)
Definition from_scan (pkg_version : string) (tools : list McpTool)
    (injection : list ScanFinding) (drift : list Drift) : ScanReport :=
  let fs := ((λ f, mkFinding "poisoning" High (Some (tool f)) (issue f)) <$> injection)
            ++ (drift_finding <$> drift) in
  mkReport pkg_version (length tools) fs (foldl count_severity ∅ fs).

(* @src mcpreport.rs sarif_level *)
Definition sarif_level (s : Severity) : string :=
  match s with
  | Critical | High => "error"
  | Medium => "warning"
  | Low | Info => "note"
  end.

(* @src mcpreport.rs 185-198 to_sarif *)
Definition sarif_result (f : Finding) : Value :=
  Obj [("level", Str (sarif_level (f_severity f)));
       ("locations", Arr [Obj [("logicalLocations",
          Arr [Obj [("kind", Str "resource");
                    ("name", Str (default "mcp-server" (f_tool f)))]])]]);
       ("message", Obj [("text", Str (f_message f))]);
       ("ruleId", Str (f_kind f))].

(* @src mcpreport.rs to_sarif *)
Definition to_sarif (r : ScanReport) (tool_version : string) : Value :=
  Obj [("$schema", Str "https://json.schemastore.org/sarif-2.1.0.json");
       ("runs", Arr [Obj [
          ("results", Arr (sarif_result <$> findings r));
          ("tool", Obj [("driver", Obj [
             ("informationUri", Str "https://tokenfuse.dev");
             ("name", Str "tokenfuse-mcp-scan");
             ("rules", Arr []);
             ("version", Str tool_version)])])]]);
       ("version", Str "2.1.0")].

(* @src mcpreport.rs should_fail *)
Definition should_fail (max threshold : option Severity) : bool :=
  match max, threshold with
  | Some m, Some t => severity_geb m t
  | _, _ => false
  end.

(* @src mcpreport.rs scan_exit_code *)
Definition scan_exit_code {E} (outcome : result (option Severity) E)
    (threshold : option Severity) : Z :=
  match outcome with
  | Err _ => 2
  | Ok max => if should_fail max threshold then 1 else 0
  end.

(** ** Correctness *)

Definition reaches (t : Severity) (fs : list Finding) : Prop :=
  Exists (λ f, (rank t ≤ rank (f_severity f))%nat) fs.

Lemma max_fold_reaches t fs m :
  should_fail (foldl (λ m f, Some (match m with Some s => max_by_rank (f_severity f) s
                                              | None => f_severity f end)) m fs) (Some t) = true
  ↔ should_fail m (Some t) = true ∨ reaches t fs.
Proof.
  unfold reaches. revert m. induction fs as [|f fs IH]; intros m; cbn [foldl].
  - rewrite Exists_nil. tauto.
  - rewrite IH, Exists_cons. unfold should_fail, severity_geb.
    destruct m as [s|]; unfold max_by_rank, severity_geb; [case_match; breflect|];
      rewrite ?Nat.leb_le; intuition lia.
Qed.

Lemma max_severity_reaches r t :
  should_fail (max_severity r) (Some t) = true ↔ reaches t (findings r).
Proof. unfold max_severity. rewrite max_fold_reaches. simpl. naive_solver. Qed.

Definition severity_count (fs : list Finding) (s : Severity) : nat :=
  length (filter (λ f, f_severity f = s) fs).

Lemma summary_counts fs m s :
  default O (foldl count_severity m fs !! as_str s)
  = (default O (m !! as_str s) + severity_count fs s)%nat.
Proof.
  unfold severity_count. revert m. induction fs as [|f fs IH]; intros m; cbn [foldl]; [simpl; lia|].
  rewrite IH, filter_cons. unfold count_severity. rewrite lookup_insert.
  destruct (decide (f_severity f = s)) as [->|Hne].
  - rewrite decide_True by done. simpl. lia.
  - rewrite decide_False; [done|]. by intros ?%(inj as_str).
Qed.

(** A scan never passes by accident.  The exit code is 2 exactly when the scan did
    not complete, 1 exactly when some finding, of the scan or pushed later, reaches
    the threshold, and 0 otherwise; the summary counts the findings of each
    severity; and a rug pull fails the scan at every threshold. *)
Theorem scan_gate {E} pkg tools injection drift extra t (e : E) :
  let r := push_findings (from_scan pkg tools injection drift) extra in
  (scan_exit_code (E := E) (Ok (max_severity r)) (Some t) = 1 ↔ reaches t (findings r)) ∧
  (scan_exit_code (E := E) (Ok (max_severity r)) (Some t) = 0 ↔ ¬ reaches t (findings r)) ∧
  scan_exit_code (E := E) (Ok (max_severity r)) None = 0 ∧
  scan_exit_code (Err e) (Some t) = 2 ∧
  (∀ s, default O (report_summary r !! as_str s) = severity_count (findings r) s) ∧
  (∀ n, Changed n ∈ drift → scan_exit_code (E := E) (Ok (max_severity r)) (Some t) = 1).
Proof.
  intros r. pose proof (max_severity_reaches r t) as Hr.
  assert (∀ n, Changed n ∈ drift → reaches t (findings r)) as Hrug.
  { intros n Hn. apply Exists_exists. exists (drift_finding (Changed n)).
    split; [|destruct t; simpl; lia]. unfold r, push_findings, from_scan. simpl.
    apply elem_of_app; left. apply elem_of_app; right.
    exact (list_elem_of_fmap_2 drift_finding drift _ Hn). }
  unfold scan_exit_code. rewrite <- Hr.
  split; [case_match; naive_solver|]. split; [case_match; naive_solver|].
  split; [by destruct (max_severity r)|]. split; [done|]. split.
  - intros s. unfold r, push_findings, from_scan. simpl. rewrite !summary_counts, lookup_empty.
    unfold severity_count. rewrite !filter_app, !length_app. simpl. lia.
  - intros n Hn. by rewrite (proj2 Hr (Hrug n Hn)).
Qed.

Lemma sarif_one_result_per_finding r v :
  (((get "runs" (to_sarif r v) ≫= as_array) ≫= head) ≫= get_array "results")
  = Some (sarif_result <$> findings r).
Proof. done. Qed.

Lemma from_str_as_str (to_lowercase : string → string) s :
  to_lowercase (as_str s) = as_str s → from_str to_lowercase (as_str s) = Ok s.
Proof. intros H. unfold from_str. rewrite H. by destruct s. Qed.
