(* ===== verification/McpExposure.v ===== *)
(** * Server-exposure checks

    [crates/core/src/mcpexposure.rs]: host classification, URL splitting and the
    escalation rules over a captured probe. *)

From S2P Require Import Prelude Float Json Strings Mcp McpReport.

(* @src mcpexposure.rs SSRF_KEYWORDS *)
Definition SSRF_KEYWORDS : list string :=
  ["fetch"; "http"; "url"; "webhook"; "proxy"; "download"].

Definition is_char (a c : ascii) : bool := bool_decide (a = c).
Definition one_of (l : list ascii) (c : ascii) : bool := existsb (is_char c) l.

(** The private and loopback ranges of four octets. *)
(* @src mcpexposure.rs 82-97 host_is_local *)
Definition octets_local (a b : Z) : bool :=
  (a =? 127) || (a =? 10) || ((a =? 172) && (16 <=? b) && (b <=? 31))
  || ((a =? 192) && (b =? 168)) || ((a =? 169) && (b =? 254)).

(* @src mcpexposure.rs CallAttempt *)
Inductive CallAttempt :=
| NotRequested
| Skipped (reason : string)
| Rejected (tool : string)
| Succeeded (tool : string).

(* @src mcpexposure.rs ProbeOutcome *)
Record ProbeOutcome := mkProbe {
  scheme : string;
  host : string;
  unauth_list_returned : bool;
  unauth_tool_count : nat;
  cors_wildcard : bool;
  call_attempt : CallAttempt
}.

Section exposure.
Context (to_lowercase : string → string).

(* @src mcpexposure.rs host_is_local *)
Definition host_is_local (host : string) : bool :=
  let h := to_lowercase (trim_chars (one_of ["["; "]"]%char) (trim host)) in
  if is_empty_str h then false
  else if bool_decide (h = "localhost") then true
  else if bool_decide (h = "::1") then true
  else if starts_with "fe80:" h then true
  else if contains ":" h && (starts_with "fc" h || starts_with "fd" h) then true
  else
    let octets := split_char "." h in
    if (length octets =? 4)%nat then
      match mapM (parse_unsigned 255) octets with
      | Some (a :: b :: _) => octets_local a b
      | _ => false
      end
    else false.

(* @src mcpexposure.rs parse_url_host_scheme *)
Definition parse_url_host_scheme (url : string) : option (string * string) :=
  match split_once "://" url with
  | None => None
  | Some (scheme, rest) =>
      let scheme := to_lowercase (trim scheme) in
      let rest := trim_start_chars (one_of ["/"; "\"]%char) rest in
      let authority := (span_not (one_of ["/"; "?"; "#"; "\"]%char) rest).1 in
      let host_port :=
        match rsplit_char "@" authority with Some (_, h) => h | None => authority end in
      let host :=
        match strip_prefix "[" host_port with
        | Some after => fst <$> split_once "]" after
        | None => Some (span_not (is_char ":") host_port).1
        end in
      match host with
      | None => None
      | Some h => if is_empty_str h then None else Some (scheme, h)
      end
  end.

(* @src mcpexposure.rs is_plaintext_exposure *)
Definition is_plaintext_exposure (scheme host : string) : bool :=
  eq_ignore_ascii_case scheme "http" && negb (host_is_local host).

(* @src mcpexposure.rs haystack *)
Definition haystack (t : McpTool) : string :=
  to_lowercase (name t) +:+ " " +:+ to_lowercase (description t).

(* @src mcpexposure.rs ssrf_capable_findings *)
Definition ssrf_capable_findings (tools : list McpTool) : list Finding :=
  (λ t, mkFinding "ssrf_capable_tool" Low (Some (name t))
          ("tool '" +:+ name t
           +:+ "' can fetch/proxy arbitrary URLs — a pivot point for SSRF if abused"))
  <$> filter (λ t, existsb (λ k, contains k (haystack t)) SSRF_KEYWORDS = true) tools.

(** The unauthenticated [tools/list] check. *)
(* @src mcpexposure.rs 263-285 exposure_findings *)
Definition unauth_list_findings (o : ProbeOutcome) (local : bool) : list Finding :=
  if unauth_list_returned o && (0 <? unauth_tool_count o)%nat then
    [mkFinding "exposure_unauth_list" (if local then Info else High) None
       ("tools/list succeeded with no authentication (" +:+ pretty (unauth_tool_count o)
        +:+ " tool(s) returned)"
        +:+ (if local then " — local/dev host, expected"
             else " — server is reachable and enumerable without credentials"))]
  else [].

(* @src mcpexposure.rs 312-335 exposure_findings *)
Definition call_findings (c : CallAttempt) : list Finding :=
  match c with
  | NotRequested => []
  | Skipped reason => [mkFinding "exposure_unauth_call_skipped" Info None reason]
  | Rejected tool =>
      [mkFinding "exposure_unauth_call_rejected" Info (Some tool)
         ("unauthenticated tools/call to '" +:+ tool +:+ "' was rejected by the server")]
  | Succeeded tool =>
      [mkFinding "exposure_unauth_call" Critical (Some tool)
         ("unauthenticated tools/call to '" +:+ tool
          +:+ "' succeeded — server accepts unauthenticated tool invocations")]
  end.

(* @src mcpexposure.rs exposure_findings *)
Definition exposure_findings (o : ProbeOutcome) : list Finding :=
  let local := host_is_local (host o) in
  let unauth_list_public :=
    unauth_list_returned o && (0 <? unauth_tool_count o)%nat && negb local in
  unauth_list_findings o local
  ++ (if is_plaintext_exposure (scheme o) (host o)
      then [mkFinding "exposure_plaintext" (if unauth_list_public then High else Medium) None
              "MCP endpoint is served over plaintext http:// (not https)"] else [])
  ++ (if cors_wildcard o
      then [mkFinding "exposure_cors_wildcard" Medium None
              "server responded with Access-Control-Allow-Origin: *"] else [])
  ++ call_findings (call_attempt o).

(** ** Correctness *)

(** An exposed server: reachable from outside and enumerable without credentials. *)
Definition public_enumerable (o : ProbeOutcome) : Prop :=
  unauth_list_returned o = true ∧ (0 < unauth_tool_count o)%nat ∧
  host_is_local (host o) = false.

Lemma reaches_nil t : reaches t [] ↔ False.
Proof. unfold reaches. by rewrite Exists_nil. Qed.

Lemma reaches_app t l k : reaches t (l ++ k) ↔ reaches t l ∨ reaches t k.
Proof. apply Exists_app. Qed.

Lemma reaches_one t f : reaches t [f] ↔ (rank t ≤ rank (f_severity f))%nat.
Proof. unfold reaches. rewrite Exists_cons, Exists_nil. tauto. Qed.

(** The severities of the exposure checks: a critical finding exactly when an
    unauthenticated call succeeded; at least a high one exactly when, besides, the
    tool list of a non-local host was readable without credentials; and a local
    host is never reported above medium unless a call succeeded. *)
Theorem exposure_severity o :
  (reaches Critical (exposure_findings o) ↔ ∃ t, call_attempt o = Succeeded t) ∧
  (reaches High (exposure_findings o) ↔
     (∃ t, call_attempt o = Succeeded t) ∨ public_enumerable o).
Proof.
  unfold exposure_findings, unauth_list_findings, public_enumerable.
  rewrite !reaches_app.
  assert (∀ t, reaches t (call_findings (call_attempt o)) ↔
               t = Info ∧ (∃ r, call_attempt o = Skipped r)
               ∨ t = Info ∧ (∃ r, call_attempt o = Rejected r)
               ∨ ∃ r, call_attempt o = Succeeded r) as Hc.
  { intros t. destruct (call_attempt o); simpl; rewrite ?reaches_nil, ?reaches_one;
      destruct t; simpl; split; try lia; naive_solver. }
  rewrite !Hc.
  assert (∀ t f (b : bool), reaches t (if b then [f] else []) ↔
                            b = true ∧ (rank t ≤ rank (f_severity f))%nat) as Hif
    by (intros t f []; rewrite ?reaches_nil, ?reaches_one; naive_solver).
  rewrite !Hif, andb_true_iff, Nat.ltb_lt. simpl.
  split; (split; [|intros H]).
  - intros [(_ & H)|[(_ & H)|[(_ & H)|H]]].
    + destruct (host_is_local _); simpl in H; lia.
    + destruct (_ && negb _); simpl in H; lia.
    + lia.
    + destruct H as [[? ?]|[[? ?]|H]]; done.
  - do 5 right. exact H.
  - intros [([Hl Hn] & H)|[(_ & H)|[(_ & H)|H]]].
    + right. destruct (host_is_local _); simpl in H; [lia|done].
    + right. destruct (unauth_list_returned o), (0 <? unauth_tool_count o)%nat eqn:En,
        (host_is_local (host o)); simpl in H; try lia. breflect. done.
    + lia.
    + left. destruct H as [[? ?]|[[? ?]|H]]; done.
  - destruct H as [H|(H1 & H2 & H3)]; [do 5 right; exact H|]. left. rewrite H3. simpl. auto.
Qed.

(** The dotted form of four octets. *)
Lemma host_is_local_ipv4 a b c d h :
  to_lowercase h = h → trim_chars (one_of ["["; "]"]%char) (trim h) = h →
  split_char "." h = [a; b; c; d] →
  contains ":" h = false → h ≠ "" → starts_with "fe80:" h = false →
  h ≠ "localhost" → h ≠ "::1" →
  host_is_local h =
  match parse_unsigned 255 a, parse_unsigned 255 b, parse_unsigned 255 c,
        parse_unsigned 255 d with
  | Some x, Some y, Some _, Some _ => octets_local x y
  | _, _, _, _ => false
  end.
Proof.
  intros Hl Ht Hs Hc Hne Hf Hlo H1. unfold host_is_local. rewrite Ht, Hl.
  destruct h as [|ch r] eqn:Eh; [done|]. cbn [is_empty_str]. rewrite <- Eh in *.
  rewrite !bool_decide_false, Hf, Hc by done. cbn [andb]. rewrite Hs. simpl.
  destruct (parse_unsigned 255 a), (parse_unsigned 255 b), (parse_unsigned 255 c),
    (parse_unsigned 255 d); done.
Qed.
End exposure.

Example host_ex :
  map (host_is_local to_ascii_lowercase)
    [" LOCALHOST "; "[::1]"; "10.1.2.3"; "172.31.0.1"; "172.32.0.1"; "8.8.8.8"; "fd00::1";
     "fc-barcelona.com"; "256.0.0.1"; "+10.0.0.1"]
  = [true; true; true; true; false; false; true; false; false; true].
Proof. vm_compute. reflexivity. Qed.

Example url_ex :
  map (parse_url_host_scheme to_ascii_lowercase)
    ["HTTP://u:p@Host:80/x?cb=a@b"; "http://[fe80::1]:9/"; "https:///path"; "http://h\@evil/x";
     "nohost"]
  = [Some ("http", "Host"); Some ("http", "fe80::1"); Some ("https", "path"); Some ("http", "h");
     None].
Proof. vm_compute. reflexivity. Qed.
