(* ===== verification/Cache.v ===== *)
(** * The semantic response cache

    [crates/core/src/cache.rs].  The store behind the [Mutex] is a map from
    partition keys to entries in insertion order; [get] drops expired entries of the
    partition it reads, so it returns the new store as well.  The embedder, the hash
    function and the Unicode tables ([to_lowercase], [is_alphanumeric]) are
    parameters. *)

From S2P Require Import Prelude Float Strings.

(* @src cache.rs CacheMode *)
Inductive CacheMode := CacheOff | CacheShadow | CacheOn.

#[export] Instance CacheMode_eq_dec : EqDecision CacheMode.
Proof. solve_decision. Defined.

(* @src cache.rs CacheConfig *)
Record CacheConfig := mkConfig {
  mode : CacheMode;
  threshold : f32;
  ttl_millis : Z;
  max_per_partition : nat;
  entity_guard : bool;
  length_ratio_max : f32
}.

(* @src cache.rs 134-145 Default for CacheConfig *)
Definition default_config : CacheConfig :=
  mkConfig CacheOff (f32_lit 97 100) (24 * 60 * 60 * 1000) (Z.to_nat 10000) true (f32_lit 3 2).

(* @src cache.rs Lookup *)
Record Lookup := mkLookup {
  response : string;
  content_type : string;
  similarity : f32;
  saved_microusd : Z
}.

(* @src cache.rs Entry *)
Record Entry := mkEntry {
  embedding : list f32;
  entities : gset string;
  core_len : nat;
  e_response : string;
  e_content_type : string;
  cost_microusd : Z;
  created_millis : Z
}.

(* @src cache.rs cosine *)
Definition cosine (a b : list f32) : f32 :=
  if negb (length a =? length b)%nat then S754_zero false
  else
    let dot := f32_sum (zip_with f32_mul a b) in
    let na := f32_sqrt (f32_sum ((λ x, f32_mul x x) <$> a)) in
    let nb := f32_sqrt (f32_sum ((λ x, f32_mul x x) <$> b)) in
    if SFeqb na (S754_zero false) || SFeqb nb (S754_zero false) then S754_zero false
    else f32_div dot (f32_mul na nb).

(* @src cache.rs ratio *)
Definition ratio (a b : nat) : f32 :=
  let a := f32_of_Z (Z.of_nat (Nat.max a 1)) in
  let b := f32_of_Z (Z.of_nat (Nat.max b 1)) in
  if SFltb b a then f32_div a b else f32_div b a.

Section embedder.
Context (to_lowercase : string → string) (hash_token : string → Z).

(** [HashEmbedder::new] *)
(* @src cache.rs HashEmbedder::new *)
Definition hash_embedder (dim : nat) : nat := Nat.max dim 16.

(* @src cache.rs 52-57 HashEmbedder::embed *)
Definition bump (v : list f32) (token : string) : list f32 :=
  let idx := Z.to_nat (hash_token token mod Z.of_nat (length v)) in
  alter (λ x, f32_add x (f32_of_Z 1)) idx v.

(** [chars.windows(3)] *)
Fixpoint windows3 (l : list string) : list string :=
  match l with
  | a :: ((b :: c :: _) as t) => (a +:+ b +:+ c) :: windows3 t
  | _ => []
  end.

(* @src cache.rs HashEmbedder::embed *)
Definition hash_embed (dim : nat) (text : string) : list f32 :=
  let chars := char_list (to_lowercase text) in
  let v0 := replicate dim (S754_zero false) in
  let v := if (length chars <? 3)%nat then bump v0 (concat_str chars)
           else foldl bump v0 (windows3 chars) in
  let norm := f32_sqrt (f32_sum ((λ x, f32_mul x x) <$> v)) in
  if SFltb (S754_zero false) norm then (λ x, f32_div x norm) <$> v else v.
End embedder.

Section entities.
Context (to_lowercase : string → string) (is_alphanumeric : string → bool).

(** [text.split(char::is_whitespace)] on characters. *)
Fixpoint split_ws (l : list string) : list (list string) :=
  match l with
  | [] => [[]]
  | c :: l =>
      if is_ws_char c then [] :: split_ws l
      else match split_ws l with
           | w :: ws => (c :: w) :: ws
           | [] => [[c]]
           end
  end.

Definition trimmed_char (c : string) : bool :=
  negb (is_alphanumeric c) && negb (bool_decide (c ∈ ["@"; "."; ":"; "/"])).

Fixpoint drop_trimmed (l : list string) : list string :=
  match l with
  | c :: t => if trimmed_char c then drop_trimmed t else l
  | [] => []
  end.

Definition has_ascii_digit (s : string) : bool :=
  negb (str_all (λ c, negb (bool_decide (is_Some (digit_value c)))) s).

(** The token of one word, if it is an entity. *)
(* @src cache.rs 95-108 extract_entities *)
Definition entity_of (word : list string) : option string :=
  let token := to_lowercase (concat_str (rev (drop_trimmed (rev (drop_trimmed word))))) in
  if is_empty_str token then None
  else if contains "@" token || starts_with "http" token || has_ascii_digit token
  then Some token else None.

(* @src cache.rs extract_entities *)
Definition extract_entities (text : string) : gset string :=
  list_to_set (omap entity_of (split_ws (char_list text))).
End entities.

Section cache.
Context (embed : string → list f32) (extract : string → gset string).

(* @src cache.rs SemanticCache *)
Abbreviation store_t := (gmap Z (list Entry)).

Definition expired (cfg : CacheConfig) (now : Z) (e : Entry) : bool :=
  negb (i64_wrap (now - created_millis e) <=? ttl_millis cfg).

(** The guards of the search loop. *)
(* @src cache.rs 220-226 SemanticCache::get *)
Definition admissible (cfg : CacheConfig) (ents : gset string) (len : nat) (e : Entry) : bool :=
  negb (entity_guard cfg && negb (bool_decide (entities e = ents)))
  && negb (SFltb (length_ratio_max cfg) (ratio len (core_len e))).

(** One turn of the search loop: [best] is the similarity and entry so far. *)
(* @src cache.rs 219-231 SemanticCache::get *)
Definition consider (cfg : CacheConfig) (query : list f32) (ents : gset string) (len : nat)
    (best : option (f32 * Entry)) (e : Entry) : option (f32 * Entry) :=
  if negb (admissible cfg ents len e) then best
  else
    let sim := cosine query (embedding e) in
    if SFleb (threshold cfg) sim
       && match best with Some (b, _) => SFltb b sim | None => true end
    then Some (sim, e) else best.

(* @src cache.rs SemanticCache::get *)
Definition get (cfg : CacheConfig) (store : store_t) (partition : Z) (core : string) (now : Z)
  : store_t * option Lookup :=
  if decide (mode cfg = CacheOff) then (store, None)
  else
    let query := embed core in
    let ents := extract core in
    let len := char_count core in
    match store !! partition with
    | None => (store, None)
    | Some entries =>
        let live := filter (λ e, expired cfg now e = false) entries in
        let best := foldl (consider cfg query ents len) None live in
        (<[partition := live]> store,
         (λ '(sim, e), mkLookup (e_response e) (e_content_type e) sim (cost_microusd e))
           <$> best)
    end.

(** [while entries.len() > max { entries.remove(0) }] *)
Definition evict (max : nat) (l : list Entry) : list Entry := drop (length l - max) l.

(* @src cache.rs SemanticCache::put *)
Definition put (cfg : CacheConfig) (store : store_t) (partition : Z) (core : string)
    (resp ctype : string) (cost now : Z) : store_t :=
  if decide (mode cfg = CacheOff) then store
  else
    let entry := mkEntry (embed core) (extract core) (char_count core) resp ctype cost now in
    <[partition := evict (max_per_partition cfg) (default [] (store !! partition) ++ [entry])]>
      store.

(** ** Correctness *)

(** What a hit must satisfy for a query. *)
Definition eligible (cfg : CacheConfig) (core : string) (now : Z) (e : Entry) : Prop :=
  expired cfg now e = false ∧
  (entity_guard cfg = true → entities e = extract core) ∧
  SFltb (length_ratio_max cfg) (ratio (char_count core) (core_len e)) = false ∧
  SFleb (threshold cfg) (cosine (embed core) (embedding e)) = true.

Lemma admissible_iff cfg ents len e :
  admissible cfg ents len e = true ↔
  (entity_guard cfg = true → entities e = ents) ∧
  SFltb (length_ratio_max cfg) (ratio len (core_len e)) = false.
Proof.
  unfold admissible. rewrite andb_true_iff, !negb_true_iff, andb_false_iff, negb_false_iff,
    bool_decide_eq_true. destruct (entity_guard cfg); naive_solver.
Qed.

Lemma search_sound cfg core now l best :
  Forall (λ e, expired cfg now e = false) l →
  match foldl (consider cfg (embed core) (extract core) (char_count core)) best l with
  | Some (sim, e) =>
      best = Some (sim, e) ∨
      e ∈ l ∧ eligible cfg core now e ∧ sim = cosine (embed core) (embedding e)
  | None => best = None ∧ Forall (λ e, ¬ eligible cfg core now e) l
  end.
Proof.
  intros Hl. revert best. induction Hl as [|e l He Hl IH]; intros best; cbn [foldl].
  - destruct best as [[]|]; auto.
  - specialize (IH (consider cfg (embed core) (extract core) (char_count core) best e)).
    unfold consider in *.
    destruct (admissible cfg (extract core) (char_count core) e) eqn:Ea; cbn [negb] in *.
    + apply admissible_iff in Ea as [Eg Er].
      destruct (SFleb (threshold cfg) (cosine (embed core) (embedding e))) eqn:Et;
        cbn [andb] in *.
      * assert (eligible cfg core now e) as Hel by (unfold eligible; auto).
        destruct (match best with Some (b, _) => _ | None => true end) eqn:Eb;
          (destruct (foldl _ _ l) as [[sim e']|]; [|destruct IH as [IH _]; try done]).
        -- destruct IH as [[= <- <-]|(? & ? & ?)]; right; [|set_solver].
           split; [by left|done].
        -- destruct IH as [->|(? & ? & ?)]; [by left|right; set_solver].
        -- subst. done.
      * assert (¬ eligible cfg core now e) as Hne by (intros (_ & _ & _ & ?); congruence).
        destruct (foldl _ _ l) as [[sim e']|]; [|destruct IH; split; [done|by constructor]].
        destruct IH as [->|(? & ? & ?)]; [by left|right; set_solver].
    + assert (¬ eligible cfg core now e) as Hne.
      { intros (_ & Hg & Hr & _). assert (admissible cfg (extract core) (char_count core) e = true)
          by (by apply admissible_iff). congruence. }
      destruct (foldl _ _ l) as [[sim e']|]; [|destruct IH; split; [done|by constructor]].
      destruct IH as [->|(? & ? & ?)]; [by left|right; set_solver].
Qed.

(** A cache hit is always safe to serve and never invented: it is an entry of the
    query's own partition, not expired, with the same entities (guard on), a length
    ratio within bounds and a similarity at or above the threshold; a miss means
    the partition has no such entry; a lookup changes nothing but the expired
    entries of that partition; and a disabled cache neither answers nor stores. *)
Theorem cache_get_sound cfg store p core now :
  match (get cfg store p core now).2 with
  | Some hit =>
      mode cfg ≠ CacheOff ∧
      ∃ es e, store !! p = Some es ∧ e ∈ es ∧ eligible cfg core now e ∧
        hit = mkLookup (e_response e) (e_content_type e)
                       (cosine (embed core) (embedding e)) (cost_microusd e)
  | None =>
      mode cfg = CacheOff ∨
      ∀ es e, store !! p = Some es → e ∈ es → ¬ eligible cfg core now e
  end ∧
  (∀ q, (get cfg store p core now).1 !! q =
        if decide (q = p ∧ mode cfg ≠ CacheOff)
        then filter (λ e, expired cfg now e = false) <$> store !! q else store !! q).
Proof.
  unfold get. destruct (decide (mode cfg = CacheOff)) as [Hoff|Hon].
  { split; [by left|]. intros q. rewrite decide_False; [done|tauto]. }
  destruct (store !! p) as [es|] eqn:Ep.
  - pose proof (search_sound cfg core now (filter (λ e, expired cfg now e = false) es) None) as Hs.
    cbn [fst snd]. split.
    + destruct (foldl _ None _) as [[sim e]|]; cbn [fmap option_fmap option_map].
      * split; [done|]. destruct Hs as [|(Hin & Hel & ->)]; [|done|].
        { apply Forall_forall. by intros e' [? _]%list_elem_of_filter. }
        apply list_elem_of_filter in Hin as [_ Hin]. exists es, e. done.
      * right. intros es' e [= <-] Hin Hel. destruct Hs as [_ Hs].
        { apply Forall_forall. by intros e' [? _]%list_elem_of_filter. }
        rewrite Forall_forall in Hs. apply (Hs e); [|done].
        apply list_elem_of_filter. split; [|done]. by destruct Hel.
    + intros q. rewrite lookup_insert. destruct (decide (p = q)) as [<-|Hne].
      * rewrite decide_True by done. by rewrite Ep.
      * rewrite decide_False; [done|]. naive_solver.
  - split; [right; naive_solver|]. intros q. case_decide as Hq; [|done].
    destruct Hq as [-> _]. by rewrite Ep.
Qed.

(** Storing keeps every partition within its limit, evicts oldest first, always
    keeps the newest response (for a positive limit), and touches no other
    partition. *)
Theorem cache_put_bounded cfg store p core resp ctype cost now :
  mode cfg ≠ CacheOff → (0 < max_per_partition cfg)%nat →
  ∃ es, put cfg store p core resp ctype cost now !! p = Some es ∧
    (length es ≤ max_per_partition cfg)%nat ∧
    last es = Some (mkEntry (embed core) (extract core) (char_count core) resp ctype cost now) ∧
    (∃ old, default [] (store !! p) ++ option_list (last es) = old ++ es) ∧
    ∀ q, q ≠ p → put cfg store p core resp ctype cost now !! q = store !! q.
Proof.
  intros Hon Hmax. unfold put. rewrite decide_False by done.
  set (entry := mkEntry _ _ _ _ _ _ _). set (l := default [] (store !! p) ++ [entry]).
  exists (evict (max_per_partition cfg) l). rewrite lookup_insert_eq. split; [done|].
  assert (last (evict (max_per_partition cfg) l) = Some entry) as Hlast.
  { rewrite <- (last_snoc entry (default [] (store !! p))). fold l.
    assert (0 < length l)%nat by (unfold l; rewrite length_app; simpl; lia).
    unfold evict. rewrite !last_lookup, length_drop, lookup_drop. f_equal. lia. }
  split; [unfold evict; rewrite length_drop; lia|]. split; [done|]. split.
  - rewrite Hlast. exists (take (length l - max_per_partition cfg) l). unfold evict.
    by rewrite take_drop.
  - intros q Hq. by rewrite lookup_insert_ne.
Qed.
End cache.

(** A one-dimensional embedder and an entity-free query. *)
Definition toy_embed (s : string) : list f32 := [f32_of_Z (Z.of_nat (String.length s))].
Definition toy_config : CacheConfig :=
  mkConfig CacheOn (f32_lit 97 100) 1000 1 true (f32_lit 3 2).

Lemma cache_put_bounded_witness :
  ∃ es, put toy_embed (λ _, ∅) toy_config
          (put toy_embed (λ _, ∅) toy_config ∅ 7 "abc" "r1" "t" 5 10) 7 "abcd" "r2" "t" 6 11
        !! 7 = Some es ∧ (length es ≤ 1)%nat.
Proof.
  destruct (cache_put_bounded toy_embed (λ _, ∅) toy_config
              (put toy_embed (λ _, ∅) toy_config ∅ 7 "abc" "r1" "t" 5 10) 7 "abcd" "r2" "t" 6 11)
    as (es & H1 & H2 & _); [discriminate|simpl; lia|]. eauto.
Defined.

Example cache_hit_ex :
  (get toy_embed (λ _, ∅) toy_config
     (put toy_embed (λ _, ∅) toy_config ∅ 7 "abc" "r1" "t" 5 10) 7 "abx" 12).2
  = Some (mkLookup "r1" "t" (f32_of_Z 1) 5).
Proof. vm_compute. reflexivity. Qed.

Example entities_ex :
  bool_decide (extract_entities to_ascii_lowercase
     (λ c, match c with String a "" => bool_decide (is_Some (digit_value a)) || bool_decide (c ∈ ["u"; "e"; "r"; "s"]) | _ => false end)
     "(50) users: 5," = {["50"; "5"]}) = true.
Proof. vm_compute. reflexivity. Qed.
