(* ===== verification/AgentEvent.v ===== *)
(** * The agent-event stream

    [crates/core/src/agent_event.rs], with the canonical form of its hashes in [Jcs]
    ([crates/core/src/jcs.rs]).  An exporter appends one JSON line per event to
    a file and links each line to the previous one by hash.  The file is its bytes;
    the outcome of a write (all bytes, or an error after some of them) is an input of
    the step.  SHA-256, the JSON printer and parser and the canonical form's
    third-party parts are parameters. *)

From S2P Require Import Prelude Float Json Strings Timefmt McpReport AuditChain.

(** ** Canonical JSON (RFC 8785)

    The string form is [serde_json]'s, the shortest digits of a float are [ryu]'s: both are
    parameters.  Key ordering by UTF-16 code units and the ECMAScript placement of the digits
    are the program's. *)

Module Jcs.

(** [encode_utf16] of valid UTF-8: the code units of each character. *)
Definition byte_at (c : ascii) : Z := Z.of_nat (nat_of_ascii c).

Definition code_point (c : string) : Z :=
  match c with
  | String a "" => byte_at a
  | String a (String b "") => (byte_at a - 192) * 64 + (byte_at b - 128)
  | String a (String b (String d "")) =>
      (byte_at a - 224) * 4096 + (byte_at b - 128) * 64 + (byte_at d - 128)
  | String a (String b (String d (String e _))) =>
      (byte_at a - 240) * 262144 + (byte_at b - 128) * 4096 + (byte_at d - 128) * 64
      + (byte_at e - 128)
  | "" => 0
  end.

Definition utf16_of (p : Z) : list Z :=
  if p <? 65536 then [p]
  else [55296 + Z.shiftr (p - 65536) 10; 56320 + Z.land (p - 65536) 1023].

Definition encode_utf16 (s : string) : list Z := char_list s ≫= λ c, utf16_of (code_point c).

(** [a16.cmp(&b16)] is not [Greater]. *)
Fixpoint lex_leb (a b : list Z) : bool :=
  match a, b with
  | [], _ => true
  | _ :: _, [] => false
  | x :: a, y :: b => if x =? y then lex_leb a b else x <? y
  end.

Definition utf16_leb (a b : string) : bool := lex_leb (encode_utf16 a) (encode_utf16 b).

Section jcs.
Context (json_string : string → string) (ryu : f64 → string).

Definition trim_zeros_start : string → string := trim_start_chars (λ c, bool_decide (c = "0"%char)).
Definition trim_zeros : string → string := trim_chars (λ c, bool_decide (c = "0"%char)).

(** The digits [s] with the decimal point at [n]. *)
(* @src jcs.rs 142-162 es_number *)
Definition place_digits (s : string) (n : Z) : string :=
  let k := Z.of_nat (String.length s) in
  if (k <=? n) && (n <=? 21) then s +:+ repeat_str "0" (Z.to_nat (n - k))
  else if (0 <? n) && (n <=? 21) then
    str_take (Z.to_nat n) s +:+ "." +:+ str_drop (Z.to_nat n) s
  else if (-6 <? n) && (n <=? 0) then "0." +:+ repeat_str "0" (Z.to_nat (- n)) +:+ s
  else
    let e := n - 1 in
    let exp := if 0 <=? e then "e+" +:+ pretty e else "e-" +:+ pretty (- e) in
    if k =? 1 then s +:+ exp
    else str_take 1 s +:+ "." +:+ str_drop 1 s +:+ exp.

(** Mantissa and exponent of the library's form. *)
(* @src jcs.rs 124-131 es_number *)
Definition split_exponent (body : string) : string * Z :=
  let '(m, rest) := span_not (λ c, bool_decide (c = "e"%char) || bool_decide (c = "E"%char)) body in
  match rest with
  | String _ e => (m, default 0 (parse_i64 e))
  | "" => (body, 0)
  end.

(* @src jcs.rs es_number *)
Definition es_number (f : f64) : string :=
  if SFeqb f (S754_zero false) then "0"
  else
    let printed := ryu f in
    let '(sign, body) :=
      match strip_prefix "-" printed with Some r => ("-", r) | None => ("", printed) end in
    let '(mantissa, exp10) := split_exponent body in
    let '(int_part, frac_part) :=
      match split_once "." mantissa with Some p => p | None => (mantissa, "") end in
    let digits_raw := int_part +:+ frac_part in
    let stripped := (String.length digits_raw - String.length (trim_zeros_start digits_raw))%nat in
    let n := Z.of_nat (String.length int_part) + exp10 - Z.of_nat stripped in
    sign +:+ place_digits (trim_zeros digits_raw) n.

(* @src jcs.rs write_value *)
Fixpoint canonicalize_into (v : Value) : string :=
  match v with
  | Null => "null"
  | Bool b => show_bool b
  | Number n =>
      match n with
      | PosInt z | NegInt z => pretty z
      | FloatNum x => es_number x
      end
  | Str s => json_string s
  | Arr items => "[" +:+ join "," (map canonicalize_into items) +:+ "]"
  | Obj m =>
      let printed := map (λ p, (p.1, canonicalize_into p.2)) m in
      "{" +:+ join "," ((λ p, json_string p.1 +:+ ":" +:+ p.2)
                          <$> sort_by (λ p q, utf16_leb p.1 q.1) printed) +:+ "}"
  end.

(* @src jcs.rs canonicalize *)
Definition canonicalize (v : Value) : string := canonicalize_into v.
End jcs.

(** The placement rules on the library's forms. *)
Example es_number_ex :
  map (λ r, es_number (λ _, r) (f64_of_Z 1))
    ["100.0"; "1e21"; "1e-6"; "1.5e-7"; "123456789012345680000.0"; "-0.001"; "1.25e30"; "12.5"]
  = ["100"; "1e+21"; "0.000001"; "1.5e-7"; "123456789012345680000"; "-0.001"; "1.25e+30"; "12.5"].
Proof. vm_compute. reflexivity. Qed.

(** A key beyond the BMP sorts by its surrogates, before U+FF5E. *)
Example utf16_order :
  utf16_leb (String (ascii_of_nat 240) (String (ascii_of_nat 159) (String (ascii_of_nat 152)
               (String (ascii_of_nat 128) ""))))
            (String (ascii_of_nat 239) (String (ascii_of_nat 189) (String (ascii_of_nat 158) "")))
  = true.
Proof. reflexivity. Qed.

End Jcs.
Import Jcs.

(* @src agent_event.rs SCHEMA *)
Definition SCHEMA : string := "taipanbox.dev/agent-event/v0.1".
(* @src agent_event.rs SOURCE *)
Definition SOURCE : string := "tokenfuse".

(* @src agent_event.rs EventType *)
Inductive EventType :=
| BudgetExhausted | SustainedLoop | SpendSpike | FanoutExplosion | BreakerTripped
| DlpBlock | TaintBlock | McpDrift | IdentityMismatch | ToolCall.

(* @src agent_event.rs EventType::as_wire_str *)
Definition as_wire_str (t : EventType) : string :=
  match t with
  | BudgetExhausted => "budget_exhausted"
  | SustainedLoop => "sustained_loop"
  | SpendSpike => "spend_spike"
  | FanoutExplosion => "fanout_explosion"
  | BreakerTripped => "breaker_tripped"
  | DlpBlock => "dlp_block"
  | TaintBlock => "taint_block"
  | McpDrift => "mcp_drift"
  | IdentityMismatch => "identity_mismatch"
  | ToolCall => "tool_call"
  end.

(* @src agent_event.rs EventType::severity *)
Definition severity (t : EventType) : Severity :=
  match t with
  | BudgetExhausted | McpDrift | BreakerTripped => Critical
  | SustainedLoop | SpendSpike | FanoutExplosion | DlpBlock | TaintBlock
  | IdentityMismatch => High
  | ToolCall => Low
  end.

(* @src agent_event.rs AgentEvent *)
Record AgentEvent := mkEvent {
  ev_schema : string;
  ev_ts : string;
  ev_source : string;
  ev_kind : string;
  ev_severity : Severity;
  ev_agent_id : string;
  ev_run_id : option string;
  ev_on_behalf_of : option (list string);
  ev_data : option Value;
  ev_prev_hash : option string
}.

Definition with_prev (e : AgentEvent) (h : option string) : AgentEvent :=
  mkEvent (ev_schema e) (ev_ts e) (ev_source e) (ev_kind e) (ev_severity e) (ev_agent_id e)
          (ev_run_id e) (ev_on_behalf_of e) (ev_data e) h.

(** [o.filter(|s| !s.is_empty())] *)
Definition non_empty (o : option string) : option string :=
  match o with Some s => if is_empty_str s then None else Some s | None => None end.

(* @src agent_event.rs build *)
Definition build (t : EventType) (ts : Z) (agent_id run_id : option string)
    (on_behalf_of : option (list string)) (data : Value) : option AgentEvent :=
  match non_empty agent_id with
  | None => None
  | Some agent_id =>
      Some (mkEvent SCHEMA (ts_millis_to_rfc3339_millis ts) SOURCE (as_wire_str t) (severity t)
              agent_id (non_empty run_id)
              (match on_behalf_of with Some [] | None => None | Some l => Some l end)
              (if is_null data then None else Some data) None)
  end.

Definition opt_member {A} (k : string) (f : A → Value) (o : option A) : list (string * Value) :=
  match o with Some x => [(k, f x)] | None => [] end.

(** [serde_json::to_value(event)]: absent members are omitted, keys in order. *)
(* @src agent_event.rs AgentEvent *)
Definition to_value (e : AgentEvent) : Value :=
  Obj ([("agent_id", Str (ev_agent_id e))]
       ++ opt_member "data" id (ev_data e)
       ++ opt_member "on_behalf_of" (λ l, Arr (Str <$> l)) (ev_on_behalf_of e)
       ++ opt_member "prev_hash" Str (ev_prev_hash e)
       ++ opt_member "run_id" Str (ev_run_id e)
       ++ [("schema", Str (ev_schema e)); ("severity", Str (as_str (ev_severity e)));
           ("source", Str (ev_source e)); ("ts", Str (ev_ts e)); ("type", Str (ev_kind e))]).

(** [map.remove(k)] *)
Definition remove_member (k : string) (v : Value) : Value :=
  match v with Obj m => Obj (filter (λ p, p.1 ≠ k) m) | _ => v end.

Definition NL : ascii := ascii_of_nat 10.

(** [<[u8]>::trim_ascii]: space, tab, newline, form feed, carriage return. *)
Definition ascii_ws (c : ascii) : bool :=
  let n := nat_of_ascii c in ((n =? 32) || (n =? 9) || (n =? 10) || (n =? 12) || (n =? 13))%nat.
Definition trim_ascii (s : string) : string := trim_chars ascii_ws s.

(* @src agent_event.rs ChainSink *)
Record ChainSink := mkSink {
  file : string;
  next : option string;
  resumed_from : option string
}.

(* @src agent_event.rs Exporter *)
Record Exporter := mkExporter {
  sink : option ChainSink;
  skipped : Z;       (* u64 *)
  write_errors : Z   (* u64 *)
}.

(* @src agent_event.rs EmitOutcome *)
Inductive EmitOutcome :=
| Disabled
| Written
| SkippedNoAgentId (skipped_total : Z)
| WriteError (errors_total : Z) (message : string).

(** What the operating system does with one [write_all]: everything, or an error
    after a prefix of the bytes. *)
Inductive WriteResult := WriteOk | WriteFail (written : nat) (message : string).

Section stream.
Context (sha256 : string → string)
        (json_string : string → string) (ryu : f64 → string)
        (to_ndjson_line : AgentEvent → string) (from_slice : string → option Value).

(* @src agent_event.rs chain_hash_value *)
Definition chain_hash_value (v : Value) : string :=
  "sha256:" +:+ hex_lower (sha256 (canonicalize json_string ryu (remove_member "prev_hash" v))).

(* @src agent_event.rs chain_hash *)
Definition chain_hash (e : AgentEvent) : option string := Some (chain_hash_value (to_value e)).

Definition WINDOW : nat := Z.to_nat 1048576.

(** The last non-blank line of the scanned bytes; the first is skipped when it was
    cut. *)
(* @src agent_event.rs 441-451 tail_chain_hash *)
Definition last_line (cut : bool) (buf : string) : option string :=
  let lines := split_char NL buf in
  let lines := if cut then drop 1 lines else lines in
  last (filter (λ l, l ≠ "") (trim_ascii <$> lines)).

(* @src agent_event.rs tail_chain_hash *)
Definition tail_chain_hash (file : string) : option string :=
  let len := String.length file in
  if (len =? 0)%nat then None
  else
    let start := (len - WINDOW)%nat in
    match last_line (0 <? start)%nat (str_drop start file) with
    | None => None
    | Some l =>
        match from_slice l with
        | Some (Obj m) => Some (chain_hash_value (Obj m))
        | _ => None
        end
    end.

(* @src agent_event.rs Exporter::disabled *)
Definition disabled : Exporter := mkExporter None 0 0.

(** Opening an existing (or freshly created, empty) file. *)
(* @src agent_event.rs Exporter::open *)
Definition open (content : string) : Exporter :=
  let resumed := tail_chain_hash content in
  mkExporter (Some (mkSink content resumed resumed)) 0 0.

(* @src agent_event.rs Exporter::resumed_from *)
Definition exporter_resumed_from (x : Exporter) : option string := sink x ≫= resumed_from.

(* @src agent_event.rs Exporter::is_enabled *)
Definition is_enabled (x : Exporter) : bool := bool_decide (is_Some (sink x)).

(* @src agent_event.rs Exporter::emit *)
Definition emit (x : Exporter) (wr : WriteResult) (t : EventType) (ts : Z)
    (agent_id run_id : option string) (on_behalf_of : option (list string)) (data : Value)
  : Exporter * EmitOutcome :=
  match sink x with
  | None => (x, Disabled)
  | Some k =>
      match build t ts agent_id run_id on_behalf_of data with
      | None =>
          let n := u64_wrap (skipped x + 1) in
          (mkExporter (sink x) n (write_errors x), SkippedNoAgentId n)
      | Some event =>
          let event := with_prev event (next k) in
          let line := to_ndjson_line event +:+ String NL "" in
          match wr with
          | WriteOk =>
              (mkExporter (Some (mkSink (file k +:+ line) (chain_hash event) (resumed_from k)))
                          (skipped x) (write_errors x), Written)
          | WriteFail written message =>
              let n := u64_wrap (write_errors x + 1) in
              (mkExporter (Some (mkSink (file k +:+ str_take written line) (next k)
                                        (resumed_from k))) (skipped x) n,
               WriteError n message)
          end
      end
  end.

(* @src agent_event.rs Exporter::skipped_count *)
Definition skipped_count (x : Exporter) : Z := skipped x.
(* @src agent_event.rs Exporter::write_error_count *)
Definition write_error_count (x : Exporter) : Z := write_errors x.

(** ** Correctness *)

(** The hash does not depend on the event's own link. *)
Lemma chain_hash_prev_independent e h : chain_hash (with_prev e h) = chain_hash e.
Proof.
  assert (remove_member "prev_hash" (to_value (with_prev e h))
          = remove_member "prev_hash" (to_value e)) as Hr
    by (destruct e as [? ? ? ? ? ? [] [] [] []], h; reflexivity).
  unfold chain_hash, chain_hash_value. by rewrite Hr.
Qed.

(** One call of [emit]. *)
Record Call := mkCall {
  c_type : EventType; c_ts : Z; c_agent : option string; c_run : option string;
  c_chain : option (list string); c_data : Value; c_io : WriteResult
}.

Definition emit_call (x : Exporter) (c : Call) : Exporter :=
  (emit x (c_io c) (c_type c) (c_ts c) (c_agent c) (c_run c) (c_chain c) (c_data c)).1.

(** The file text of linked events. *)
Fixpoint lines_of (es : list AgentEvent) : string :=
  match es with
  | [] => ""
  | e :: es => to_ndjson_line e +:+ String NL (lines_of es)
  end.

(** Each event names the hash of the one before it, from [h] on. *)
Fixpoint linked (h : option string) (es : list AgentEvent) : Prop :=
  match es with
  | [] => True
  | e :: es => ev_prev_hash e = h ∧ linked (chain_hash e) es
  end.

Definition tip (h : option string) (es : list AgentEvent) : option string :=
  match last es with Some e => chain_hash e | None => h end.

Lemma lines_of_snoc es e :
  lines_of (es ++ [e]) = lines_of es +:+ (to_ndjson_line e +:+ String NL "").
Proof.
  induction es as [|e' es IH]; [done|]. cbn [lines_of app]. rewrite IH.
  rewrite append_assoc. done.
Qed.

Lemma linked_snoc h es e : linked h es → ev_prev_hash e = tip h es → linked h (es ++ [e]).
Proof.
  revert h. induction es as [|e' es IH]; intros h; simpl; [by intros _ ->|].
  intros [H1 H2] He. split; [done|]. apply IH; [done|]. rewrite He. unfold tip.
  destruct es as [|e'' es]; [done|]. rewrite last_cons_cons.
  by destruct (last (e'' :: es)) eqn:E; [|apply last_None in E].
Qed.

(** Writes that fail before any byte is out. *)
Definition clean_io (c : Call) : Prop :=
  match c_io c with WriteOk => True | WriteFail n _ => n = O end.

Definition stream_ok (content : string) (x : Exporter) : Prop :=
  ∃ k es, sink x = Some k ∧ file k = content +:+ lines_of es ∧
    linked (resumed_from k) es ∧ next k = tip (resumed_from k) es ∧
    resumed_from k = tail_chain_hash content.

Lemma emit_ok content x c :
  clean_io c → stream_ok content x → stream_ok content (emit_call x c).
Proof.
  intros Hio (k & es & Hk & Hf & Hl & Hn & Hr). unfold emit_call, emit. rewrite Hk.
  destruct (build _ _ _ _ _ _) as [e|]; simpl; [|by exists k, es].
  unfold clean_io in Hio. destruct (c_io c) as [|n m]; simpl.
  - eexists _, (es ++ [with_prev e (next k)]). split; [done|]. simpl.
    split; [by rewrite Hf, lines_of_snoc, append_assoc|].
    split; [by apply linked_snoc|]. split; [|done]. unfold tip. by rewrite last_snoc.
  - subst n. eexists _, es. split; [done|]. simpl.
    split; [by rewrite Hf, append_nil_r|]. done.
Qed.

(** One file is one chain.  Whatever is emitted, skipped or refused by the disk
    (as long as a refused write leaves no bytes), the file is the text it was
    opened with followed by one line per written event, and each of these events
    carries the hash of the event before it, the first one the hash of the last
    event already in the file. *)
Theorem stream_is_one_chain content calls :
  Forall clean_io calls →
  ∃ k es, sink (foldl emit_call (open content) calls) = Some k ∧
    file k = content +:+ lines_of es ∧ linked (tail_chain_hash content) es.
Proof.
  intros Hio. assert (stream_ok content (foldl emit_call (open content) calls))
    as (k & es & Hk & Hf & Hl & _ & Hr).
  { assert (stream_ok content (open content)) as H0.
    { eexists _, []. split; [done|]. simpl. rewrite append_nil_r. done. }
    revert H0. generalize (open content). induction Hio as [|c cs Hc _ IH]; intros x Hx; [done|].
    simpl. by apply IH, emit_ok. }
  exists k, es. rewrite <- Hr. done.
Qed.

(** ** Restarts *)

(** What a printed event looks like to the reader of the file: one line of JSON,
    without blanks around it. *)
Definition well_printed (e : AgentEvent) : Prop :=
  from_slice (to_ndjson_line e) = Some (to_value e) ∧
  trim_ascii (to_ndjson_line e) = to_ndjson_line e ∧
  free_of NL (to_ndjson_line e) ∧ to_ndjson_line e ≠ "".

Lemma split_lines es :
  Forall well_printed es → split_char NL (lines_of es) = (to_ndjson_line <$> es) ++ [""].
Proof.
  induction 1 as [|e es He _ IH]; [done|]. cbn [lines_of].
  rewrite split_char_cons by apply He. by rewrite IH.
Qed.

Lemma last_line_lines es :
  Forall well_printed es → last_line false (lines_of es) = to_ndjson_line <$> last es.
Proof.
  intros Hes. unfold last_line. rewrite split_lines by done. rewrite fmap_app, filter_app.
  replace (filter (λ l, l ≠ "") (trim_ascii <$> [""])) with (@nil string) by done.
  rewrite app_nil_r.
  assert (filter (λ l, l ≠ "") (trim_ascii <$> (to_ndjson_line <$> es)) = to_ndjson_line <$> es)
    as ->; [|by rewrite fmap_last].
  induction Hes as [|e es He _ IH]; [done|].
  rewrite !fmap_cons, filter_cons, (proj1 (proj2 He)), decide_True by apply He. by rewrite IH.
Qed.

(** A restart does not break the chain: reopening a file written by the exporter
    (within the one-megabyte window) resumes from the hash of its last event, so
    the next event links to it. *)
Theorem reopen_resumes_chain es :
  Forall well_printed es →
  (String.length (lines_of es) ≤ WINDOW)%nat →
  tail_chain_hash (lines_of es) = tip None es.
Proof.
  intros Hes Hlen. unfold tail_chain_hash, tip.
  replace (String.length (lines_of es) - WINDOW)%nat with O by lia.
  change (str_drop 0 (lines_of es)) with (lines_of es). cbn [Nat.ltb Nat.leb].
  rewrite last_line_lines by done. destruct (last es) as [e|] eqn:El; simpl.
  - assert ((String.length (lines_of es) =? 0)%nat = false) as ->.
    { apply Nat.eqb_neq. destruct es as [|e' es]; [done|]. cbn [lines_of].
      rewrite append_length. simpl. lia. }
    apply last_Some_elem_of in El. rewrite Forall_forall in Hes.
    by rewrite (proj1 (Hes e El)).
  - apply last_None in El as ->. done.
Qed.
End stream.

(** A concrete printer and parser for the events of one run. *)
Definition demo_event (run : string) (prev : option string) : AgentEvent :=
  mkEvent SCHEMA "2026-07-09T03:12:44.100Z" SOURCE "tool_call" Low "agent-1" (Some run) None None prev.
Definition demo_print (e : AgentEvent) : string :=
  "{" +:+ default "" (ev_run_id e) +:+ default "" (ev_prev_hash e) +:+ "}".
Definition demo_stream : list AgentEvent := [demo_event "r1" None; demo_event "r2" (Some "h")].
Definition demo_parse (s : string) : option Value :=
  to_value <$> find (λ e, bool_decide (demo_print e = s)) demo_stream.

Lemma reopen_resumes_chain_witness :
  tail_chain_hash id id (λ _, "") demo_parse (lines_of demo_print demo_stream)
  = tip id id (λ _, "") None demo_stream.
Proof.
  apply (reopen_resumes_chain id id (λ _, "") demo_print demo_parse demo_stream).
  - repeat constructor; discriminate.
  - apply Nat.leb_le. vm_compute. reflexivity.
Defined.

Lemma stream_is_one_chain_witness :
  ∃ k es, sink (foldl (emit_call id id (λ _, "") demo_print)
                  (open id id (λ _, "") demo_parse "")
                  [mkCall DlpBlock 0 (Some "a") (Some "r1") None Null WriteOk;
                   mkCall DlpBlock 0 None None None Null WriteOk;
                   mkCall DlpBlock 0 (Some "a") None None Null (WriteFail 0 "disk full")])
          = Some k ∧ file k = lines_of demo_print es.
Proof.
  destruct (stream_is_one_chain id id (λ _, "") demo_print demo_parse ""
    [mkCall DlpBlock 0 (Some "a") (Some "r1") None Null WriteOk;
     mkCall DlpBlock 0 None None None Null WriteOk;
     mkCall DlpBlock 0 (Some "a") None None Null (WriteFail 0 "disk full")]) as (k & es & H1 & H2 & _);
    [repeat constructor|]. exists k, es. split; [exact H1|]. rewrite H2. reflexivity.
Defined.
