(* ===== verification/Compliance.v ===== *)
(** * The compliance catalog and evidence report

    [crates/core/src/compliance.rs]: the controls, what each of them watches, and the
    projection of observed counts onto them. *)

From S2P Require Import Prelude Float Money Breaker Savings McpReport.

(* @src compliance.rs Enforcement *)
Inductive Enforcement := Enforced | Partial | Documented.

#[export] Instance Enforcement_eq_dec : EqDecision Enforcement.
Proof. solve_decision. Defined.

(* @src compliance.rs ControlMapping *)
Record ControlMapping := mkControl {
  control_id : string;
  title : string;
  description : string;
  feature : string;
  enforcement : Enforcement;
  evidence_decisions : list string;
  evidence_finding_kinds : list string;
  evidence_incident_kinds : list string;
  frameworks : list (string * string)
}.

(* @src compliance.rs FRAMEWORK_VERSIONS *)
Definition FRAMEWORK_VERSIONS : list (string * string * string) :=
  [("OWASP-ASI-2026", "OWASP Top 10 for Agentic Applications",
    "2026 edition (retrieved 2026-07)");
   ("MITRE-ATLAS", "MITRE ATLAS (Adversarial Threat Landscape for AI Systems)",
    "matrix retrieved 2026-07");
   ("NIST-800-53r5", "NIST SP 800-53 Revision 5", "Rev. 5 (retrieved 2026-07)");
   ("SOC2", "SOC 2 Trust Services Criteria (2017, rev. 2022)", "retrieved 2026-07");
   ("EU-AI-ACT", "EU AI Act (Regulation (EU) 2024/1689)", "retrieved 2026-07")].

(** The enforced entries of the catalog. *)
(* @src compliance.rs 146-316 CATALOG *)
Definition ENFORCED_CONTROLS : list ControlMapping := [
  {| control_id := "TF.BUDGET";
     title := "Per-run spend cap";
     description :=
       "Reserves/settles token spend against a per-run budget and blocks the call that would exceed it.";
     feature := "crate::ledger (reserve/settle) → breaker budget_exceeded";
     enforcement := Enforced;
     evidence_decisions := ["budget_exceeded"];
     evidence_finding_kinds := [];
     evidence_incident_kinds := ["budget_exhausted"; "spend_spike"];
     frameworks := [("OWASP-ASI-2026", "ASI08 (Cascading Failures)");
       ("NIST-800-53r5", "SC-6 (Resource Availability)");
       ("SOC2", "CC7.2 (System Monitoring)");
       ("EU-AI-ACT", "Art. 15 (Accuracy, robustness and cybersecurity)")] |};
  {| control_id := "TF.LOOP";
     title := "Runaway-loop breaker";
     description :=
       "Detects repeated/oscillating steps and stops a run that is looping without progress.";
     feature := "crate::loops → breaker loop_detected";
     enforcement := Enforced;
     evidence_decisions := ["loop_detected"];
     evidence_finding_kinds := [];
     evidence_incident_kinds := ["sustained_loop"];
     frameworks := [("OWASP-ASI-2026", "ASI08 (Cascading Failures)");
       ("NIST-800-53r5", "SC-6 (Resource Availability)");
       ("NIST-800-53r5", "SI-4 (System Monitoring)");
       ("EU-AI-ACT", "Art. 15 (Accuracy, robustness and cybersecurity)")] |};
  {| control_id := "TF.KILL";
     title := "Operator kill-switch";
     description :=
       "An operator can hard-stop a run; the gateway polls the kill set and refuses further calls.";
     feature := "operator kill (cloud store.kill) → breaker killed";
     enforcement := Enforced;
     evidence_decisions := ["killed"];
     evidence_finding_kinds := [];
     evidence_incident_kinds := [];
     frameworks := [("OWASP-ASI-2026", "ASI10 (Rogue Agents)");
       ("EU-AI-ACT", "Art. 14 (Human oversight)");
       ("NIST-800-53r5", "AC-3 (Access Enforcement)")] |};
  {| control_id := "TF.DLP";
     title := "Secret/DLP wire redaction";
     description :=
       "Scans request args and responses for raw secrets and blocks the call before they reach the model/tool. Optionally, an operator can also enable a separate, env-gated PII mode (email/card/phone, regex-only, no ML).";
     feature := "crate::dlp + MCP broker → breaker dlp_blocked";
     enforcement := Enforced;
     evidence_decisions := ["dlp_blocked"];
     evidence_finding_kinds := [];
     evidence_incident_kinds := [];
     frameworks := [("OWASP-ASI-2026", "ASI02 (Tool Misuse and Exploitation)");
       ("MITRE-ATLAS", "Exfiltration (tactic)");
       ("NIST-800-53r5", "SC-7 (Boundary Protection)");
       ("SOC2", "CC6.7 (Restrict transmission/movement of information)")] |};
  {| control_id := "TF.TAINT";
     title := "Untrusted-content taint firewall";
     description :=
       "Propagates an 'untrusted' label from web/RAG content and blocks tainted content from driving sensitive tool calls.";
     feature := "crate::taint → breaker taint_blocked";
     enforcement := Enforced;
     evidence_decisions := ["taint_blocked"];
     evidence_finding_kinds := [];
     evidence_incident_kinds := [];
     frameworks := [("OWASP-ASI-2026", "ASI01 (Agent Goal Hijack)");
       ("MITRE-ATLAS", "AML.T0051 (LLM Prompt Injection)");
       ("NIST-800-53r5", "SI-4 (System Monitoring)");
       ("EU-AI-ACT", "Art. 15 (Accuracy, robustness and cybersecurity)")] |};
  {| control_id := "TF.MCP.POISON";
     title := "MCP tool-poisoning scan";
     description :=
       "Scans MCP tool descriptions for injected instructions (tool poisoning) and flags them before use.";
     feature := "crate::mcp::scan_injection → mcpreport 'poisoning'";
     enforcement := Enforced;
     evidence_decisions := [];
     evidence_finding_kinds := ["poisoning"];
     evidence_incident_kinds := [];
     frameworks := [("OWASP-ASI-2026", "ASI06 (Memory & Context Poisoning)");
       ("MITRE-ATLAS", "AML.T0051 (LLM Prompt Injection)");
       ("NIST-800-53r5", "SR-3 (Supply Chain Controls and Processes)")] |};
  {| control_id := "TF.MCP.RUGPULL";
     title := "MCP tool-drift (rug-pull) lock";
     description :=
       "Pins tool definitions in a lock and flags silent changes, additions, or removals vs the approved set.";
     feature := "crate::mcp::diff → mcpreport rug_pull/new_tool/removed_tool";
     enforcement := Enforced;
     evidence_decisions := [];
     evidence_finding_kinds := ["rug_pull"; "new_tool"; "removed_tool"];
     evidence_incident_kinds := [];
     frameworks := [("OWASP-ASI-2026", "ASI04 (Agentic Supply Chain Vulnerabilities)");
       ("NIST-800-53r5", "SR-3 (Supply Chain Controls and Processes)");
       ("MITRE-ATLAS", "AI Supply Chain Compromise (tactic)")] |};
  {| control_id := "TF.MCP.EXPOSURE";
     title := "MCP server-exposure scan";
     description :=
       "Live checks for an unauthenticated/plaintext/CORS-wildcard MCP server and SSRF-capable tools.";
     feature := "crate::mcpexposure (exposure_findings / ssrf_capable_findings)";
     enforcement := Enforced;
     evidence_decisions := [];
     evidence_finding_kinds := ["exposure_unauth_list"; "exposure_plaintext"; "exposure_cors_wildcard"; "exposure_unauth_call"; "exposure_unauth_call_rejected"; "exposure_unauth_call_skipped"; "ssrf_capable_tool"];
     evidence_incident_kinds := [];
     frameworks := [("OWASP-ASI-2026", "ASI03 (Identity and Privilege Abuse)");
       ("OWASP-ASI-2026", "ASI04 (Agentic Supply Chain Vulnerabilities)");
       ("NIST-800-53r5", "SC-7 (Boundary Protection)");
       ("SOC2", "CC6.1 (Logical access security)")] |}
].

(** The partial entries. *)
(* @src compliance.rs 318-369 CATALOG *)
Definition PARTIAL_CONTROLS : list ControlMapping := [
  {| control_id := "TF.WASM";
     title := "Custom WASM policy plugin";
     description :=
       "Operator-supplied WebAssembly policy can block a call at runtime. Partial: the `wasm` feature is off by default and not in the shipped image, and the policy is arbitrary operator code — so no fixed framework control is claimed.";
     feature := "wasm policy plugin (feature-gated) → breaker wasm_policy";
     enforcement := Partial;
     evidence_decisions := ["wasm_policy"];
     evidence_finding_kinds := [];
     evidence_incident_kinds := [];
     frameworks := [] |};
  {| control_id := "TF.AUDIT";
     title := "Decision audit log";
     description :=
       "Every enforcement decision is written to the decisions audit trail. Partial: the tamper-evident hash-chain + signing (docs/08 S4) is not yet implemented, so integrity of the log is not yet claimable.";
     feature := "decisions_audit (write path); tamper-evident chain pending";
     enforcement := Partial;
     evidence_decisions := [];
     evidence_finding_kinds := [];
     evidence_incident_kinds := [];
     frameworks := [("NIST-800-53r5", "AU-2 (Event Logging)");
       ("NIST-800-53r5", "AU-9 (Protection of Audit Information)");
       ("EU-AI-ACT", "Art. 12 (Record-keeping)");
       ("SOC2", "CC7.2 (System Monitoring)")] |};
  {| control_id := "TF.ACCESS";
     title := "Access control (RBAC)";
     description :=
       "Cloud RBAC (admin vs viewer; mutations require admin; orgs isolated by key) gates the control plane. Partial: SSO / external IdP integration is not yet implemented.";
     feature := "crate::cloud RBAC (admin/viewer); SSO pending";
     enforcement := Partial;
     evidence_decisions := [];
     evidence_finding_kinds := [];
     evidence_incident_kinds := [];
     frameworks := [("NIST-800-53r5", "AC-3 (Access Enforcement)");
       ("NIST-800-53r5", "AC-6 (Least Privilege)");
       ("SOC2", "CC6.1 (Logical access security)")] |}
].

(* @src compliance.rs 144-145 CATALOG *)
Definition CATALOG : list ControlMapping := ENFORCED_CONTROLS ++ PARTIAL_CONTROLS.

(* @src compliance.rs DISCLAIMER *)
Definition DISCLAIMER : string :=
  "Controls TokenFuse enforces + evidence for your audit — not a certification. TokenFuse is fail-open by default; see docs/13. Cloud ingest evidence trusts the org credential presented to /v1/ingest, not the gateway cryptographically — a gateway-specific credential is future work.".

(* @src compliance.rs ControlEvidence *)
Record ControlEvidence := mkEvidence {
  ce_control_id : string;
  ce_title : string;
  ce_enforcement : Enforcement;
  decision_counts : gmap string Z;
  finding_counts : gmap string Z;
  incident_count : Z;
  covered : bool;
  evidence_seen : bool
}.

(* @src compliance.rs ComplianceReport *)
Record ComplianceReport := mkCompliance {
  generated_note : string;
  framework_versions : list (string * string * string);
  controls : list ControlEvidence;
  decisions_total : Z;
  findings_total : Z
}.

(** [iter().sum::<u64>()] *)
Definition u64_sum (l : list Z) : Z := foldl (λ a x, u64_wrap (a + x)) 0 l.

(** The watched keys with their observed counts. *)
(* @src compliance.rs 507-517 compute_compliance_from_counts *)
Definition watch (keys : list string) (counts : gmap string Z) : gmap string Z :=
  foldl (λ m k, <[k := default 0 (counts !! k)]> m) ∅ keys.

Definition values (m : gmap string Z) : list Z := snd <$> btree_list m.

(* @src compliance.rs 503-547 compute_compliance_from_counts *)
Definition control_evidence (decisions findings incidents : gmap string Z) (c : ControlMapping)
  : ControlEvidence :=
  let dc := watch (evidence_decisions c) decisions in
  let fc := watch (evidence_finding_kinds c) findings in
  let ic := u64_sum ((λ k, default 0 (incidents !! k)) <$> evidence_incident_kinds c) in
  let seen := (0 <? u64_sum (values dc)) || (0 <? u64_sum (values fc)) || (0 <? ic) in
  let is_preventive := negb (bool_decide (evidence_decisions c = [])) in
  let cov := bool_decide (enforcement c = Enforced) && (seen || is_preventive) in
  mkEvidence (control_id c) (title c) (enforcement c) dc fc ic cov seen.

(* @src compliance.rs compute_compliance_from_counts *)
Definition compute_compliance_from_counts (catalog : list ControlMapping)
    (decisions findings incidents : gmap string Z) : ComplianceReport :=
  mkCompliance DISCLAIMER FRAMEWORK_VERSIONS
    (control_evidence decisions findings incidents <$> catalog)
    (u64_sum (values decisions)) (u64_sum (values findings)).

(** One more occurrence of [k]. *)
Definition tally (m : gmap string Z) (k : string) : gmap string Z :=
  <[k := u64_wrap (default 0 (m !! k) + 1)]> m.

(* @src compliance.rs compute_compliance *)
Definition compute_compliance (catalog : list ControlMapping) (calls : list Savings.Call)
    (findings : list McpReport.Finding) : ComplianceReport :=
  compute_compliance_from_counts catalog
    (foldl tally ∅ (Savings.decision <$> calls))
    (foldl tally ∅ (f_kind <$> findings)) ∅.

(** ** Correctness *)

(** The catalog only cites evidence the product can produce. *)
Definition finding_kinds : list string :=
  ["poisoning"; "rug_pull"; "new_tool"; "removed_tool"; "exposure_unauth_list";
   "exposure_plaintext"; "exposure_cors_wildcard"; "exposure_unauth_call";
   "exposure_unauth_call_rejected"; "exposure_unauth_call_skipped"; "ssrf_capable_tool"].

Definition honest (c : ControlMapping) : bool :=
  forallb (λ d, bool_decide (d ∈ as_wire_str <$> all_reasons)) (evidence_decisions c)
  && forallb (λ k, bool_decide (k ∈ finding_kinds)) (evidence_finding_kinds c)
  && forallb (λ f, bool_decide (f.1 ∈ (λ v, v.1.1) <$> FRAMEWORK_VERSIONS)) (frameworks c)
  && (bool_decide (enforcement c ≠ Enforced)
      || negb (bool_decide (evidence_decisions c ++ evidence_finding_kinds c = []))).

Lemma watch_lookup keys counts k :
  watch keys counts !! k = if decide (k ∈ keys) then Some (default 0 (counts !! k)) else None.
Proof.
  unfold watch. induction keys as [|x l IH] using rev_ind; [done|].
  rewrite foldl_app. cbn [foldl]. rewrite lookup_insert, IH.
  pose proof (elem_of_app l [x] k) as He. rewrite list_elem_of_singleton in He.
  repeat case_decide; subst; naive_solver.
Qed.

Lemma u64_sum_exact l :
  Forall (λ z, 0 ≤ z) l → zsum l ≤ u64_max → u64_sum l = zsum l.
Proof.
  unfold u64_sum. intros Hl Hs.
  assert (∀ a, 0 ≤ a → a + zsum l ≤ u64_max →
               foldl (λ a x, u64_wrap (a + x)) a l = a + zsum l) as H.
  { clear Hs. induction Hl as [|x l Hx Hl IH]; intros a Ha Hs; simpl in *; [lia|].
    pose proof (zsum_nonneg l Hl). rewrite u64_wrap_id by mach. rewrite IH; lia. }
  rewrite H; lia.
Qed.

Lemma zsum_pos l : Forall (λ z, 0 ≤ z) l → 0 < zsum l ↔ Exists (λ z, 0 < z) l.
Proof.
  induction 1 as [|x l Hx Hl IH]; simpl; [rewrite Exists_nil; lia|].
  rewrite Exists_cons, <- IH. pose proof (zsum_nonneg l Hl). lia.
Qed.

(** Counts as a store keeps them: not negative, and their total fits. *)
Definition sane (m : gmap string Z) : Prop :=
  (∀ k z, m !! k = Some z → 0 ≤ z).

Lemma values_elem m z : z ∈ values m ↔ ∃ k, m !! k = Some z.
Proof.
  unfold values. rewrite list_elem_of_fmap. split.
  - intros ([k y] & -> & H%btree_list_elem). eauto.
  - intros [k H]. exists (k, z). split; [done|]. by apply btree_list_elem.
Qed.

Lemma seen_iff keys counts :
  sane counts → zsum (values (watch keys counts)) ≤ u64_max →
  (0 <? u64_sum (values (watch keys counts))) = true ↔
  ∃ k, k ∈ keys ∧ 0 < default 0 (counts !! k).
Proof.
  intros Hs Hb. assert (Forall (λ z, 0 ≤ z) (values (watch keys counts))) as Hn.
  { apply Forall_forall. intros z [k Hk]%values_elem. rewrite watch_lookup in Hk.
    case_decide; simplify_eq. destruct (counts !! k) eqn:E; simpl; [by eapply Hs|lia]. }
  rewrite Z.ltb_lt, u64_sum_exact, zsum_pos, Exists_exists by done. split.
  - intros (z & [k Hk]%values_elem & Hz). rewrite watch_lookup in Hk.
    case_decide; simplify_eq. eauto.
  - intros (k & Hk & Hz). exists (default 0 (counts !! k)). split; [|done].
    apply values_elem. exists k. by rewrite watch_lookup, decide_True.
Qed.

(** The evidence report never over-claims: a control is covered exactly when it is
    enforced and either blocks on the wire or was seen at work, a partial control
    never is; and every entry of the shipped catalog cites only decisions, finding
    kinds and frameworks that exist, under a unique id. *)
Theorem coverage_rule decisions findings incidents c :
  sane decisions → sane findings → sane incidents →
  zsum (values (watch (evidence_decisions c) decisions)) ≤ u64_max →
  zsum (values (watch (evidence_finding_kinds c) findings)) ≤ u64_max →
  zsum ((λ k, default 0 (incidents !! k)) <$> evidence_incident_kinds c) ≤ u64_max →
  (covered (control_evidence decisions findings incidents c) = true ↔
     enforcement c = Enforced ∧
     (evidence_decisions c ≠ [] ∨
      (∃ k, k ∈ evidence_finding_kinds c ∧ 0 < default 0 (findings !! k)) ∨
      (∃ k, k ∈ evidence_incident_kinds c ∧ 0 < default 0 (incidents !! k)))) ∧
  forallb honest CATALOG = true ∧ NoDup (control_id <$> CATALOG).
Proof.
  intros Hd Hf Hi Bd Bf Bi. split; [|split; [by vm_compute|refine (bool_decide_unpack (NoDup (control_id <$> CATALOG)) _); by vm_compute]].
  assert (Forall (λ z, 0 ≤ z) ((λ k, default 0 (incidents !! k)) <$> evidence_incident_kinds c)) as Hn.
  { apply Forall_fmap, Forall_forall. intros k _. simpl.
    destruct (incidents !! k) eqn:E; simpl; [by eapply Hi|lia]. }
  unfold control_evidence. simpl.
  rewrite andb_true_iff, !orb_true_iff, bool_decide_eq_true, negb_true_iff, bool_decide_eq_false.
  rewrite !seen_iff, Z.ltb_lt, u64_sum_exact, zsum_pos, Exists_fmap, Exists_exists by done.
  split.
  - intros [He [[[(k & Hk & _)|H]|H]|H]]; split; try done; auto.
    left. intros E. rewrite E in Hk. by apply not_elem_of_nil in Hk.
  - intros [He [H|[H|H]]]; split; try done; auto.
Qed.

Definition poison_control : ControlMapping :=
  mkControl "TF.MCP.POISON" "" "" "" Enforced [] ["poisoning"] [] [].

Lemma coverage_rule_witness :
  covered (control_evidence ∅ {["poisoning" := 2]} ∅ poison_control) = true ∧
  covered (control_evidence ∅ ∅ ∅ poison_control) = false.
Proof.
  split; [|reflexivity].
  assert (sane ∅) as He by (by intros k z).
  assert (sane {["poisoning" := 2]}) as Hp by (intros k z [_ <-]%lookup_singleton_Some; lia).
  refine (proj2 (proj1 (coverage_rule ∅ {["poisoning" := 2]} ∅ poison_control He Hp He _ _ _)) _);
    [vm_compute; discriminate..|].
  split; [done|]. right. left. exists "poisoning". split; [by left|vm_compute; done].
Defined.
