(* ===== verification/UnitLedger.v ===== *)
(** * Monthly budgets per business unit

    [crates/gateway/src/unitledger.rs].  The counters are a map behind a mutex; the
    overrides are behind another one, read before.  The window of a counter is the UTC month of the
    operation's clock, as text.  The theorems are that the month of the key is the
    calendar month of [Timefmt], so that keys of one month form an interval of time,
    and the accounting invariant of every interleaving of the steps of reserves and
    settles under a clock that does not run backwards. *)

From S2P Require Import Prelude Float Money Strings Timefmt.

(* @src unitledger.rs DAY_MILLIS *)
Definition DAY_MILLIS : Z := 86400000.

(** The year and the month (1 to 12) computed by [month_key]. *)
(* @src unitledger.rs 31-40 month_key *)
Definition month_of_millis (ts_millis : Z) : Z * Z :=
  let days := ts_millis / DAY_MILLIS in
  let z := days + 719468 in
  let era := Z.quot (if 0 <=? z then z else z - 146096) 146097 in
  let doe := z - era * 146097 in
  let yoe := Z.quot (doe - Z.quot doe 1460 + Z.quot doe 36524 - Z.quot doe 146096) 365 in
  let y := yoe + era * 400 in
  let doy := doe - (365 * yoe + Z.quot yoe 4 - Z.quot yoe 100) in
  let mp := Z.quot (5 * doy + 2) 153 in
  let m := if mp <? 10 then mp + 3 else mp - 9 in
  let y := if m <=? 2 then y + 1 else y in
  (y, m).

(* @src unitledger.rs month_key *)
Definition month_key (ts_millis : Z) : string :=
  let '(y, m) := month_of_millis ts_millis in
  pad0 4 y +:+ "-" +:+ pad0 2 m.

(* @src unitledger.rs UnitReservation *)
Record UnitReservation := mkUnitReservation {
  ur_unit : string;
  ur_amount : Microusd;
  ur_window : string
}.

(* @src unitledger.rs UnitExceeded *)
Record UnitExceeded := mkUnitExceeded {
  ue_unit : string;
  ue_budget : Microusd;
  ue_spent : Microusd
}.

(* @src unitledger.rs UnitState *)
Record UnitState := mkUnitState {
  us_window : string;
  us_reserved : Microusd;
  us_spent : Microusd
}.

(* @src unitledger.rs UnitLedger *)
Record UnitLedger := mkUnitLedger {
  ul_base : gmap string Microusd;
  ul_overrides : gmap string Microusd;
  ul_state : gmap string UnitState
}.

Module UnitLedger.
Definition with_state (l : UnitLedger) (m : gmap string UnitState) : UnitLedger :=
  mkUnitLedger (ul_base l) (ul_overrides l) m.

(* @src unitledger.rs UnitLedger::new *)
Definition new (base : gmap string Microusd) : UnitLedger := mkUnitLedger base ∅ ∅.

(* @src unitledger.rs UnitLedger::set_overrides *)
Definition set_overrides (l : UnitLedger) (overrides : gmap string Microusd) : UnitLedger :=
  mkUnitLedger (ul_base l) overrides (ul_state l).

(* @src unitledger.rs UnitLedger::effective_cap *)
Definition effective_cap (l : UnitLedger) (unit : string) : option Microusd :=
  match ul_overrides l !! unit with
  | Some v => Some v
  | None => ul_base l !! unit
  end.

(** The entry of the unit after [or_insert_with] and the roll to [now_window]. *)
(* @src unitledger.rs UnitLedger::rolled *)
Definition rolled (state : gmap string UnitState) (unit now_window : string) : UnitState :=
  let entry := default (mkUnitState now_window Microusd.ZERO Microusd.ZERO) (state !! unit) in
  if bool_decide (us_window entry ≠ now_window)
  then mkUnitState now_window Microusd.ZERO Microusd.ZERO
  else entry.

Definition take (est : Microusd) (s : UnitState) : UnitState :=
  mkUnitState (us_window s) (Microusd.add (us_reserved s) est) (us_spent s).

(** Under the state lock, with the cap read before.  The entry is rolled in place, so a
    refusal keeps the rolled entry. *)
(* @src unitledger.rs 135-150 UnitLedger::try_reserve *)
Definition reserve_under (l : UnitLedger) (unit : string) (estimate cap : Microusd)
    (now_millis : Z) : UnitLedger * result (option UnitReservation) UnitExceeded :=
  let window := month_key now_millis in
  let s := rolled (ul_state l) unit window in
  let would := Microusd.add (Microusd.add (us_spent s) (us_reserved s)) estimate in
  if cap <? would
  then (with_state l (<[unit := s]> (ul_state l)),
        Err (mkUnitExceeded unit cap (us_spent s)))
  else (with_state l (<[unit := take estimate s]> (ul_state l)),
        Ok (Some (mkUnitReservation unit estimate window))).

(** The call alone: nothing happens between its reads and the state lock. *)
(* @src unitledger.rs UnitLedger::try_reserve *)
Definition try_reserve (l : UnitLedger) (unit : string) (estimate : Microusd) (now_millis : Z)
  : UnitLedger * result (option UnitReservation) UnitExceeded :=
  match effective_cap l unit with
  | None => (l, Ok None)
  | Some cap => reserve_under l unit estimate cap now_millis
  end.

(** Under the state lock. *)
(* @src unitledger.rs 164-172 UnitLedger::reserve_unchecked *)
Definition take_under (l : UnitLedger) (unit : string) (estimate : Microusd) (now_millis : Z)
  : UnitLedger * UnitReservation :=
  let window := month_key now_millis in
  let s := rolled (ul_state l) unit window in
  (with_state l (<[unit := take estimate s]> (ul_state l)),
   mkUnitReservation unit estimate window).

(* @src unitledger.rs UnitLedger::reserve_unchecked *)
Definition reserve_unchecked (l : UnitLedger) (unit : string) (estimate : Microusd)
    (now_millis : Z) : UnitLedger * option UnitReservation :=
  match effective_cap l unit with
  | None => (l, None)
  | Some _ => let '(l, r) := take_under l unit estimate now_millis in (l, Some r)
  end.

(* @src unitledger.rs 196-197 UnitLedger::settle *)
Definition settle_unit (amount actual : Microusd) (s : UnitState) : UnitState :=
  mkUnitState (us_window s) (Microusd.saturating_sub (us_reserved s) amount)
              (Microusd.add (us_spent s) actual).

(* @src unitledger.rs UnitLedger::settle *)
Definition settle (l : UnitLedger) (r : UnitReservation) (actual : Microusd) (now_millis : Z)
  : UnitLedger :=
  let now_window := month_key now_millis in
  if bool_decide (ur_window r ≠ now_window) then l
  else match ul_state l !! ur_unit r with
       | None => l
       | Some s =>
           if bool_decide (us_window s ≠ ur_window r) then l
           else with_state l (<[ur_unit r := settle_unit (ur_amount r) actual s]> (ul_state l))
       end.

(* @src unitledger.rs UnitLedger::spent *)
Definition spent (l : UnitLedger) (unit : string) (now_millis : Z) : Microusd :=
  match ul_state l !! unit with
  | Some s => if bool_decide (us_window s = month_key now_millis) then us_spent s
              else Microusd.ZERO
  | None => Microusd.ZERO
  end.
End UnitLedger.

(** ** The calendar month of a key *)

(** A clock value whose day the calendar can name. *)
Definition clock_ok (t : Z) : Prop := 0 ≤ t ≤ i64_max.

Lemma era_trunc z : Z.quot (if 0 <=? z then z else z - 146096) 146097 = z / 146097.
Proof. destruct (0 <=? z) eqn:E; breflect; div_lia. Qed.

Lemma month_of_millis_civil t :
  clock_ok t →
  month_of_millis t = ((civil_from_days (t / DAY_MILLIS)).1.1, (civil_from_days (t / DAY_MILLIS)).1.2).
Proof.
  unfold clock_ok, DAY_MILLIS. intros Ht.
  assert (0 ≤ t / 86400000 ≤ 106751991168) as Hd by (unfold i64_max in Ht; div_lia).
  rewrite civil_from_days_eq by (unfold in_i64; mach). unfold month_of_millis, DAY_MILLIS.
  set (z := t / 86400000 + 719468). rewrite era_trunc. cbv zeta. cbn [fst snd].
  replace (z - z / 146097 * 146097) with (z mod 146097) by (pose proof (Z.div_mod z 146097); lia).
  pose proof (Z.mod_pos_bound z 146097 ltac:(lia)) as Hm.
  destruct (yoe_bounds _ Hm) as [Hy Hdoy]. set (doe := z mod 146097) in *.
  rewrite !(Z.quot_div_nonneg doe) by lia.
  rewrite (Z.quot_div_nonneg (doe - doe / 1460 + doe / 36524 - doe / 146096)) by div_lia.
  fold (yoe_of doe). rewrite !(Z.quot_div_nonneg (yoe_of doe)) by lia.
  fold (year_start (yoe_of doe)). 
  rewrite (Z.quot_div_nonneg (5 * _ + 2)) by lia. done.
Qed.

(** Months counted from year 0. *)
Definition month_index (t : Z) : Z := 12 * (month_of_millis t).1 + (month_of_millis t).2.

Lemma month_index_eq t :
  clock_ok t →
  let n := t / DAY_MILLIS + 719468 in
  let yoe := yoe_of (n mod 146097) in
  month_index t = 12 * (yoe + n / 146097 * 400)
                  + (5 * (n mod 146097 - year_start yoe) + 2) / 153 + 3
  ∧ 1 ≤ (month_of_millis t).2 ≤ 12 ∧ 0 ≤ (month_of_millis t).1.
Proof.
  intros Ht n yoe. unfold month_index. rewrite month_of_millis_civil by done.
  assert (0 ≤ t / DAY_MILLIS ≤ 106751991168) as Hd
    by (unfold clock_ok, i64_max, DAY_MILLIS in *; div_lia).
  rewrite civil_from_days_eq by (unfold in_i64; mach). cbv zeta. cbn [fst snd].
  fold n yoe. pose proof (Z.mod_pos_bound n 146097 ltac:(lia)) as Hm.
  destruct (yoe_bounds _ Hm) as [Hy Hdoy]. fold yoe in Hy, Hdoy.
  set (doy := n mod 146097 - year_start yoe) in *.
  assert (0 ≤ (5 * doy + 2) / 153 ≤ 11) as Hmp by div_lia.
  assert (0 ≤ n / 146097) by (apply Z.div_pos; lia).
  unfold month_of. destruct (_ <? 10) eqn:E1; breflect;
    destruct (_ <=? 2) eqn:E2; breflect; lia.
Qed.

Lemma yoe_mono a b :
  0 ≤ a → a ≤ b → b < 146097 →
  12 * yoe_of a + (5 * (a - year_start (yoe_of a)) + 2) / 153
  ≤ 12 * yoe_of b + (5 * (b - year_start (yoe_of b)) + 2) / 153.
Proof.
  intros Ha Hab Hb. destruct (yoe_bounds a) as [Hya Hda]; [lia|].
  destruct (yoe_bounds b) as [Hyb Hdb]; [lia|].
  set (u := yoe_of a) in *. set (v := yoe_of b) in *.
  assert (0 ≤ (5 * (a - year_start u) + 2) / 153 ≤ 11) by div_lia.
  assert (0 ≤ (5 * (b - year_start v) + 2) / 153 ≤ 11) by div_lia.
  destruct (Z.lt_trichotomy u v) as [|[E|Hlt]]; [lia| |].
  - rewrite E. apply Z.add_le_mono_l, Z.div_le_mono; lia.
  - exfalso. pose proof (yoe_last_day b ltac:(lia)) as Hl. fold v in Hl.
    unfold year_start, leap_after in *. div_lia.
Qed.

Lemma month_index_mono s t : clock_ok s → clock_ok t → s ≤ t → month_index s ≤ month_index t.
Proof.
  intros Hs Ht Hst. destruct (month_index_eq s Hs) as [-> _].
  destruct (month_index_eq t Ht) as [-> _].
  assert (s / DAY_MILLIS ≤ t / DAY_MILLIS) as Hd by (apply Z.div_le_mono; unfold DAY_MILLIS; lia).
  set (a := s / DAY_MILLIS + 719468). set (b := t / DAY_MILLIS + 719468).
  assert (a ≤ b) as Hab by lia. clearbody a b. clear Hd.
  pose proof (Z.mod_pos_bound a 146097 ltac:(lia)) as Ha.
  pose proof (Z.mod_pos_bound b 146097 ltac:(lia)) as Hb.
  pose proof (Z.div_mod a 146097 ltac:(lia)). pose proof (Z.div_mod b 146097 ltac:(lia)).
  destruct (Z.lt_trichotomy (a / 146097) (b / 146097)) as [Hlt|[E|Hlt]]; [| |lia].
  - destruct (yoe_bounds _ Ha) as [? ?]. destruct (yoe_bounds _ Hb) as [? ?].
    set (p := a mod 146097 - _) in *. set (q := b mod 146097 - _) in *.
    assert (0 ≤ (5 * p + 2) / 153 ≤ 11) by div_lia.
    assert (0 ≤ (5 * q + 2) / 153 ≤ 11) by div_lia. lia.
  - pose proof (yoe_mono (a mod 146097) (b mod 146097) ltac:(lia) ltac:(lia) ltac:(lia)). lia.
Qed.

Lemma pad0_value w z : 0 ≤ z → parse_digits 0 (pad0 w z) = Some z.
Proof.
  intros Hz. unfold pad0, pad_left. rewrite (proj2 (Z.ltb_ge z 0)) by lia.
  assert (∀ n s, parse_digits 0 (String.concat EmptyString (replicate n "0") +:+ s)
                 = parse_digits 0 s) as Hzero.
  { intros n s. induction n as [|[|n] IH]; [done|done|exact IH]. }
  rewrite Hzero. by apply parse_digits_pretty.
Qed.

Lemma parse_digits_free s acc z :
  parse_digits acc s = Some z → free_of "-"%char s.
Proof.
  unfold free_of. revert acc. induction s as [|c s IH]; intros acc; simpl; [done|].
  destruct (digit_value c) eqn:Ec; [|done]. intros H.
  rewrite bool_decide_false; [by eapply IH|]. intros <-. done.
Qed.

Lemma month_key_inj s t :
  clock_ok s → clock_ok t → month_key s = month_key t ↔ month_index s = month_index t.
Proof.
  intros Hs Ht. destruct (month_index_eq s Hs) as (_ & Hms & Hys).
  destruct (month_index_eq t Ht) as (_ & Hmt & Hyt).
  unfold month_index, month_key.
  destruct (month_of_millis s) as [ys ms], (month_of_millis t) as [yt mt]; cbn [fst snd] in *.
  split; [|intros E; assert (ys = yt ∧ ms = mt) as [-> ->] by lia; done].
  intros E. pose proof (pad0_value 4 ys Hys) as H1. pose proof (pad0_value 4 yt Hyt) as H2.
  apply (sep_split "-"%char) in E as [E1 E2];
    [|by eapply parse_digits_free..].
  pose proof (pad0_value 2 ms) as H3. pose proof (pad0_value 2 mt) as H4.
  rewrite E1, H2 in H1. rewrite E2, H4 in H3 by lia.
  injection H1. specialize (H3 ltac:(lia)). injection H3. lia.
Qed.

Lemma month_key_interval s t u :
  0 ≤ s → s ≤ t → t ≤ u → u ≤ i64_max → month_key s = month_key u → month_key t = month_key u.
Proof.
  intros ? ? ? ? E. apply month_key_inj in E; [|unfold clock_ok; lia..].
  apply month_key_inj; [unfold clock_ok; lia..|].
  pose proof (month_index_mono s t). pose proof (month_index_mono t u).
  unfold clock_ok in *. lia.
Qed.

Example month_key_ex :
  month_key 1783566764100 = "2026-07" ∧ month_key 1709164800000 = "2024-02" ∧
  month_key 0 = "1970-01".
Proof. vm_compute. done. Qed.

(** ** The ledger under interleavings

    A reserve is three steps, as in the code: its caller reads the clock, [effective_cap]
    reads the overrides, and the counters are changed under the state lock, each with
    anything in between.  [uouts] are the reservations handed out and not settled;
    [booked] the settles that found the counters of their month, with their real cost; [ugranted] the checked
    reservations granted, with the cap each was decided against; [ucalls] the reserves
    under way.  [enforce] excludes the unchecked reservations of the shadow and warn
    modes. *)

(** A reserve under way: the clock it read, and the cap once it has read one. *)
Record UCall := mkUCall { c_unit : string; c_est : Microusd; c_now : Z; c_cap : option Microusd }.

Record USys := mkUSys {
  uled : UnitLedger;
  uouts : list UnitReservation;
  booked : list (UnitReservation * Microusd);
  uclock : Z;
  ugranted : list (UnitReservation * Microusd);
  ucalls : list UCall
}.

Definition is_for (u w : string) (r : UnitReservation) : bool :=
  bool_decide (ur_unit r = u) && bool_decide (ur_window r = w).

(** What outstanding reservations hold, and what settles booked and overran, for a
    unit in a window. *)
Definition u_held (u w : string) (outs : list UnitReservation) : Z :=
  zsum ((λ r, if is_for u w r then ur_amount r else 0) <$> outs).
Definition u_booked (u w : string) (l : list (UnitReservation * Microusd)) : Z :=
  zsum ((λ '(r, a), if is_for u w r then a else 0) <$> l).
Definition u_overrun (u w : string) (l : list (UnitReservation * Microusd)) : Z :=
  zsum ((λ '(r, a), if is_for u w r then Z.max 0 (a - ur_amount r) else 0) <$> l).

(** The counters of [u] at time [t] have room for [z] more. *)
Definition u_room (l : UnitLedger) (u : string) (t z : Z) : Prop :=
  us_spent (UnitLedger.rolled (ul_state l) u (month_key t))
  + us_reserved (UnitLedger.rolled (ul_state l) u (month_key t)) + z ≤ i64_max.

(** Every checked reservation of the unit in the window was decided against at most [C]. *)
Definition caps_below (u w : string) (C : Microusd) (g : list (UnitReservation * Microusd)) : Prop :=
  ∀ r cap, (r, cap) ∈ g → is_for u w r = true → cap ≤ C.

(** The clock reading [now] is not older than that of the reservation. *)
Definition since (r : UnitReservation) (now : Z) : Prop :=
  ∃ t0, 0 ≤ t0 ≤ now ∧ ur_window r = month_key t0.

(** Whether a settle finds the counters of its reservation's month. *)
Definition books (l : UnitLedger) (r : UnitReservation) (now : Z) : bool :=
  bool_decide (ur_window r = month_key now) &&
  match ul_state l !! ur_unit r with
  | Some s => bool_decide (us_window s = ur_window r)
  | None => false
  end.

(** The clock does not run backwards, the sums stay within an [i64], and a reserve takes
    the state lock in the month in which it read the clock ([stale_month_rolls_back]
    shows what happens otherwise); a settle uses a clock read at any time since its
    reservation's. *)
Inductive ustep (enforce : bool) : USys → USys → Prop :=
| ustep_clock l outs bk t g cs t' :
    t ≤ t' → t' ≤ i64_max →
    ustep enforce (mkUSys l outs bk t g cs) (mkUSys l outs bk t' g cs)
| ustep_overrides l outs bk t g cs ov :
    ustep enforce (mkUSys l outs bk t g cs) (mkUSys (UnitLedger.set_overrides l ov) outs bk t g cs)
| ustep_call l outs bk t g cs u est :
    0 ≤ est →
    ustep enforce (mkUSys l outs bk t g cs) (mkUSys l outs bk t g (mkUCall u est t None :: cs))
| ustep_cap l outs bk t g pre u est now post :
    ustep enforce (mkUSys l outs bk t g (pre ++ mkUCall u est now None :: post))
      (mkUSys l outs bk t g
         (pre ++ match UnitLedger.effective_cap l u with
                 | None => []
                 | Some cap => [mkUCall u est now (Some cap)]
                 end ++ post))
| ustep_reserve l outs bk t g pre u est now cap post l' res :
    UnitLedger.reserve_under l u est cap now = (l', res) →
    month_key now = month_key t → u_room l u t est →
    ustep enforce (mkUSys l outs bk t g (pre ++ mkUCall u est now (Some cap) :: post))
      (match res with
       | Ok (Some r) => mkUSys l' (r :: outs) bk t ((r, cap) :: g) (pre ++ post)
       | _ => mkUSys l' outs bk t g (pre ++ post)
       end)
| ustep_reserve_unchecked l outs bk t g pre u est now cap post :
    enforce = false → month_key now = month_key t → u_room l u t est →
    ustep enforce (mkUSys l outs bk t g (pre ++ mkUCall u est now (Some cap) :: post))
      (mkUSys (UnitLedger.take_under l u est now).1
         ((UnitLedger.take_under l u est now).2 :: outs) bk t g (pre ++ post))
| ustep_settle l pre r post bk t g cs actual now :
    0 ≤ actual → since r now → now ≤ t → u_room l (ur_unit r) t (actual - ur_amount r) →
    ustep enforce (mkUSys l (pre ++ r :: post) bk t g cs)
      (mkUSys (UnitLedger.settle l r actual now) (pre ++ post)
         (if books l r now then (r, actual) :: bk else bk) t g cs).

Definition uinit (base : gmap string Microusd) (t0 : Z) : USys :=
  mkUSys (UnitLedger.new base) [] [] t0 [] [].

Definition ureachable (enforce : bool) (base : gmap string Microusd) (st : USys) : Prop :=
  ∃ t0, 0 ≤ t0 ≤ i64_max ∧ rtc (ustep enforce) (uinit base t0) st.

(** ** The invariant *)

Definition past (t : Z) (w : string) : Prop := ∃ s, w = month_key s ∧ 0 ≤ s ≤ t.

(** The counters [s] of a unit are those of its reservations and settles in window [w]. *)
Record good (enforce : bool) (outs : list UnitReservation)
    (bk g : list (UnitReservation * Microusd)) (u w : string) (s : UnitState) : Prop := {
  good_reserved : us_reserved s = u_held u w outs;
  good_spent : us_spent s = u_booked u w bk;
  good_reserved_pos : 0 ≤ us_reserved s;
  good_spent_pos : 0 ≤ us_spent s;
  good_fits : us_spent s + us_reserved s ≤ i64_max;
  good_cap C : enforce = true → caps_below u w C g →
    us_spent s + us_reserved s ≤ Z.max 0 C + u_overrun u w bk
}.

(** The reserves under way are not part of the accounts. *)
Record uacc (enforce : bool) (l : UnitLedger) (outs : list UnitReservation)
    (bk : list (UnitReservation * Microusd)) (t : Z) (g : list (UnitReservation * Microusd))
    : Prop := {
  ui_clock : clock_ok t;
  ui_state u s : ul_state l !! u = Some s → past t (us_window s);
  ui_outs r : r ∈ outs → past t (ur_window r) ∧ 0 ≤ ur_amount r;
  ui_booked r : r ∈ bk.*1 → past t (ur_window r);
  ui_live r : r ∈ outs → ur_window r = month_key t →
    ∃ s, ul_state l !! ur_unit r = Some s ∧ us_window s = ur_window r;
  ui_now u : good enforce outs bk g u (month_key t)
               (UnitLedger.rolled (ul_state l) u (month_key t))
}.

Definition uinv (enforce : bool) (st : USys) : Prop :=
  uacc enforce (uled st) (uouts st) (booked st) (uclock st) (ugranted st) ∧
  Forall (λ c, 0 ≤ c_est c) (ucalls st).

Lemma past_mono t t' w : t ≤ t' → past t w → past t' w.
Proof. intros ? (s & -> & ?). exists s. split; [done|lia]. Qed.

(** A new month is not a past one. *)
Lemma past_new t t' w :
  t ≤ t' → t' ≤ i64_max → month_key t ≠ month_key t' → past t w → w ≠ month_key t'.
Proof. intros ? ? Hne (s & -> & ?) E. apply Hne. apply (month_key_interval s); lia || done. Qed.

Lemma is_for_true u w r : is_for u w r = true ↔ ur_unit r = u ∧ ur_window r = w.
Proof. unfold is_for. rewrite andb_true_iff, !bool_decide_eq_true. done. Qed.

Lemma is_for_other u w r : ur_window r ≠ w → is_for u w r = false.
Proof.
  intros H. destruct (is_for u w r) eqn:E; [|done]. apply is_for_true in E. naive_solver.
Qed.

(** Sums over reservations of other windows are zero. *)
Lemma u_held_zero u w outs : (∀ r, r ∈ outs → ur_window r ≠ w) → u_held u w outs = 0.
Proof.
  intros H. unfold u_held. induction outs as [|r outs IH]; csimpl; [done|].
  rewrite IH by set_solver. rewrite is_for_other by set_solver. lia.
Qed.

Lemma u_booked_zero u w bk :
  (∀ r, r ∈ bk.*1 → ur_window r ≠ w) → u_booked u w bk = 0 ∧ u_overrun u w bk = 0.
Proof.
  intros H. unfold u_booked, u_overrun.
  induction bk as [|[r a] bk IH]; csimpl in *; [done|].
  destruct IH as [-> ->]; [set_solver|]. rewrite is_for_other by set_solver. lia.
Qed.

Lemma u_held_app u w pre post : u_held u w (pre ++ post) = u_held u w pre + u_held u w post.
Proof. unfold u_held. by rewrite fmap_app, zsum_app. Qed.

Lemma u_held_nonneg u w outs : (∀ r, r ∈ outs → 0 ≤ ur_amount r) → 0 ≤ u_held u w outs.
Proof.
  intros H. apply zsum_nonneg, Forall_fmap, Forall_forall. intros r Hr. simpl.
  pose proof (H r Hr). case_match; lia.
Qed.

Lemma rolled_window m u w : us_window (UnitLedger.rolled m u w) = w.
Proof.
  unfold UnitLedger.rolled. by case_bool_decide as H.
Qed.

Lemma rolled_insert m u s w v :
  us_window s = w →
  UnitLedger.rolled (<[u := s]> m) v w
  = if decide (v = u) then s else UnitLedger.rolled m v w.
Proof.
  intros Hs. unfold UnitLedger.rolled. case_decide; subst.
  - rewrite lookup_insert_eq. simpl. rewrite bool_decide_false by (intros E; by apply E). done.
  - by rewrite lookup_insert_ne.
Qed.

Lemma rolled_current m u s w :
  m !! u = Some s → us_window s = w → UnitLedger.rolled m u w = s.
Proof.
  intros H <-. unfold UnitLedger.rolled. rewrite H. simpl.
  by rewrite bool_decide_false by (intros E; by apply E).
Qed.

Lemma rolled_stale m u w :
  (∀ s, m !! u = Some s → us_window s ≠ w) →
  UnitLedger.rolled m u w = mkUnitState w Microusd.ZERO Microusd.ZERO.
Proof.
  intros H. unfold UnitLedger.rolled. destruct (m !! u) as [s|]; simpl.
  - by rewrite bool_decide_true by auto.
  - by rewrite bool_decide_false by (intros E; by apply E).
Qed.

Lemma uinv_clock enforce l outs bk t g t' :
  t ≤ t' → t' ≤ i64_max → uacc enforce l outs bk t g → uacc enforce l outs bk t' g.
Proof.
  intros Ht Hm [Hc Hs Ho Hb Hl Hn]; simpl in *.
  destruct (decide (month_key t = month_key t')) as [E|E].
  - split; simpl; rewrite <-?E; eauto using past_mono; [unfold clock_ok in *; lia|].
    intros r Hr. destruct (Ho r Hr). eauto using past_mono.
  - split; simpl; eauto using past_mono; [unfold clock_ok in *; lia| | |].
    + intros r Hr. destruct (Ho r Hr). eauto using past_mono.
    + intros r Hr Hw. destruct (past_new t t' (ur_window r)); try done. by apply Ho.
    + intros u. rewrite rolled_stale by (intros s Hu; eapply past_new; eauto).
      destruct (u_booked_zero u (month_key t') bk) as [H1 H2]; [intros; eapply past_new; eauto|].
      assert (u_held u (month_key t') outs = 0) as H3
        by (apply u_held_zero; intros r Hr; eapply past_new; eauto; by apply Ho).
      split; simpl; unfold Microusd.ZERO; rewrite ?H1, ?H2, ?H3; try mach.
Qed.

(** Writing the current counters of one unit. *)
Lemma uinv_write enforce l outs outs' bk bk' t g g' u s' :
  uacc enforce l outs bk t g →
  us_window s' = month_key t →
  (∀ r, r ∈ outs' → r ∈ outs ∨ ur_unit r = u ∧ ur_window r = month_key t ∧ 0 ≤ ur_amount r) →
  (∀ r, r ∈ bk'.*1 → r ∈ bk.*1 ∨ ur_window r = month_key t) →
  (∀ p, p ∈ g → p ∈ g') →
  (∀ v, v ≠ u → u_held v (month_key t) outs' = u_held v (month_key t) outs
                ∧ u_booked v (month_key t) bk' = u_booked v (month_key t) bk
                ∧ u_overrun v (month_key t) bk' = u_overrun v (month_key t) bk) →
  good enforce outs' bk' g' u (month_key t) s' →
  uacc enforce (UnitLedger.with_state l (<[u := s']> (ul_state l))) outs' bk' t g'.
Proof.
  intros [Hc Hs Ho Hb Hl Hn] Hw Houts Hbk Hg Hsame Hgood. simpl in *.
  assert (past t (month_key t)) as Hpt by (exists t; split; [done|destruct Hc; lia]).
  split; simpl; [done|..].
  - intros v s. destruct (decide (v = u)) as [->|Hne].
    + rewrite lookup_insert_eq. intros [= <-]. by rewrite Hw.
    + rewrite lookup_insert_ne by done. apply Hs.
  - intros r Hr. destruct (Houts r Hr) as [Hr'|(_ & -> & ?)]; [by apply Ho|done].
  - intros r Hr. destruct (Hbk r Hr) as [Hr'| ->]; [by apply Hb|done].
  - intros r Hr Hrw. destruct (decide (ur_unit r = u)) as [->|Hne].
    + exists s'. rewrite lookup_insert_eq. split; [done|by rewrite Hw].
    + rewrite lookup_insert_ne by done.
      destruct (Houts r Hr) as [Hr'|[? _]]; [by apply Hl|done].
  - intros v. rewrite rolled_insert by done. case_decide as Hv; [by subst|].
    destruct (Hsame v Hv) as (E1 & E2 & E3). destruct (Hn v) as [? ? ? ? ? Hcap].
    split; rewrite ?E1, ?E2, ?E3; try done.
    intros C He HC. apply Hcap; [done|]. intros r cap Hr. by apply HC, Hg.
Qed.

Lemma u_overrun_nonneg u w bk : 0 ≤ u_overrun u w bk.
Proof.
  apply zsum_nonneg, Forall_fmap, Forall_forall. intros [r a] _. simpl. case_match; lia.
Qed.

Lemma u_held_cons u w r outs :
  u_held u w (r :: outs) = (if is_for u w r then ur_amount r else 0) + u_held u w outs.
Proof. done. Qed.

(** Granting: the counters take the estimate and the reservation is outstanding. *)
Lemma uinv_take enforce l outs bk t g g' u est :
  uacc enforce l outs bk t g → 0 ≤ est → u_room l u t est →
  let s := UnitLedger.rolled (ul_state l) u (month_key t) in
  (∀ p, p ∈ g → p ∈ g') →
  (∀ C, enforce = true → caps_below u (month_key t) C g' → us_spent s + us_reserved s + est ≤ C) →
  uacc enforce (UnitLedger.take_under l u est t).1 ((UnitLedger.take_under l u est t).2 :: outs) bk t g'.
Proof.
  intros Hinv He Hroom s Hg Hfit. destruct (ui_now _ _ _ _ _ _ Hinv u) as [Hr Hsp Hr0 Hs0 Hf _].
  simpl in *. fold s in Hr, Hsp, Hr0, Hs0, Hf. unfold u_room in Hroom. fold s in Hroom.
  apply (uinv_write _ _ outs _ bk _ _ g); [done|apply rolled_window|..].
  - intros r [->|Hr']%elem_of_cons; [right; simpl; auto|by left].
  - by left.
  - done.
  - intros v Hv. rewrite u_held_cons. unfold is_for at 1. simpl.
    by rewrite bool_decide_false by done.
  - assert (Microusd.add (us_reserved s) est = us_reserved s + est) as Ha
      by (apply Microusd.add_exact; mach).
    split; simpl; fold s; rewrite ?Ha; try lia.
    + rewrite u_held_cons. unfold is_for. simpl. rewrite !bool_decide_true by done. simpl. lia.
    + intros C Hen HC. specialize (Hfit C Hen HC).
      pose proof (u_overrun_nonneg u (month_key t) bk). lia.
Qed.

Lemma uinv_refuse enforce l outs bk t g u :
  uacc enforce l outs bk t g →
  uacc enforce (UnitLedger.with_state l
    (<[u := UnitLedger.rolled (ul_state l) u (month_key t)]> (ul_state l))) outs bk t g.
Proof.
  intros Hinv. pose proof (ui_now _ _ _ _ _ _ Hinv u) as Hgood.
  apply (uinv_write _ _ outs _ bk _ _ g); eauto using rolled_window.
Qed.

(** What [try_reserve] compares with the cap. *)
Lemma u_would_exact enforce l outs bk t g u est :
  uacc enforce l outs bk t g → 0 ≤ est → u_room l u t est →
  let s := UnitLedger.rolled (ul_state l) u (month_key t) in
  Microusd.add (Microusd.add (us_spent s) (us_reserved s)) est
  = us_spent s + us_reserved s + est.
Proof.
  intros Hinv He Hroom s. destruct (ui_now _ _ _ _ _ _ Hinv u) as [_ _ Hr0 Hs0 Hf _].
  simpl in *. fold s in Hr0, Hs0, Hf. unfold u_room in Hroom. fold s in Hroom.
  rewrite (Microusd.add_exact (us_spent s)) by mach. apply Microusd.add_exact. mach.
Qed.

(** Under the state lock, in the month of its clock: refused, or granted within the cap. *)
Lemma uinv_reserve enforce l outs bk t g u est cap now l' res :
  uacc enforce l outs bk t g → 0 ≤ est → u_room l u t est → month_key now = month_key t →
  UnitLedger.reserve_under l u est cap now = (l', res) →
  match res with
  | Ok (Some r) => uacc enforce l' (r :: outs) bk t ((r, cap) :: g)
  | _ => uacc enforce l' outs bk t g
  end.
Proof.
  intros Hinv He Hroom Hmon E. pose proof (u_would_exact _ _ _ _ _ _ u est Hinv He Hroom) as Hw.
  unfold UnitLedger.reserve_under in E. rewrite Hmon in E. cbv zeta in Hw. rewrite Hw in E.
  case_match eqn:Hb; breflect; injection E as <- <-; [by apply uinv_refuse|].
  apply (uinv_take _ _ _ _ _ g _ u est); [done..|by right|]. intros C _ HC.
  enough (cap ≤ C) by lia.
  apply (HC (mkUnitReservation u est (month_key t))); [by left|]. by apply is_for_true.
Qed.

Lemma u_held_middle u w pre r post :
  u_held u w (pre ++ r :: post)
  = u_held u w (pre ++ post) + (if is_for u w r then ur_amount r else 0).
Proof. rewrite !u_held_app, u_held_cons. lia. Qed.

(** A settle whose reservation is not of the current month: nothing of this month changes,
    whether it is dropped or still finds the counters of its own month. *)
Lemma uinv_settle_late enforce l l' pre r post bk bk' t g :
  ur_window r ≠ month_key t →
  (l' = l ∧ bk' = bk) ∨
  (∃ s s' a, ul_state l !! ur_unit r = Some s ∧ us_window s = ur_window r ∧
    us_window s' = ur_window r ∧ bk' = (r, a) :: bk ∧
    l' = UnitLedger.with_state l (<[ur_unit r := s']> (ul_state l))) →
  uacc enforce l (pre ++ r :: post) bk t g → uacc enforce l' (pre ++ post) bk' t g.
Proof.
  intros Hw Hl' Hacc.
  assert (past t (ur_window r)) as Hpr by (apply (ui_outs _ _ _ _ _ _ Hacc); set_solver).
  assert (∀ q, q ∈ pre ++ post → q ∈ pre ++ r :: post) as Hsub by set_solver.
  assert (∀ u, u_booked u (month_key t) bk' = u_booked u (month_key t) bk ∧
               u_overrun u (month_key t) bk' = u_overrun u (month_key t) bk) as Hbk.
  { intros u. destruct Hl' as [[_ ->]|(s & s' & a & _ & _ & _ & -> & _)]; [done|];
      unfold u_booked, u_overrun; csimpl; rewrite is_for_other by done; done. }
  assert (∀ q, q ∈ bk'.*1 → q ∈ bk.*1 ∨ q = r) as Hin.
  { intros q. destruct Hl' as [[_ ->]|(s & s' & a & _ & _ & _ & -> & _)]; [by left|];
      csimpl; rewrite elem_of_cons; intros [->|?]; auto. }
  assert (∀ v, UnitLedger.rolled (ul_state l') v (month_key t)
               = UnitLedger.rolled (ul_state l) v (month_key t)) as Hroll.
  { intros v. destruct Hl' as [[-> _]|(s & s' & a & Hs & E & E' & _ & ->)]; [done|].
    simpl. destruct (decide (v = ur_unit r)) as [->|Hne].
    - rewrite !rolled_stale; [done|..]; intros q; rewrite ?lookup_insert_eq, ?Hs; intros [= <-]; congruence.
    - unfold UnitLedger.rolled. by rewrite lookup_insert_ne. }
  destruct Hacc as [Hc Hs Ho Hb Hl Hn]. split; simpl in *; try done.
  - intros u s Hus. destruct Hl' as [[-> _]|(s0 & s' & a & _ & _ & E' & _ & ->)]; [eauto|].
    simpl in Hus. apply lookup_insert_Some in Hus as [[<- <-]|[_ Hus]]; [by rewrite E'|eauto].
  - intros q Hq. by apply Ho, Hsub.
  - intros q [Hq| ->]%Hin; [by apply Hb|done].
  - intros q Hq Hqw. destruct (Hl q (Hsub q Hq) Hqw) as (s & Hqs & Hsw).
    destruct Hl' as [[-> _]|(s0 & s' & a & H0 & E & E' & _ & ->)]; [eauto|].
    exists s. simpl. rewrite lookup_insert_ne; [done|]. intros Hu. rewrite <-Hu, H0 in Hqs.
    injection Hqs as ->. congruence.
  - intros u. rewrite Hroll. destruct (Hbk u) as [E1 E2]. destruct (Hn u) as [H ? ? ? ? ?].
    rewrite u_held_middle, is_for_other, Z.add_0_r in H by done. split; rewrite ?E1, ?E2; done.
Qed.

Lemma uinv_settle_now enforce l pre r post bk t g actual now :
  0 ≤ actual → u_room l (ur_unit r) t (actual - ur_amount r) →
  ur_window r = month_key t → ur_window r = month_key now →
  uacc enforce l (pre ++ r :: post) bk t g →
  uacc enforce (UnitLedger.settle l r actual now) (pre ++ post) ((r, actual) :: bk) t g.
Proof.
  intros Ha Hroom Hw Hwn Hinv.
  destruct (ui_live _ _ _ _ _ _ Hinv r) as (s & Hs & Hsw); [set_solver|done|].
  destruct (ui_outs _ _ _ _ _ _ Hinv r) as [_ Hr0]; [set_solver|].
  destruct (ui_now _ _ _ _ _ _ Hinv (ur_unit r)) as [Hres Hsp Hres0 Hsp0 Hf Hcap]. simpl in *.
  unfold u_room in Hroom. pose proof (eq_trans Hsw Hw) as Hcur.
  rewrite (rolled_current _ _ s _ Hs Hcur) in *.
  assert (is_for (ur_unit r) (month_key t) r = true) as Hfor by by apply is_for_true.
  rewrite u_held_middle, Hfor in Hres.
  assert (0 ≤ u_held (ur_unit r) (month_key t) (pre ++ post)) as Hrest.
  { apply u_held_nonneg. intros q Hq. apply (ui_outs _ _ _ _ _ _ Hinv). set_solver. }
  unfold UnitLedger.settle. rewrite Hs. rewrite !bool_decide_false by (intros E; by apply E).
  apply (uinv_write _ _ (pre ++ r :: post) _ bk _ _ g); [done|done|..].
  - intros q Hq. left. set_solver.
  - intros q. csimpl. rewrite elem_of_cons. intros [->|Hq]; [by right|by left].
  - done.
  - intros v Hv. rewrite u_held_middle. unfold u_booked, u_overrun. csimpl.
    destruct (is_for v (month_key t) r) eqn:E; [apply is_for_true in E as [<- _]; done|]. lia.
  - assert (Microusd.saturating_sub (us_reserved s) (ur_amount r) = us_reserved s - ur_amount r)
      as H1 by (apply Microusd.saturating_sub_exact; mach).
    assert (Microusd.add (us_spent s) actual = us_spent s + actual)
      as H2 by (apply Microusd.add_exact; mach).
    split; simpl; unfold u_booked, u_overrun in *; csimpl;
      rewrite ?H1, ?H2, ?Hfor; try lia.
    intros C Hen HC. specialize (Hcap C Hen HC). lia.
Qed.

Lemma uinv_settle enforce l pre r post bk t g actual now :
  0 ≤ actual → since r now → now ≤ t → u_room l (ur_unit r) t (actual - ur_amount r) →
  uacc enforce l (pre ++ r :: post) bk t g →
  uacc enforce (UnitLedger.settle l r actual now) (pre ++ post)
    (if books l r now then (r, actual) :: bk else bk) t g.
Proof.
  intros Ha (t0 & Ht0 & Hw0) Hnow Hroom Hacc. pose proof (ui_clock _ _ _ _ _ _ Hacc) as Hc.
  destruct (decide (ur_window r = month_key t)) as [Hw|Hw].
  - assert (month_key now = month_key t) as Hm.
    { apply (month_key_interval t0); unfold clock_ok in *; [lia..|congruence]. }
    destruct (ui_live _ _ _ _ _ _ Hacc r) as (s & Hs & Hsw); [set_solver|done|].
    unfold books. rewrite Hs, !bool_decide_true by congruence.
    apply uinv_settle_now; congruence || done.
  - apply (uinv_settle_late _ l _ pre r post bk); [done| |done].
    unfold UnitLedger.settle, books. case_bool_decide as E1.
    { left. by rewrite bool_decide_false. }
    rewrite bool_decide_true by (destruct (decide (ur_window r = month_key now)); tauto).
    destruct (ul_state l !! ur_unit r) as [s|] eqn:Hs; [|by left].
    case_bool_decide as E2; [left; by rewrite bool_decide_false|].
    destruct (decide (us_window s = ur_window r)) as [E|]; [|tauto].
    rewrite bool_decide_true by done. right.
    exists s, (UnitLedger.settle_unit (ur_amount r) actual s), actual. repeat split; done.
Qed.

Lemma uinv_step enforce st st' : uinv enforce st → ustep enforce st st' → uinv enforce st'.
Proof.
  intros [Hacc Hcs] Hstep. unfold uinv.
  destruct Hstep as [l outs bk t g cs t' ? ?|l outs bk t g cs ov|l outs bk t g cs u est He
    |l outs bk t g pre u est now post|l outs bk t g pre u est now cap post l' res E Hm Hroom
    |l outs bk t g pre u est now cap post Hen Hm Hroom
    |l pre r post bk t g cs actual now Ha Hsince Hnow Hroom]; simpl in *.
  - split; [by apply (uinv_clock _ _ _ _ t)|done].
  - split; [|done]. by destruct Hacc.
  - split; [done|]. by constructor.
  - split; [done|]. apply Forall_app in Hcs as [Hpre [? Hpost]%Forall_cons].
    apply Forall_app. split; [done|]. destruct (UnitLedger.effective_cap l u); [by constructor|done].
  - apply Forall_app in Hcs as [Hpre [He Hpost]%Forall_cons]. simpl in He.
    pose proof (uinv_reserve _ _ _ _ _ _ _ _ _ _ _ _ Hacc He Hroom Hm E) as Hres.
    assert (Forall (λ c, 0 ≤ c_est c) (pre ++ post)) by by apply Forall_app.
    destruct res as [[r|]|e]; done.
  - apply Forall_app in Hcs as [Hpre [He Hpost]%Forall_cons]. simpl in He.
    split; [|by apply Forall_app]. unfold UnitLedger.take_under. rewrite Hm.
    apply (uinv_take _ _ _ _ _ g _ u est); [done..|congruence].
  - split; [by apply uinv_settle|done].
Qed.

Lemma uinv_init enforce base t0 : 0 ≤ t0 ≤ i64_max → uinv enforce (uinit base t0).
Proof.
  intros H. split; [|constructor]. split; simpl; try done.
  - intros r []%not_elem_of_nil.
  - intros r []%not_elem_of_nil.
  - intros r []%not_elem_of_nil.
  - intros u. rewrite rolled_stale by done. split; simpl; unfold Microusd.ZERO; try done; try mach.
    intros C _ _. unfold u_overrun. simpl. lia.
Qed.

Lemma ureachable_inv enforce base st : ureachable enforce base st → uinv enforce st.
Proof.
  intros (t0 & Ht & H). eapply (rtc_preserves _ (uinv enforce)); [|by apply uinv_init|exact H].
  intros a b. apply uinv_step.
Qed.

(** C4: over every interleaving of the separate steps of reserves (the clock read, the cap
    read, the state lock), of settles, of central overrides in any direction and of clock
    moves, in which the clock does not run backwards, each reserve takes the state lock in
    the month in which it read the clock and the sums stay within an [i64]: a unit's
    committed spend of the current UTC month is exactly the sum of the real costs of the
    calls reserved and settled in that month; its reserved amount is exactly what the
    month's outstanding reservations hold; and when every reservation is checked, the two
    together exceed no bound [C] on the caps the month's granted calls were decided
    against by more than the amounts by which real costs overran their estimates,
    whatever reservations of earlier months are still in flight. *)
Theorem unit_cap_respected enforce base st u s :
  ureachable enforce base st →
  ul_state (uled st) !! u = Some s → us_window s = month_key (uclock st) →
  UnitLedger.spent (uled st) u (uclock st) = u_booked u (month_key (uclock st)) (booked st) ∧
  us_reserved s = u_held u (month_key (uclock st)) (uouts st) ∧
  ∀ C, enforce = true → caps_below u (month_key (uclock st)) C (ugranted st) →
    UnitLedger.spent (uled st) u (uclock st) + us_reserved s
    ≤ Z.max 0 C + u_overrun u (month_key (uclock st)) (booked st).
Proof.
  intros [H _]%ureachable_inv Hs Hw. destruct (ui_now _ _ _ _ _ _ H u) as [Hr Hsp _ _ _ Hc].
  rewrite (rolled_current _ _ s _ Hs Hw) in *. unfold UnitLedger.spent.
  rewrite Hs, bool_decide_true by done. eauto.
Qed.

(** A reserve that read the clock in July and takes the state lock in August rolls the
    counters back to July, and the next one of August starts the month again: the 900
    reserved in August are forgotten, and 1800 are outstanding under a cap of 1000. *)
Example stale_month_rolls_back :
  let july := 1785542399999 in let august := 1785542400000 in
  let l0 := UnitLedger.new {["team" := 1000]} in
  let '(l1, r1) := UnitLedger.reserve_under l0 "team" 900 1000 august in
  let '(l2, r2) := UnitLedger.reserve_under l1 "team" 0 1000 july in
  let '(l3, r3) := UnitLedger.reserve_under l2 "team" 900 1000 august in
  month_key july = "2026-07" ∧ month_key august = "2026-08" ∧
  r1 = Ok (Some (mkUnitReservation "team" 900 "2026-08")) ∧
  r3 = Ok (Some (mkUnitReservation "team" 900 "2026-08")) ∧
  us_reserved <$> ul_state l3 !! "team" = Some 900.
Proof. vm_compute. done. Qed.

(** the window of a unit's counters is a UTC calendar month of the proleptic
    Gregorian calendar: two clock readings have the same key exactly when their days
    fall in the same year and month, and the readings that share a key are contiguous. *)
Theorem month_window s t :
  clock_ok s → clock_ok t →
  let '(y1, m1, _) := civil_from_days (s / DAY_MILLIS) in
  let '(y2, m2, _) := civil_from_days (t / DAY_MILLIS) in
  (month_key s = month_key t ↔ y1 = y2 ∧ m1 = m2) ∧
  (∀ v, month_key s = month_key t → s ≤ v ≤ t → month_key v = month_key t).
Proof.
  intros Hs Ht. pose proof (month_key_inj s t Hs Ht) as Hi.
  destruct (month_index_eq s Hs) as (_ & Hms & _). destruct (month_index_eq t Ht) as (_ & Hmt & _).
  unfold month_index in Hi. rewrite !month_of_millis_civil in * by done.
  destruct (civil_from_days (s / DAY_MILLIS)) as [[y1 m1] d1].
  destruct (civil_from_days (t / DAY_MILLIS)) as [[y2 m2] d2]. cbn [fst snd] in *.
  split; [rewrite Hi; lia|]. intros v E ?. apply (month_key_interval s); unfold clock_ok in *; lia || done.
Qed.

(** ** A month of one unit *)

Definition demo_base : gmap string Microusd := {["team" := 1000]}.
Definition demo_t : Z := 1783566764100.
Definition demo_r : UnitReservation := mkUnitReservation "team" 400 "2026-07".
Definition demo_l1 : UnitLedger :=
  (UnitLedger.try_reserve (UnitLedger.new demo_base) "team" 400 demo_t).1.
(** The cap is lowered to 300 while the call is under way. *)
Definition demo_lowered : UnitLedger := UnitLedger.set_overrides demo_l1 {["team" := 300]}.
Definition demo_l2 : UnitLedger := UnitLedger.settle demo_lowered demo_r 450 demo_t.
Definition demo_u : USys :=
  mkUSys demo_l2 [] [(demo_r, 450)] demo_t [(demo_r, 1000)] [].

Lemma demo_ureachable : ureachable true demo_base demo_u.
Proof.
  exists demo_t. split; [unfold demo_t; mach|].
  eapply rtc_l; [apply (ustep_call _ _ _ _ _ _ _ "team" 400); done|].
  eapply rtc_l; [apply (ustep_cap _ _ [] [] _ [] [] "team" 400 demo_t [])|].
  eapply rtc_l; [apply (ustep_overrides _ _ _ _ _ _ _ {["team" := 300]})|].
  eapply rtc_l; [apply (ustep_reserve _ _ _ _ _ _ [] "team" 400 demo_t 1000 [] demo_lowered
    (Ok (Some demo_r))); [vm_compute; reflexivity|done|vm_compute; done]|].
  apply rtc_once. apply (ustep_settle _ demo_lowered [] demo_r [] [] demo_t [(demo_r, 1000)] [] 450 demo_t);
    [done| |done|vm_compute; done].
  exists demo_t. split; [unfold demo_t; lia|]. vm_compute. reflexivity.
Qed.

Example refused_over_cap :
  UnitLedger.try_reserve demo_l2 "team" 551 demo_t
  = (demo_l2, Err (mkUnitExceeded "team" 300 450)).
Proof. vm_compute. reflexivity. Qed.

(** A settle of the next month is dropped. *)
Example late_settle_dropped :
  UnitLedger.settle demo_l1 demo_r 450 (demo_t + 31 * DAY_MILLIS) = demo_l1.
Proof. vm_compute. reflexivity. Qed.

Lemma unit_cap_respected_witness :
  ureachable true demo_base demo_u ∧ UnitLedger.spent demo_l2 "team" demo_t = 450 ∧ 450 + 0 ≤ 1000 + 50.
Proof.
  split; [apply demo_ureachable|]. split; [vm_compute; reflexivity|].
  assert (ul_state demo_l2 !! "team" = Some (mkUnitState "2026-07" 0 450)) as Hs
    by (vm_compute; reflexivity).
  refine (proj2 (proj2 (unit_cap_respected true demo_base demo_u "team" _ demo_ureachable Hs
                         ltac:(vm_compute; reflexivity))) 1000 eq_refl _).
  intros r cap [= -> ->]%list_elem_of_singleton _. done.
Defined.

Lemma month_window_witness :
  clock_ok 1706745600000 ∧ clock_ok 1709251199999 ∧
  month_key 1709164800001 = month_key 1709251199999.
Proof.
  assert (clock_ok 1706745600000) as H1 by (unfold clock_ok; mach).
  assert (clock_ok 1709251199999) as H2 by (unfold clock_ok; mach).
  split; [exact H1|]. split; [exact H2|].
  exact (proj2 (month_window 1706745600000 1709251199999 H1 H2) 1709164800001
           ltac:(vm_compute; reflexivity) ltac:(lia)).
Defined.
