(* ===== verification/Cluster.v ===== *)
(** * The replicated ledger

    [crates/cluster/src/types.rs]: the state machine every node of the cluster applies
    the committed log to.  Amounts are [u64] microdollars with saturating arithmetic,
    where the in-process ledger has wrapping [i64]; the theorems state that, on the
    amounts both can represent, a log entry does exactly what the corresponding method
    of [Ledger] does, so that the accounting theorems of [LedgerInv] carry over. *)

From S2P Require Import Prelude Money Ledger LedgerInv.

(* @src cluster/types.rs Request *)
Inductive Request :=
| Open (run : string) (budget_micros : Z) (parent : option string)
| Reserve (run : string) (micros : Z)
| Settle (run : string) (reserved_micros actual_micros : Z).

(* @src cluster/types.rs Response *)
Record Response := mkResponse {
  accepted : bool;
  r_spent_micros : Z;
  r_reserved_micros : Z;
  r_budget_micros : Z;
  r_step : Z;
  blocked_run : option string;
  reason : string
}.

Definition default_response : Response := mkResponse false 0 0 0 0 None "".

(* @src cluster/types.rs RunState *)
Record CRun := mkCRun {
  budget_micros : Z;
  reserved_micros : Z;
  spent_micros : Z;
  c_steps : Z;
  c_parent : option string
}.

Definition default_crun : CRun := mkCRun 0 0 0 0 None.

(* @src cluster/types.rs RunState::committed *)
Definition committed (s : CRun) : Z := u64_sat (spent_micros s + reserved_micros s).

(* @src cluster/types.rs LedgerState *)
Record LedgerState := mkLedgerState { cruns : gmap string CRun }.

(* @src cluster/types.rs MAX_CHAIN_DEPTH *)
Definition MAX_CHAIN_DEPTH : nat := 64.

Module LedgerState.
(** The walk of [chain]; the second break bounds the number of turns. *)
(* @src cluster/types.rs 113-125 LedgerState::chain *)
Fixpoint chain_from (fuel : nat) (runs : gmap string CRun) (ids : list string)
    (cur : option string) : list string :=
  match fuel, cur with
  | S fuel, Some id =>
      if bool_decide (id ∈ ids) || (MAX_CHAIN_DEPTH <=? length ids)%nat then ids
      else match runs !! id with
           | Some s => chain_from fuel runs (ids ++ [id]) (c_parent s)
           | None => ids
           end
  | _, _ => ids
  end.

(* @src cluster/types.rs LedgerState::chain *)
Definition chain (st : LedgerState) (run : string) : list string :=
  chain_from (S MAX_CHAIN_DEPTH) (cruns st) [] (Some run).

(* @src cluster/types.rs LedgerState::leaf_response *)
Definition leaf_response (st : LedgerState) (run : string) (acc : bool) : Response :=
  let s := default default_crun (cruns st !! run) in
  mkResponse acc (spent_micros s) (reserved_micros s) (budget_micros s) (c_steps s) None "".

(* @src cluster/types.rs 180-197 LedgerState::apply *)
Fixpoint check_levels (st : LedgerState) (run : string) (ids : list string) (micros : Z)
  : option Response :=
  match ids with
  | [] => None
  | id :: ids =>
      let s := default default_crun (cruns st !! id) in
      let would := u64_sat (committed s + micros) in
      if budget_micros s <? would
      then Some (mkResponse false (spent_micros s) (reserved_micros s) (budget_micros s)
             (c_steps (default default_crun (cruns st !! run))) (Some id)
             ("budget_exceeded on '" +:+ id +:+ "': need " +:+ pretty would
              +:+ " µUSD > budget " +:+ pretty (budget_micros s) +:+ " µUSD"))
      else check_levels st run ids micros
  end.

(* @src cluster/types.rs 154 LedgerState::apply *)
Definition set_budget (b : Z) (s : CRun) : CRun :=
  mkCRun b (reserved_micros s) (spent_micros s) (c_steps s) (c_parent s).
(* @src cluster/types.rs 202 LedgerState::apply *)
Definition add_reserved (micros : Z) (s : CRun) : CRun :=
  mkCRun (budget_micros s) (u64_sat (reserved_micros s + micros)) (spent_micros s)
         (c_steps s) (c_parent s).
(* @src cluster/types.rs 204-205 LedgerState::apply *)
Definition bump_steps (s : CRun) : CRun :=
  mkCRun (budget_micros s) (reserved_micros s) (spent_micros s)
         (u32_wrap (c_steps s + 1)) (c_parent s).
(* @src cluster/types.rs 216-219 LedgerState::apply *)
Definition settle_run (reserved actual : Z) (s : CRun) : CRun :=
  mkCRun (budget_micros s) (u64_sat (reserved_micros s - reserved))
         (u64_sat (spent_micros s + actual)) (c_steps s) (c_parent s).

(* @src cluster/types.rs LedgerState::apply *)
Definition apply (st : LedgerState) (req : Request) : LedgerState * Response :=
  match req with
  | Open run b parent =>
      let st' := mkLedgerState
        match cruns st !! run with
        | Some s => <[run := set_budget b s]> (cruns st)
        | None => <[run := mkCRun b 0 0 0 parent]> (cruns st)
        end in
      (st', leaf_response st' run true)
  | Reserve run micros =>
      match cruns st !! run with
      | None =>
          let r := leaf_response st run false in
          (st, mkResponse (accepted r) (r_spent_micros r) (r_reserved_micros r)
                 (r_budget_micros r) (r_step r) (Some run) ("unknown_run: " +:+ run))
      | Some _ =>
          let ids := chain st run in
          match check_levels st run ids micros with
          | Some r => (st, r)
          | None =>
              let st' := mkLedgerState
                (alter bump_steps run (alter_all (add_reserved micros) ids (cruns st))) in
              (st', leaf_response st' run true)
          end
      end
  | Settle run reserved actual =>
      let st' := mkLedgerState
        (alter_all (settle_run reserved actual) (chain st run) (cruns st)) in
      (st', leaf_response st' run true)
  end.
End LedgerState.

(** ** The in-process ledger as its abstraction *)

(** The same numbers, read as microdollars. *)
Definition abs_run (s : CRun) : RunState :=
  mkRunState (budget_micros s) (reserved_micros s) (spent_micros s) (c_steps s) (c_parent s).

Definition abs (st : LedgerState) : gmap string RunState := abs_run <$> cruns st.

(** Amounts an [i64] represents too. *)
Definition fits_i64 (st : LedgerState) : Prop :=
  ∀ k s, cruns st !! k = Some s →
    0 ≤ reserved_micros s ∧ 0 ≤ spent_micros s ∧
    spent_micros s + reserved_micros s ≤ i64_max.

(** Room for [z] more on every level above [run]. *)
Definition c_room (st : LedgerState) (run : string) (z : Z) : Prop :=
  room (abs st) run z.

Lemma abs_lookup st k : abs st !! k = abs_run <$> cruns st !! k.
Proof. unfold abs. by rewrite lookup_fmap. Qed.

Lemma chain_abs st run : LedgerState.chain st run = Ledger.chain (abs st) run.
Proof.
  unfold LedgerState.chain, Ledger.chain.
  change MAX_CHAIN_DEPTH with Ledger.MAX_CHAIN_DEPTH.
  generalize (@nil string) as ids. generalize (Some run) as cur.
  induction (S Ledger.MAX_CHAIN_DEPTH) as [|fuel IH]; intros cur ids; [done|].
  cbn [LedgerState.chain_from Ledger.chain_from].
  change Ledger.MAX_CHAIN_DEPTH with MAX_CHAIN_DEPTH.
  destruct cur as [id|]; [|done]. case_match; [done|]. rewrite abs_lookup.
  destruct (cruns st !! id); simpl; [apply IH|done].
Qed.

Lemma c_room_at st run z k s :
  c_room st run z → k ∈ LedgerState.chain st run → cruns st !! k = Some s →
  spent_micros s + reserved_micros s + z ≤ i64_max.
Proof.
  intros Hr Hk Hs. rewrite chain_abs in Hk. apply (Hr k (abs_run s) Hk).
  by rewrite abs_lookup, Hs.
Qed.

(** The refusal of the replicated ledger names the run, the budget and the spend of
    the refusal of the in-process ledger. *)
Definition same_refusal (e : BudgetError) (r : Response) : Prop :=
  accepted r = false ∧
  match e with
  | UnknownRun k => blocked_run r = Some k
  | Exceeded k b sp w =>
      blocked_run r = Some k ∧ r_budget_micros r = b ∧ r_spent_micros r = sp
  end.

Lemma would_abs s z :
  0 ≤ z → 0 ≤ reserved_micros s → 0 ≤ spent_micros s →
  spent_micros s + reserved_micros s + z ≤ i64_max →
  Ledger.would (abs_run s) z = u64_sat (committed s + z).
Proof.
  intros. rewrite Ledger.would_exact by (unfold Ledger.level_sound; simpl; lia || done).
  unfold committed. rewrite (u64_sat_id (_ + reserved_micros s)) by mach.
  rewrite u64_sat_id by mach. done.
Qed.

Lemma check_levels_abs st run ids z :
  fits_i64 st → 0 ≤ z →
  (∀ k, k ∈ ids → is_Some (cruns st !! k)) →
  (∀ k s, k ∈ ids → cruns st !! k = Some s → spent_micros s + reserved_micros s + z ≤ i64_max) →
  match Ledger.check_levels (abs st) ids z, LedgerState.check_levels st run ids z with
  | None, None => True
  | Some e, Some r => same_refusal e r
  | _, _ => False
  end.
Proof.
  intros Hf Hz. induction ids as [|id ids IH]; intros Hin Hroom; simpl; [done|].
  destruct (Hin id) as [s Hs]; [set_solver|]. rewrite abs_lookup, Hs. simpl.
  destruct (Hf id s Hs) as (? & ? & ?).
  rewrite would_abs by first [done | apply (Hroom id s); [by apply list_elem_of_here|done]].
  destruct (budget_micros s <? _); [done|].
  apply IH; intros; [apply Hin|eapply Hroom]; eauto; by apply list_elem_of_further.
Qed.

(** Updating every level, on both sides of the abstraction. *)
Lemma alter_all_abs st (f : CRun → CRun) (g : RunState → RunState) ids :
  NoDup ids →
  (∀ k s, k ∈ ids → cruns st !! k = Some s → abs_run (f s) = g (abs_run s)) →
  abs_run <$> alter_all f ids (cruns st) = alter_all g ids (abs st).
Proof.
  intros Hnd H. apply map_eq. intros k. rewrite lookup_fmap, !alter_all_lookup by done.
  rewrite abs_lookup. case_decide as Hk; [|done].
  destruct (cruns st !! k) as [s|] eqn:Hs; simpl; [|done]. by rewrite (H k s).
Qed.

(** ** The refinement *)

(** A log entry as a method of the in-process ledger. *)
Definition ledger_op (runs : gmap string RunState) (req : Request)
  : gmap string RunState * option (result Reservation BudgetError) :=
  match req with
  | Open run b parent => (Ledger.open_run runs run b parent, None)
  | Reserve run z => let '(runs', r) := Ledger.reserve runs run z in (runs', Some r)
  | Settle run reserved actual =>
      (Ledger.settle runs (mkReservation run reserved 0) actual, None)
  end.

(** Amounts the in-process ledger can add without wrapping. *)
Definition req_ok (st : LedgerState) (req : Request) : Prop :=
  match req with
  | Open _ b _ => 0 ≤ b ≤ i64_max
  | Reserve run z => 0 ≤ z ∧ c_room st run z
  | Settle run res act =>
      0 ≤ res ≤ i64_max ∧ 0 ≤ act ∧
      ∀ k s, k ∈ LedgerState.chain st run → cruns st !! k = Some s →
        spent_micros s + act + Z.max 0 (reserved_micros s - res) ≤ i64_max
  end.

Lemma c_chain_nodup st run : NoDup (LedgerState.chain st run).
Proof. rewrite chain_abs. apply Ledger.chain_nodup. Qed.

Lemma fits_update st f ids :
  fits_i64 st → NoDup ids →
  (∀ k s, k ∈ ids → cruns st !! k = Some s →
     0 ≤ reserved_micros (f s) ∧ 0 ≤ spent_micros (f s)
     ∧ spent_micros (f s) + reserved_micros (f s) ≤ i64_max) →
  fits_i64 (mkLedgerState (alter_all f ids (cruns st))).
Proof.
  intros Hf Hnd Hupd k s'. simpl. rewrite alter_all_lookup by done. case_decide as Hk; [|apply Hf].
  destruct (cruns st !! k) as [s|] eqn:Hs; simpl; [|done]. intros [= <-]. eauto.
Qed.

Lemma open_refines st run b parent :
  fits_i64 st → 0 ≤ b ≤ i64_max →
  let st' := (LedgerState.apply st (Open run b parent)).1 in
  fits_i64 st' ∧ abs st' = Ledger.open_run (abs st) run b parent.
Proof.
  intros Hf Hb. simpl. unfold abs at 1, Ledger.open_run. simpl. rewrite abs_lookup.
  destruct (cruns st !! run) as [s|] eqn:Hs; simpl; rewrite fmap_insert; (split; [|done]);
    intros k s'; simpl; rewrite lookup_insert; case_decide; try apply Hf; intros [= <-].
  - apply (Hf run s Hs).
  - simpl. mach.
Qed.

Lemma settle_refines st run res act :
  fits_i64 st → req_ok st (Settle run res act) →
  let st' := (LedgerState.apply st (Settle run res act)).1 in
  fits_i64 st' ∧ abs st' = Ledger.settle (abs st) (mkReservation run res 0) act.
Proof.
  intros Hf (Hres & Hact & Hroom). simpl. split.
  - apply fits_update; [done|apply c_chain_nodup|]. intros k s Hk Hs. simpl.
    destruct (Hf k s Hs) as (? & ? & ?). specialize (Hroom k s Hk Hs). mach.
  - unfold abs at 1, Ledger.settle. simpl. rewrite <-chain_abs.
    apply alter_all_abs; [apply c_chain_nodup|]. intros k s Hk Hs.
    destruct (Hf k s Hs) as (? & ? & ?). specialize (Hroom k s Hk Hs).
    unfold abs_run, settle_state, LedgerState.settle_run. simpl.
    rewrite Microusd.add_exact by mach. unfold Microusd.saturating_sub. f_equal; mach.
Qed.

Lemma reserve_refines st run z :
  fits_i64 st → 0 ≤ z → c_room st run z →
  let '(st', resp) := LedgerState.apply st (Reserve run z) in
  let '(runs', r) := Ledger.reserve (abs st) run z in
  fits_i64 st' ∧ abs st' = runs' ∧
  match r with
  | Ok t => accepted resp = true ∧ r_step resp = Ledger.step t ∧ blocked_run resp = None
  | Err e => st' = st ∧ same_refusal e resp
  end.
Proof.
  intros Hf Hz Hroom. simpl. unfold Ledger.reserve. rewrite abs_lookup.
  destruct (cruns st !! run) as [s0|] eqn:Hrun; simpl; [|done].
  rewrite <-chain_abs.
  pose proof (check_levels_abs st run (LedgerState.chain st run) z Hf Hz) as Hc.
  assert (∀ k, k ∈ LedgerState.chain st run → is_Some (cruns st !! k)) as Hin.
  { intros k. rewrite chain_abs. intros Hk%Ledger.chain_keys. rewrite abs_lookup in Hk.
    by apply fmap_is_Some in Hk. }
  specialize (Hc Hin ltac:(intros; by eapply c_room_at)).
  destruct (Ledger.check_levels (abs st) _ z) as [e|],
           (LedgerState.check_levels st run _ z) as [r|]; try done.
  set (upd := alter_all (LedgerState.add_reserved z) (LedgerState.chain st run) (cruns st)).
  assert (abs_run <$> upd = alter_all (add_reserved z) (LedgerState.chain st run) (abs st)) as Hupd.
  { apply alter_all_abs; [apply c_chain_nodup|]. intros k s Hk Hs.
    destruct (Hf k s Hs) as (? & ? & ?). pose proof (c_room_at _ _ _ _ _ Hroom Hk Hs).
    unfold abs_run, add_reserved, LedgerState.add_reserved. simpl.
    rewrite Microusd.add_exact, u64_sat_id by mach. done. }
  assert (fits_i64 (mkLedgerState upd)) as Hfu.
  { apply fits_update; [done|apply c_chain_nodup|]. intros k s Hk Hs. simpl.
    destruct (Hf k s Hs) as (? & ? & ?). pose proof (c_room_at _ _ _ _ _ Hroom Hk Hs). mach. }
  assert (abs_run <$> alter LedgerState.bump_steps run upd
          = alter bump_steps run (abs_run <$> upd)) as Hb.
  { apply map_eq. intros k. rewrite lookup_fmap, !lookup_alter, !lookup_fmap.
    case_decide; [subst|done]. by destruct (upd !! k). }
  unfold Ledger.apply_reserve. rewrite <-Hupd, <-Hb.
  split; [|split; [done|split; [done|split; [|done]]]].
  - intros k s. simpl. rewrite lookup_alter. case_decide; [subst|apply Hfu].
    destruct (upd !! k) as [s1|] eqn:E; simpl; [|done]. intros [= <-]. apply (Hfu k s1 E).
  - simpl. rewrite lookup_fmap, lookup_alter, decide_True by done. by destruct (upd !! run).
Qed.

(** C29: on the amounts an [i64] represents, the replicated state machine is the
    in-process ledger: applying a log entry yields exactly the table the corresponding
    method yields, for every run of the hierarchy; a reserve is accepted exactly when
    the method grants it, with the same step number; a refusal leaves the state alone
    and names the same run, budget and spend; and the amounts keep fitting. *)
Theorem cluster_refines_ledger st req :
  fits_i64 st → req_ok st req →
  let '(st', resp) := LedgerState.apply st req in
  let '(runs', out) := ledger_op (abs st) req in
  fits_i64 st' ∧ abs st' = runs' ∧
  match out with
  | None => accepted resp = true
  | Some (Ok t) => accepted resp = true ∧ r_step resp = Ledger.step t ∧ blocked_run resp = None
  | Some (Err e) => st' = st ∧ same_refusal e resp
  end.
Proof.
  intros Hf Hok. destruct req as [run b p|run z|run res act].
  - destruct (open_refines st run b p Hf Hok) as [H1 H2]. simpl in *. done.
  - destruct Hok as [Hz Hroom]. pose proof (reserve_refines st run z Hf Hz Hroom) as H.
    unfold ledger_op. destruct (LedgerState.apply st (Reserve run z)), (Ledger.reserve _ run z).
    done.
  - destruct (settle_refines st run res act Hf Hok) as [H1 H2]. simpl in *. done.
Qed.

(** ** Accounting over the log *)

(** The replicated ledger with the reservations it has granted and that are not settled, and the
    sum of the amounts by which real costs overran their estimates and budgets were lowered. *)
Record Books := mkBooks { b_ledger : LedgerState; b_outs : list Reservation; b_over : Z }.
Definition no_books : Books := mkBooks (mkLedgerState ∅) [] 0.

(** An entry a log of clients that reserve every call may hold: any open, re-open with a lower
    budget included, that does not change the ancestors of a call in flight; any reserve,
    granted or refused; the settlement of a reservation that was granted.  The settlement of a
    reservation that was not granted (what the backend submits for a call it let through when
    consensus was lost, [LedgerBackend.failed_open_reserve_releases]) is not an entry here.
    Amounts are nonnegative and add up without wrapping. *)
Inductive booked : Books → Request → Books → Prop :=
| booked_open st out o run b parent :
    0 ≤ b ≤ i64_max →
    undisturbed (abs st) (Ledger.open_run (abs st) run b parent) out →
    booked (mkBooks st out o) (Open run b parent)
      (mkBooks (LedgerState.apply st (Open run b parent)).1 out (o + lowered (abs st) run b))
| booked_reserve st out o run z st' resp :
    LedgerState.apply st (Reserve run z) = (st', resp) → 0 ≤ z → c_room st run z →
    booked (mkBooks st out o) (Reserve run z)
      (mkBooks st' (if accepted resp then mkReservation run z (r_step resp) :: out else out) o)
| booked_settle st pre r post o act :
    0 ≤ act → c_room st (run_id r) (act - amount r) →
    booked (mkBooks st (pre ++ r :: post) o) (Settle (run_id r) (amount r) act)
      (mkBooks (LedgerState.apply st (Settle (run_id r) (amount r) act)).1 (pre ++ post)
         (o + Z.max 0 (act - amount r))).

(** A log, entry by entry. *)
Inductive bookings : Books → list Request → Books → Prop :=
| bookings_nil b : bookings b [] b
| bookings_cons b req b1 reqs b2 : booked b req b1 → bookings b1 reqs b2 → bookings b (req :: reqs) b2.

(** As a state of the in-process ledger. *)
Definition abs_books (b : Books) : Sys := mkSys (abs (b_ledger b)) (b_outs b) (b_over b).

Lemma inv_fits b : inv true (abs_books b) → fits_i64 (b_ledger b).
Proof.
  intros Hi k s Hs. assert (table (abs_books b) !! k = Some (abs_run s)) as Ht
    by (cbn; by rewrite abs_lookup, Hs).
  pose proof (inv_spent _ _ Hi k _ Ht). pose proof (reserved_nonneg _ _ _ _ Hi Ht).
  cbn in *. lia.
Qed.

(** What is outstanding is reserved at every level of its chain. *)
Lemma outstanding_at st pre r post o k s :
  inv true (mkSys st (pre ++ r :: post) o) → k ∈ Ledger.chain st (run_id r) → st !! k = Some s →
  0 ≤ amount r ≤ rs_reserved s.
Proof.
  intros Hi Hk Hs. pose proof (inv_outs _ _ Hi) as Ho. cbn in Ho.
  apply Forall_app in Ho as [Hpre Hpost]. pose proof (Forall_inv Hpost) as [_ Hr].
  apply Forall_inv_tail in Hpost. rewrite (inv_held _ _ Hi k s Hs). cbn [table outs].
  rewrite held_app. pose proof (held_nonneg _ _ k Hpre). pose proof (held_nonneg _ _ k Hpost).
  assert (share st k r = amount r) as Hsh by (unfold share; by rewrite decide_True).
  change (held st (r :: post) k) with (share st k r + held st post k). lia.
Qed.

Lemma settle_ok st pre r post o act :
  inv true (mkSys (abs st) (pre ++ r :: post) o) → 0 ≤ act → c_room st (run_id r) (act - amount r) →
  req_ok st (Settle (run_id r) (amount r) act).
Proof.
  intros Hi Ha Hr. pose proof (inv_outs _ _ Hi) as Ho. cbn in Ho.
  apply Forall_app in Ho as [_ Ho]. pose proof (Forall_inv Ho) as [[s Hs] Hz].
  assert (run_id r ∈ Ledger.chain (abs st) (run_id r)) as Hself by (apply Ledger.chain_self; by eexists).
  destruct (outstanding_at _ _ _ _ _ _ _ Hi Hself Hs) as [_ Hle].
  pose proof (inv_spent _ _ Hi _ _ Hs) as [? ?].
  unfold req_ok. split_and!; [lia|lia|done|]. intros k s' Hk Hs'. rewrite chain_abs in Hk.
  assert (abs st !! k = Some (abs_run s')) as Hs2 by by rewrite abs_lookup, Hs'.
  pose proof (outstanding_at _ _ _ _ _ _ _ Hi Hk Hs2). pose proof (Hr k _ Hk Hs2). cbn in *. lia.
Qed.

Lemma reserve_names runs run z runs' t :
  Ledger.reserve runs run z = (runs', Ok t) → t = mkReservation run z (Ledger.step t).
Proof.
  intros H. destruct (Ledger.reserve_cases runs run z) as [[_ E]|[(e & _ & _ & E)|(_ & _ & E)]];
    rewrite E in H; try done. by injection H as _ <-.
Qed.

(** Every entry is a step of the in-process ledger. *)
Lemma booked_step b req b' :
  inv true (abs_books b) → booked b req b' → step true (abs_books b) (abs_books b').
Proof.
  intros Hi Hb. pose proof (inv_fits _ Hi) as Hf.
  destruct Hb as [st out o run z parent Hz Hp|st out o run z st' resp Ha Hz Hr|st pre r post o act Ha Hr];
    unfold abs_books in *; cbn [b_ledger b_outs b_over] in *.
  - pose proof (open_refines st run z parent Hf Hz) as [_ ->].
    apply step_open; [mach|done].
  - pose proof (reserve_refines st run z Hf Hz Hr) as Href. rewrite Ha in Href.
    destruct (Ledger.reserve (abs st) run z) as [runs' res] eqn:El. destruct Href as (_ & -> & Hres).
    pose proof (step_reserve true (abs st) out o run z runs' res El Hz Hr) as Hstep.
    destruct res as [t|e].
    + destruct Hres as (-> & -> & _). by rewrite <-(reserve_names _ _ _ _ _ El).
    + destruct Hres as [_ [-> _]]. exact Hstep.
  - assert (req_ok st (Settle (run_id r) (amount r) act)) as Hok by by eapply settle_ok.
    pose proof (settle_refines st _ _ _ Hf Hok) as [_ ->]. by apply (step_settle true _ pre r post).
Qed.

(** After a log, no run is committed beyond its budget by more than the overruns and the lowered
    budgets in that log, and what is reserved on it is what its descendants and it have
    outstanding. *)
Definition within_budget (b : Books) : Prop :=
  ∀ k s, cruns (b_ledger b) !! k = Some s →
    0 ≤ reserved_micros s ∧ 0 ≤ spent_micros s ∧
    spent_micros s + reserved_micros s ≤ budget_micros s + b_over b ∧
    reserved_micros s = held (abs (b_ledger b)) (b_outs b) k.

Lemma bookings_inv b reqs b' :
  bookings b reqs b' → inv true (abs_books b) → inv true (abs_books b').
Proof.
  intros H. induction H as [b|b req b1 reqs b2 Hb _ IH]; intros Hi; [done|].
  apply IH. eapply inv_step; [done|]. by eapply booked_step.
Qed.

Lemma bookings_within reqs b : bookings no_books reqs b → within_budget b.
Proof.
  intros H. assert (inv true (abs_books b)) as Hi
    by (eapply bookings_inv; [done|]; unfold abs_books, abs; cbn; rewrite fmap_empty; apply inv_init).
  intros k s Hs. assert (table (abs_books b) !! k = Some (abs_run s)) as Ht
    by (cbn; by rewrite abs_lookup, Hs).
  pose proof (inv_fits b Hi k s Hs). pose proof (inv_budget _ _ Hi k _ eq_refl Ht).
  pose proof (inv_held _ _ Hi k _ Ht). cbn in *. split_and!; try done; lia.
Qed.

Lemma bookings_prefix b xs ys b2 :
  bookings b (xs ++ ys) b2 → ∃ b1, bookings b xs b1 ∧ bookings b1 ys b2.
Proof.
  revert b. induction xs as [|x xs IH]; intros b H; [exists b; split; [constructor|done]|].
  inversion H as [|? ? b1 ? ? Hb Hrest]; subst. destruct (IH b1 Hrest) as (b3 & H1 & H2).
  exists b3. split; [by econstructor|done].
Qed.

(** The ledger is the one the entries produce. *)
Lemma bookings_ledger b reqs b' :
  bookings b reqs b' → b_ledger b' = foldl (λ l req, (LedgerState.apply l req).1) (b_ledger b) reqs.
Proof.
  intros H. induction H as [b|b req b1 reqs b2 Hb _ IH]; [done|]. rewrite IH. cbn [foldl]. f_equal.
  destruct Hb as [|? ? ? ? ? ? ? Ha|]; [done| |done]. cbn [b_ledger]. by rewrite Ha.
Qed.

(** ** A parent and a child *)

Definition demo_cluster : LedgerState :=
  (LedgerState.apply
     (LedgerState.apply (mkLedgerState ∅) (Open "org" 1000 None)).1
     (Open "agent" 800 (Some "org"))).1.

Example cluster_parent_blocks :
  (LedgerState.apply
     (LedgerState.apply demo_cluster (Reserve "agent" 700)).1 (Reserve "org" 400)).2
  = mkResponse false 0 700 1000 0 (Some "org")
      "budget_exceeded on 'org': need 1100 µUSD > budget 1000 µUSD".
Proof. vm_compute. reflexivity. Qed.

(** Every run of the example is small. *)
Lemma demo_cluster_small k s :
  cruns demo_cluster !! k = Some s →
  0 ≤ reserved_micros s ∧ 0 ≤ spent_micros s ∧ spent_micros s + reserved_micros s ≤ 100.
Proof.
  assert (map_Forall (λ _ s, 0 ≤ reserved_micros s ∧ 0 ≤ spent_micros s
                             ∧ spent_micros s + reserved_micros s ≤ 100) (cruns demo_cluster))
    as H by (apply (bool_decide_unpack _); vm_compute; exact I).
  apply H.
Qed.

Lemma demo_cluster_fits : fits_i64 demo_cluster.
Proof. intros k s H%demo_cluster_small. mach. Qed.

Lemma cluster_refines_ledger_witness :
  fits_i64 demo_cluster ∧ req_ok demo_cluster (Reserve "agent" 700) ∧
  (LedgerState.apply demo_cluster (Reserve "agent" 700)).2 = mkResponse true 0 700 800 1 None "" ∧
  abs (LedgerState.apply demo_cluster (Reserve "agent" 700)).1
  = (ledger_op (abs demo_cluster) (Reserve "agent" 700)).1.
Proof.
  assert (req_ok demo_cluster (Reserve "agent" 700)) as Hok.
  { split; [done|]. intros k s _ Hs. rewrite abs_lookup in Hs.
    apply fmap_Some in Hs as (c & Hc%demo_cluster_small & ->). simpl. mach. }
  split; [apply demo_cluster_fits|]. split; [exact Hok|]. split; [vm_compute; reflexivity|].
  exact (proj1 (proj2 (cluster_refines_ledger demo_cluster (Reserve "agent" 700)
                         demo_cluster_fits Hok))).
Defined.
