(* ===== verification/RaftStore.v ===== *)
(** * The in-memory raft storage

    [crates/cluster/src/store.rs]: the log store and the state-machine store behind
    openraft's storage traits.  The types of openraft (leader ids, votes, memberships)
    and the serialized form of the ledger are parameters; the contract openraft states
    for its callers is the premise of each step: committed entries are applied in log
    order, starting after [last_applied], and an installed snapshot is one that some
    node built. *)

From S2P Require Import Prelude Money Ledger Strings LedgerInv Cluster.

(** [std::ops::Bound<u64>] *)
Inductive Bound := Included (x : Z) | Excluded (x : Z) | Unbounded.

Definition above (b : Bound) (k : Z) : bool :=
  match b with Included x => x <=? k | Excluded x => x <? k | Unbounded => true end.
Definition below (b : Bound) (k : Z) : bool :=
  match b with Included x => k <=? x | Excluded x => k <? x | Unbounded => true end.

Section store.
Context {Leader Vote Membership StoredMembership : Type}.
Context (show_leader : Leader → string).
Context (new_membership : option (Leader * Z) → Membership → StoredMembership).
Context (no_membership : StoredMembership).
(** [serde_json] on the ledger. *)
Context (to_vec : LedgerState → string) (from_slice : string → option LedgerState).

(** openraft's [LogId]: the leader id and the index. *)
Abbreviation LogId := (Leader * Z)%type.

Inductive EntryPayload := Blank | Normal (req : Request) | Member (m : Membership).
Record Entry := mkEntry { log_id : LogId; payload : EntryPayload }.

(** ** The log store *)

(* @src cluster/store.rs LogInner *)
Record LogInner := mkLogInner {
  vote : option Vote;
  log : gmap Z Entry;
  li_committed : option LogId;
  last_purged : option LogId
}.

Definition empty_log : LogInner := mkLogInner None ∅ None None.

Definition with_log (st : LogInner) (m : gmap Z Entry) : LogInner :=
  mkLogInner (vote st) m (li_committed st) (last_purged st).

(* @src cluster/store.rs LogStore::try_get_log_entries *)
Definition try_get_log_entries (st : LogInner) (lo hi : Bound) : list Entry :=
  snd <$> filter (λ p, above lo p.1 && below hi p.1 = true) (index_list (log st)).

(* @src cluster/store.rs LogStore::get_log_state *)
Definition get_log_state (st : LogInner) : option LogId * option LogId :=
  let last := match last (index_list (log st)) with
              | Some (_, e) => Some (log_id e)
              | None => last_purged st
              end in
  (last_purged st, last).

(* @src cluster/store.rs LogStore::save_vote *)
Definition save_vote (st : LogInner) (v : Vote) : LogInner :=
  mkLogInner (Some v) (log st) (li_committed st) (last_purged st).

(* @src cluster/store.rs LogStore::read_vote *)
Definition read_vote (st : LogInner) : option Vote := vote st.

(* @src cluster/store.rs LogStore::save_committed *)
Definition save_committed (st : LogInner) (c : option LogId) : LogInner :=
  mkLogInner (vote st) (log st) c (last_purged st).

(* @src cluster/store.rs LogStore::read_committed *)
Definition read_committed (st : LogInner) : option LogId := li_committed st.

(* @src cluster/store.rs LogStore::append *)
Definition append (st : LogInner) (entries : list Entry) : LogInner :=
  with_log st (foldl (λ m e, <[(log_id e).2 := e]> m) (log st) entries).

(** [let keys = log.range(..).collect(); for k in keys { log.remove(&k) }] *)
Definition remove_range {A} (f : Z → bool) (m : gmap Z A) : gmap Z A :=
  foldl (λ m k, delete k m) m (filter (λ k, f k = true) (fst <$> index_list m)).

(* @src cluster/store.rs LogStore::truncate *)
Definition truncate (st : LogInner) (id : LogId) : LogInner :=
  with_log st (remove_range (above (Included id.2)) (log st)).

(* @src cluster/store.rs LogStore::purge *)
Definition purge (st : LogInner) (id : LogId) : LogInner :=
  let st := mkLogInner (vote st) (log st) (li_committed st) (Some id) in
  with_log st (remove_range (below (Included id.2)) (log st)).

(** ** The state-machine store *)

(* @src cluster/store.rs 139-143 StoredSnapshot *)
Record StoredSnapshot := mkStoredSnapshot {
  meta_last : option LogId;
  meta_membership : StoredMembership;
  meta_id : string;
  data : string
}.

(* @src cluster/store.rs SmInner *)
Record SmInner := mkSmInner {
  last_applied : option LogId;
  last_membership : StoredMembership;
  ledger : LedgerState;
  snapshot_idx : Z;
  current_snapshot : option StoredSnapshot
}.

Definition empty_sm : SmInner := mkSmInner None no_membership (mkLedgerState ∅) 0 None.

(* @src cluster/store.rs StateMachineStore::read_run *)
Definition read_run (sm : SmInner) (run : string) : option CRun := cruns (ledger sm) !! run.

(* @src cluster/store.rs StateMachineStore::list_runs *)
Definition list_runs (sm : SmInner) : list (string * CRun) := btree_list (cruns (ledger sm)).

(* @src cluster/store.rs StateMachineStore::build_snapshot *)
Definition build_snapshot (sm : SmInner) : SmInner * StoredSnapshot :=
  let idx := u64_wrap (snapshot_idx sm + 1) in
  let snapshot_id := match last_applied sm with
                     | Some (l, i) => show_leader l +:+ "-" +:+ pretty i +:+ "-" +:+ pretty idx
                     | None => "--" +:+ pretty idx
                     end in
  let s := mkStoredSnapshot (last_applied sm) (last_membership sm) snapshot_id
             (to_vec (ledger sm)) in
  (mkSmInner (last_applied sm) (last_membership sm) (ledger sm) idx (Some s), s).

(* @src cluster/store.rs StateMachineStore::applied_state *)
Definition applied_state (sm : SmInner) : option LogId * StoredMembership :=
  (last_applied sm, last_membership sm).

(** One turn of the loop of [apply]. *)
(* @src cluster/store.rs 250-263 StateMachineStore::apply *)
Definition apply_entry (sm : SmInner) (e : Entry) : SmInner * Response :=
  let set (mem : StoredMembership) (l : LedgerState) :=
    mkSmInner (Some (log_id e)) mem l (snapshot_idx sm) (current_snapshot sm) in
  match payload e with
  | Blank => (set (last_membership sm) (ledger sm), default_response)
  | Normal req =>
      let '(l, resp) := LedgerState.apply (ledger sm) req in
      (set (last_membership sm) l, resp)
  | Member m => (set (new_membership (Some (log_id e)) m) (ledger sm), default_response)
  end.

(* @src cluster/store.rs StateMachineStore::apply *)
Fixpoint apply (sm : SmInner) (entries : list Entry) : SmInner * list Response :=
  match entries with
  | [] => (sm, [])
  | e :: entries =>
      let '(sm, r) := apply_entry sm e in
      let '(sm, rs) := apply sm entries in
      (sm, r :: rs)
  end.

(** [None]: the [expect] panics. *)
(* @src cluster/store.rs StateMachineStore::install_snapshot *)
Definition install_snapshot (sm : SmInner) (s : StoredSnapshot) : option SmInner :=
  match from_slice (data s) with
  | Some l => Some (mkSmInner (meta_last s) (meta_membership s) l (snapshot_idx sm) (Some s))
  | None => None
  end.

(* @src cluster/store.rs StateMachineStore::get_current_snapshot *)
Definition get_current_snapshot (sm : SmInner) : option StoredSnapshot := current_snapshot sm.

(** ** What the log store holds *)

Lemma foldl_delete_lookup {A} ks (m : gmap Z A) k :
  foldl (λ m k, delete k m) m ks !! k = if decide (k ∈ ks) then None else m !! k.
Proof.
  revert m. induction ks as [|j ks IH]; intros m; cbn [foldl].
  - rewrite decide_False; [done|apply not_elem_of_nil].
  - rewrite IH, lookup_delete. repeat case_decide; set_solver.
Qed.

Lemma remove_range_lookup {A} f (m : gmap Z A) k :
  remove_range f m !! k = if f k then None else m !! k.
Proof.
  unfold remove_range. rewrite foldl_delete_lookup.
  destruct (m !! k) as [x|] eqn:E; [|by repeat case_match].
  assert (k ∈ fst <$> index_list m) as Hk
    by (apply list_elem_of_fmap; exists (k, x); split; [done|by apply index_list_elem]).
  case_decide as H; rewrite list_elem_of_filter in H; destruct (f k) eqn:Ef; naive_solver.
Qed.

(** Entries are stored under their own index. *)
Definition log_wf (st : LogInner) : Prop :=
  ∀ k e, log st !! k = Some e → (log_id e).2 = k.

Lemma append_wf st es : log_wf st → log_wf (append st es).
Proof.
  unfold append. intros Hwf k e. simpl. revert k e.
  assert (∀ k e, log st !! k = Some e → (log_id e).2 = k) as H by exact Hwf. revert H.
  generalize (log st) as m. clear Hwf. induction es as [|x es IH]; intros m Hm; simpl; [exact Hm|].
  apply IH. intros k e. rewrite lookup_insert. case_decide; [by intros [= <-]|apply Hm].
Qed.

Lemma append_lookup st es k :
  log (append st es) !! k
  = match last (filter (λ e, (log_id e).2 = k) es) with
    | Some e => Some e
    | None => log st !! k
    end.
Proof.
  unfold append. simpl. generalize (log st) as m.
  induction es as [|e es IH] using rev_ind; intros m; [done|].
  rewrite foldl_app, filter_app. cbn [foldl]. rewrite lookup_insert.
  case_decide as H.
  - rewrite filter_cons_True, filter_nil by done. by rewrite last_snoc.
  - rewrite filter_cons_False, filter_nil by done. rewrite app_nil_r. apply IH.
Qed.

Lemma index_list_fmap_sorted {A B} (g : A → B) (idx : B → Z) (f : Z → bool) (m : gmap Z A) :
  (∀ k x, m !! k = Some x → idx (g x) = k) →
  StronglySorted Z.le
    (idx <$> ((λ p : Z * A, g p.2) <$> filter (λ p, f p.1 = true) (index_list m))).
Proof.
  intros Hi. pose proof (index_list_sorted m) as Hs.
  assert (Forall (λ p, idx (g p.2) = p.1) (index_list m)) as Hk.
  { apply Forall_forall. intros [k x] Hx%index_list_elem. by apply Hi. }
  induction Hs as [|p l Hs IH Hp]; [constructor|]. inversion Hk as [|? ? Hpk Hl]; subst.
  rewrite filter_cons. case_decide; [|by apply IH]. csimpl. constructor; [by apply IH|].
  rewrite !Forall_fmap. apply Forall_forall. intros q [_ Hq]%list_elem_of_filter.
  rewrite Forall_forall in Hp, Hl. simpl. rewrite Hpk, (Hl q Hq). by apply Z.leb_le, Hp.
Qed.

Lemma try_get_elem st lo hi e :
  e ∈ try_get_log_entries st lo hi ↔
  ∃ k, log st !! k = Some e ∧ above lo k = true ∧ below hi k = true.
Proof.
  unfold try_get_log_entries. rewrite list_elem_of_fmap. split.
  - intros ([k x] & -> & [Hf%andb_true_iff Hk%index_list_elem]%list_elem_of_filter).
    exists k. naive_solver.
  - intros (k & Hk & Ha & Hb). exists (k, e). split; [done|]. apply list_elem_of_filter.
    split; [simpl; by rewrite Ha, Hb|by apply index_list_elem].
Qed.

(** The log store is an index-ordered map.  Reading a range yields exactly the
    stored entries of the range, in index order; appending overwrites index by index;
    truncating at an id removes that index and everything after it and nothing else;
    purging removes the index and everything before it and remembers the id; the
    reported last id is that of the highest stored entry, or else of the last purge. *)
Theorem log_store_correct st :
  log_wf st →
  (∀ lo hi, StronglySorted Z.le ((λ e, (log_id e).2) <$> try_get_log_entries st lo hi) ∧
     ∀ e, e ∈ try_get_log_entries st lo hi ↔
       ∃ k, log st !! k = Some e ∧ above lo k = true ∧ below hi k = true) ∧
  (∀ es k, log (append st es) !! k
     = match last (filter (λ e, (log_id e).2 = k) es) with
       | Some e => Some e | None => log st !! k end) ∧
  (∀ id k, log (truncate st id) !! k = if id.2 <=? k then None else log st !! k) ∧
  (∀ id k, log (purge st id) !! k = (if k <=? id.2 then None else log st !! k)
           ∧ last_purged (purge st id) = Some id) ∧
  (get_log_state st).1 = last_purged st ∧
  match (get_log_state st).2 with
  | Some id => (∃ e, log st !! id.2 = Some e ∧ log_id e = id ∧
                     ∀ k, is_Some (log st !! k) → k ≤ id.2)
               ∨ log st = ∅ ∧ last_purged st = Some id
  | None => log st = ∅ ∧ last_purged st = None
  end.
Proof.
  intros Hwf. split_and!.
  - intros lo hi. split; [|apply try_get_elem].
    apply (index_list_fmap_sorted id (λ e, (log_id e).2) (λ k, above lo k && below hi k)).
    exact Hwf.
  - intros es k. apply append_lookup.
  - intros id k. unfold truncate. simpl. by rewrite remove_range_lookup.
  - intros id k. unfold purge. simpl. by rewrite remove_range_lookup.
  - done.
  - unfold get_log_state. simpl. destruct (last (index_list (log st))) as [[k e]|] eqn:El.
    + apply index_list_last in El as [Hk Hmax]. simpl in *. left. exists e.
      by rewrite (Hwf k e Hk).
    + assert (log st = ∅) as He.
      { apply last_None in El. apply map_empty. intros k.
        destruct (log st !! k) as [e|] eqn:E; [|done].
        apply index_list_elem in E. rewrite El in E. by apply elem_of_nil in E. }
      destruct (last_purged st); auto.
Qed.

(** ** Replicas *)

(** What a state machine is about, without its snapshot bookkeeping. *)
Definition core (sm : SmInner) : option LogId * StoredMembership * LedgerState :=
  (last_applied sm, last_membership sm, ledger sm).

(** The state machine after the entries [es] of the log. *)
Definition replay (es : list Entry) : option LogId * StoredMembership * LedgerState :=
  core (apply empty_sm es).1.

(** Nodes of a cluster that share the committed log [clog]: a node joins, applies the
    entries that follow what it has applied, builds a snapshot, or installs the one
    another node holds. *)
Inductive cstep (clog : list Entry) : gmap Z SmInner → gmap Z SmInner → Prop :=
| cs_join cl i : cl !! i = None → cstep clog cl (<[i := empty_sm]> cl)
| cs_apply cl i sm pre es post :
    cl !! i = Some sm → clog = pre ++ es ++ post → last_applied sm = log_id <$> last pre →
    cstep clog cl (<[i := (apply sm es).1]> cl)
| cs_build cl i sm :
    cl !! i = Some sm → cstep clog cl (<[i := (build_snapshot sm).1]> cl)
| cs_install cl i j smi smj s smi' :
    cl !! i = Some smi → cl !! j = Some smj → get_current_snapshot smj = Some s →
    install_snapshot smi s = Some smi' → cstep clog cl (<[i := smi']> cl).

Lemma apply_app sm a b : (apply sm (a ++ b)).1 = (apply (apply sm a).1 b).1.
Proof.
  revert sm. induction a as [|e a IH]; intros sm; simpl; [done|].
  destruct (apply_entry sm e) as [sm1 r]. specialize (IH sm1).
  destruct (apply sm1 (a ++ b)), (apply sm1 a). done.
Qed.

Lemma apply_entry_core a b e :
  core a = core b → core (apply_entry a e).1 = core (apply_entry b e).1.
Proof.
  unfold core, apply_entry. intros [= _ Hm Hl]. rewrite <-Hm, <-Hl.
  destruct (payload e); simpl; [done| |done]. by destruct (LedgerState.apply (ledger a) req).
Qed.

Lemma apply_core a b es : core a = core b → core (apply a es).1 = core (apply b es).1.
Proof.
  revert a b. induction es as [|e es IH]; intros a b H; simpl; [done|].
  pose proof (apply_entry_core a b e H) as He.
  destruct (apply_entry a e) as [a1 ra], (apply_entry b e) as [b1 rb]. specialize (IH a1 b1 He).
  destruct (apply a1 es), (apply b1 es). done.
Qed.

Lemma apply_last es sm :
  last_applied (apply sm es).1
  = match last es with Some e => Some (log_id e) | None => last_applied sm end.
Proof.
  induction es as [|e es IH] using rev_ind; [done|].
  rewrite apply_app, last_snoc. simpl. unfold apply_entry.
  destruct (payload e); simpl; [done| |done].
  by destruct (LedgerState.apply _ _).
Qed.

Lemma apply_snapshot es sm : current_snapshot (apply sm es).1 = current_snapshot sm.
Proof.
  revert sm. induction es as [|e es IH]; intros sm; simpl; [done|].
  assert (current_snapshot (apply_entry sm e).1 = current_snapshot sm) as He.
  { unfold apply_entry. destruct (payload e); simpl; [done| |done].
    by destruct (LedgerState.apply _ _). }
  destruct (apply_entry sm e) as [sm1 r]. specialize (IH sm1).
  destruct (apply sm1 es). simpl in *. congruence.
Qed.

Lemma replay_last es : (replay es).1.1 = log_id <$> last es.
Proof. unfold replay, core. simpl. rewrite apply_last. by destruct (last es). Qed.

(** Two prefixes of a log without repeated ids that end at the same id are equal. *)
Lemma prefix_by_last (clog p q x y : list Entry) :
  NoDup (log_id <$> clog) → clog = p ++ x → clog = q ++ y →
  log_id <$> last p = log_id <$> last q → p = q.
Proof.
  intros Hnd -> Hq Hlast.
  assert (length p = length q) as Hlen; [|by apply app_inj_1 in Hq as [? _]].
  destruct (last p) as [e|] eqn:Ep, (last q) as [f|] eqn:Eq; try done;
    [|by apply last_None in Ep as ->; apply last_None in Eq as ->].
  apply last_Some in Ep as [p' ->], Eq as [q' ->]. injection Hlast as Hid.
  rewrite !length_app. f_equal. simpl in *.
  assert ((log_id <$> (p' ++ [e]) ++ x) !! length p' = Some (log_id e)) as H1.
  { rewrite list_lookup_fmap, <-app_assoc. cbn [app]. by rewrite list_lookup_middle. }
  assert ((log_id <$> (p' ++ [e]) ++ x) !! length q' = Some (log_id f)) as H2.
  { rewrite Hq, list_lookup_fmap, <-app_assoc. cbn [app]. by rewrite list_lookup_middle. }
  rewrite Hid in H1. by apply (NoDup_lookup _ _ _ _ Hnd H1 H2).
Qed.

Context (Hserde : ∀ l, from_slice (to_vec l) = Some l).

(** A snapshot carries the state after some prefix of the log. *)
Definition snapshot_ok (clog : list Entry) (s : StoredSnapshot) : Prop :=
  ∃ pre post l, clog = pre ++ post ∧ from_slice (data s) = Some l ∧
    replay pre = (meta_last s, meta_membership s, l).

Record node_ok (clog : list Entry) (sm : SmInner) : Prop := {
  node_core : ∃ pre post, clog = pre ++ post ∧ core sm = replay pre;
  node_snap s : current_snapshot sm = Some s → snapshot_ok clog s
}.

Lemma node_apply clog sm pre es post :
  NoDup (log_id <$> clog) → clog = pre ++ es ++ post → last_applied sm = log_id <$> last pre →
  node_ok clog sm → node_ok clog (apply sm es).1.
Proof.
  intros Hnd Hlog Hla [(p & q & Hpq & Hc) Hs].
  assert (p = pre) as ->.
  { apply (prefix_by_last clog p pre q (es ++ post)); [done..|].
    rewrite <-(replay_last p), <-Hc. done. }
  split; [|intros s; rewrite apply_snapshot; apply Hs].
  exists (pre ++ es), post. split; [by rewrite <-app_assoc|].
  unfold replay. rewrite apply_app. by apply apply_core.
Qed.

Lemma cstep_ok clog cl cl' :
  NoDup (log_id <$> clog) →
  (∀ i sm, cl !! i = Some sm → node_ok clog sm) → cstep clog cl cl' →
  ∀ i sm, cl' !! i = Some sm → node_ok clog sm.
Proof.
  intros Hnd Hok Hstep k sm'.
  destruct Hstep as [cl i Hi|cl i sm pre es post Hi Hlog Hla|cl i sm Hi
                    |cl i j smi smj s smi' Hi Hj Hs Hin];
    rewrite lookup_insert; (case_decide; [intros [= <-]|by apply Hok]).
  - split; [|done]. by exists [], clog.
  - apply (node_apply clog sm pre es post); eauto.
  - destruct (Hok _ _ Hi) as [(p & q & Hpq & Hc) _]. split; [by exists p, q|].
    intros s [= <-]. exists p, q, (ledger sm). simpl. by rewrite Hserde, <-Hc.
  - destruct (node_snap _ _ (Hok _ _ Hj) s Hs) as (p & q & l & Hpq & Hl & Hr).
    unfold install_snapshot in Hin. rewrite Hl in Hin. injection Hin as <-.
    split; [exists p, q; split; [done|by rewrite Hr]|].
    intros s' [= <-]. by exists p, q, l.
Qed.

Lemma reachable_ok clog cl i sm :
  NoDup (log_id <$> clog) → rtc (cstep clog) ∅ cl → cl !! i = Some sm → node_ok clog sm.
Proof.
  intros Hnd Hrtc. revert i sm.
  apply (rtc_preserves (cstep clog) (λ cl, ∀ i sm, cl !! i = Some sm → node_ok clog sm) ∅ cl);
    [intros x y Hx Hs; by apply (cstep_ok clog x y)|done|done].
Qed.

(** C31: state-machine replication.  However the nodes batch the committed log, and
    whichever of them skip ahead by installing another node's snapshot, the ledger of a
    node is the replay of the prefix of the log that ends at the id it reports as last
    applied; so any two nodes that report the same id hold the same ledger and
    membership. *)
Theorem replicas_agree clog cl i j a b :
  NoDup (log_id <$> clog) → rtc (cstep clog) ∅ cl →
  cl !! i = Some a → cl !! j = Some b →
  (∃ pre post, clog = pre ++ post ∧ applied_state a = (log_id <$> last pre, last_membership a) ∧
     core a = replay pre) ∧
  (applied_state a = applied_state b ∨ last_applied a = last_applied b →
   core a = core b ∧ ∀ run, read_run a run = read_run b run).
Proof.
  intros Hnd Hrtc Ha Hb.
  destruct (node_core _ _ (reachable_ok _ _ _ _ Hnd Hrtc Ha)) as (p & x & Hp & Hca).
  destruct (node_core _ _ (reachable_ok _ _ _ _ Hnd Hrtc Hb)) as (q & y & Hq & Hcb). split.
  - exists p, x. split; [done|]. split; [|done]. unfold applied_state. f_equal.
    rewrite <-replay_last, <-Hca. done.
  - intros Hsame. assert (last_applied a = last_applied b) as Hl
      by (destruct Hsame as [H|H]; [by injection H|done]).
    assert (p = q) as ->.
    { apply (prefix_by_last clog p q x y); [done..|].
      rewrite <-!replay_last, <-Hca, <-Hcb. done. }
    assert (core a = core b) as E by congruence. split; [done|].
    unfold core in E. injection E as _ _ E. intros run. unfold read_run. by rewrite E.
Qed.
(** ** The budget on every replica *)

Definition requests (es : list Entry) : list Request :=
  omap (λ e, match payload e with Normal r => Some r | _ => None end) es.

Lemma apply_requests es sm :
  ledger (apply sm es).1 = foldl (λ l req, (LedgerState.apply l req).1) (ledger sm) (requests es).
Proof.
  revert sm. induction es as [|e es IH]; intros sm; [done|]. cbn [apply requests omap list_omap].
  assert (ledger (apply_entry sm e).1 = match payload e with
    | Normal r => (LedgerState.apply (ledger sm) r).1 | _ => ledger sm end) as He.
  { unfold apply_entry. destruct (payload e); [done| |done]. by destruct (LedgerState.apply _ _). }
  destruct (apply_entry sm e) as [sm1 r]. specialize (IH sm1). destruct (apply sm1 es) as [sm2 rs].
  cbn [fst] in *. rewrite IH, He. by destruct (payload e).
Qed.

(** The books of a prefix of a log that was kept in order. *)
Lemma prefix_books pre post b :
  bookings no_books (requests (pre ++ post)) b →
  ∃ books, bookings no_books (requests pre) books ∧ b_ledger books = (replay pre).2 ∧
    within_budget books.
Proof.
  unfold requests at 1. rewrite omap_app. intros (b1 & H1 & _)%bookings_prefix.
  exists b1. split; [done|]. split; [|by eapply bookings_within].
  rewrite (bookings_ledger _ _ _ H1). unfold replay, core. cbn [snd]. by rewrite apply_requests.
Qed.

(** C30: The budget holds on every replica.  Let the log be one whose opens (re-opens with a lower
    budget included) do not change the ancestors of a call in flight, whose settles belong to
    granted reservations, and whose amounts are nonnegative and add up within an [i64].  Then
    whatever a node has applied, in whatever batches, and whichever snapshot it installed on the
    way, every run it holds is committed to at most its budget, the overruns of real over estimated
    cost and the lowered budgets in what the node has applied; and what is reserved on the run is
    exactly what the grants in that part of the log left outstanding below it.  A gateway that let
    a call through while consensus was lost does submit a settle of a reservation that was not
    granted; its log is outside of this. *)
Theorem replicas_within_budget clog cl i a b :
  NoDup (log_id <$> clog) → rtc (cstep clog) ∅ cl → cl !! i = Some a →
  bookings no_books (requests clog) b →
  ∃ pre post books, clog = pre ++ post ∧ last_applied a = log_id <$> last pre ∧
    bookings no_books (requests pre) books ∧ b_ledger books = ledger a ∧
    ∀ run s, read_run a run = Some s →
      0 ≤ spent_micros s ∧
      spent_micros s + reserved_micros s ≤ budget_micros s + b_over books ∧
      reserved_micros s = held (abs (ledger a)) (b_outs books) run.
Proof.
  intros Hnd Hrtc Ha Hb.
  destruct (node_core _ _ (reachable_ok _ _ _ _ Hnd Hrtc Ha)) as (pre & post & -> & Hc).
  destruct (prefix_books _ _ _ Hb) as (books & Hbk & Hl & Hw). exists pre, post, books.
  pose proof (replay_last pre) as Hlast. unfold core in Hc. rewrite <-Hc in Hl, Hlast. cbn in Hl, Hlast.
  do 4 (split; [done|]). intros run s Hs. unfold read_run in Hs. rewrite <-Hl in Hs |- *.
  destruct (Hw run s Hs) as (_ & ? & ? & ?). done.
Qed.
End store.

(** ** An encoding of ledgers, to instantiate the serializer *)

#[export] Instance CRun_eq_dec : EqDecision CRun.
Proof. solve_decision. Defined.
#[export] Instance CRun_countable : Countable CRun.
Proof.
  refine (inj_countable'
    (λ s, (budget_micros s, reserved_micros s, spent_micros s, c_steps s, c_parent s))
    (λ '(b, r, sp, st, p), mkCRun b r sp st p) _).
  by intros [].
Defined.
#[export] Instance LedgerState_eq_dec : EqDecision LedgerState.
Proof. solve_decision. Defined.
#[export] Instance LedgerState_countable : Countable LedgerState.
Proof. refine (inj_countable' cruns mkLedgerState _). by intros []. Defined.

#[export] Instance Request_eq_dec : EqDecision Request.
Proof. solve_decision. Defined.
#[export] Instance Request_countable : Countable Request.
Proof.
  refine (inj_countable'
    (λ r, match r with
          | Open run b p => inl (run, b, p)
          | Reserve run z => inr (inl (run, z))
          | Settle run res act => inr (inr (run, res, act))
          end)
    (λ x, match x with
          | inl (run, b, p) => Open run b p
          | inr (inl (run, z)) => Reserve run z
          | inr (inr (run, res, act)) => Settle run res act
          end) _).
  by intros [].
Defined.

Definition enc `{Countable A} (a : A) : string := pretty (Z.pos (encode a)).
Definition dec `{Countable A} (s : string) : option A :=
  z ← parse_digits 0 s; decode (Z.to_pos z).

Lemma dec_enc `{Countable A} (a : A) : dec (enc a) = Some a.
Proof. unfold dec, enc. rewrite parse_digits_pretty by lia. simpl. apply decode_encode. Qed.

Definition encode_ledger : LedgerState → string := enc.
Definition decode_ledger : string → option LedgerState := dec.

Lemma decode_encode_ledger l : decode_ledger (encode_ledger l) = Some l.
Proof. apply dec_enc. Qed.

(** ** Two nodes *)

(** Leaders are terms. *)
Definition demo_log : list (@Entry Z unit) :=
  [mkEntry (1, 1) (Normal (Open "run" 1000 None)); mkEntry (1, 2) (Normal (Reserve "run" 400))].

Definition demo_store : @LogInner Z unit unit :=
  append (mkLogInner None ∅ None None) demo_log.

Lemma demo_store_wf : log_wf demo_store.
Proof. apply append_wf. intros k e H. done. Qed.

Lemma log_store_correct_witness :
  log_wf demo_store ∧ (get_log_state (truncate demo_store (1, 2))).2 = Some (1, 1) ∧
  log (truncate demo_store (1, 2)) !! 2 = None.
Proof.
  split; [exact demo_store_wf|]. split; [vm_compute; reflexivity|].
  exact (proj1 (proj2 (proj2 (log_store_correct demo_store demo_store_wf))) (1, 2) 2).
Defined.

(** Node 1 applies the log and builds a snapshot, node 2 installs it. *)
Definition demo_sm : @SmInner Z (option (Z * Z)) := empty_sm None.
Definition demo_new (id : option (Z * Z)) (_ : unit) : option (Z * Z) := id.
Definition demo_node1 : @SmInner Z (option (Z * Z)) := (apply demo_new demo_sm demo_log).1.
Definition demo_snapshot := (build_snapshot pretty encode_ledger demo_node1).2.
Definition demo_node1' := (build_snapshot pretty encode_ledger demo_node1).1.
Definition demo_node2 : @SmInner Z (option (Z * Z)) :=
  mkSmInner (Some (1, 2)) None (ledger demo_node1) 0 (Some demo_snapshot).
Definition demo_nodes : gmap Z (@SmInner Z (option (Z * Z))) :=
  <[2 := demo_node2]> (<[2 := demo_sm]> (<[1 := demo_node1']> (<[1 := demo_node1]>
    (<[1 := demo_sm]> ∅)))).

Lemma demo_nodes_reachable :
  rtc (cstep pretty demo_new None encode_ledger decode_ledger demo_log) ∅ demo_nodes.
Proof.
  eapply rtc_l; [apply (cs_join _ _ _ _ _ _ _ 1); done|].
  eapply rtc_l; [apply (cs_apply _ _ _ _ _ _ _ 1 demo_sm [] demo_log []); done|].
  eapply rtc_l; [apply (cs_build _ _ _ _ _ _ _ 1 demo_node1); done|].
  eapply rtc_l; [apply (cs_join _ _ _ _ _ _ _ 2); done|].
  apply rtc_once. apply (cs_install _ _ _ _ _ _ _ 2 1 demo_sm demo_node1' demo_snapshot); done.
Qed.

Lemma replicas_agree_witness :
  rtc (cstep pretty demo_new None encode_ledger decode_ledger demo_log) ∅ demo_nodes ∧
  read_run demo_node1' "run" = Some (mkCRun 1000 400 0 1 None) ∧
  read_run demo_node1' "run" = read_run demo_node2 "run".
Proof.
  split; [apply demo_nodes_reachable|]. split; [vm_compute; reflexivity|].
  assert (NoDup (log_id <$> demo_log)) as Hnd by (apply (bool_decide_unpack _); vm_compute; exact I).
  exact (proj2 (proj2 (replicas_agree pretty demo_new None encode_ledger decode_ledger
           decode_encode_ledger demo_log demo_nodes 1 2 demo_node1' demo_node2 Hnd
           demo_nodes_reachable eq_refl eq_refl) (or_intror eq_refl)) "run").
Defined.

Definition demo_books : Books :=
  mkBooks (ledger demo_node1) [mkReservation "run" 400 1] 0.

Lemma demo_booked : bookings no_books (requests demo_log) demo_books.
Proof.
  eapply bookings_cons; [apply booked_open; [mach|constructor]|].
  eapply bookings_cons; [|constructor].
  apply (booked_reserve _ [] 0 "run" 400 (ledger demo_node1) (mkResponse true 0 400 1000 1 None ""));
    [done|lia|].
  intros k s Hk Hs. change (Ledger.chain _ _) with ["run"] in Hk.
  apply list_elem_of_singleton in Hk as ->. vm_compute in Hs. injection Hs as <-.
  by vm_compute.
Qed.

Lemma replicas_within_budget_witness :
  ∃ books s, read_run demo_node2 "run" = Some s ∧ b_ledger books = ledger demo_node2 ∧
    reserved_micros s = 400 ∧ spent_micros s + reserved_micros s ≤ budget_micros s + b_over books.
Proof.
  assert (NoDup (log_id <$> demo_log)) as Hnd by (apply (bool_decide_unpack _); vm_compute; exact I).
  destruct (replicas_within_budget pretty demo_new None encode_ledger decode_ledger
    decode_encode_ledger demo_log demo_nodes 2 demo_node2 demo_books Hnd demo_nodes_reachable
    eq_refl demo_booked) as (pre & post & books & _ & _ & _ & Hl & Hb).
  assert (read_run demo_node2 "run" = Some (mkCRun 1000 400 0 1 None)) as Hs by by vm_compute.
  exists books, (mkCRun 1000 400 0 1 None). destruct (Hb _ _ Hs) as (_ & Hle & _).
  by split_and!.
Defined.
