(* ===== verification/RedbStore.v ===== *)
(** * The durable raft storage

    [crates/cluster/src/redbstore.rs].  A redb file is its tables; a write transaction
    replaces them at once when its commit succeeds and leaves them alone when it does
    not, and whether it succeeds is an input of each operation (redb's documented
    atomicity).  Serialized forms are parameters with their round trips.  The theorems:
    the log tables represent the in-memory log store of [RaftStore] operation by
    operation, and a node that crashes anywhere reopens at a prefix of the log that
    includes everything it acknowledged. *)

From S2P Require Import Prelude Money Ledger Strings Cluster RaftStore.

(** A storage error, by the helper that builds it. *)
(* @src redbstore.rs 43-57 wl *)
Inductive StorageError := write_logs | read_logs | write_vote | write_state_machine | read_state_machine.

(* @src redbstore.rs 37-39 LOG *)
Record Database := mkDatabase {
  LOG : gmap Z string;
  META : gmap string string;
  SM : gmap string string
}.

(** [w.commit()]: the transaction's tables, or an error. *)
Definition commit {A} (ok : bool) (e : StorageError) (db : Database) (new : Database) (a : A)
  : Database * result A StorageError :=
  if ok then (new, Ok a) else (db, Err e).

Section redb.
Context {Leader Vote Membership StoredMembership : Type}.
Context (show_leader : Leader → string).
Context (new_membership : option (Leader * Z) → Membership → StoredMembership).
Context (no_membership : StoredMembership).
Context (to_vec : LedgerState → string) (from_slice : string → option LedgerState).

Abbreviation LogId := (Leader * Z)%type.
Abbreviation Entry := (@RaftStore.Entry Leader Membership).
Abbreviation LogInner := (@RaftStore.LogInner Leader Vote Membership).
Abbreviation StoredSnapshot := (@RaftStore.StoredSnapshot Leader StoredMembership).

(** [serde_json] on entries, votes, optional ids (an id reads back what a present
    optional id wrote), the applied state and snapshots. *)
Context (entry_to : Entry → string) (entry_from : string → option Entry).
Context (vote_to : Vote → string) (vote_from : string → option Vote).
Context (oid_to : option LogId → string) (oid_from : string → option (option LogId)).
Context (id_from : string → option LogId).

(* @src redbstore.rs 248-253 SmPersist *)
Record SmPersist := mkSmPersist {
  p_last_applied : option LogId;
  p_last_membership : StoredMembership;
  p_ledger : LedgerState
}.
Definition default_persist : SmPersist := mkSmPersist None no_membership (mkLedgerState ∅).

Context (persist_to : SmPersist → string) (persist_from : string → option SmPersist).
Context (snap_to : StoredSnapshot → string) (snap_from : string → option StoredSnapshot).

(** ** The log store *)

(** The transaction that creates the two tables. *)
(* @src redbstore.rs RedbLogStore::new *)
Definition new_log (db : Database) (ok : bool) : Database * result unit StorageError :=
  commit ok write_logs db db tt.

(* @src redbstore.rs RedbLogStore::get_meta *)
Definition get_meta {T} (from : string → option T) (db : Database) (key : string)
  : result (option T) StorageError :=
  match META db !! key with
  | Some v => match from v with Some t => Ok (Some t) | None => Err read_logs end
  | None => Ok None
  end.

(* @src redbstore.rs RedbLogStore::put_meta *)
Definition put_meta {T} (to : T → string) (db : Database) (key : string) (val : T) (ok : bool)
  : Database * result unit StorageError :=
  commit ok write_vote db (mkDatabase (LOG db) (<[key := to val]> (META db)) (SM db)) tt.

(** [serde_json::from_slice] on every item, or the first failure. *)
Fixpoint parse_all {T} (from : string → option T) (l : list string) : option (list T) :=
  match l with
  | [] => Some []
  | v :: l => x ← from v; xs ← parse_all from l; Some (x :: xs)
  end.

(* @src redbstore.rs RedbLogStore::try_get_log_entries *)
Definition try_get_log_entries (db : Database) (lo hi : Bound)
  : result (list Entry) StorageError :=
  let start := match lo with
               | Included x => x | Excluded x => u64_wrap (x + 1) | Unbounded => 0 end in
  let end_ := match hi with
              | Included x => u64_wrap (x + 1) | Excluded x => x | Unbounded => u64_max end in
  match parse_all entry_from
    (snd <$> filter (λ p, ((start <=? p.1) && (p.1 <? end_)) = true) (index_list (LOG db))) with
  | Some out => Ok out
  | None => Err read_logs
  end.

(* @src redbstore.rs RedbLogStore::get_log_state *)
Definition get_log_state (db : Database) : result (option LogId * option LogId) StorageError :=
  match get_meta id_from db "purged" with
  | Err e => Err e
  | Ok last_purged =>
      match last (index_list (LOG db)) with
      | Some (_, v) =>
          match entry_from v with
          | Some e => Ok (last_purged, Some (log_id e))
          | None => Err read_logs
          end
      | None => Ok (last_purged, last_purged)
      end
  end.

(* @src redbstore.rs RedbLogStore::save_vote *)
Definition save_vote (db : Database) (v : Vote) (ok : bool) := put_meta vote_to db "vote" v ok.
(* @src redbstore.rs RedbLogStore::read_vote *)
Definition read_vote (db : Database) := get_meta vote_from db "vote".
(* @src redbstore.rs RedbLogStore::save_committed *)
Definition save_committed (db : Database) (c : option LogId) (ok : bool) :=
  put_meta oid_to db "committed" c ok.
(* @src redbstore.rs RedbLogStore::read_committed *)
Definition read_committed (db : Database) : result (option LogId) StorageError :=
  match get_meta oid_from db "committed" with
  | Ok c => Ok (mjoin c)
  | Err e => Err e
  end.

(* @src redbstore.rs RedbLogStore::append *)
Definition append (db : Database) (entries : list Entry) (ok : bool) :=
  commit ok write_logs db
    (mkDatabase (foldl (λ m e, <[(log_id e).2 := entry_to e]> m) (LOG db) entries)
       (META db) (SM db)) tt.

(* @src redbstore.rs RedbLogStore::truncate *)
Definition truncate (db : Database) (id : LogId) (ok : bool) :=
  commit ok write_logs db
    (mkDatabase (remove_range (above (Included id.2)) (LOG db)) (META db) (SM db)) tt.

(** Two transactions: the purge mark, then the removal. *)
(* @src redbstore.rs RedbLogStore::purge *)
Definition purge (db : Database) (id : LogId) (ok1 ok2 : bool)
  : Database * result unit StorageError :=
  match put_meta oid_to db "purged" (Some id) ok1 with
  | (db, Err e) => (db, Err e)
  | (db, Ok _) =>
      commit ok2 write_logs db
        (mkDatabase (remove_range (below (Included id.2)) (LOG db)) (META db) (SM db)) tt
  end.

(** ** The state-machine store *)

(* @src redbstore.rs 261-265 SmMem *)
Record SmMem := mkSmMem {
  persist : SmPersist;
  snapshot : option StoredSnapshot;
  m_snapshot_idx : Z
}.

(** The state and the snapshot of the file. *)
(* @src redbstore.rs 281-303 RedbStateMachineStore::new *)
Definition load (db : Database) : result SmMem StorageError :=
  match (match SM db !! "state" with
         | Some v => persist_from v | None => Some default_persist end) with
  | None => Err read_state_machine
  | Some p =>
      match (match SM db !! "snapshot" with
             | Some v => Some <$> snap_from v | None => Some None end) with
      | None => Err read_state_machine
      | Some s => Ok (mkSmMem p s 0)
      end
  end.

(** A first transaction creates the table, and may fail; a table that is empty and one that
    is not there yet read the same. *)
(* @src redbstore.rs RedbStateMachineStore::new *)
Definition new (db : Database) (ok : bool) : Database * result SmMem StorageError :=
  match commit ok write_state_machine db db tt with
  | (db, Ok _) => (db, load db)
  | (db, Err e) => (db, Err e)
  end.

Definition put_sm (db : Database) (key bytes : string) (ok : bool) :=
  commit ok write_state_machine db
    (mkDatabase (LOG db) (META db) (<[key := bytes]> (SM db))) tt.

(* @src redbstore.rs RedbStateMachineStore::persist_state *)
Definition persist_state (db : Database) (p : SmPersist) (ok : bool) :=
  put_sm db "state" (persist_to p) ok.
(* @src redbstore.rs RedbStateMachineStore::persist_snapshot *)
Definition persist_snapshot (db : Database) (s : StoredSnapshot) (ok : bool) :=
  put_sm db "snapshot" (snap_to s) ok.

(* @src redbstore.rs 331-333 RedbStateMachineStore::read_run *)
Definition read_run (m : SmMem) (run : string) : option CRun := cruns (p_ledger (persist m)) !! run.
(* @src redbstore.rs 334-344 RedbStateMachineStore::list_runs *)
Definition list_runs (m : SmMem) : list (string * CRun) := btree_list (cruns (p_ledger (persist m))).

(* @src redbstore.rs 402-415 RedbStateMachineStore::apply *)
Definition apply_entry (p : SmPersist) (e : Entry) : SmPersist * Response :=
  match payload e with
  | Blank => (mkSmPersist (Some (log_id e)) (p_last_membership p) (p_ledger p), default_response)
  | Normal req =>
      let '(l, resp) := LedgerState.apply (p_ledger p) req in
      (mkSmPersist (Some (log_id e)) (p_last_membership p) l, resp)
  | Member m =>
      (mkSmPersist (Some (log_id e)) (new_membership (Some (log_id e)) m) (p_ledger p),
       default_response)
  end.
Fixpoint apply_entries (p : SmPersist) (es : list Entry) : SmPersist * list Response :=
  match es with
  | [] => (p, [])
  | e :: es =>
      let '(p, r) := apply_entry p e in
      let '(p, rs) := apply_entries p es in (p, r :: rs)
  end.

(** The memory advances before the write that may fail. *)
(* @src redbstore.rs RedbStateMachineStore::apply *)
Definition apply (db : Database) (m : SmMem) (entries : list Entry) (ok : bool)
  : Database * SmMem * result (list Response) StorageError :=
  let '(p, responses) := apply_entries (persist m) entries in
  let m := mkSmMem p (snapshot m) (m_snapshot_idx m) in
  match persist_state db p ok with
  | (db, Ok _) => (db, m, Ok responses)
  | (db, Err e) => (db, m, Err e)
  end.

(* @src redbstore.rs RedbStateMachineStore::build_snapshot *)
Definition build_snapshot (db : Database) (m : SmMem) (ok : bool)
  : Database * SmMem * result StoredSnapshot StorageError :=
  let p := persist m in
  let idx := u64_wrap (m_snapshot_idx m + 1) in
  let snapshot_id := match p_last_applied p with
                     | Some (l, i) => show_leader l +:+ "-" +:+ pretty i +:+ "-" +:+ pretty idx
                     | None => "--" +:+ pretty idx
                     end in
  let stored := mkStoredSnapshot (p_last_applied p) (p_last_membership p) snapshot_id
                  (to_vec (p_ledger p)) in
  match persist_snapshot db stored ok with
  | (db, Err e) => (db, mkSmMem p (snapshot m) idx, Err e)
  | (db, Ok _) => (db, mkSmMem p (Some stored) idx, Ok stored)
  end.

(* @src redbstore.rs RedbStateMachineStore::applied_state *)
Definition applied_state (m : SmMem) : option LogId * StoredMembership :=
  (p_last_applied (persist m), p_last_membership (persist m)).

(* @src redbstore.rs RedbStateMachineStore::install_snapshot *)
Definition install_snapshot (db : Database) (m : SmMem) (s : StoredSnapshot) (ok1 ok2 : bool)
  : Database * SmMem * result unit StorageError :=
  match from_slice (data s) with
  | None => (db, m, Err write_state_machine)
  | Some l =>
      let p := mkSmPersist (meta_last s) (meta_membership s) l in
      let m := mkSmMem p (snapshot m) (m_snapshot_idx m) in
      match persist_state db p ok1 with
      | (db, Err e) => (db, m, Err e)
      | (db, Ok _) =>
          match persist_snapshot db s ok2 with
          | (db, Err e) => (db, m, Err e)
          | (db, Ok _) => (db, mkSmMem p (Some s) (m_snapshot_idx m), Ok tt)
          end
      end
  end.

(* @src redbstore.rs RedbStateMachineStore::get_current_snapshot *)
Definition get_current_snapshot (m : SmMem) : option StoredSnapshot := snapshot m.

(** ** The log tables represent the in-memory log store *)

Context (entry_rt : ∀ e, entry_from (entry_to e) = Some e).
Context (vote_rt : ∀ v, vote_from (vote_to v) = Some v).
Context (oid_rt : ∀ c, oid_from (oid_to c) = Some c).
Context (id_rt : ∀ i, id_from (oid_to (Some i)) = Some i).

Record repr (db : Database) (st : LogInner) : Prop := {
  repr_log : LOG db = entry_to <$> log st;
  repr_vote : META db !! "vote" = vote_to <$> vote st;
  repr_committed : META db !! "committed" = Some (oid_to (li_committed st))
                   ∨ META db !! "committed" = None ∧ li_committed st = None;
  repr_purged : META db !! "purged" = (λ i, oid_to (Some i)) <$> last_purged st
}.

(** The stored indices leave room for an exclusive end. *)
Definition index_ok (st : LogInner) : Prop :=
  ∀ k, is_Some (log st !! k) → 0 ≤ k < u64_max.
Definition bound_ok (b : Bound) : Prop :=
  match b with Included x | Excluded x => 0 ≤ x < u64_max | Unbounded => True end.

Lemma index_list_fmap {A B} (f : A → B) (m : gmap Z A) :
  index_list (f <$> m) = prod_map id f <$> index_list m.
Proof.
  unfold index_list. rewrite map_to_list_fmap.
  induction (map_to_list m) as [|p l IH]; [done|]. cbn [fmap list_fmap sort_by foldr] in *.
  unfold sort_by in *. rewrite IH. generalize (foldr (insert_by (λ p q, p.1 <=? q.1)) [] l) as k.
  induction k as [|q k IHk]; [done|]. simpl. destruct (p.1 <=? q.1); [done|].
  simpl. f_equal. exact IHk.
Qed.

Lemma remove_range_fmap {A B} (f : A → B) g (m : gmap Z A) :
  remove_range g (f <$> m) = f <$> remove_range g m.
Proof.
  apply map_eq. intros k. rewrite lookup_fmap, !remove_range_lookup, lookup_fmap.
  by destruct (g k).
Qed.

Lemma append_fmap (es : list Entry) (m : gmap Z Entry) :
  foldl (λ m e, <[(log_id e).2 := entry_to e]> m) (entry_to <$> m) es
  = entry_to <$> foldl (λ m e, <[(log_id e).2 := e]> m) m es.
Proof.
  revert m. induction es as [|e es IH]; intros m; [done|]. cbn [foldl].
  by rewrite <-IH, fmap_insert.
Qed.

Lemma parse_all_to (l : list Entry) : parse_all entry_from (entry_to <$> l) = Some l.
Proof. induction l as [|e l IH]; csimpl; [done|]. rewrite entry_rt. simpl. by rewrite IH. Qed.

Lemma filter_prod_map {A B} (f : A → B) (g : Z → bool) (l : list (Z * A)) :
  snd <$> filter (λ p, g p.1 = true) (prod_map id f <$> l)
  = f <$> (snd <$> filter (λ p, g p.1 = true) l).
Proof.
  induction l as [|[k x] l IH]; [done|]. rewrite !fmap_cons. cbn [prod_map fst snd].
  destruct (g k) eqn:E.
  - rewrite !filter_cons_True by done. rewrite !fmap_cons, IH. done.
  - rewrite !filter_cons_False by (simpl; congruence). exact IH.
Qed.

Lemma filter_ext_in {A} (f g : A → bool) (l : list A) :
  (∀ x, x ∈ l → f x = g x) → filter (λ x, f x = true) l = filter (λ x, g x = true) l.
Proof.
  induction l as [|x l IH]; intros H; [done|]. rewrite !filter_cons, (H x) by set_solver.
  rewrite IH by set_solver. done.
Qed.

Lemma redb_get_log_state db st :
  repr db st → get_log_state db = Ok (RaftStore.get_log_state st).
Proof.
  intros [Hl _ _ Hp]. unfold get_log_state, get_meta, RaftStore.get_log_state.
  rewrite Hp, Hl, index_list_fmap, fmap_last.
  destruct (last_purged st) as [i|]; simpl; rewrite ?id_rt;
    (destruct (last (index_list (log st))) as [[k e]|]; simpl; [by rewrite entry_rt|done]).
Qed.

Lemma redb_try_get db st lo hi :
  repr db st → index_ok st → bound_ok lo → bound_ok hi →
  try_get_log_entries db lo hi = Ok (RaftStore.try_get_log_entries st lo hi).
Proof.
  intros [Hl _ _ _] Hi Hlo Hhi. unfold try_get_log_entries, RaftStore.try_get_log_entries.
  rewrite Hl, index_list_fmap.
  set (start := match lo with Included x => x | Excluded x => _ | Unbounded => 0 end).
  set (end_ := match hi with Included x => _ | Excluded x => x | Unbounded => u64_max end).
  rewrite (filter_prod_map entry_to (λ k, (start <=? k) && (k <? end_))), parse_all_to.
  f_equal. f_equal. apply filter_ext_in. intros [k e] Hk%index_list_elem. simpl.
  assert (0 ≤ k < u64_max) as Hb by (apply Hi; eauto).
  apply eq_true_iff_eq. rewrite !andb_true_iff. unfold start, end_, bound_ok in *.
  assert (∀ x, 0 ≤ x < u64_max → u64_wrap (x + 1) = x + 1) as Hw
    by (intros; apply u64_wrap_id; mach).
  destruct lo, hi; simpl; rewrite ?Hw by done; rewrite ?Z.leb_le, ?Z.ltb_lt; lia.
Qed.

Lemma repr_put db st key val :
  repr db st → key ≠ "vote" → key ≠ "committed" → key ≠ "purged" →
  repr (mkDatabase (LOG db) (<[key := val]> (META db)) (SM db)) st.
Proof. intros [? ? ? ?] ? ? ?. split; simpl; rewrite ?lookup_insert_ne by done; done. Qed.

(** The durable log store is the in-memory one.  A redb file that represents a log
    store answers every read as that store does, votes and commit marks included; after
    each write whose commit succeeds it represents the store after the same operation,
    and after one whose commit fails it still represents the store before.  A purge that
    fails between its two transactions leaves the purge mark without the removal. *)
Theorem redb_log_refines db st :
  repr db st →
  read_vote db = Ok (RaftStore.read_vote st) ∧
  read_committed db = Ok (RaftStore.read_committed st) ∧
  get_log_state db = Ok (RaftStore.get_log_state st) ∧
  (∀ lo hi, index_ok st → bound_ok lo → bound_ok hi →
     try_get_log_entries db lo hi = Ok (RaftStore.try_get_log_entries st lo hi)) ∧
  (∀ v, repr (save_vote db v true).1 (RaftStore.save_vote st v)) ∧
  (∀ c, repr (save_committed db c true).1 (RaftStore.save_committed st c)) ∧
  (∀ es, repr (append db es true).1 (RaftStore.append st es)) ∧
  (∀ id, repr (truncate db id true).1 (RaftStore.truncate st id)) ∧
  (∀ id, repr (purge db id true true).1 (RaftStore.purge st id)) ∧
  (∀ id, repr (purge db id true false).1
           (mkLogInner (vote st) (log st) (li_committed st) (Some id))) ∧
  (∀ v c es id ok2, save_vote db v false = (db, Err write_vote) ∧
     save_committed db c false = (db, Err write_vote) ∧
     append db es false = (db, Err write_logs) ∧
     truncate db id false = (db, Err write_logs) ∧
     purge db id false ok2 = (db, Err write_vote)).
Proof.
  intros Hr. pose proof Hr as [Hl Hv Hc Hp]. split_and!.
  - unfold read_vote, get_meta. rewrite Hv. unfold RaftStore.read_vote.
    destruct (vote st); simpl; [by rewrite vote_rt|done].
  - unfold read_committed, get_meta, RaftStore.read_committed.
    destruct Hc as [->|[-> ->]]; [by rewrite oid_rt|done].
  - by apply redb_get_log_state.
  - intros lo hi. by apply redb_try_get.
  - intros v. split; simpl; rewrite ?lookup_insert_eq, ?lookup_insert_ne by done; done.
  - intros c. split; simpl; rewrite ?lookup_insert_eq, ?lookup_insert_ne by done; auto.
  - intros es. split; simpl; try done. by rewrite Hl, append_fmap.
  - intros id. split; simpl; try done. by rewrite Hl, remove_range_fmap.
  - intros id. split; simpl; rewrite ?lookup_insert_eq, ?lookup_insert_ne by done; try done.
    by rewrite Hl, remove_range_fmap.
  - intros id. split; simpl; rewrite ?lookup_insert_eq, ?lookup_insert_ne by done; done.
  - done.
Qed.

(** ** Crashes and restarts *)

Context (persist_rt : ∀ p, persist_from (persist_to p) = Some p).
Context (snap_rt : ∀ s, snap_from (snap_to s) = Some s).

Abbreviation replay := (RaftStore.replay new_membership no_membership).

Definition pcore (p : SmPersist) : option LogId * StoredMembership * LedgerState :=
  (p_last_applied p, p_last_membership p, p_ledger p).

(** A node: its file, its memory while it runs, and the length of the longest prefix of
    the log it acknowledged. *)
Record Node := mkNode { ndb : Database; mem : option SmMem; acked : nat }.

Definition ack {A} (a n : nat) (r : result A StorageError) : nat :=
  match r with Ok _ => Nat.max a n | Err _ => a end.

(** openraft applies the entries that follow [last_applied] and installs snapshots that
    are not older than it.  Every commit may fail, and the node may stop at any time. *)
Inductive nstep (clog : list Entry) : Node → Node → Prop :=
| n_open db ok db' m a :
    new db ok = (db', Ok m) → nstep clog (mkNode db None a) (mkNode db' (Some m) a)
| n_crash db m a : nstep clog (mkNode db (Some m) a) (mkNode db None a)
| n_apply db m a pre es post ok db' m' r :
    clog = pre ++ es ++ post → p_last_applied (persist m) = log_id <$> last pre →
    apply db m es ok = (db', m', r) →
    nstep clog (mkNode db (Some m) a) (mkNode db' (Some m') (ack a (length (pre ++ es)) r))
| n_build db m a ok db' m' r :
    build_snapshot db m ok = (db', m', r) →
    nstep clog (mkNode db (Some m) a) (mkNode db' (Some m') a)
| n_install db m a s cur more post l ok1 ok2 db' m' r :
    clog = cur ++ more ++ post → p_last_applied (persist m) = log_id <$> last cur →
    from_slice (data s) = Some l →
    replay (cur ++ more) = (meta_last s, meta_membership s, l) →
    install_snapshot db m s ok1 ok2 = (db', m', r) →
    nstep clog (mkNode db (Some m) a) (mkNode db' (Some m') (ack a (length (cur ++ more)) r)).

Definition disk_at (db : Database) (d : list Entry) : Prop :=
  match SM db !! "state" with
  | None => d = []
  | Some v => ∃ p, v = persist_to p ∧ pcore p = replay d
  end.

Record ninv (clog : list Entry) (n : Node) : Prop := {
  ni_disk : ∃ d post, clog = d ++ post ∧ (acked n <= length d)%nat ∧ disk_at (ndb n) d ∧
    ∀ m, mem n = Some m → ∃ c rest, clog = c ++ rest ∧ pcore (persist m) = replay c ∧
                                    (length d <= length c)%nat;
  ni_snap v : SM (ndb n) !! "snapshot" = Some v → ∃ s, v = snap_to s
}.

Lemma pcore_core p sm es :
  pcore p = core sm → pcore (apply_entries p es).1 = core (RaftStore.apply new_membership sm es).1.
Proof.
  revert p sm. induction es as [|e es IH]; intros p sm H; simpl; [done|].
  assert (pcore (apply_entry p e).1 = core (RaftStore.apply_entry new_membership sm e).1) as He.
  { unfold pcore, core, apply_entry, RaftStore.apply_entry in *. injection H as Ha Hm Hl.
    rewrite Hm, Hl. destruct (payload e); simpl; [done| |done].
    by destruct (LedgerState.apply (ledger sm) req). }
  destruct (apply_entry p e) as [p1 r1], (RaftStore.apply_entry new_membership sm e) as [sm1 r2].
  specialize (IH p1 sm1 He).
  destruct (apply_entries p1 es), (RaftStore.apply new_membership sm1 es). done.
Qed.

Lemma pcore_replay p pre es :
  pcore p = replay pre → pcore (apply_entries p es).1 = replay (pre ++ es).
Proof.
  intros H. unfold RaftStore.replay in *. rewrite apply_app. by apply pcore_core.
Qed.

Lemma pcore_last p pre : pcore p = replay pre → p_last_applied p = log_id <$> last pre.
Proof. intros H. rewrite <-(replay_last new_membership no_membership), <-H. done. Qed.

(** What opening a file does, whether the first transaction commits or not. *)
Definition opens (db : Database) (m : SmMem) : Prop :=
  ∀ ok, new db ok = (db, if ok : bool then Ok m else Err write_state_machine).

Lemma opens_of_load db m : load db = Ok m → opens db m.
Proof. intros H []; unfold new, commit; by rewrite ?H. Qed.

(** The file opens at its state. *)
Lemma new_ok db d :
  disk_at db d → (∀ v, SM db !! "snapshot" = Some v → ∃ s, v = snap_to s) →
  ∃ m, opens db m ∧ pcore (persist m) = replay d.
Proof.
  intros Hd Hs. enough (∃ m, load db = Ok m ∧ pcore (persist m) = replay d) as (m & Hm & Hc)
    by (exists m; split; [by apply opens_of_load|done]).
  revert Hd Hs. unfold disk_at, load. intros Hd Hs.
  assert (∃ o, match SM db !! "snapshot" with
               | Some v => Some <$> snap_from v | None => Some None end = Some o) as [o Ho].
  { destruct (SM db !! "snapshot") as [v|]; [|by eexists].
    destruct (Hs v eq_refl) as [s ->]. rewrite snap_rt. by eexists. }
  destruct (SM db !! "state") as [v|].
  - destruct Hd as (p & -> & Hp). rewrite persist_rt, Ho. eexists. split; [done|exact Hp].
  - subst d. rewrite Ho. eexists. split; done.
Qed.

Lemma put_state db p ok d c :
  disk_at db d → pcore p = replay c →
  match persist_state db p ok with
  | (db', Ok _) => ok = true ∧ disk_at db' c ∧ SM db' !! "snapshot" = SM db !! "snapshot"
  | (db', Err _) => ok = false ∧ db' = db
  end.
Proof.
  intros Hd Hp. destruct ok; simpl; [|done]. split; [done|]. unfold disk_at. simpl.
  rewrite lookup_insert_eq, lookup_insert_ne by done. split; [by exists p|done].
Qed.

Lemma put_snap db s ok d :
  disk_at db d → (∀ v, SM db !! "snapshot" = Some v → ∃ s, v = snap_to s) →
  let db' := (persist_snapshot db s ok).1 in
  disk_at db' d ∧ (∀ v, SM db' !! "snapshot" = Some v → ∃ s, v = snap_to s).
Proof.
  intros Hd Hs. destruct ok; simpl; [|done]. unfold disk_at. simpl.
  rewrite lookup_insert_ne, lookup_insert_eq by done. split; [exact Hd|].
  intros v [= <-]. by eexists.
Qed.

(** The running memory is at the prefix it reports. *)
Lemma mem_prefix clog db m a pre post :
  NoDup (log_id <$> clog) → ninv clog (mkNode db (Some m) a) →
  clog = pre ++ post → p_last_applied (persist m) = log_id <$> last pre →
  pcore (persist m) = replay pre ∧
  ∃ d rest, clog = d ++ rest ∧ (a <= length d)%nat ∧ disk_at db d ∧ (length d <= length pre)%nat.
Proof.
  intros Hnd [(d & rest & Hd & Ha & Hdisk & Hm) _] Hpre Hlast. simpl in *.
  destruct (Hm m eq_refl) as (c & rest' & Hc & Hcore & Hlen).
  assert (c = pre) as ->; [|split; [done|by exists d, rest]].
  apply (prefix_by_last clog c pre rest' post); [done..|].
  by rewrite <-(pcore_last _ _ Hcore).
Qed.

(** Writing the state of a longer prefix, acknowledged or not. *)
Lemma ninv_write {A} clog db m a pre es post ok (r : result A StorageError) db' p s idx :
  clog = pre ++ es ++ post →
  (∃ d rest, clog = d ++ rest ∧ (a <= length d)%nat ∧ disk_at db d ∧
             (length d <= length pre)%nat) →
  (∀ v, SM db !! "snapshot" = Some v → ∃ s, v = snap_to s) →
  pcore p = replay (pre ++ es) →
  persist_state db p ok = (db', match r with Ok _ => Ok tt | Err e => Err e end) →
  ninv clog (mkNode db' (Some (mkSmMem p (snapshot m) (m_snapshot_idx m)))
               (ack a (length (pre ++ es)) r)) ∧
  ninv clog (mkNode db' (Some (mkSmMem p s idx)) a).
Proof.
  intros Hlog (d & rest & Hd & Ha & Hdisk & Hlen) Hs Hp Hw.
  pose proof (put_state db p ok d (pre ++ es) Hdisk Hp) as Hput. rewrite Hw in Hput.
  destruct r as [x|e]; simpl in *.
  - destruct Hput as (_ & Hdisk' & Hsnap).
    assert ((a <= length (pre ++ es))%nat) by (rewrite length_app; lia).
    split; (split; [exists (pre ++ es), post|intros v; simpl; rewrite Hsnap; apply Hs]);
      rewrite <-app_assoc; (split; [done|]); (split; [simpl; lia|]); (split; [done|]);
      intros m' [= <-]; exists (pre ++ es), post; rewrite <-app_assoc; done.
  - destruct Hput as [_ ->].
    split; (split; [exists d, rest|done]); (split; [done|]); (split; [done|]);
      (split; [done|]); intros m' [= <-]; exists (pre ++ es), post;
      rewrite <-app_assoc, length_app; (split; [done|]); (split; [done|lia]).
Qed.

Lemma ninv_step clog n n' : NoDup (log_id <$> clog) → ninv clog n → nstep clog n n' → ninv clog n'.
Proof.
  intros Hnd Hinv Hstep.
  destruct Hstep as [db ok db' m a Hn|db m a|db m a pre es post ok db' m' r Hlog Hlast Hap
                    |db m a ok db' m' r Hb
                    |db m a s cur more post l ok1 ok2 db' m' r Hlog Hlast Hl Hrep Hin].
  - destruct Hinv as [(d & rest & Hd & Ha & Hdisk & _) Hs]. simpl in *.
    destruct (new_ok db d Hdisk Hs) as (m1 & Hm1 & Hc). rewrite Hm1 in Hn.
    destruct ok; [|done]. injection Hn as <- <-.
    split; [|done]. exists d, rest. simpl. do 3 (split; [done|]).
    intros m' [= <-]. by exists d, rest.
  - destruct Hinv as [(d & rest & Hd & Ha & Hdisk & _) Hs]. split; [|done].
    exists d, rest. simpl in *. done.
  - destruct (mem_prefix clog db m a pre (es ++ post) Hnd Hinv Hlog Hlast) as [Hc Hd].
    pose proof (pcore_replay (persist m) pre es Hc) as Hp. unfold apply in Hap.
    destruct (apply_entries (persist m) es) as [p rs]. simpl in Hp.
    pose proof (ni_snap _ _ Hinv) as Hs. simpl in Hs.
    destruct (persist_state db p ok) as [db1 [[]|e]] eqn:Hw; injection Hap as <- <- <-;
      by apply (ninv_write clog db m a pre es post ok _ db1 p None 0).
  - pose proof Hinv as [(d & rest & Hd & Ha & Hdisk & Hm) Hs]. simpl in *.
    destruct (Hm m eq_refl) as (c & rest' & Hc & Hcore & Hlen).
    unfold build_snapshot in Hb.
    match type of Hb with context [persist_snapshot db ?st ok] =>
      destruct (put_snap db st ok d Hdisk Hs) as [Hd' Hs'];
      destruct (persist_snapshot db st ok) as [db1 [[]|e]] end; simpl in *;
      injection Hb as <- <- <-; (split; [|done]); exists d, rest; simpl;
      do 3 (split; [done|]); intros m' [= <-]; by exists c, rest'.
  - destruct (mem_prefix clog db m a cur (more ++ post) Hnd Hinv Hlog Hlast) as [Hc Hd].
    pose proof (ni_snap _ _ Hinv) as Hs. simpl in Hs. unfold install_snapshot in Hin.
    rewrite Hl in Hin.
    set (p := mkSmPersist (meta_last s) (meta_membership s) l) in *.
    assert (pcore p = replay (cur ++ more)) as Hp by done.
    destruct (persist_state db p ok1) as [db1 [[]|e]] eqn:Hw.
    + destruct (ninv_write (A := unit) clog db m a cur more post ok1 (Ok tt) db1 p (Some s)
                  (m_snapshot_idx m)) as [H1 H2]; [done..|].
      destruct ok2; injection Hin as <- <- <-.
      * split; [|intros v; simpl; rewrite lookup_insert_eq; intros [= <-]; by eexists].
        destruct H1 as [(d1 & r1 & E1 & E2 & E3 & E4) _].
        exists d1, r1. do 2 (split; [done|]). split.
        { unfold disk_at in *. simpl in *. by rewrite lookup_insert_ne. }
        intros m' [= <-]. apply (E4 _ eq_refl).
      * split; [|exact (ni_snap _ _ H2)].
        destruct H2 as [(d1 & r1 & E1 & E2 & E3 & E4) _]. exists d1, r1.
        do 3 (split; [done|]). intros m' [= <-]. apply (E4 _ eq_refl).
    + injection Hin as <- <- <-.
      by apply (ninv_write (A := unit) clog db m a cur more post ok1 (Err e) db1 p None 0).
Qed.

Definition fresh_node : Node := mkNode (mkDatabase ∅ ∅ ∅) None 0.

Lemma ninv_fresh clog : ninv clog fresh_node.
Proof. split; [|done]. exists [], clog. simpl. done. Qed.

Lemma recovered clog n :
  NoDup (log_id <$> clog) → rtc (nstep clog) fresh_node n →
  ∃ m d rest, opens (ndb n) m ∧ clog = d ++ rest ∧ (acked n <= length d)%nat ∧
    pcore (persist m) = replay d ∧
    ∀ m', mem n = Some m' →
      ∃ c rest', clog = c ++ rest' ∧ pcore (persist m') = replay c ∧
                 (length d <= length c)%nat.
Proof.
  intros Hnd Hrtc. assert (ninv clog n) as Hinv.
  { apply (rtc_preserves (nstep clog) (ninv clog) fresh_node);
      [intros a b Ha Hb; by apply (ninv_step clog a b)|apply ninv_fresh|done]. }
  destruct Hinv as [(d & rest & Hd & Ha & Hdisk & Hm) Hs].
  destruct (new_ok _ _ Hdisk Hs) as (m & Hnew & Hc). by exists m, d, rest.
Qed.

(** C32: durability.  Whatever the node applied, snapshotted or installed, whichever
    commits failed and wherever it crashed, its file opens whenever the transaction of the
    opening commits (and is left alone when that fails), at the replay of a
    prefix of the committed log that contains everything the node ever acknowledged; and
    a running node reads the replay of the prefix it reports, at or ahead of the file. *)
Theorem durable_recovery clog n :
  NoDup (log_id <$> clog) → rtc (nstep clog) fresh_node n →
  ∃ m d rest, opens (ndb n) m ∧ clog = d ++ rest ∧ (acked n <= length d)%nat ∧
    pcore (persist m) = replay d ∧ (applied_state m).1 = log_id <$> last d ∧
    ∀ m', mem n = Some m' →
      ∃ c rest', clog = c ++ rest' ∧ pcore (persist m') = replay c ∧
                 (length d <= length c)%nat.
Proof.
  intros Hnd Hrtc. destruct (recovered clog n Hnd Hrtc) as (m & d & rest & Hnew & Hd & Ha & Hc & Hm).
  exists m, d, rest. do 4 (split; [done|]). split; [|done]. by apply pcore_last.
Qed.

(** A node that comes back from a crash is within the budgets of the log it kept. *)
Lemma recovered_within_budget clog n b :
  NoDup (log_id <$> clog) → rtc (nstep clog) fresh_node n →
  bookings no_books (requests clog) b →
  ∃ m d rest books, opens (ndb n) m ∧ clog = d ++ rest ∧ (acked n <= length d)%nat ∧
    bookings no_books (requests d) books ∧ b_ledger books = (pcore (persist m)).2 ∧
    within_budget books.
Proof.
  intros Hnd Hrtc Hb. destruct (recovered clog n Hnd Hrtc) as (m & d & rest & Hnew & -> & Ha & Hc & _).
  destruct (prefix_books new_membership no_membership _ _ _ Hb) as (books & Hbk & Hl & Hw).
  exists m, d, rest, books. rewrite Hc. by split_and!.
Qed.
End redb.

(** ** One node with a file *)

#[export] Instance Payload_eq_dec : EqDecision (@EntryPayload unit).
Proof. solve_decision. Defined.
#[export] Instance Payload_countable : Countable (@EntryPayload unit).
Proof.
  refine (inj_countable'
    (λ p, match p with Blank => inl tt | Normal r => inr (inl r) | Member m => inr (inr m) end)
    (λ x, match x with inl _ => Blank | inr (inl r) => Normal r | inr (inr m) => Member m end) _).
  by intros [].
Defined.
#[export] Instance Entry_eq_dec : EqDecision (@Entry Z unit).
Proof. solve_decision. Defined.
#[export] Instance Entry_countable : Countable (@Entry Z unit).
Proof. refine (inj_countable' (λ e, (log_id e, payload e)) (λ '(i, p), mkEntry i p) _). by intros []. Defined.

Abbreviation demo_persist := (@SmPersist Z (option (Z * Z))).
Abbreviation demo_snap := (@StoredSnapshot Z (option (Z * Z))).

#[export] Instance persist_eq_dec : EqDecision demo_persist.
Proof. solve_decision. Defined.
#[export] Instance persist_countable : Countable demo_persist.
Proof.
  refine (inj_countable' (λ p, (p_last_applied p, p_last_membership p, p_ledger p))
            (λ '(a, m, l), mkSmPersist a m l) _).
  by intros [].
Defined.
#[export] Instance snap_eq_dec : EqDecision demo_snap.
Proof. solve_decision. Defined.
#[export] Instance snap_countable : Countable demo_snap.
Proof.
  refine (inj_countable' (λ s, (meta_last s, meta_membership s, meta_id s, data s))
            (λ '(a, m, i, d), mkStoredSnapshot a m i d) _).
  by intros [].
Defined.

Definition demo_id_from (s : string) : option (Z * Z) := mjoin (dec s).

Lemma demo_id_rt (i : Z * Z) : demo_id_from (enc (Some i)) = Some i.
Proof. unfold demo_id_from. by rewrite dec_enc. Qed.

Lemma demo_repr :
  repr (Vote := unit) (Membership := unit) enc enc enc (mkDatabase ∅ ∅ ∅) (mkLogInner None ∅ None None).
Proof. split; simpl; [by rewrite fmap_empty|done|by right|done]. Qed.

Lemma redb_log_refines_witness :
  repr (Vote := unit) (Membership := unit) enc enc enc (mkDatabase ∅ ∅ ∅) (mkLogInner None ∅ None None) ∧
  repr enc enc enc (append enc (mkDatabase ∅ ∅ ∅) demo_log true).1 demo_store.
Proof.
  split; [exact demo_repr|].
  exact (proj1 (proj2 (proj2 (proj2 (proj2 (proj2 (proj2
    (redb_log_refines enc dec enc dec enc dec demo_id_from dec_enc dec_enc dec_enc demo_id_rt
       _ _ demo_repr))))))) demo_log).
Defined.

(** The node applies the log, fails to write a snapshot, and crashes. *)
Definition demo_mem0 : SmMem := mkSmMem (default_persist (Leader := Z) (None : option (Z * Z))) None 0.
Definition demo_db1 : Database :=
  (apply demo_new enc (mkDatabase ∅ ∅ ∅) demo_mem0 demo_log true).1.1.
Definition demo_mem1 : SmMem :=
  (apply demo_new enc (mkDatabase ∅ ∅ ∅) demo_mem0 demo_log true).1.2.
Definition demo_crashed : @Node Z (option (Z * Z)) := mkNode demo_db1 None 2.

Lemma demo_crash :
  rtc (nstep pretty demo_new None encode_ledger decode_ledger enc dec enc dec demo_log)
    fresh_node demo_crashed.
Proof.
  eapply rtc_l; [eapply (n_open _ _ _ _ _ _ _ _ _ _ _ true _ demo_mem0); done|].
  eapply rtc_l; [apply (n_apply _ _ _ _ _ _ _ _ _ _ _ demo_mem0 0 [] demo_log [] true demo_db1
                          demo_mem1 (Ok [mkResponse true 0 0 1000 0 None "";
                                         mkResponse true 0 400 1000 1 None ""])); done|].
  apply rtc_once. apply n_crash.
Qed.

Lemma durable_recovery_witness :
  rtc (nstep pretty demo_new None encode_ledger decode_ledger enc dec enc dec demo_log)
    fresh_node demo_crashed ∧
  (∃ m d rest, opens None dec dec demo_db1 m ∧ demo_log = d ++ rest ∧ (2 <= length d)%nat ∧
    pcore (persist m) = RaftStore.replay demo_new None d).
Proof.
  split; [exact demo_crash|].
  assert (NoDup (log_id <$> demo_log)) as Hnd by (apply (bool_decide_unpack _); vm_compute; exact I).
  destruct (durable_recovery pretty demo_new None encode_ledger decode_ledger enc dec enc dec
              dec_enc dec_enc demo_log demo_crashed Hnd demo_crash)
    as (m & d & rest & H1 & H2 & H3 & H4 & _).
  exists m, d, rest. exact (conj H1 (conj H2 (conj H3 H4))).
Defined.
