(* ===== verification/ClusterNode.v ===== *)
(** * The cluster's nodes

    [crates/cluster/src/server.rs], [net_http.rs], [lib.rs] and [main.rs]: the HTTP surface
    of a node, its token, the forwarding of writes and linearizable reads to the leader, and
    the flags of the binary.  [openraft] is a class: its calls act on a state of their own,
    which also stands for the time that passes.  Sockets, TLS and JSON are not modelled: a
    call arrives with its method, its arguments and its [Authorization] header. *)

From S2P Require Import Prelude Float Strings Ledger LedgerInv Cluster.

(* @src net_http.rs Peers *)
Abbreviation Peers := (gmap Z string) (only parsing).

(** ** The consensus library *)

(** [client_write] applied the request, named the leader it knows, or failed. *)
Inductive WriteOutcome :=
| Written (r : Response) | WriteForward (leader : option Z) (e : string) | WriteError (e : string).

(** [ensure_linearizable] likewise; [e] is the error's text. *)
Inductive LinOutcome :=
| Linear | LinForward (leader : option Z) (e : string) | LinError (e : string).

(** The calls of [Raft] and of the state machine, by the node they are made on. *)
Class Raft (W : Type) := {
  client_write : Z → Request → W → W * WriteOutcome;
  ensure_linearizable : Z → W → W * LinOutcome;
  read_run : Z → string → W → option CRun;
  initialize : Z → gmap Z string → W → W * result unit string;
  raft_add_learner : Z → Z → string → W → W * result unit string;
  raft_change_membership : Z → gset Z → W → W * result unit string;
  raft_metrics : Z → W → option Z * string;
  raft_rpc : Z → string → string → W → W * string
}.

(* @src cluster/server.rs HttpNode *)
Record HttpNode := mkNode { id_ : Z; peers : gmap Z string; token : option string }.

(** ** Requests *)

(** The endpoints with their arguments. *)
(* @src cluster/server.rs 227-243 router *)
Inductive Call :=
| Append (rpc : string) | Vote (rpc : string) | Snapshot (rpc : string)
| Init | InitSingle
| AddLearner (id : Z) (addr : string)
| ChangeMembership (voters : gset Z)
| Metrics
| Write (req : Request)
| Read (run : string)
| ReadLinear (run : string)
| Healthz.

(** The method and path a client sends. *)
(* @src cluster/server.rs 461-519 Client *)
Definition method_path (c : Call) : string * string :=
  match c with
  | Append _ => ("POST", "/raft/append")
  | Vote _ => ("POST", "/raft/vote")
  | Snapshot _ => ("POST", "/raft/snapshot")
  | Init => ("POST", "/mgmt/init")
  | InitSingle => ("POST", "/mgmt/init-single")
  | AddLearner _ _ => ("POST", "/mgmt/add-learner")
  | ChangeMembership _ => ("POST", "/mgmt/change-membership")
  | Metrics => ("GET", "/mgmt/metrics")
  | Write _ => ("POST", "/api/write")
  | Read run => ("GET", "/api/read/" +:+ run)
  | ReadLinear run => ("GET", "/api/read-linear/" +:+ run)
  | Healthz => ("GET", "/healthz")
  end.

(** A request as a client sends it: method, URL and [Authorization]. *)
(* @src cluster/server.rs Client::post *)
Definition client_request (base : string) (tok : option string) (c : Call)
  : string * string * option string :=
  ((method_path c).1, base +:+ (method_path c).2, (λ t, "Bearer " +:+ t) <$> tok).

(** [Authorization: Bearer <token>] of a client. *)
(* @src cluster/server.rs 447-448 Client::post *)
Definition bearer (tok : option string) : option string := (λ t, "Bearer " +:+ t) <$> tok.

(** The peer a replication task talks to: the replicated address, or the static one. *)
(* @src net_http.rs HttpNetwork::new_client *)
Definition new_client (static : Peers) (target : Z) (addr : string) : string :=
  if negb (is_empty_str addr) then addr else default "" (static !! target).

(** The URL and the header of a raft call, or the error for a peer without an address. *)
(* @src net_http.rs HttpConn::post *)
Definition conn_post (base : string) (tok : option string) (path : string)
  : result (string * option string) string :=
  if is_empty_str base then Err "no url for peer" else Ok (base +:+ path, bearer tok).

(* @src cluster/server.rs MetricsSummary *)
Record MetricsSummary := mkMetrics { m_id : Z; m_leader : option Z; m_state : string }.

Inductive Reply :=
| RRpc (body : string) | RUnit (r : result unit string) | RMetrics (m : MetricsSummary)
| RWrite (r : result Response string) | RRun (r : option CRun)
| RLinear (r : result (option CRun) string) | RText (s : string)
| Unauthorized.

(* @src cluster/server.rs require_auth *)
Definition require_auth (tok auth : option string) : bool :=
  match tok with
  | None => true
  | Some t => match auth with Some h => bool_decide (h = "Bearer " +:+ t) | None => false end
  end.

Section nodes.
Context {W : Type} `{Raft W}.

(** The nodes that can be reached, by the base URL they serve; the texts of a transport failure
    and of a body that is not the JSON asked for. *)
Context (listening : string → option HttpNode) (unreachable undecodable : string).

(* @src cluster/server.rs HttpNode::init *)
Definition init (n : HttpNode) (w : W) : W * result unit string := initialize (id_ n) (peers n) w.

(* @src cluster/server.rs HttpNode::init_single *)
Definition init_single (n : HttpNode) (w : W) : W * result unit string :=
  initialize (id_ n) {[id_ n := default "" (peers n !! id_ n)]} w.

(* @src cluster/server.rs HttpNode::add_learner *)
Definition add_learner (n : HttpNode) (id : Z) (addr : string) (w : W) : W * result unit string :=
  raft_add_learner (id_ n) id addr w.

(* @src cluster/server.rs HttpNode::change_membership *)
Definition change_membership (n : HttpNode) (voters : gset Z) (w : W) : W * result unit string :=
  raft_change_membership (id_ n) voters w.

(* @src cluster/server.rs m_metrics *)
Definition m_metrics (n : HttpNode) (w : W) : MetricsSummary :=
  let '(leader, state) := raft_metrics (id_ n) w in mkMetrics (id_ n) leader state.

(** A write on this node alone: it is not forwarded. *)
(* @src cluster/server.rs a_write *)
Definition a_write (n : HttpNode) (req : Request) (w : W) : W * result Response string :=
  match client_write (id_ n) req w with
  | (w, Written r) => (w, Ok r)
  | (w, WriteForward _ e) | (w, WriteError e) => (w, Err e)
  end.

Definition no_address (leader : Z) : string := "no address for leader " +:+ pretty leader.

(* @src cluster/server.rs HttpNode::submit *)
Definition submit (n : HttpNode) (req : Request) (w : W) : W * result Response string :=
  match client_write (id_ n) req w with
  | (w, Written r) => (w, Ok r)
  | (w, WriteError e) => (w, Err e)
  | (w, WriteForward None _) => (w, Err "no leader elected")
  | (w, WriteForward (Some leader) _) =>
      if bool_decide (leader = id_ n) then (w, Err "no leader elected")
      else match peers n !! leader with
           | None => (w, Err (no_address leader))
           | Some base =>
               match listening base with
               | None => (w, Err unreachable)
               | Some m => if require_auth (token m) (bearer (token n)) then a_write m req w
                           else (w, Err undecodable)
               end
           end
  end.

(** A linearizable read may be forwarded from node to node: [fuel] bounds the hops, and [None]
    is a read that is still on its way. *)
(* @src cluster/server.rs HttpNode::read_run_linearizable *)
Fixpoint read_linear (fuel : nat) (n : HttpNode) (run : string) (w : W)
  : W * option (result (option CRun) string) :=
  match fuel with
  | O => (w, None)
  | S fuel =>
      match ensure_linearizable (id_ n) w with
      | (w, Linear) => (w, Some (Ok (read_run (id_ n) run w)))
      | (w, LinError e) | (w, LinForward None e) => (w, Some (Err e))
      | (w, LinForward (Some leader) e) =>
          if bool_decide (leader = id_ n) then (w, Some (Err e))
          else match peers n !! leader with
               | None => (w, Some (Err (no_address leader)))
               | Some base =>
                   match listening base with
                   | None => (w, Some (Err unreachable))
                   | Some m => if require_auth (token m) (bearer (token n))
                               then read_linear fuel m run w else (w, Some (Err undecodable))
                   end
               end
      end
  end.

(** The handler behind each endpoint. *)
(* @src cluster/server.rs 336-420 r_append *)
Definition handle (fuel : nat) (n : HttpNode) (c : Call) (w : W) : W * option Reply :=
  let unit_ '(w, r) := (w, Some (RUnit r)) in
  match c with
  | Append b => let '(w, r) := raft_rpc (id_ n) "append" b w in (w, Some (RRpc r))
  | Vote b => let '(w, r) := raft_rpc (id_ n) "vote" b w in (w, Some (RRpc r))
  | Snapshot b => let '(w, r) := raft_rpc (id_ n) "snapshot" b w in (w, Some (RRpc r))
  | Init => unit_ (init n w)
  | InitSingle => unit_ (init_single n w)
  | AddLearner id addr => unit_ (add_learner n id addr w)
  | ChangeMembership voters => unit_ (change_membership n voters w)
  | Metrics => (w, Some (RMetrics (m_metrics n w)))
  | Write req => let '(w, r) := a_write n req w in (w, Some (RWrite r))
  | Read run => (w, Some (RRun (read_run (id_ n) run w)))
  | ReadLinear run => let '(w, r) := read_linear fuel n run w in (w, RLinear <$> r)
  | Healthz => (w, Some (RText "ok"))
  end.

(* @src cluster/server.rs router *)
Definition serve (fuel : nat) (n : HttpNode) (auth : option string) (c : Call) (w : W)
  : W * option Reply :=
  match c with
  | Healthz => handle fuel n c w
  | _ => if require_auth (token n) auth then handle fuel n c w else (w, Some Unauthorized)
  end.

(** ** The in-process cluster *)

Context (current_leader : Z → W → option Z).

(** The first node that knows a leader names it. *)
(* @src cluster/lib.rs Cluster::leader *)
Fixpoint leader (nodes : list Z) (w : W) : option Z :=
  match nodes with
  | [] => None
  | n :: nodes => match current_leader n w with Some l => Some l | None => leader nodes w end
  end.

(* @src cluster/lib.rs Cluster::node *)
Definition node (nodes : list Z) (id : Z) : option Z :=
  snd <$> list_find (λ n, n = id) nodes.

(* @src cluster/lib.rs Cluster::write *)
Definition cluster_write (nodes : list Z) (req : Request) (w : W) : W * result Response string :=
  match leader nodes w with
  | None => (w, Err "no leader elected")
  | Some l => match node nodes l with
              | None => (w, Err "leader not local")
              | Some n => match client_write n req w with
                          | (w, Written r) => (w, Ok r)
                          | (w, WriteForward _ e) | (w, WriteError e) => (w, Err e)
                          end
              end
  end.

(* @src cluster/lib.rs Cluster::member_ids *)
Definition member_ids (nodes : list Z) : gset Z := list_to_set nodes.
End nodes.

(** ** The flags of the binary *)

(* @src cluster/main.rs parse_flags *)
Fixpoint parse_flags_from (args : list string) (out : gmap string string) : gmap string string :=
  match args with
  | [] => out
  | a :: args =>
      match strip_prefix "--" a with
      | None => parse_flags_from args out
      | Some key =>
          match args with
          | [] => <[key := ""]> out
          | v :: args =>
              match strip_prefix "--" v with
              | None => parse_flags_from args (<[key := v]> out)
              | Some k2 => parse_flags_from args (<[k2 := ""]> (<[key := ""]> out))
              end
          end
      end
  end.
Definition parse_flags (args : list string) : gmap string string := parse_flags_from args ∅.

(* @src cluster/main.rs 69-75 parse_peers *)
Definition parse_peer (pair : string) : option (Z * string) :=
  match split_once "=" pair with
  | Some (id, url) => (λ id, (id, trim url)) <$> parse_unsigned u64_max (trim id)
  | None => None
  end.
(* @src cluster/main.rs parse_peers *)
Definition parse_peers (spec : string) : Peers :=
  foldl (λ m '(id, url), <[id := url]> m) ∅
    (omap parse_peer (filter (λ s, s ≠ "") (split_char "," spec))).

(** ** Correctness *)

Example peers_parsed :
  parse_peers "1=http://a:1, 2 = http://b:2,,x=http://c:3,1=http://d:4" =
  {[1 := "http://d:4"; 2 := "http://b:2"]}.
Proof. vm_compute. reflexivity. Qed.

(** A flag without a value that stands before another flag takes its value away. *)
Example boolean_flag_eats_value :
  parse_flags ["--init"; "--id"; "1"; "--http"; "127.0.0.1:5001"] !! "id" = Some "" ∧
  parse_flags ["--id"; "1"; "--http"; "127.0.0.1:5001"; "--init"] !! "id" = Some "1".
Proof. by vm_compute. Qed.

Section correct.
Context {W : Type} `{Raft W}.
Context (listening : string → option HttpNode) (unreachable undecodable : string).

Abbreviation serve := (serve listening unreachable undecodable).
Abbreviation submit := (submit listening unreachable undecodable).
Abbreviation read_linear := (read_linear listening unreachable undecodable).

(** A node with a token answers nobody without it. Whatever is asked but its health, without
    the exact bearer header the answer is a refusal and the cluster is not touched; with it the
    request is handled, and that is the header a client or peer with the same token sends. *)
Theorem token_guards n tok auth c w fuel :
  token n = Some tok → c ≠ Healthz →
  (auth ≠ bearer (Some tok) → serve fuel n auth c w = (w, Some Unauthorized)) ∧
  serve fuel n (bearer (Some tok)) c w = handle listening unreachable undecodable fuel n c w.
Proof.
  intros Ht Hc. assert (∀ a, require_auth (token n) a = bool_decide (a = bearer (Some tok))) as Ha.
  { intros a. unfold require_auth, bearer. rewrite Ht. cbn.
    destruct a as [h|]; [|by rewrite bool_decide_false]. apply bool_decide_ext. naive_solver. }
  split.
  - intros Hn. unfold serve. rewrite Ha, bool_decide_false by done. by destruct c.
  - unfold serve. rewrite Ha, bool_decide_true by done. by destruct c.
Qed.

(** A follower's write is the leader's, when the leader can be reached and shares the token. *)
Lemma submit_reaches_leader n m l e req base w w1 :
  client_write (id_ n) req w = (w1, WriteForward (Some l) e) → l ≠ id_ n →
  peers n !! l = Some base → listening base = Some m → token m = token n →
  submit n req w = a_write m req w1.
Proof.
  intros Hw Hl Hp Hb Ht. unfold submit. rewrite Hw, bool_decide_false, Hp, Hb by done.
  assert (require_auth (token m) (bearer (token n)) = true) as ->; [|done].
  rewrite Ht. unfold require_auth, bearer. destruct (token n); [|done]. cbn. by rewrite bool_decide_true.
Qed.

(** A leader that is not in the static peer map cannot be written to from elsewhere, whatever
    address the replicated membership has for it. *)
Lemma runtime_leader_unreachable n l e req w w1 :
  client_write (id_ n) req w = (w1, WriteForward (Some l) e) → l ≠ id_ n → peers n !! l = None →
  submit n req w = (w1, Err (no_address l)).
Proof. intros Hw Hl Hp. unfold submit. by rewrite Hw, bool_decide_false, Hp. Qed.

Section forwarding.
(** What consensus promises: [leads w l t] says that at [w] node [l] has been elected in term
    [t]. A term has one leader, an elected node has reached its term, elections are not taken back, and a node that names a leader names that of its own term. The members of the cluster are who
    listens, and their peer maps have the right addresses. *)
Context (term : W → Z → nat) (leads : W → Z → nat → Prop) (T : nat).
Context (one_leader : ∀ w l l' t, leads w l t → leads w l' t → l = l')
        (elected_reached : ∀ w l t, leads w l t → (t ≤ term w l)%nat)
        (elections_stay : ∀ n w l t, leads w l t → leads (ensure_linearizable n w).1 l t)
        (names_leader : ∀ n w w' l e,
           ensure_linearizable n w = (w', LinForward (Some l) e) → leads w' l (term w' n))
        (terms_bounded : ∀ w x, (term w x ≤ T)%nat)
        (member : HttpNode → Prop)
        (members_listen : ∀ base m, listening base = Some m → member m)
        (right_address : ∀ n m l base,
           member n → peers n !! l = Some base → listening base = Some m → id_ m = l).

Lemma led_read_ends fuel n run w k :
  member n → leads w (id_ n) k → (T - k < fuel)%nat → ∃ w' r, read_linear fuel n run w = (w', Some r).
Proof.
  revert n w k. induction fuel as [|fuel IH]; intros n w k Hmem Hk Hf; [lia|].
  cbn [ClusterNode.read_linear].
  pose proof (elections_stay (id_ n) w _ _ Hk) as Hk'.
  destruct (ensure_linearizable (id_ n) w) as [w' o] eqn:E. cbn [fst] in Hk'.
  destruct o as [|[l|] e|e]; eauto. case_bool_decide as Hl; eauto.
  destruct (peers n !! l) as [base|] eqn:Ep; eauto. destruct (listening base) as [m|] eqn:Eb; eauto.
  destruct (require_auth _ _); eauto.
  pose proof (names_leader _ _ _ _ _ E) as Hn. pose proof (elected_reached _ _ _ Hk') as Ht.
  pose proof (terms_bounded w' (id_ n)) as Hb.
  apply (IH m w' (term w' (id_ n)));
    [by eapply members_listen|by rewrite (right_address _ _ _ _ Hmem Ep Eb)|].
  destruct (decide (term w' (id_ n) = k)) as [Ek|]; [|lia].
  exfalso. apply Hl. rewrite Ek in Hn. by apply (one_leader w' l (id_ n) k).
Qed.

(** C40: A linearizable read does not circle. However the leadership moves while it is forwarded
    from node to node, each hop goes to the leader of a later term, so a read is answered after
    at most one hop more than there are terms. *)
Theorem forwarding_terminates n run w :
  member n → ∃ w' r, read_linear (S (S T)) n run w = (w', Some r).
Proof.
  intros Hmem. remember (S T) as fuel. cbn [ClusterNode.read_linear].
  destruct (ensure_linearizable (id_ n) w) as [w' o] eqn:E.
  destruct o as [|[l|] e|e]; eauto. case_bool_decide as Hl; eauto.
  destruct (peers n !! l) as [base|] eqn:Ep; eauto. destruct (listening base) as [m|] eqn:Eb; eauto.
  destruct (require_auth _ _); eauto.
  apply (led_read_ends fuel m run w' (term w' (id_ n))); [by eapply members_listen| |lia].
  rewrite (right_address _ _ _ _ Hmem Ep Eb). by eapply names_leader.
Qed.
End forwarding.
End correct.

(** ** Two nodes, the second of which leads *)

#[local] Instance demo_raft : Raft unit := {|
  client_write := λ n _ w, (w, if bool_decide (n = 2) then Written default_response
                               else WriteForward (Some 2) "forward to 2");
  ensure_linearizable := λ n w, (w, if bool_decide (n = 2) then Linear
                                    else LinForward (Some 2) "forward to 2");
  read_run := λ _ _ _, Some default_crun;
  initialize := λ _ _ w, (w, Ok tt);
  raft_add_learner := λ _ _ _ w, (w, Ok tt);
  raft_change_membership := λ _ _ w, (w, Ok tt);
  raft_metrics := λ _ _, (Some 2, "Leader");
  raft_rpc := λ _ _ _ w, (w, "null")
|}.

Definition demo_node (id : Z) : HttpNode :=
  mkNode id {[1 := "http://a"; 2 := "http://b"]} (Some "t").
Definition demo_listening (base : string) : option HttpNode :=
  if bool_decide (base = "http://a") then Some (demo_node 1)
  else if bool_decide (base = "http://b") then Some (demo_node 2) else None.

Definition demo_member (n : HttpNode) : Prop := n = demo_node 1 ∨ n = demo_node 2.

Lemma demo_listens base m : demo_listening base = Some m → demo_member m.
Proof. unfold demo_listening, demo_member. repeat case_bool_decide; naive_solver. Qed.

Lemma demo_addresses n m l base :
  demo_member n → peers n !! l = Some base → demo_listening base = Some m → id_ m = l.
Proof.
  intros Hn Hp Hm. assert (({[1 := "http://a"; 2 := "http://b"]} : gmap Z string) !! l = Some base) as Hp'
    by (by destruct Hn as [-> | ->]).
  unfold demo_listening in Hm.
  apply lookup_insert_Some in Hp' as [[<- <-]|[_ Hp']]; [by simplify_eq/=|].
  apply lookup_singleton_Some in Hp' as [<- <-]. by simplify_eq/=.
Qed.

Lemma forwarding_terminates_witness :
  ∃ w' r, read_linear demo_listening "down" "no json" 3 (demo_node 1) "run" tt = (w', Some r).
Proof.
  apply (forwarding_terminates demo_listening "down" "no json" (λ _ _, 1%nat)
           (λ _ l t, l = 2 ∧ t = 1%nat) 1 ltac:(intros w l l' t [-> _] [-> _]; reflexivity)
           ltac:(intros w l t [_ ->]; reflexivity) ltac:(intros n w l t H; exact H)
           ltac:(intros n w w' l e H; cbn in H; case_bool_decide; simplify_eq; split; reflexivity)
           ltac:(intros; reflexivity) demo_member demo_listens demo_addresses).
  left. reflexivity.
Defined.

Lemma token_guards_witness :
  serve demo_listening "down" "no json" 3 (demo_node 1) (Some "Bearer x") Init tt = (tt, Some Unauthorized).
Proof.
  apply (token_guards demo_listening "down" "no json" (demo_node 1) "t" (Some "Bearer x") Init tt 3).
  - reflexivity.
  - discriminate.
  - discriminate.
Defined.
