(* ===== verification/Router.v ===== *)
(** * Pre-flight estimation and model routing

    [crates/gateway/src/estimate.rs] and [crates/gateway/src/router.rs].  The rules are
    a map from task class to rule; the tier index is collected from the map's values in
    their (unspecified) iteration order, a parameter of [Router.new]. *)

From S2P Require Import Prelude Float Money.

(* @src estimate.rs MARGIN *)
Definition MARGIN : f64 := f64_lit 115 100.
(* @src estimate.rs CHARS_PER_TOKEN *)
Definition CHARS_PER_TOKEN : Z := 4.
(* @src estimate.rs DEFAULT_MAX_TOKENS *)
Definition DEFAULT_MAX_TOKENS : Z := 1024.

(* @src estimate.rs estimate_cost *)
Definition estimate_cost (prices : PriceBook) (model : string) (body_len : Z)
    (max_tokens : option Z) : option Microusd :=
  let input_tokens := body_len / CHARS_PER_TOKEN in
  let output_tokens := default DEFAULT_MAX_TOKENS max_tokens in
  (λ raw, f64_to_i64 (f64_ceil (f64_mul (f64_of_Z raw) MARGIN)))
    <$> PriceBook.cost prices model (mkUsage input_tokens output_tokens 0 0 None).

(* @src router.rs RouterMode *)
Inductive RouterMode := RouterOff | RouterShadow | RouterOn.

(** The declaration order is the order of the tiers. *)
(* @src router.rs Tier *)
Inductive Tier := Haiku | Sonnet | Opus.

Definition tier_rank (t : Tier) : Z := match t with Haiku => 0 | Sonnet => 1 | Opus => 2 end.
Definition tier_geb (a b : Tier) : bool := tier_rank b <=? tier_rank a.

(* @src router.rs Candidate *)
Record Candidate := mkCandidate { c_model : string; c_tier : Tier }.

(* @src router.rs ClassRule *)
Record ClassRule := mkClassRule { required_tier : Tier; candidates : list Candidate }.

(* @src router.rs RouterRules *)
Record RouterRules := mkRouterRules {
  default_class : string;
  classes : gmap string ClassRule
}.

(* @src router.rs default_rules *)
Definition default_rules : RouterRules :=
  let cheap := mkClassRule Haiku [mkCandidate "claude-haiku-4-5" Haiku] in
  let hard := mkClassRule Sonnet [mkCandidate "claude-sonnet-4-5" Sonnet;
                                  mkCandidate "claude-opus-4-5" Opus] in
  mkRouterRules "default"
    (<["reasoning" := hard]> (<["hard" := hard]> (<["default" := cheap]>
      (<["cheap" := cheap]> ∅)))).

(* @src router.rs RouteDecision *)
Record RouteDecision := mkRouteDecision { original_model : string; chosen_model : string }.

Module RouteDecision.
(* @src router.rs RouteDecision::kept *)
Definition kept (model : string) : RouteDecision := mkRouteDecision model model.

(* @src router.rs RouteDecision::routed *)
Definition routed (d : RouteDecision) : bool :=
  bool_decide (original_model d ≠ chosen_model d).

(* @src router.rs RouteDecision::header_value *)
Definition header_value (d : RouteDecision) : string :=
  if routed d then original_model d +:+ "->" +:+ chosen_model d
  else original_model d +:+ "=kept".
End RouteDecision.

(* @src router.rs Router *)
Record Router := mkRouter {
  mode : RouterMode;
  rules : RouterRules;
  tier_index : gmap string Tier
}.

Module Router.
(** [values] is the iteration order of the map's values. *)
(* @src router.rs Router::new *)
Definition new (m : RouterMode) (r : RouterRules) (values : list ClassRule) : Router :=
  mkRouter m r
    (foldl (λ ix c, <[c_model c := c_tier c]> ix) ∅ (values ≫= candidates)).

(* @src router.rs Router::resolve_class *)
Definition resolve_class (r : Router) (task_class : string) : option ClassRule :=
  match classes (rules r) !! task_class with
  | Some c => Some c
  | None => classes (rules r) !! default_class (rules r)
  end.

(** [min_by_key]: the first of the cheapest. *)
Fixpoint min_by_cost (l : list (string * Microusd)) : option (string * Microusd) :=
  match l with
  | [] => None
  | x :: l => match min_by_cost l with
              | Some y => if x.2 <=? y.2 then Some x else Some y
              | None => Some x
              end
  end.

(** [filter_map(|c| cost_of(&c.model).map(|cost| (c.model, cost)))] *)
Definition priced (cost_of : string → option Microusd) (l : list Candidate)
  : list (string * Microusd) :=
  omap (λ c, (λ cost, (c_model c, cost)) <$> cost_of (c_model c)) l.

(* @src router.rs Router::route *)
Definition route (r : Router) (requested_model task_class : string) (prices : PriceBook)
    (body_len : Z) (max_tokens : option Z) : RouteDecision :=
  match resolve_class r task_class with
  | None => RouteDecision.kept requested_model
  | Some rule =>
      let eligible := filter (λ c, tier_geb (c_tier c) (required_tier rule) = true)
                        (candidates rule) in
      match eligible with
      | [] => RouteDecision.kept requested_model
      | _ =>
          let cost_of model := estimate_cost prices model body_len max_tokens in
          let must_upgrade := match tier_index r !! requested_model with
                              | Some t => negb (tier_geb t (required_tier rule))
                              | None => false
                              end in
          let chosen :=
            if must_upgrade then fst <$> min_by_cost (priced cost_of eligible)
            else match cost_of requested_model with
                 | Some requested_cost =>
                     fst <$> min_by_cost
                       (filter (λ p, (p.2 <? requested_cost) = true) (priced cost_of eligible))
                 | None => None
                 end in
          match chosen with
          | Some model =>
              if bool_decide (model ≠ requested_model)
              then mkRouteDecision requested_model model
              else RouteDecision.kept requested_model
          | None => RouteDecision.kept requested_model
          end
      end
  end.
End Router.

(** ** The routing contract *)

Lemma min_by_cost_spec l :
  match Router.min_by_cost l with
  | Some x => x ∈ l ∧ ∀ y, y ∈ l → x.2 ≤ y.2
  | None => l = []
  end.
Proof.
  induction l as [|x l IH]; simpl; [done|].
  destruct (Router.min_by_cost l) as [y|].
  - destruct IH as [Hy Hmin]. destruct (x.2 <=? y.2) eqn:E; breflect.
    + split; [set_solver|]. intros z [->|Hz]%elem_of_cons; [lia|]. specialize (Hmin z Hz). lia.
    + split; [set_solver|]. intros z [->|Hz]%elem_of_cons; [lia|auto].
  - subst. split; [set_solver|]. intros z ->%list_elem_of_singleton. lia.
Qed.

Lemma priced_elem cost_of l m z :
  (m, z) ∈ Router.priced cost_of l ↔ ∃ c, c ∈ l ∧ c_model c = m ∧ cost_of m = Some z.
Proof.
  unfold Router.priced. rewrite list_elem_of_omap. split.
  - intros (c & Hc & Heq). destruct (cost_of (c_model c)) eqn:E; simplify_eq/=. eauto.
  - intros (c & Hc & <- & Hz). exists c. by rewrite Hz.
Qed.

(** A candidate of the rule that meets its tier. *)
Definition meets (rule : ClassRule) (m : string) : Prop :=
  ∃ c, c ∈ candidates rule ∧ c_model c = m ∧ tier_rank (required_tier rule) ≤ tier_rank (c_tier c).

Lemma eligible_meets rule m z cost_of :
  (m, z) ∈ Router.priced cost_of
             (filter (λ c, tier_geb (c_tier c) (required_tier rule) = true) (candidates rule))
  ↔ meets rule m ∧ cost_of m = Some z.
Proof.
  rewrite priced_elem. unfold meets. split.
  - intros (c & [Ht Hc]%list_elem_of_filter & Hm & Hz). split; [|done].
    exists c. repeat split; try done. by apply Z.leb_le.
  - intros [(c & Hc & Hm & Ht) Hz]. exists c. rewrite list_elem_of_filter. unfold tier_geb.
    rewrite Z.leb_le. done.
Qed.

(** The requested model is declared, and below what the class requires. *)
Definition falls_short (r : Router) (rule : ClassRule) (m : string) : Prop :=
  ∃ t, tier_index r !! m = Some t ∧ tier_rank t < tier_rank (required_tier rule).

(** The candidate the router settles on, before it compares it with the request. *)
Definition choice (r : Router) (rule : ClassRule) (cost : string → option Microusd)
    (requested : string) : option (string * Microusd) :=
  let eligible := Router.priced cost
    (filter (λ c, tier_geb (c_tier c) (required_tier rule) = true) (candidates rule)) in
  if match tier_index r !! requested with
     | Some t => negb (tier_geb t (required_tier rule)) | None => false end
  then Router.min_by_cost eligible
  else match cost requested with
       | Some q => Router.min_by_cost (filter (λ p, (p.2 <? q) = true) eligible)
       | None => None
       end.

Lemma route_choice r requested task prices len max :
  Router.route r requested task prices len max
  = match Router.resolve_class r task with
    | None => RouteDecision.kept requested
    | Some rule =>
        match fst <$> choice r rule (λ m, estimate_cost prices m len max) requested with
        | Some m => if bool_decide (m ≠ requested) then mkRouteDecision requested m
                    else RouteDecision.kept requested
        | None => RouteDecision.kept requested
        end
    end.
Proof.
  unfold Router.route, choice. destruct (Router.resolve_class r task) as [rule|]; [|done].
  destruct (filter _ (candidates rule)) as [|c l] eqn:E.
  - destruct (match tier_index r !! requested with Some _ => _ | None => _ end); [done|].
    by destruct (estimate_cost prices requested len max).
  - destruct (match tier_index r !! requested with Some _ => _ | None => _ end); [done|].
    by destruct (estimate_cost prices requested len max).
Qed.

Lemma falls_short_iff r rule m :
  match tier_index r !! m with
  | Some t => negb (tier_geb t (required_tier rule)) | None => false end = true
  ↔ falls_short r rule m.
Proof.
  unfold falls_short, tier_geb. destruct (tier_index r !! m) as [t|].
  - rewrite negb_true_iff, Z.leb_gt. naive_solver.
  - naive_solver.
Qed.

(** What is chosen, and when nothing is. *)
Lemma choice_spec r rule cost requested :
  match choice r rule cost requested with
  | Some (m, z) => meets rule m ∧ cost m = Some z ∧
      (∀ m' y, meets rule m' → cost m' = Some y → z ≤ y) ∧
      (falls_short r rule requested ∨ ∃ q, cost requested = Some q ∧ z < q)
  | None =>
      (falls_short r rule requested → ∀ m y, meets rule m → cost m = Some y → False) ∧
      (∀ q, cost requested = Some q → ∀ m y, meets rule m → cost m = Some y → q ≤ y)
  end.
Proof.
  unfold choice. pose proof (falls_short_iff r rule requested) as Hf.
  set (eligible := Router.priced cost _).
  assert (∀ m z, (m, z) ∈ eligible ↔ meets rule m ∧ cost m = Some z) as He
    by (intros; apply eligible_meets).
  destruct (match tier_index r !! requested with Some _ => _ | None => _ end).
  - pose proof (min_by_cost_spec eligible) as Hm.
    destruct (Router.min_by_cost eligible) as [[m z]|].
    + destruct Hm as [Hin Hmin]. apply He in Hin as [H1 H2]. split_and!; [done..| |left; tauto].
      intros m' y H3 H4. by apply (Hmin (m', y)), He.
    + split; intros; exfalso; assert ((m, y) ∈ eligible) as H' by by apply He.
      * rewrite Hm in H'. by apply elem_of_nil in H'.
      * rewrite Hm in H'. by apply elem_of_nil in H'.
  - destruct (cost requested) as [q|] eqn:Eq; [|split; [intros H%Hf; done|done]].
    pose proof (min_by_cost_spec (filter (λ p, (p.2 <? q) = true) eligible)) as Hm.
    destruct (Router.min_by_cost _) as [[m z]|].
    + destruct Hm as [[Hlt%Z.ltb_lt Hin]%list_elem_of_filter Hmin].
      apply He in Hin as [H1 H2]. simpl in *. split_and!; [done..| |right; by exists q].
      intros m' y H3 H4. destruct (Z.lt_ge_cases y q) as [Hy|]; [|lia].
      apply (Hmin (m', y)), list_elem_of_filter. by rewrite Z.ltb_lt, He.
    + split; [intros H%Hf; done|]. intros ? [= <-] m y H1 H2.
      destruct (Z.lt_ge_cases y q) as [Hy|]; [|lia]. exfalso.
      assert ((m, y) ∈ filter (λ p, (p.2 <? q) = true) eligible) as H'
        by (apply list_elem_of_filter; by rewrite Z.ltb_lt, He).
      rewrite Hm in H'. by apply elem_of_nil in H'.
Qed.

(** The routing contract, priced on the request's own size.  A model other than the
    requested one is chosen only if it is a candidate of the resolved class that meets
    its tier and has a price; unless the requested model is declared to fall short of
    the tier, the choice is strictly cheaper than the requested model and no eligible
    candidate is cheaper still, and the requested model is kept when nothing eligible is
    strictly cheaper; when it falls short, the choice is the cheapest eligible
    candidate at whatever price, and one is chosen whenever one has a price. *)
Theorem route_contract r requested task prices len max :
  let cost m := estimate_cost prices m len max in
  let d := Router.route r requested task prices len max in
  original_model d = requested ∧
  (RouteDecision.routed d = true → ∃ rule z, Router.resolve_class r task = Some rule ∧
     meets rule (chosen_model d) ∧ cost (chosen_model d) = Some z ∧
     (∀ m y, meets rule m → cost m = Some y → z ≤ y) ∧
     (falls_short r rule requested ∨ ∃ q, cost requested = Some q ∧ z < q)) ∧
  (∀ rule, Router.resolve_class r task = Some rule →
     ¬ falls_short r rule requested → RouteDecision.routed d = false →
     ∀ m y q, meets rule m → cost m = Some y → cost requested = Some q → q ≤ y) ∧
  (∀ rule, Router.resolve_class r task = Some rule → falls_short r rule requested →
     (∃ m y, meets rule m ∧ cost m = Some y) → meets rule (chosen_model d)).
Proof.
  intros cost d. unfold d. rewrite route_choice. clear d.
  destruct (Router.resolve_class r task) as [rule|].
  2: { unfold RouteDecision.routed. simpl. rewrite bool_decide_false by tauto. naive_solver. }
  fold cost. pose proof (choice_spec r rule cost requested) as Hc.
  destruct (choice r rule cost requested) as [[m z]|]; simpl.
  - destruct Hc as (H1 & H2 & H3 & H4). case_bool_decide as Hne.
    + unfold RouteDecision.routed. simpl. rewrite bool_decide_true by congruence.
      split_and!; [done|intros _; exists rule, z; done|done|]. intros ? [= <-] _ _. done.
    + subst m. unfold RouteDecision.routed. simpl.
      rewrite bool_decide_false by tauto. split_and!; [done|done| |intros ? [= <-] _ _; done].
      intros ? [= <-] _ _ m' y q H5 H6 H7. specialize (H3 m' y H5 H6). simplify_eq. lia.
  - destruct Hc as [H1 H2]. unfold RouteDecision.routed. simpl.
    rewrite bool_decide_false by tauto. split_and!; [done|done| |].
    + intros ? [= <-] _ _ m y q H5 H6 H7. by apply (H2 q H7 m y).
    + intros ? [= <-] H (m & y & H5 & H6). by destruct (H1 H m y).
Qed.

(** ** The built-in rules *)

Definition demo_prices : PriceBook :=
  PriceBook.with_
    (PriceBook.with_ (PriceBook.with_ PriceBook.new "claude-haiku-4-5"
                        (mkModelPrice 1000000 5000000 100000 1250000))
       "claude-sonnet-4-5" (mkModelPrice 3000000 15000000 300000 3750000))
    "claude-opus-4-5" (mkModelPrice 5000000 25000000 500000 6250000).

Definition demo_router : Router :=
  Router.new RouterOn default_rules (snd <$> map_to_list (classes default_rules)).

Example route_down :
  RouteDecision.header_value (Router.route demo_router "claude-opus-4-5" "hard" demo_prices 4000 None)
  = "claude-opus-4-5->claude-sonnet-4-5".
Proof. vm_compute. reflexivity. Qed.

Example route_up :
  RouteDecision.header_value
    (Router.route demo_router "claude-haiku-4-5" "reasoning" demo_prices 4000 (Some 100))
  = "claude-haiku-4-5->claude-sonnet-4-5".
Proof. vm_compute. reflexivity. Qed.

Example route_unknown_kept :
  RouteDecision.header_value (Router.route demo_router "llama" "hard" demo_prices 4000 None)
  = "llama=kept".
Proof. vm_compute. reflexivity. Qed.
