(* ===== verification/LedgerBackend.v ===== *)
(** * The ledger behind the gateway

    [crates/gateway/src/ledger_backend.rs], [raft_ledger.rs] and [settle.rs].  The trait
    is a class of operations; a second class states what the gateway relies on, through
    a view of the backend as the table of [Ledger].  The in-process ledger and the
    replicated one are its instances, and the streaming guard is verified against the
    class alone.  Whether consensus is reached, when a background settlement is submitted
    and how far this node's replica lags are inputs of every operation. *)

From S2P Require Import Prelude Float Money Ledger LedgerInv Cluster UnitLedger.

(* @src ledger_backend.rs LedgerBackend *)
Class LedgerBackend (S : Type) := {
  open_run : S → string → Microusd → option string → S;
  reserve : S → string → Microusd → S * result Reservation BudgetError;
  reserve_unchecked : S → string → Microusd → S * Reservation;
  snapshot : S → string → option RunSnapshot;
  list_runs : S → list (string * RunSnapshot);
  settle : S → Reservation → Microusd → S
}.

(** Levels that can take the cost of [r] in place of its amount. *)
Definition settle_room (runs : gmap string RunState) (r : Reservation) (actual : Microusd) : Prop :=
  ∀ k s, k ∈ Ledger.chain runs (run_id r) → runs !! k = Some s →
    rs_spent s + actual + Z.max 0 (rs_reserved s - amount r) ≤ i64_max.

(** What the gateway relies on: the backend's operations are those of the in-process
    ledger on its view, on amounts that fit. *)
Class LedgerLaws (S : Type) `{LedgerBackend S} := {
  view : S → gmap string RunState;
  sound : S → Prop;
  open_view s id b p :
    sound s → 0 ≤ b ≤ i64_max →
    sound (open_run s id b p) ∧ view (open_run s id b p) = Ledger.open_run (view s) id b p;
  reserve_view s id est :
    sound s → 0 ≤ est → room (view s) id est →
    match reserve s id est with
    | (s', Ok r) => sound s' ∧ Ledger.reserve (view s) id est = (view s', Ok r)
    | (s', Err _) => sound s' ∧ view s' = view s ∧
                     ∃ e, Ledger.reserve (view s) id est = (view s, Err e)
    end;
  settle_view s r actual :
    sound s → 0 ≤ amount r ≤ i64_max → 0 ≤ actual → settle_room (view s) r actual →
    sound (settle s r actual) ∧ view (settle s r actual) = Ledger.settle (view s) r actual;
  snapshot_view s id : sound s → snapshot s id = Ledger.snapshot (view s) id
}.

(** A granted reservation is for the run and the amount it was asked for. *)
Class TicketLaws (S : Type) `{LedgerBackend S} := {
  reserve_ticket s id est s' r :
    reserve s id est = (s', Ok r) → run_id r = id ∧ amount r = est;
  unchecked_ticket s id est s' r :
    reserve_unchecked s id est = (s', r) → run_id r = id ∧ amount r = est
}.

(** ** The in-process backend *)

(* @src ledger_backend.rs LocalLedger *)
Record LocalLedger := mkLocal { local_runs : gmap string RunState }.

Definition lift_local {A} (p : gmap string RunState * A) : LocalLedger * A :=
  (mkLocal p.1, p.2).

(* @src ledger_backend.rs 39-64 LocalLedger *)
#[export] Instance local_backend : LedgerBackend LocalLedger := {
  open_run l id b p := mkLocal (Ledger.open_run (local_runs l) id b p);
  reserve l id est := lift_local (Ledger.reserve (local_runs l) id est);
  reserve_unchecked l id est := lift_local (Ledger.reserve_unchecked (local_runs l) id est);
  snapshot l id := Ledger.snapshot (local_runs l) id;
  list_runs l := Ledger.list_runs (local_runs l);
  settle l r actual := mkLocal (Ledger.settle (local_runs l) r actual)
}.

#[export] Instance local_tickets : TicketLaws LocalLedger.
Proof.
  split; intros s id est s' r; simpl; unfold lift_local.
  - destruct (Ledger.reserve_cases (local_runs s) id est)
      as [[_ ->]|[(e & _ & _ & ->)|(_ & _ & ->)]]; simpl; try done. by intros [= _ <-].
  - by intros [= _ <-].
Qed.

#[export] Instance local_laws : LedgerLaws LocalLedger.
Proof.
  refine {| view := local_runs; sound _ := True |}; simpl; try done.
  intros s id est _ _ _. unfold lift_local.
  destruct (Ledger.reserve_cases (local_runs s) id est)
    as [[_ ->]|[(e & _ & _ & ->)|(_ & _ & ->)]]; simpl; eauto.
Defined.

(** ** The replicated backend *)

(** What becomes of a submitted request: applied and answered; applied, but the answer
    is an error (a timeout, a lost leader); or not applied. *)
Inductive Outcome := Committed | Unanswered | Lost.

(** What happens between two operations of this gateway: the next committed entry reaches
    its replica, or one of its background tasks submits the settlement it carries. *)
Inductive Event := Deliver | RunTask (i : nat) (o : Outcome).

(** The outcome of an operation's own submission, and what happens until the next one. *)
Record Turn := mkTurn { outcome_of : Outcome; events : list Event }.

(** Consensus is reached, the task of a settlement runs, and the entry is applied here,
    before the next operation. *)
Definition prompt_turn : Turn := mkTurn Committed [RunTask 0 Committed; Deliver].

(** The replica of this node, the committed entries it has not applied yet, the
    settlements handed to background tasks and not submitted yet, and the turns to come. *)
(* @src raft_ledger.rs RaftLedger *)
Record RaftLedger := mkRaft {
  replica : LedgerState;
  behind : list Request;
  tasks : list Request;
  turns : list Turn
}.

(** The state the cluster agreed on. *)
Definition replicated (n : RaftLedger) : LedgerState :=
  foldl (λ st req, (LedgerState.apply st req).1) (replica n) (behind n).

(** A node that has applied the whole log. *)
Definition caught_up (st : LedgerState) (ts : list Turn) : RaftLedger := mkRaft st [] [] ts.

(** The log takes an entry. *)
Definition order (o : Outcome) (req : Request) (n : RaftLedger) : RaftLedger :=
  match o with
  | Lost => n
  | _ => mkRaft (replica n) (behind n ++ [req]) (tasks n) (turns n)
  end.

Definition happen (n : RaftLedger) (e : Event) : RaftLedger :=
  match e with
  | Deliver =>
      match behind n with
      | [] => n
      | req :: rest => mkRaft (LedgerState.apply (replica n) req).1 rest (tasks n) (turns n)
      end
  | RunTask i o =>
      match tasks n !! i with
      | None => n
      | Some req => order o req (mkRaft (replica n) (behind n) (delete i (tasks n)) (turns n))
      end
  end.

(** The turn of the next operation; without one, everything is prompt. *)
Definition turn_of (n : RaftLedger) : Turn := default prompt_turn (head (turns n)).

Definition end_turn (n : RaftLedger) : RaftLedger :=
  foldl happen (mkRaft (replica n) (behind n) (tasks n) (tail (turns n))) (events (turn_of n)).

(** [node.submit]: the answer is computed where the log orders the request. *)
Definition submit (n : RaftLedger) (req : Request) : RaftLedger * option Response :=
  let o := outcome_of (turn_of n) in
  (end_turn (order o req n),
   match o with Committed => Some (LedgerState.apply (replicated n) req).2 | _ => None end).

(* @src raft_ledger.rs snap_of *)
Definition snap_of (s : CRun) : RunSnapshot :=
  mkSnapshot (i64_wrap (budget_micros s)) (i64_wrap (reserved_micros s))
             (i64_wrap (spent_micros s)) (c_steps s).

Module RaftLedger.
(* @src raft_ledger.rs RaftLedger::open_run *)
Definition open_run (n : RaftLedger) (id : string) (b : Microusd) (p : option string) : RaftLedger :=
  (submit n (Open id (Z.max b 0) p)).1.

(* @src raft_ledger.rs RaftLedger::reserve *)
Definition reserve (n : RaftLedger) (id : string) (est : Microusd)
  : RaftLedger * result Reservation BudgetError :=
  match submit n (Reserve id (Z.max est 0)) with
  | (n, Some resp) =>
      if accepted resp then (n, Ok (mkReservation id est (r_step resp)))
      else (n, Err (Exceeded (default id (blocked_run resp))
                      (i64_wrap (r_budget_micros resp)) (i64_wrap (r_spent_micros resp))
                      (i64_wrap (i64_wrap (u64_wrap (r_reserved_micros resp + r_spent_micros resp))
                                 + Z.max est 0))))
  | (n, None) => (n, Ok (mkReservation id est 0))
  end.

(* @src raft_ledger.rs RaftLedger::reserve_unchecked *)
Definition reserve_unchecked (n : RaftLedger) (id : string) (est : Microusd)
  : RaftLedger * Reservation :=
  match submit n (Reserve id (Z.max est 0)) with
  | (n, Some resp) => (n, mkReservation id est (r_step resp))
  | (n, None) => (n, mkReservation id est 0)
  end.

(** Both reads are answered by this node's replica, which may be behind. *)
(* @src raft_ledger.rs RaftLedger::snapshot *)
Definition snapshot (n : RaftLedger) (id : string) : option RunSnapshot :=
  snap_of <$> cruns (replica n) !! id.

(* @src raft_ledger.rs RaftLedger::list_runs *)
Definition list_runs (n : RaftLedger) : list (string * RunSnapshot) :=
  (λ '(run, s), (run, snap_of s)) <$> btree_list (cruns (replica n)).

(** The settlement is handed to a task, and the call returns. *)
(* @src raft_ledger.rs RaftLedger::settle *)
Definition settle (n : RaftLedger) (r : Reservation) (actual : Microusd) : RaftLedger :=
  end_turn (mkRaft (replica n) (behind n)
    (tasks n ++ [Settle (run_id r) (Z.max (amount r) 0) (Z.max actual 0)]) (turns n)).
End RaftLedger.

#[export] Instance raft_backend : LedgerBackend RaftLedger := {
  open_run := RaftLedger.open_run;
  reserve := RaftLedger.reserve;
  reserve_unchecked := RaftLedger.reserve_unchecked;
  snapshot := RaftLedger.snapshot;
  list_runs := RaftLedger.list_runs;
  settle := RaftLedger.settle
}.

#[export] Instance raft_tickets : TicketLaws RaftLedger.
Proof.
  split; intros s id est s' r; simpl.
  - unfold RaftLedger.reserve. destruct (submit _ _) as [n [resp|]]; [|by intros [= _ <-]].
    destruct (accepted resp); [by intros [= _ <-]|done].
  - unfold RaftLedger.reserve_unchecked. destruct (submit _ _) as [n [resp|]]; by intros [= _ <-].
Qed.

(** The log grows with what is submitted, wherever this node's replica has got to. *)
Lemma order_replicated o req n :
  replicated (order o req n)
  = match o with Lost => replicated n | _ => (LedgerState.apply (replicated n) req).1 end.
Proof. unfold replicated. destruct o; simpl; by rewrite ?foldl_app. Qed.

Lemma deliver_replicated n : replicated (happen n Deliver) = replicated n.
Proof. unfold replicated, happen. by destruct (behind n) eqn:E; simpl; rewrite ?E. Qed.

(** Every turn to come is prompt, this node has applied the log, and no task is waiting. *)
Record prompt (n : RaftLedger) : Prop := {
  prompt_turns : Forall (λ t, t = prompt_turn) (turns n);
  prompt_behind : behind n = [];
  prompt_tasks : tasks n = []
}.

(** ... and amounts fit. *)
Definition raft_sound (n : RaftLedger) : Prop :=
  prompt n ∧ fits_i64 (replica n) ∧
  map_Forall (λ _ s, 0 ≤ budget_micros s ≤ i64_max) (cruns (replica n)).

Lemma prompt_replicated n : prompt n → replicated n = replica n.
Proof. intros []. unfold replicated. by rewrite prompt_behind0. Qed.

Lemma prompt_turn_of n : prompt n → turn_of n = prompt_turn ∧ Forall (λ t, t = prompt_turn) (tail (turns n)).
Proof. intros [H _ _]. unfold turn_of. destruct H as [|t ts ->]; done. Qed.

Lemma submit_committed n req :
  prompt n →
  (submit n req).2 = Some (LedgerState.apply (replica n) req).2 ∧
  replica (submit n req).1 = (LedgerState.apply (replica n) req).1 ∧
  prompt (submit n req).1.
Proof.
  intros Hn. pose proof (prompt_replicated n Hn) as Hr. destruct (prompt_turn_of n Hn) as [Ht Htl].
  destruct Hn as [_ Hb Hk]. unfold submit, end_turn. rewrite Hr, Ht. unfold turn_of in *. simpl.
  rewrite Ht. simpl. rewrite Hb, Hk. simpl. done.
Qed.

Lemma settle_committed n r actual :
  prompt n →
  let req := Settle (run_id r) (Z.max (amount r) 0) (Z.max actual 0) in
  replica (RaftLedger.settle n r actual) = (LedgerState.apply (replica n) req).1 ∧
  prompt (RaftLedger.settle n r actual).
Proof.
  intros Hn. destruct (prompt_turn_of n Hn) as [Ht Htl]. destruct Hn as [_ Hb Hk].
  unfold RaftLedger.settle, end_turn, turn_of in *. simpl. rewrite Ht. simpl.
  rewrite Hb, Hk. simpl. done.
Qed.

(** Reserving and settling leave budgets alone. *)
Lemma apply_budget st req k :
  match req with Open _ _ _ => False | _ => True end →
  budget_micros <$> cruns (LedgerState.apply st req).1 !! k = budget_micros <$> cruns st !! k.
Proof.
  destruct req as [|run z|run res act]; [done|intros _..]; simpl.
  - destruct (cruns st !! run); simpl; [|done].
    destruct (LedgerState.check_levels st run _ z); simpl; [done|].
    rewrite lookup_alter.
    rewrite <-(alter_all_proj (LedgerState.add_reserved z) budget_micros
                 (LedgerState.chain st run) (cruns st) k) by done.
    case_decide; [subst|done]. by destruct (alter_all _ _ _ !! k).
  - by apply alter_all_proj.
Qed.

Definition budgets_ok (m : gmap string CRun) : Prop :=
  map_Forall (λ _ s, 0 ≤ budget_micros s ≤ i64_max) m.

Lemma budgets_ok_proj (m m' : gmap string CRun) :
  (∀ k, budget_micros <$> m' !! k = budget_micros <$> m !! k) → budgets_ok m → budgets_ok m'.
Proof.
  intros Hp Hm k s Hs. specialize (Hp k). rewrite Hs in Hp. simpl in Hp.
  destruct (m !! k) as [s'|] eqn:E; simplify_eq/=. rewrite Hp. by apply (Hm k).
Qed.

Lemma budgets_ok_open st run b p :
  0 ≤ b ≤ i64_max → budgets_ok (cruns st) →
  budgets_ok (cruns (LedgerState.apply st (Open run b p)).1).
Proof.
  intros Hb Hm k s. simpl.
  destruct (cruns st !! run) as [s0|]; rewrite lookup_insert; case_decide;
    try apply Hm; by intros [= <-].
Qed.

Lemma sound_step n n' req :
  raft_sound n → prompt n' → replica n' = (LedgerState.apply (replica n) req).1 →
  req_ok (replica n) req → match req with Open _ b _ => 0 ≤ b ≤ i64_max | _ => True end →
  raft_sound n'.
Proof.
  intros (_ & Hf & Hb) Hn' Hst Hok Hbud. split; [done|]. rewrite Hst.
  destruct req as [run b p|run z|run res act].
  - destruct (open_refines _ run b p Hf Hbud) as [H1 _]. split; [exact H1|].
    by apply budgets_ok_open.
  - destruct Hok as [Hz Hroom]. pose proof (reserve_refines _ run z Hf Hz Hroom) as H.
    split; [|by apply (budgets_ok_proj (cruns (replica n))); [intros; apply apply_budget|]].
    destruct (LedgerState.apply _ _), (Ledger.reserve _ _ _). apply H.
  - destruct (settle_refines _ run res act Hf Hok) as [H1 _]. split; [exact H1|].
    by apply (budgets_ok_proj (cruns (replica n))); [intros; apply apply_budget|].
Qed.

#[export] Instance raft_laws : LedgerLaws RaftLedger.
Proof.
  refine {| view n := abs (replica n); sound := raft_sound |}.
  - intros n id b p Hs Hb. simpl. unfold RaftLedger.open_run. rewrite Z.max_l by lia.
    destruct (submit_committed n (Open id b p) (proj1 Hs)) as (_ & Hst & Hn').
    split; [by eapply sound_step|]. rewrite Hst. destruct Hs as (_ & Hf & _).
    by destruct (open_refines _ id b p Hf Hb).
  - intros n id est Hs He Hroom. simpl. unfold RaftLedger.reserve. rewrite Z.max_l by lia.
    destruct (submit_committed n (Reserve id est) (proj1 Hs)) as (Hresp & Hst & Hn').
    pose proof (sound_step n _ (Reserve id est) Hs Hn' Hst (conj He Hroom) I) as Hstep.
    destruct Hs as (_ & Hf & _). pose proof (reserve_refines _ id est Hf He Hroom) as H.
    destruct (submit n (Reserve id est)) as [n' o]. cbn [fst snd] in *. subst o.
    destruct (LedgerState.apply (replica n) (Reserve id est)) as [st resp].
    cbn [fst snd] in *.
    destruct (Ledger.reserve (abs (replica n)) id est) as [runs r] eqn:Er.
    destruct H as (_ & Habs & H). subst st. destruct r as [t|e].
    + destruct H as (-> & Hstep' & _). split; [done|].
      destruct (Ledger.reserve_cases (abs (replica n)) id est)
        as [[_ E]|[(? & _ & _ & E)|(_ & _ & E)]]; rewrite Er in E; try done.
      injection E as -> ->. rewrite Habs, Hstep'. done.
    + destruct H as [Hn [-> _]]. split; [done|]. rewrite Hn in *.
      split; [done|]. exists e. by rewrite Habs.
  - intros n r actual Hs Hr Ha Hroom. simpl.
    destruct (settle_committed n r actual (proj1 Hs)) as [Hst Hn']. cbv zeta in Hst.
    rewrite !Z.max_l in Hst by lia. set (req := Settle (run_id r) (amount r) actual) in *.
    assert (req_ok (replica n) req) as Hok.
    { split; [done|]. split; [done|]. intros k s Hk Hks.
      apply (Hroom k (abs_run s)); [by rewrite <-chain_abs|by rewrite abs_lookup, Hks]. }
    split; [by eapply sound_step|]. rewrite Hst. destruct Hs as (_ & Hf & _).
    destruct (settle_refines _ _ _ _ Hf Hok) as [_ H]. exact H.
  - intros n id (_ & Hf & Hb). simpl. unfold RaftLedger.snapshot, Ledger.snapshot.
    rewrite abs_lookup. destruct (cruns (replica n) !! id) as [s|] eqn:E; [|done]. simpl.
    f_equal. destruct (Hf id s E) as (? & ? & ?). pose proof (Hb id s E) as H3. simpl in H3.
    unfold snap_of, snap. simpl. rewrite !i64_wrap_id by mach. done.
Defined.

(** When consensus is lost, a reserve fails open and records nothing. *)
Lemma reserve_fails_open n id est :
  outcome_of (turn_of n) = Lost →
  RaftLedger.reserve n id est = (end_turn n, Ok (mkReservation id est 0)).
Proof. intros Ho. unfold RaftLedger.reserve, submit. by rewrite Ho. Qed.

(** While every turn is prompt, what the backend submits is kept in the books of [Cluster]: an
    opened run, a reservation that is granted or refused, and the settlement of a granted one.
    So the budget theorems of [Cluster] and [RaftStore] hold of the logs gateways write. *)
Lemma raft_books n out o :
  prompt n →
  (∀ id b p, 0 ≤ b ≤ i64_max →
     undisturbed (abs (replicated n)) (Ledger.open_run (abs (replicated n)) id b p) out →
     Cluster.booked (Cluster.mkBooks (replicated n) out o) (Open id b p)
       (Cluster.mkBooks (replicated (RaftLedger.open_run n id b p)) out
          (o + lowered (abs (replicated n)) id b))) ∧
  (∀ id est, 0 ≤ est → c_room (replicated n) id est →
     Cluster.booked (Cluster.mkBooks (replicated n) out o) (Reserve id est)
       (Cluster.mkBooks (replicated (RaftLedger.reserve n id est).1)
          (match (RaftLedger.reserve n id est).2 with Ok r => r :: out | Err _ => out end) o)) ∧
  (∀ pre r post actual, out = pre ++ r :: post → 0 ≤ amount r → 0 ≤ actual →
     c_room (replicated n) (run_id r) (actual - amount r) →
     Cluster.booked (Cluster.mkBooks (replicated n) out o) (Settle (run_id r) (amount r) actual)
       (Cluster.mkBooks (replicated (RaftLedger.settle n r actual)) (pre ++ post)
          (o + Z.max 0 (actual - amount r)))).
Proof.
  intros Hn. rewrite (prompt_replicated n Hn). split_and!.
  - intros id b p Hb Hp. unfold RaftLedger.open_run. rewrite Z.max_l by lia.
    destruct (submit_committed n (Open id b p) Hn) as (_ & Hst & Hn').
    rewrite (prompt_replicated _ Hn'), Hst. by apply booked_open.
  - intros id est He Hr. unfold RaftLedger.reserve. rewrite Z.max_l by lia.
    destruct (submit_committed n (Reserve id est) Hn) as (Hresp & Hst & Hn').
    destruct (submit n (Reserve id est)) as [n' resp]. cbn [fst snd] in *. subst resp.
    destruct (LedgerState.apply (replica n) (Reserve id est)) as [st resp] eqn:E.
    cbn [fst snd] in *. pose proof (booked_reserve _ out o id est st resp E He Hr) as Hb.
    rewrite <-Hst, <-(prompt_replicated _ Hn') in Hb. by destruct (accepted resp).
  - intros pre r post actual -> Hr Ha Hroom.
    destruct (settle_committed n r actual Hn) as [Hst Hn']. cbv zeta in Hst.
    rewrite (prompt_replicated _ Hn'), Hst. rewrite !Z.max_l by lia. by apply booked_settle.
Qed.

(** A replica that is behind answers a read from the past, and a settlement whose task has
    not run is not in the log yet: after a reserve and its settle the cluster still holds the
    reservation, and this node has not even seen the run. *)
Example reads_lag_and_settles_wait :
  let n0 := mkRaft (mkLedgerState ∅) [] [] [mkTurn Committed []; mkTurn Committed []; mkTurn Committed []] in
  let n1 := RaftLedger.open_run n0 "run" 1000 None in
  let '(n2, r) := RaftLedger.reserve n1 "run" 800 in
  let n3 := RaftLedger.settle n2 (mkReservation "run" 800 1) 50 in
  let n4 := foldl happen n3 [RunTask 0 Committed; Deliver; Deliver; Deliver] in
  (r, RaftLedger.snapshot n3 "run", reserved_micros <$> cruns (replicated n3) !! "run",
   RaftLedger.snapshot n4 "run")
  = (Ok (mkReservation "run" 800 1), None, Some 800, Some (mkSnapshot 1000 0 50 1)).
Proof. vm_compute. reflexivity. Qed.

(** A reserve that failed open holds nothing, but its settlement releases its estimate, which is
    what another call reserved. *)
Example failed_open_reserve_releases :
  let n0 := caught_up (LedgerState.apply (mkLedgerState ∅) (Open "run" 1000 None)).1
              [prompt_turn; mkTurn Lost []; prompt_turn] in
  let '(n1, r1) := RaftLedger.reserve n0 "run" 800 in
  let '(n2, r2) := RaftLedger.reserve n1 "run" 500 in
  let n3 := RaftLedger.settle n2 (mkReservation "run" 500 0) 0 in
  (r2, reserved_micros <$> cruns (replicated n2) !! "run",
   reserved_micros <$> cruns (replicated n3) !! "run") =
  (Ok (mkReservation "run" 500 0), Some 800, Some 300).
Proof. vm_compute. reflexivity. Qed.

(** In the shadow and warn modes a reserve the state machine refuses is not recorded,
    but its settle is: it releases what another call reserved on the run. *)
Example refused_shadow_reserve_releases :
  let n0 := caught_up (LedgerState.apply (mkLedgerState ∅) (Open "run" 1000 None)).1 [] in
  let '(n1, r1) := RaftLedger.reserve_unchecked n0 "run" 800 in
  let '(n2, r2) := RaftLedger.reserve_unchecked n1 "run" 500 in
  let n3 := RaftLedger.settle n2 r2 500 in
  (reserved_micros <$> cruns (replicated n1) !! "run",
   reserved_micros <$> cruns (replicated n2) !! "run",
   reserved_micros <$> cruns (replicated n3) !! "run") = (Some 800, Some 800, Some 300).
Proof. vm_compute. reflexivity. Qed.

(** ** The streaming settle guard *)

(* @src gateway/sink.rs CallRecord *)
Record CallRecord := mkCallRecord {
  ts_millis : Z;
  cr_run_id : string;
  cr_model : string;
  decision : string;
  cr_input_tokens : Z;
  cr_output_tokens : Z;
  cost_microusd : Z;
  cr_step : Z;
  agent_id : string;
  saved_microusd : Z;
  parent_run_id : string;
  on_behalf_of : string;
  outcome : string;
  key_id : string;
  cr_unit : string;
  cr_tool_calls : option Z
}.

(** The request-scoped attribution a guard carries into its record. *)
Record Attribution := mkAttribution {
  at_agent_id : string;
  at_parent_run_id : string;
  at_on_behalf_of : string;
  at_outcome : string;
  at_key_id : string;
  at_unit : string
}.

(** The guard's own state; the ledger, the unit ledger and the sink it shares are the
    [World].  [usage] is the slot the stream writes what it parsed to. *)
(* @src settle.rs SettleGuard *)
Record SettleGuard := mkGuard {
  g_prices : PriceBook;
  g_model : string;
  usage : option Usage;
  g_fallback : Microusd;
  reservation : option Reservation;
  attribution : Attribution;
  unit_reservation : option UnitReservation
}.

Record World (S : Type) := mkWorld {
  w_ledger : S;
  w_units : UnitLedger;
  w_sink : list CallRecord
}.
Arguments mkWorld {S}.
Arguments w_ledger {S}.
Arguments w_units {S}.
Arguments w_sink {S}.

Module SettleGuard.
(* @src settle.rs SettleGuard::new *)
Definition new (prices : PriceBook) (model : string) (fallback : Microusd) (r : Reservation)
    (a : Attribution) (ur : option UnitReservation) : SettleGuard :=
  mkGuard prices model None fallback (Some r) a ur.

(** The stream writes the usage it parsed so far. *)
Definition observe (g : SettleGuard) (u : option Usage) : SettleGuard :=
  mkGuard (g_prices g) (g_model g) u (g_fallback g) (reservation g) (attribution g)
          (unit_reservation g).

(** The cost the call is settled with. *)
(* @src settle.rs 95-99 SettleGuard::settle_now *)
Definition actual (g : SettleGuard) : Microusd :=
  match usage g with
  | Some u => default (g_fallback g) (PriceBook.cost (g_prices g) (g_model g) u)
  | None => g_fallback g
  end.

(** The record of the settled call. *)
(* @src settle.rs 105-128 SettleGuard::settle_now *)
Definition record (g : SettleGuard) (r : Reservation) (now : Z) : CallRecord :=
  let u := default default_usage (usage g) in
  let a := attribution g in
  mkCallRecord now (run_id r) (g_model g) "allow" (input_tokens u) (output_tokens u)
    (actual g) (Ledger.step r) (at_agent_id a) 0 (at_parent_run_id a) (at_on_behalf_of a)
    (at_outcome a) (at_key_id a) (at_unit a) (tool_calls u).

Section ops.
Context {S : Type} `{LedgerBackend S}.

(** [now_units] and [now] are the two readings of the clock. *)
(* @src settle.rs SettleGuard::settle_now *)
Definition settle_now (w : World S) (g : SettleGuard) (now_units now : Z)
  : World S * SettleGuard :=
  match reservation g with
  | None => (w, g)
  | Some r =>
      let cost := actual g in
      let ledger := settle (w_ledger w) r cost in
      let units := match unit_reservation g with
                   | Some ur => UnitLedger.settle (w_units w) ur cost now_units
                   | None => w_units w
                   end in
      (mkWorld ledger units (w_sink w ++ [record g r now]),
       mkGuard (g_prices g) (g_model g) None (g_fallback g) None (attribution g) None)
  end.

(* @src settle.rs 138-143 drop *)
Definition drop (w : World S) (g : SettleGuard) (now_units now : Z) : World S :=
  (settle_now w g now_units now).1.

(** [complete] consumes the guard, which is dropped when it returns. *)
(* @src settle.rs SettleGuard::complete *)
Definition complete (w : World S) (g : SettleGuard) (now_units now now_units' now' : Z) : World S :=
  let '(w, g) := settle_now w g now_units now in drop w g now_units' now'.
End ops.
End SettleGuard.

Lemma settle_now_once {T : Type} `{LedgerBackend T} (w : World T) g t1 t2 t3 t4 :
  let '(w', g') := SettleGuard.settle_now w g t1 t2 in
  SettleGuard.settle_now w' g' t3 t4 = (w', g').
Proof.
  unfold SettleGuard.settle_now. destruct (reservation g) as [r|] eqn:E; simpl; [done|].
  by rewrite E.
Qed.

(** C33: a streaming call is settled exactly once, on every backend that obeys the ledger
    laws.  Whether the stream ends normally ([complete], whose drop then runs) or the
    client disconnects (only the drop runs), and whatever usage was parsed by then, the
    ledger sees one settle of the granted reservation, with the price of the parsed
    usage or else the reserved estimate; the unit reservation is settled with the same
    cost; and exactly one record of that cost is written. *)
Theorem guard_settles_once {T : Type} `{LedgerLaws T} (w : World T) est id w_res r prices model a ur
    (parsed : option Usage) t1 t2 t3 t4 :
  sound (w_ledger w) → 0 ≤ est ≤ i64_max → room (view (w_ledger w)) id est →
  reserve (w_ledger w) id est = (w_res, Ok r) →
  let g := SettleGuard.observe (SettleGuard.new prices model est r a ur) parsed in
  let cost := SettleGuard.actual g in
  let held := mkWorld w_res (w_units w) (w_sink w) in
  0 ≤ cost → settle_room (view w_res) (mkReservation id est (Ledger.step r)) cost →
  (cost = est ∨ ∃ u, parsed = Some u ∧ PriceBook.cost prices model u = Some cost) ∧
  SettleGuard.complete held g t1 t2 t3 t4 = SettleGuard.drop held g t1 t2 ∧
  let w' := SettleGuard.drop held g t1 t2 in
  view (w_ledger w')
  = Ledger.settle (Ledger.reserve (view (w_ledger w)) id est).1 r cost ∧
  w_units w' = match ur with
               | Some q => UnitLedger.settle (w_units w) q cost t1 | None => w_units w end ∧
  ∃ rec, w_sink w' = w_sink w ++ [rec] ∧ cost_microusd rec = cost ∧ cr_run_id rec = id ∧
         cr_step rec = Ledger.step r.
Proof.
  intros Hs He Hroom Hres g cost held Hc Hsr.
  pose proof (reserve_view (w_ledger w) id est Hs ltac:(lia) Hroom) as Hv. rewrite Hres in Hv.
  destruct Hv as [Hs' Hv].
  assert (r = mkReservation id est (Ledger.step r)) as Hr.
  { destruct (Ledger.reserve_cases (view (w_ledger w)) id est)
      as [[_ E]|[(? & _ & _ & E)|(_ & _ & E)]]; rewrite Hv in E; try done.
    injection E as _ ->. done. }
  split; [|split; [|split; [|split]]].
  - unfold cost, SettleGuard.actual, g. simpl. destruct parsed as [u|]; [|by left].
    destruct (PriceBook.cost prices model u) eqn:E; simpl; [right; eauto|by left].
  - unfold SettleGuard.complete, SettleGuard.drop.
    pose proof (settle_now_once held g t1 t2 t3 t4) as Honce.
    destruct (SettleGuard.settle_now held g t1 t2) as [w1 g1]. by rewrite Honce.
  - rewrite Hv. assert (run_id r = id ∧ amount r = est) as [E1 E2] by (rewrite Hr; done).
    destruct (settle_view w_res r cost) as [_ Hset]; [done|by rewrite E2|done| |exact Hset].
    unfold settle_room in *. rewrite E1, E2. exact Hsr.
  - done.
  - eexists. split; [done|]. simpl. by rewrite Hr.
Qed.

(** ** A disconnected client *)

Definition demo_world : World LocalLedger :=
  mkWorld (open_run (mkLocal ∅) "run" 1000 None) (UnitLedger.new ∅) [].
Definition demo_reserved : LocalLedger := (reserve (w_ledger demo_world) "run" 400).1.
Definition demo_ticket : Reservation := mkReservation "run" 400 1.
Definition demo_attr : Attribution := mkAttribution "agent" "" "" "" "" "".

Lemma demo_small (l : LocalLedger) k s :
  l = w_ledger demo_world ∨ l = demo_reserved → local_runs l !! k = Some s →
  0 ≤ rs_spent s ∧ rs_spent s + rs_reserved s ≤ 400 ∧ rs_spent s + Z.max 0 (rs_reserved s - 400) ≤ 400.
Proof.
  intros Hl.
  assert (map_Forall (λ _ s, 0 ≤ rs_spent s ∧ rs_spent s + rs_reserved s ≤ 400
             ∧ rs_spent s + Z.max 0 (rs_reserved s - 400) ≤ 400) (local_runs l)) as H.
  { destruct Hl as [-> | ->]; apply (bool_decide_unpack _); vm_compute; exact I. }
  apply H.
Qed.

Lemma guard_settles_once_witness :
  reserve (w_ledger demo_world) "run" 400 = (demo_reserved, Ok demo_ticket) ∧
  view (w_ledger (SettleGuard.drop (mkWorld demo_reserved (UnitLedger.new ∅) [])
    (SettleGuard.observe (SettleGuard.new PriceBook.new "m" 400 demo_ticket demo_attr None) None) 5 6))
  = Ledger.settle (Ledger.reserve (view (w_ledger demo_world)) "run" 400).1 demo_ticket 400.
Proof.
  assert (reserve (w_ledger demo_world) "run" 400 = (demo_reserved, Ok demo_ticket)) as Hr
    by (vm_compute; reflexivity).
  assert (room (view (w_ledger demo_world)) "run" 400) as Hroom.
  { intros k s _ Hs. pose proof (demo_small _ k s (or_introl eq_refl) Hs). mach. }
  assert (settle_room (view demo_reserved) (mkReservation "run" 400 1) 400) as Hsr.
  { intros k s _ Hs. pose proof (demo_small _ k s (or_intror eq_refl) Hs). simpl. mach. }
  split; [exact Hr|].
  exact (proj1 (proj2 (proj2 (guard_settles_once demo_world 400 "run" demo_reserved demo_ticket
    PriceBook.new "m" demo_attr None None 5 6 7 8 I ltac:(mach) Hroom Hr ltac:(done) Hsr)))).
Defined.
