(* ===== verification/Identity.v ===== *)
(** * Who is calling: client keys and the identity map

    [crates/gateway/src/clientkeys.rs] and [identitymap.rs].  The credential a caller
    presents resolves to a key id, the key id and the agent id resolve to a unit and to
    a possible mismatch.  [serde_json] on the map's wire form and the debug printers used
    in messages are parameters. *)

From S2P Require Import Prelude Float Money Strings.

(** ** Client keys *)

(* @src clientkeys.rs CLIENT_KEY_HEADER *)
Definition CLIENT_KEY_HEADER : string := "x-fuse-key".

(* @src clientkeys.rs ClientKeys *)
Record ClientKeys := mkClientKeys { by_secret : gmap string string }.

(* @src clientkeys.rs EmptySpec *)
Inductive EmptySpec := empty_spec.

Module ClientKeys.
(** A usable entry: both halves of the split at the last colon are not blank. *)
(* @src clientkeys.rs 100-110 ClientKeys::from_spec *)
Definition parse_entry (entry : string) : option (string * string) :=
  let entry := trim entry in
  if bool_decide (entry = "") then None
  else match rsplit_char ":"%char entry with
       | None => None
       | Some (secret, key_id) =>
           let secret := trim secret in
           let key_id := trim key_id in
           if bool_decide (secret = "") || bool_decide (key_id = "") then None
           else Some (secret, key_id)
       end.

Definition add_entry (m : gmap string string) (entry : string) : gmap string string :=
  match parse_entry entry with
  | Some (secret, key_id) => <[secret := key_id]> m
  | None => m
  end.

(* @src clientkeys.rs ClientKeys::from_spec *)
Definition from_spec (spec : string) : result ClientKeys EmptySpec :=
  let trimmed := trim spec in
  if bool_decide (trimmed = "") then Ok (mkClientKeys ∅)
  else
    let m := foldl add_entry ∅ (split_char ","%char trimmed) in
    if bool_decide (m = ∅) then Err empty_spec else Ok (mkClientKeys m).

(* @src clientkeys.rs ClientKeys::enabled *)
Definition enabled (k : ClientKeys) : bool := bool_decide (by_secret k ≠ ∅).
(* @src clientkeys.rs ClientKeys::len *)
Definition len (k : ClientKeys) : nat := size (by_secret k).
(* @src clientkeys.rs ClientKeys::is_empty *)
Definition is_empty (k : ClientKeys) : bool := bool_decide (by_secret k = ∅).
(* @src clientkeys.rs ClientKeys::resolve *)
Definition resolve (k : ClientKeys) (secret : string) : option string := by_secret k !! secret.
(* @src clientkeys.rs ClientKeys::key_ids *)
Definition key_ids (k : ClientKeys) : list string := snd <$> map_to_list (by_secret k).
End ClientKeys.

(** The usable entries of a spec, in order. *)
Definition usable (spec : string) : list (string * string) :=
  omap ClientKeys.parse_entry (split_char ","%char (trim spec)).

(** The last value a list of pairs gives a key. *)
Definition assoc_last (l : list (string * string)) (k : string) : option string :=
  snd <$> last (filter (λ p, p.1 = k) l).

Lemma fold_entries l (m : gmap string string) k :
  foldl ClientKeys.add_entry m l !! k
  = match assoc_last (omap ClientKeys.parse_entry l) k with Some v => Some v | None => m !! k end.
Proof.
  unfold assoc_last. induction l as [|e l IH] using rev_ind; [done|].
  rewrite foldl_app, omap_app. simpl. unfold ClientKeys.add_entry at 1.
  destruct (ClientKeys.parse_entry e) as [[s v]|]; simpl.
  - rewrite filter_app, lookup_insert. case_decide as E.
    + rewrite filter_cons_True, filter_nil, last_snoc by done. done.
    + rewrite filter_cons_False, filter_nil, app_nil_r by done. exact IH.
  - by rewrite app_nil_r.
Qed.

Lemma usable_fold spec :
  let m := foldl ClientKeys.add_entry ∅ (split_char ","%char (trim spec)) in
  (m = ∅ ↔ usable spec = []) ∧ ∀ k, m !! k = assoc_last (usable spec) k.
Proof.
  intros m. assert (∀ k, m !! k = assoc_last (usable spec) k) as Hm.
  { intros k. unfold m. rewrite fold_entries. unfold usable.
    by destruct (assoc_last _ k). }
  split; [|exact Hm]. split.
  - intros E. destruct (usable spec) as [|[s v] l] eqn:Eu; [done|]. exfalso.
    specialize (Hm s). rewrite E in Hm. unfold assoc_last in Hm.
    rewrite filter_cons_True in Hm by done.
    destruct (last ((s, v) :: filter (λ p, p.1 = s) l)) as [p|] eqn:El; [done|].
    by apply last_None in El.
  - intros E. apply map_empty. intros k. by rewrite Hm, E.
Qed.

(** Client authentication fails closed.  A blank specification leaves it off; any
    other one either is refused, exactly when it has no usable entry, or turns it on.  A
    presented secret then resolves to the key id of its last usable entry and an unknown
    one resolves to nothing; no secret and no key id is ever blank. *)
Theorem client_keys_fail_closed spec :
  match ClientKeys.from_spec spec with
  | Err _ => trim spec ≠ "" ∧ usable spec = []
  | Ok k =>
      ClientKeys.enabled k = negb (bool_decide (trim spec = "")) ∧
      (∀ secret, ClientKeys.resolve k secret
         = if bool_decide (trim spec = "") then None else assoc_last (usable spec) secret)
  end ∧
  ∀ s v, (s, v) ∈ usable spec → s ≠ "" ∧ v ≠ "".
Proof.
  split.
  - unfold ClientKeys.from_spec. case_bool_decide as Hb; [done|].
    destruct (usable_fold spec) as [He Hm]. case_bool_decide as E; [by apply He in E|].
    unfold ClientKeys.enabled. simpl. by rewrite bool_decide_true.
  - intros s v (e & _ & He)%list_elem_of_omap. unfold ClientKeys.parse_entry in He.
    case_bool_decide; [done|]. destruct (rsplit_char _ _) as [[a b]|]; [|done].
    destruct (bool_decide _) eqn:E1; [done|]. destruct (bool_decide (trim b = "")) eqn:E2; [done|].
    breflect. naive_solver.
Qed.

Example client_keys_ex :
  (match ClientKeys.from_spec " sk:live:abc:billing , bad, :x " with
   | Ok k => ClientKeys.resolve k "sk:live:abc"
   | Err _ => None
   end) = Some "billing".
Proof. vm_compute. reflexivity. Qed.

(** ** The identity map *)

(* @src identitymap.rs StrictMode *)
Inductive StrictMode := StrictOff | StrictWarn | StrictEnforce.

Module StrictMode.
(* @src identitymap.rs StrictMode::as_wire_str *)
Definition as_wire_str (m : StrictMode) : string :=
  match m with StrictOff => "off" | StrictWarn => "warn" | StrictEnforce => "enforce" end.

(** [to_lowercase] is the Unicode mapping of the standard library. *)
(* @src identitymap.rs 94-103 from_str *)
Definition from_str (to_lowercase : string → string) (s : string) : result StrictMode string :=
  let low := to_lowercase (trim s) in
  if bool_decide (low = "off") then Ok StrictOff
  else if bool_decide (low = "warn") then Ok StrictWarn
  else if bool_decide (low = "enforce") then Ok StrictEnforce
  else Err ("invalid strict mode '" +:+ low +:+ "' (expected off|warn|enforce)").
End StrictMode.

(* @src identitymap.rs Pattern *)
Inductive Pattern := Literal (s : string) | Prefix (prefix : string).

#[export] Instance Pattern_eq_dec : EqDecision Pattern.
Proof. solve_decision. Defined.

Module Pattern.
(** [debug] prints [{raw:?}]. *)
(* @src identitymap.rs Pattern::parse *)
Definition parse (debug : string → string) (raw : string) : result Pattern string :=
  match count_char "*"%char raw with
  | O => Ok (Literal raw)
  | 1%nat =>
      if bool_decide (String.get (String.length raw - 1) raw = Some "*"%char)
      then Ok (Prefix (str_take (String.length raw - 1) raw))
      else Err ("invalid pattern " +:+ debug raw +:+ ": a '*' is only allowed as the final character (prefix match)")
  | _ => Err ("invalid pattern " +:+ debug raw +:+ ": a '*' is only allowed as the final character (prefix match)")
  end.

(* @src identitymap.rs Pattern::matches *)
Definition matches (p : Pattern) (agent_id : string) : bool :=
  match p with
  | Literal s => bool_decide (s = agent_id)
  | Prefix prefix => starts_with prefix agent_id
  end.

(* @src identitymap.rs Pattern::as_pattern_str *)
Definition as_pattern_str (p : Pattern) : string :=
  match p with Literal s => s | Prefix prefix => prefix +:+ "*" end.
End Pattern.

(* @src identitymap.rs KeyBinding *)
Record KeyBinding := mkKeyBinding {
  kb_unit : string; kb_agents : list Pattern; kb_created : option string
}.
(* @src identitymap.rs PrefixBinding *)
Record PrefixBinding := mkPrefixBinding { pb_pattern : Pattern; pb_unit : string }.
(* @src identitymap.rs IdentityMap *)
Record IdentityMap := mkIdentityMap {
  im_units : gmap string (option Microusd);
  im_keys : gmap string KeyBinding;
  im_prefixes : list PrefixBinding
}.
(* @src identitymap.rs Mismatch *)
Record Mismatch := mkMismatch { mm_reason : string }.
(* @src identitymap.rs Resolution *)
Record Resolution := mkResolution { rs_unit : option string; rs_mismatch : option Mismatch }.
(* @src identitymap.rs KeyBindingInfo *)
Record KeyBindingInfo := mkKeyBindingInfo {
  ki_unit : string; ki_agents : list string; ki_created : option string
}.
(* @src identitymap.rs WireUnit *)
Record WireUnit := mkWireUnit { wu_id : string; wu_budget_usd_month : option f64 }.
(* @src identitymap.rs WireKey *)
Record WireKey := mkWireKey {
  wk_key_id : string; wk_unit : string; wk_agents : list string; wk_created : option string
}.
(* @src identitymap.rs WirePrefix *)
Record WirePrefix := mkWirePrefix { wp_pattern : string; wp_unit : string }.
(* @src identitymap.rs WireMap *)
Record WireMap := mkWireMap {
  wm_units : list WireUnit; wm_keys : list WireKey; wm_prefixes : list WirePrefix
}.
(** The I/O error of an unreadable file and [serde_json]'s error are texts here. *)
(* @src identitymap.rs LoadError *)
Inductive LoadError := Io (path err : string) | Parse (err : string) | Invalid (msg : string).

Module IdentityMap.
Section build.
Context (debug : string → string) (show_f64 : f64 → string).

(** [v.is_finite() && v > 0.0] *)
Definition positive_finite (v : f64) : bool :=
  match v with
  | SpecFloat.S754_finite false _ _ => true
  | _ => false
  end.

(* @src identitymap.rs 354-381 IdentityMap::build *)
Fixpoint build_units (l : list WireUnit) (units : gmap string (option Microusd))
  : result (gmap string (option Microusd)) LoadError :=
  match l with
  | [] => Ok units
  | u :: l =>
      if bool_decide (trim (wu_id u) = "") then
        Err (Invalid ("units[] entry has a blank id " +:+ debug (wu_id u)
                      +:+ " (must be non-empty after trimming whitespace)"))
      else if bool_decide (is_Some (units !! wu_id u)) then
        Err (Invalid ("duplicate units[].id " +:+ debug (wu_id u)))
      else match wu_budget_usd_month u with
           | None => build_units l (<[wu_id u := None]> units)
           | Some v =>
               if positive_finite v
               then build_units l (<[wu_id u := Some (Microusd.from_usd v)]> units)
               else Err (Invalid ("units[].id " +:+ debug (wu_id u) +:+ " has budget_usd_month "
                      +:+ show_f64 v +:+ " which must be a finite number greater than zero"))
           end
  end.

(* @src identitymap.rs 404-407 IdentityMap::build *)
Fixpoint parse_patterns (l : list string) : result (list Pattern) LoadError :=
  match l with
  | [] => Ok []
  | p :: l =>
      match Pattern.parse debug p with
      | Err e => Err (Invalid e)
      | Ok p => match parse_patterns l with Ok ps => Ok (p :: ps) | Err e => Err e end
      end
  end.

(* @src identitymap.rs 383-424 IdentityMap::build *)
Fixpoint build_keys (units : gmap string (option Microusd)) (l : list WireKey)
    (keys : gmap string KeyBinding) : result (gmap string KeyBinding) LoadError :=
  match l with
  | [] => Ok keys
  | k :: l =>
      if bool_decide (trim (wk_key_id k) = "") then
        Err (Invalid ("keys[] entry has a blank key_id " +:+ debug (wk_key_id k)
                      +:+ " (must be non-empty after trimming whitespace)"))
      else if bool_decide (is_Some (keys !! wk_key_id k)) then
        Err (Invalid ("duplicate keys[].key_id " +:+ debug (wk_key_id k)))
      else if bool_decide (units !! wk_unit k = None) then
        Err (Invalid ("keys[].key_id " +:+ debug (wk_key_id k) +:+ " names unit "
                      +:+ debug (wk_unit k) +:+ " which is not declared in units[]"))
      else match parse_patterns (wk_agents k) with
           | Err e => Err e
           | Ok agents =>
               let created := match wk_created k with
                              | Some s => if bool_decide (trim s ≠ "") then Some s else None
                              | None => None
                              end in
               build_keys units l
                 (<[wk_key_id k := mkKeyBinding (wk_unit k) agents created]> keys)
           end
  end.

(* @src identitymap.rs 426-440 IdentityMap::build *)
Fixpoint build_prefixes (units : gmap string (option Microusd)) (l : list WirePrefix)
  : result (list PrefixBinding) LoadError :=
  match l with
  | [] => Ok []
  | p :: l =>
      if bool_decide (units !! wp_unit p = None) then
        Err (Invalid ("prefixes[] entry matching " +:+ debug (wp_pattern p) +:+ " names unit "
                      +:+ debug (wp_unit p) +:+ " which is not declared in units[]"))
      else match Pattern.parse debug (wp_pattern p) with
           | Err e => Err (Invalid e)
           | Ok pat => match build_prefixes units l with
                       | Ok ps => Ok (mkPrefixBinding pat (wp_unit p) :: ps)
                       | Err e => Err e
                       end
           end
  end.

(* @src identitymap.rs IdentityMap::build *)
Definition build (wire : WireMap) : result IdentityMap LoadError :=
  match build_units (wm_units wire) ∅ with
  | Err e => Err e
  | Ok units =>
      match build_keys units (wm_keys wire) ∅ with
      | Err e => Err e
      | Ok keys =>
          match build_prefixes units (wm_prefixes wire) with
          | Err e => Err e
          | Ok prefixes => Ok (mkIdentityMap units keys prefixes)
          end
      end
  end.

(* @src identitymap.rs IdentityMap::parse *)
Definition parse (from_str : string → result WireMap string) (raw : string)
  : result IdentityMap LoadError :=
  let trimmed := trim raw in
  if bool_decide (trimmed = "") then Ok (mkIdentityMap ∅ ∅ [])
  else match from_str trimmed with
       | Err e => Err (Parse e)
       | Ok wire => build wire
       end.

(** [file] is what reading the path yields. *)
(* @src identitymap.rs IdentityMap::from_path *)
Definition from_path (from_str : string → result WireMap string) (path : string)
    (file : result string string) : result IdentityMap LoadError :=
  match file with
  | Err e => Err (Io path e)
  | Ok raw => parse from_str raw
  end.
End build.

(* @src identitymap.rs IdentityMap::enabled *)
Definition enabled (m : IdentityMap) : bool :=
  bool_decide (im_units m ≠ ∅) || bool_decide (im_keys m ≠ ∅) || bool_decide (im_prefixes m ≠ []).

Fixpoint first_prefix (l : list PrefixBinding) (agent_id : string) : option string :=
  match l with
  | [] => None
  | p :: l => if Pattern.matches (pb_pattern p) agent_id then Some (pb_unit p)
              else first_prefix l agent_id
  end.

(* @src identitymap.rs IdentityMap::resolve *)
Definition resolve (m : IdentityMap) (key_id agent_id : string) : Resolution :=
  match (if bool_decide (key_id ≠ "") then im_keys m !! key_id else None) with
  | Some b =>
      let unit := Some (kb_unit b) in
      if bool_decide (kb_agents b = []) then mkResolution unit None
      else if bool_decide (agent_id = "") then mkResolution unit (Some (mkMismatch "agent_id_missing"))
      else if existsb (λ p, Pattern.matches p agent_id) (kb_agents b) then mkResolution unit None
      else mkResolution unit (Some (mkMismatch "agent_id_not_allowed"))
  | None => mkResolution (first_prefix (im_prefixes m) agent_id) None
  end.

(* @src identitymap.rs IdentityMap::unit_budget *)
Definition unit_budget (m : IdentityMap) (unit : string) : option Microusd :=
  mjoin (im_units m !! unit).
(* @src identitymap.rs IdentityMap::unit_budgets *)
Definition unit_budgets (m : IdentityMap) : gmap string Microusd := omap id (im_units m).
(* @src identitymap.rs IdentityMap::key_ids *)
Definition key_ids (m : IdentityMap) : list string := fst <$> map_to_list (im_keys m).
(* @src identitymap.rs IdentityMap::key_binding *)
Definition key_binding (m : IdentityMap) (key_id : string) : option KeyBindingInfo :=
  (λ b, mkKeyBindingInfo (kb_unit b) (Pattern.as_pattern_str <$> kb_agents b) (kb_created b))
    <$> im_keys m !! key_id.
(* @src identitymap.rs IdentityMap::unit_count *)
Definition unit_count (m : IdentityMap) : nat := size (im_units m).
(* @src identitymap.rs IdentityMap::key_count *)
Definition key_count (m : IdentityMap) : nat := size (im_keys m).
End IdentityMap.

(** ** What the map means *)

(** The documented grammar: a literal, or a prefix followed by one final star. *)
Definition wildcard (raw agent : string) : Prop :=
  (∃ p rest, raw = p +:+ "*" ∧ agent = p +:+ rest) ∨ (free_of "*"%char raw ∧ raw = agent).

Lemma last_char s c :
  String.get (String.length s - 1) s = Some c →
  s = str_take (String.length s - 1) s +:+ String c "".
Proof.
  intros H. rewrite <-(str_take_drop (String.length s - 1) s) at 1. f_equal.
  rewrite <-get_drop in H.
  assert (String.length (str_drop (String.length s - 1) s) = 1 ∨ s = "")%nat as [Hl|E].
  { destruct s as [|d s']; [by right|left]. set (n := (String.length (String d s') - 1)%nat).
    pose proof (str_take_drop n (String d s')) as Ht. apply (f_equal String.length) in Ht.
    rewrite append_length, str_take_length in Ht by (unfold n; simpl; lia).
    unfold n in *. simpl in *. lia. }
  - destruct (str_drop _ s) as [|d [|e r]]; simpl in *; simplify_eq. done.
  - subst s. done.
Qed.

Lemma append_inj_r a b c : a +:+ c = b +:+ c → a = b.
Proof.
  intros H. pose proof (f_equal String.length H) as Hl. rewrite !append_length in Hl.
  by apply append_inj_len in H as [-> _]; [|lia].
Qed.

Lemma starts_with_iff p s : starts_with p s = true ↔ ∃ r, s = p +:+ r.
Proof.
  unfold starts_with. destruct (strip_prefix p s) as [r|] eqn:E.
  - apply strip_prefix_some in E. split; [by exists r|done].
  - split; [done|]. intros [r Hr]. apply strip_prefix_some in Hr. congruence.
Qed.

Lemma pattern_ok debug raw p :
  Pattern.parse debug raw = Ok p →
  Pattern.as_pattern_str p = raw ∧ ∀ a, Pattern.matches p a = true ↔ wildcard raw a.
Proof.
  unfold Pattern.parse. destruct (count_char "*" raw) as [|[|n]] eqn:Ec; [| |done].
  - intros [= <-]. split; [done|]. intros a. simpl. rewrite bool_decide_eq_true.
    unfold wildcard. split; [by right|]. intros [(q & r & -> & ->)|[_ ?]]; [|done].
    rewrite count_char_append in Ec. simpl in Ec. lia.
  - case_bool_decide as Hl; [|done]. intros [= <-]. apply last_char in Hl.
    simpl. split; [by rewrite <-Hl|]. intros a. rewrite starts_with_iff. unfold wildcard. split.
    + intros [r ->]. left. by exists (str_take (String.length raw - 1) raw), r.
    + intros [(q & r & Hq & ->)|[Hf _]]; [|unfold free_of in Hf; congruence].
      exists r. f_equal. apply (append_inj_r _ _ "*"). by rewrite <-Hl, <-Hq.
Qed.

Lemma parse_patterns_ok debug l ps :
  IdentityMap.parse_patterns debug l = Ok ps →
  Forall2 (λ raw p, Pattern.as_pattern_str p = raw
                    ∧ ∀ a, Pattern.matches p a = true ↔ wildcard raw a) l ps.
Proof.
  revert ps. induction l as [|raw l IH]; intros ps; simpl; [by intros [= <-]|].
  destruct (Pattern.parse debug raw) as [p|] eqn:Ep; [|done].
  destruct (IdentityMap.parse_patterns debug l) as [ps'|]; [|done]. intros [= <-].
  constructor; [by eapply pattern_ok|auto].
Qed.

Lemma build_keys_ok debug units l keys0 keys :
  IdentityMap.build_keys debug units l keys0 = Ok keys →
  NoDup (wk_key_id <$> l) ∧
  (∀ k, k ∉ wk_key_id <$> l → keys !! k = keys0 !! k) ∧
  (∀ wk, wk ∈ l → trim (wk_key_id wk) ≠ "" ∧ keys0 !! wk_key_id wk = None ∧
     is_Some (units !! wk_unit wk) ∧
     ∃ b ps, keys !! wk_key_id wk = Some b ∧ kb_unit b = wk_unit wk ∧ kb_agents b = ps ∧
       IdentityMap.parse_patterns debug (wk_agents wk) = Ok ps).
Proof.
  revert keys0. induction l as [|k l IH]; intros keys0; simpl.
  { intros [= <-]. split; [constructor|]. split; [done|]. by intros ? ?%elem_of_nil. }
  case_bool_decide as Hb; [done|]. case_bool_decide as Hd; [done|].
  case_bool_decide as Hu; [done|].
  destruct (IdentityMap.parse_patterns debug (wk_agents k)) as [ps|] eqn:Ep; [|done].
  intros H. destruct (IH _ H) as (Hnd & Hout & Hin).
  assert (wk_key_id k ∉ wk_key_id <$> l) as Hk.
  { intros (wk & E & Hwk)%list_elem_of_fmap. destruct (Hin wk Hwk) as (_ & Hn & _).
    rewrite <-E, lookup_insert_eq in Hn. done. }
  split; [by constructor|]. split.
  - intros j [Hj1 Hj2]%not_elem_of_cons. rewrite Hout by done. by rewrite lookup_insert_ne.
  - intros wk [->|Hwk]%elem_of_cons.
    + split; [done|]. split; [by apply eq_None_not_Some|].
      split; [by apply not_eq_None_Some|]. rewrite Hout by done. rewrite lookup_insert_eq.
      eexists _, ps. done.
    + destruct (Hin wk Hwk) as (H1 & H2 & H3 & H4). split; [done|]. split; [|done].
      rewrite lookup_insert_ne in H2; [done|]. intros E. apply Hk. rewrite E.
      by apply list_elem_of_fmap_2.
Qed.

Lemma build_units_ok debug show_f64 l units0 units :
  IdentityMap.build_units debug show_f64 l units0 = Ok units →
  NoDup (wu_id <$> l) ∧ (∀ u, u ∉ wu_id <$> l → units !! u = units0 !! u) ∧
  (∀ u, u ∈ l → units0 !! wu_id u = None ∧
     units !! wu_id u = Some (Microusd.from_usd <$> wu_budget_usd_month u) ∧
     ∀ v, wu_budget_usd_month u = Some v → IdentityMap.positive_finite v = true).
Proof.
  revert units0. induction l as [|u l IH]; intros units0; simpl.
  { intros [= <-]. split; [constructor|]. split; [done|]. by intros ? ?%elem_of_nil. }
  case_bool_decide as Hb; [done|]. case_bool_decide as Hd; [done|]. intros H.
  assert (IdentityMap.build_units debug show_f64 l
            (<[wu_id u := Microusd.from_usd <$> wu_budget_usd_month u]> units0) = Ok units ∧
          ∀ v, wu_budget_usd_month u = Some v → IdentityMap.positive_finite v = true) as [H' Hv].
  { destruct (wu_budget_usd_month u) as [v|]; [|done].
    destruct (IdentityMap.positive_finite v) eqn:E; [|done]. split; [done|]. by intros ? [= <-]. }
  destruct (IH _ H') as (Hnd & Hout & Hin).
  assert (wu_id u ∉ wu_id <$> l) as Hk.
  { intros (x & E & Hx)%list_elem_of_fmap. destruct (Hin x Hx) as (Hn & _).
    rewrite <-E, lookup_insert_eq in Hn. done. }
  split; [by constructor|]. split.
  - intros j [Hj1 Hj2]%not_elem_of_cons. rewrite Hout by done. by rewrite lookup_insert_ne.
  - intros x [->|Hx]%elem_of_cons.
    + split; [by apply eq_None_not_Some|]. rewrite Hout by done. by rewrite lookup_insert_eq.
    + destruct (Hin x Hx) as (H1 & H2). split; [|done].
      rewrite lookup_insert_ne in H1; [done|]. intros E. apply Hk. rewrite E.
      by apply list_elem_of_fmap_2.
Qed.

Lemma build_prefixes_ok debug units l ps :
  IdentityMap.build_prefixes debug units l = Ok ps →
  Forall2 (λ w p, pb_unit p = wp_unit w ∧ is_Some (units !! wp_unit w) ∧
                  ∀ a, Pattern.matches (pb_pattern p) a = true ↔ wildcard (wp_pattern w) a) l ps.
Proof.
  revert ps. induction l as [|w l IH]; intros ps; simpl; [by intros [= <-]|].
  case_bool_decide as Hu; [done|].
  destruct (Pattern.parse debug (wp_pattern w)) as [p|] eqn:Ep; [|done].
  destruct (IdentityMap.build_prefixes debug units l) as [ps'|]; [|done]. intros [= <-].
  constructor; [|auto]. split; [done|]. split; [by apply not_eq_None_Some|].
  by eapply pattern_ok.
Qed.

(** The first prefix entry, in document order, whose pattern matches. *)
Definition first_match (l : list WirePrefix) (agent : string) (u : option string) : Prop :=
  match u with
  | Some u => ∃ pre w post, l = pre ++ w :: post ∧ wp_unit w = u ∧ wildcard (wp_pattern w) agent ∧
                ∀ x, x ∈ pre → ¬ wildcard (wp_pattern x) agent
  | None => ∀ x, x ∈ l → ¬ wildcard (wp_pattern x) agent
  end.

Lemma first_prefix_ok (units : gmap string (option Microusd)) l ps agent :
  Forall2 (λ w p, pb_unit p = wp_unit w ∧ is_Some (units !! wp_unit w) ∧
                  ∀ a, Pattern.matches (pb_pattern p) a = true ↔ wildcard (wp_pattern w) a) l ps →
  first_match l agent (IdentityMap.first_prefix ps agent).
Proof.
  induction 1 as [|w p l ps (Hu & _ & Hm) _ IH]; simpl; [by intros ? ?%elem_of_nil|].
  specialize (Hm agent). destruct (Pattern.matches (pb_pattern p) agent).
  - exists [], w, l. split; [done|]. split; [done|]. split; [by apply Hm|].
    by intros ? ?%elem_of_nil.
  - assert (¬ wildcard (wp_pattern w) agent) as Hw by (intros Hc%Hm; done).
    destruct (IdentityMap.first_prefix ps agent) as [u|]; simpl in *.
    + destruct IH as (pre & x & post & -> & H1 & H2 & H3). exists (w :: pre), x, post.
      do 3 (split; [done|]). by intros y [->|Hy]%elem_of_cons; [|apply H3].
    + by intros y [->|Hy]%elem_of_cons; [|apply IH].
Qed.

Lemma existsb_patterns (raws : list string) ps agent :
  Forall2 (λ raw p, Pattern.as_pattern_str p = raw
                    ∧ ∀ a, Pattern.matches p a = true ↔ wildcard raw a) raws ps →
  existsb (λ p, Pattern.matches p agent) ps = true ↔ ∃ raw, raw ∈ raws ∧ wildcard raw agent.
Proof.
  induction 1 as [|raw p raws ps [_ Hm] _ IH]; simpl; [by split; [|intros (? & ?%elem_of_nil & _)]|].
  rewrite orb_true_iff, Hm, IH. setoid_rewrite elem_of_cons. naive_solver.
Qed.

(** An accepted map means what its document says.  Identifiers are unique and every
    key and prefix names a declared unit.  A call with a bound key is attributed to the
    key's unit whatever agent id it claims, and is a mismatch exactly when the binding
    lists agents and the claimed id is missing or matches none of their patterns; a call
    without a bound key is attributed to the first matching prefix entry in document
    order, and is never a mismatch; the unit's budget is its declared one. *)
Theorem identity_map_meaning debug show_f64 wire m :
  IdentityMap.build debug show_f64 wire = Ok m →
  NoDup (wu_id <$> wm_units wire) ∧ NoDup (wk_key_id <$> wm_keys wire) ∧
  (∀ u, u ∈ wm_units wire →
     IdentityMap.unit_budget m (wu_id u) = Microusd.from_usd <$> wu_budget_usd_month u) ∧
  (∀ wk agent, wk ∈ wm_keys wire →
     wk_unit wk ∈ wu_id <$> wm_units wire ∧
     ∃ mm, IdentityMap.resolve m (wk_key_id wk) agent = mkResolution (Some (wk_unit wk)) mm ∧
       match mm with
       | None => wk_agents wk = [] ∨
                 agent ≠ "" ∧ ∃ raw, raw ∈ wk_agents wk ∧ wildcard raw agent
       | Some x => wk_agents wk ≠ [] ∧
                   if decide (agent = "") then mm_reason x = "agent_id_missing"
                   else mm_reason x = "agent_id_not_allowed" ∧
                        ∀ raw, raw ∈ wk_agents wk → ¬ wildcard raw agent
       end) ∧
  (∀ key agent, key = "" ∨ key ∉ wk_key_id <$> wm_keys wire →
     ∃ u, IdentityMap.resolve m key agent = mkResolution u None ∧
          first_match (wm_prefixes wire) agent u ∧
          ∀ x, u = Some x → x ∈ wu_id <$> wm_units wire).
Proof.
  unfold IdentityMap.build. intros H.
  destruct (IdentityMap.build_units _ _ _ _) as [units|] eqn:Eu; [|done].
  destruct (IdentityMap.build_keys _ _ _ _) as [keys|] eqn:Ek; [|done].
  destruct (IdentityMap.build_prefixes _ _ _) as [prefixes|] eqn:Ep; [|done].
  injection H as <-. apply build_units_ok in Eu as (Hund & Huout & Huin).
  apply build_keys_ok in Ek as (Hknd & Hkout & Hkin). apply build_prefixes_ok in Ep as Hp.
  assert (∀ u, is_Some (units !! u) → u ∈ wu_id <$> wm_units wire) as Hdecl.
  { intros u Hs. destruct (decide (u ∈ wu_id <$> wm_units wire)) as [|Hn]; [done|].
    rewrite Huout in Hs by done. rewrite lookup_empty in Hs. by destruct Hs. }
  split; [done|]. split; [done|]. split; [|split].
  - intros u Hu. unfold IdentityMap.unit_budget. simpl.
    destruct (Huin u Hu) as (_ & -> & _). done.
  - intros wk agent Hwk. destruct (Hkin wk Hwk) as (Hne & _ & Hs & b & ps & Hb & Hbu & Hba & Hps).
    split; [by apply Hdecl|]. apply parse_patterns_ok in Hps.
    assert (wk_key_id wk ≠ "") as Hkey by (intros E; rewrite E in Hne; done).
    pose proof (existsb_patterns _ _ agent Hps) as Hex.
    unfold IdentityMap.resolve. rewrite bool_decide_true by done. simpl. rewrite Hb, Hbu, Hba.
    case_bool_decide as Hnil.
    { exists None. split; [done|]. left. rewrite Hnil in Hps. by apply Forall2_nil_inv_r in Hps. }
    assert (wk_agents wk ≠ []) as Hag by (intros E; rewrite E in Hps; by apply Forall2_nil_inv_l in Hps).
    case_bool_decide as Ha; [eexists (Some _); split; [done|]; split; [done|];
                              by rewrite decide_True|].
    destruct (existsb _ ps).
    + exists None. split; [done|]. right. split; [done|]. by apply Hex.
    + eexists (Some _). split; [done|]. split; [done|]. rewrite decide_False by done.
      split; [done|]. intros raw Hraw Hw. assert (false = true) by (apply Hex; eauto). done.
  - intros key agent Hkey. unfold IdentityMap.resolve. simpl.
    assert ((if bool_decide (key ≠ "") then keys !! key else None) = None) as ->.
    { case_bool_decide; [|done]. destruct Hkey as [|Hn]; [done|]. rewrite Hkout by done.
      apply lookup_empty. }
    eexists. split; [done|]. pose proof (first_prefix_ok units _ _ agent Hp) as Hf.
    split; [exact Hf|]. intros x Hx. rewrite Hx in Hf. simpl in Hf.
    destruct Hf as (pre & w & post & Hl & <- & _). apply Hdecl.
    rewrite Hl in Hp. apply Forall2_app_inv_l in Hp as (? & ? & _ & Hp & _).
    inversion Hp as [|? ? ? ? (_ & Hs & _) _]; subst. done.
Qed.

Definition demo_wire : WireMap :=
  mkWireMap [mkWireUnit "treasury" (Some (f64_of_Z 2000)); mkWireUnit "rest" None]
    [mkWireKey "k1" "treasury" ["agent://bank/treasury/*"] None]
    [mkWirePrefix "agent://bank/*" "rest"].

Definition demo_map : IdentityMap :=
  match IdentityMap.build id (λ _, "") demo_wire with
  | Ok m => m | Err _ => mkIdentityMap ∅ ∅ [] end.

Example demo_resolve :
  IdentityMap.resolve demo_map "k1" "agent://bank/hr/7"
  = mkResolution (Some "treasury") (Some (mkMismatch "agent_id_not_allowed")).
Proof. vm_compute. reflexivity. Qed.

Lemma identity_map_meaning_witness :
  IdentityMap.build id (λ _, "") demo_wire = Ok demo_map ∧
  IdentityMap.unit_budget demo_map "treasury" = Some (Microusd.from_usd (f64_of_Z 2000)).
Proof.
  assert (IdentityMap.build id (λ _, "") demo_wire = Ok demo_map) as H
    by (vm_compute; reflexivity).
  split; [exact H|].
  exact (proj1 (proj2 (proj2 (identity_map_meaning id (λ _, "") demo_wire demo_map H)))
           (mkWireUnit "treasury" (Some (f64_of_Z 2000))) ltac:(apply list_elem_of_here)).
Defined.
