(* ===== verification/AppState.v ===== *)
(** * The gateway's shared state

    [crates/gateway/src/state.rs], [keystats.rs] and [firewall.rs]: the in-process maps
    behind their mutexes, and the counters of client-key activity.  Each method is one
    critical section. *)

From S2P Require Import Prelude Float Money Taint.

(** ** Client-key counters *)

(* @src keystats.rs KeyCounters *)
Record KeyCounters := mkKeyCounters {
  calls : Z;                         (* u64 *)
  identity_mismatches : Z;           (* u64 *)
  last_seen_millis : option Z
}.
Definition default_counters : KeyCounters := mkKeyCounters 0 0 None.

(* @src keystats.rs UnauthorizedCounters *)
Record UnauthorizedCounters := mkUnauthorized { attempts : Z; last_millis : option Z }.

(* @src keystats.rs 61-65 Inner *)
Record KeyStats := mkKeyStats {
  per_key : gmap string KeyCounters;
  unauthorized : UnauthorizedCounters
}.

Module KeyStats.
Definition empty : KeyStats := mkKeyStats ∅ (mkUnauthorized 0 None).

(* @src keystats.rs KeyStats::record_call *)
Definition record_call (k : KeyStats) (key_id : string) (now : Z) : KeyStats :=
  if bool_decide (key_id = "") then k
  else
    let e := default default_counters (per_key k !! key_id) in
    mkKeyStats (<[key_id := mkKeyCounters (u64_wrap (calls e + 1)) (identity_mismatches e)
                              (Some now)]> (per_key k)) (unauthorized k).

(* @src keystats.rs KeyStats::record_identity_mismatch *)
Definition record_identity_mismatch (k : KeyStats) (key_id : string) : KeyStats :=
  if bool_decide (key_id = "") then k
  else
    let e := default default_counters (per_key k !! key_id) in
    mkKeyStats (<[key_id := mkKeyCounters (calls e) (u64_wrap (identity_mismatches e + 1))
                              (last_seen_millis e)]> (per_key k)) (unauthorized k).

(* @src keystats.rs KeyStats::record_unauthorized *)
Definition record_unauthorized (k : KeyStats) (now : Z) : KeyStats :=
  mkKeyStats (per_key k)
    (mkUnauthorized (u64_wrap (attempts (unauthorized k) + 1)) (Some now)).

(* @src keystats.rs KeyStats::snapshot *)
Definition snapshot (k : KeyStats) : gmap string KeyCounters * UnauthorizedCounters :=
  (per_key k, unauthorized k).
End KeyStats.

(** ** The firewall configuration *)

(* @src firewall.rs FirewallConfig *)
Record FirewallConfig := mkFirewallConfig {
  fw_mode : FirewallMode;
  sources : gmap string string;
  capabilities : gmap string string;
  fw_rules : list TaintRule
}.

Module FirewallConfig.
(* @src firewall.rs FirewallConfig::disabled *)
Definition disabled : FirewallConfig := mkFirewallConfig FwOff ∅ ∅ [].

(* @src firewall.rs FirewallConfig::defaults *)
Definition defaults (m : FirewallMode) : FirewallConfig :=
  mkFirewallConfig m
    (list_to_map
       [("web_search", "web"); ("fetch_url", "web"); ("browse", "web");
        ("read_email", "email"); ("read_upload", "file"); ("read_file", "file");
        ("vault_read", "secrets"); ("read_secret", "secrets")])
    (list_to_map
       [("run_shell", "exec"); ("exec", "exec"); ("bash", "exec");
        ("write_file", "write"); ("db_write", "write"); ("deploy", "write");
        ("send_email", "network_egress"); ("http_post", "network_egress");
        ("send_message", "network_egress")])
    [mkTaintRule ["web"; "email"; "file"; "unclassified"] ["exec"; "write"; "network_egress"];
     mkTaintRule ["secrets"] ["network_egress"]].

(** The value of [TOKENFUSE_FIREWALL], if set. *)
(* @src firewall.rs 71-78 from_env *)
Definition from_env (v : option string) : FirewallConfig :=
  if bool_decide (v = Some "enforce") then defaults FwEnforce
  else if bool_decide (v = Some "shadow") then defaults FwShadow
  else disabled.
End FirewallConfig.

(** ** The maps *)

(* @src state.rs 61-67 AppState *)
Record AppState := mkAppState {
  history : gmap string (list Z);
  killed : gset string;
  taint : gmap string Labels;
  cloud_budgets : gmap string Microusd
}.

Module AppState.
Definition empty : AppState := mkAppState ∅ ∅ ∅ ∅.

(* @src state.rs AppState::set_cloud_budgets *)
Definition set_cloud_budgets (s : AppState) (b : gmap string Microusd) : AppState :=
  mkAppState (history s) (killed s) (taint s) b.

(* @src state.rs AppState::cloud_budget *)
Definition cloud_budget (s : AppState) (run_id : string) : option Microusd :=
  cloud_budgets s !! run_id.

(* @src state.rs AppState::accumulate_taint *)
Definition accumulate_taint (s : AppState) (run_id : string) (labels : Labels)
  : AppState * Labels :=
  let all := default ∅ (taint s !! run_id) ∪ labels in
  (mkAppState (history s) (killed s) (<[run_id := all]> (taint s)) (cloud_budgets s), all).

(* @src state.rs AppState::kill *)
Definition kill (s : AppState) (run_id : string) : AppState :=
  mkAppState (history s) ({[ run_id ]} ∪ killed s) (taint s) (cloud_budgets s).

(* @src state.rs AppState::is_killed *)
Definition is_killed (s : AppState) (run_id : string) : bool := bool_decide (run_id ∈ killed s).

(* @src state.rs 254 MAX *)
Definition MAX : nat := 128.

(* @src state.rs AppState::record_input *)
Definition record_input (s : AppState) (run_id : string) (input_tokens : Z)
  : AppState * list Z :=
  let entry := default [] (history s !! run_id) ++ [input_tokens] in
  let entry := drop (length entry - MAX) entry in
  (mkAppState (<[run_id := entry]> (history s)) (killed s) (taint s) (cloud_budgets s), entry).
End AppState.

(** The last [n] inputs of a run. *)
Definition last_n {A} (n : nat) (l : list A) : list A := drop (length l - n) l.

Lemma last_n_snoc {A} n (l : list A) x :
  (0 < n)%nat → last_n n (last_n n l ++ [x]) = last_n n (l ++ [x]).
Proof.
  intros Hn. unfold last_n. rewrite !length_app, length_drop. simpl.
  rewrite !drop_app, drop_drop, length_drop.
  replace (length l - (length l - n))%nat with (Nat.min n (length l)) by lia.
  f_equal; [f_equal; lia|f_equal; lia].
Qed.

(** The inputs recorded for a run, one after the other. *)
Definition record_inputs (s : AppState) (run_id : string) (l : list Z) : AppState :=
  foldl (λ s x, (AppState.record_input s run_id x).1) s l.

Lemma record_input_history s run_id x :
  history (AppState.record_input s run_id x).1 !! run_id
  = Some (last_n AppState.MAX (default [] (history s !! run_id) ++ [x])).
Proof. unfold AppState.record_input. cbn [fst history]. by rewrite lookup_insert_eq. Qed.

(** The history of a run is the last [MAX] of its inputs, in order, whatever was
    recorded for it. *)
Lemma history_window run_id l :
  l ≠ [] →
  history (record_inputs AppState.empty run_id l) !! run_id = Some (last_n AppState.MAX l).
Proof.
  induction l as [|x l IH] using rev_ind; [done|]. intros _. unfold record_inputs in *.
  rewrite foldl_app. cbn [foldl]. rewrite record_input_history. f_equal.
  destruct (decide (l = [])) as [->|Hl]; [done|]. rewrite IH by done. cbn [default from_option].
  apply (last_n_snoc AppState.MAX). unfold AppState.MAX. lia.
Qed.

(** Taint only grows. *)
Lemma taint_grows s run_id labels l :
  l ∈ default ∅ (taint s !! run_id) → l ∈ (AppState.accumulate_taint s run_id labels).2.
Proof. simpl. set_solver. Qed.
