(* ===== verification/Wardryx.v ===== *)
(** * The Wardryx enforcement hook

    [crates/gateway/src/wardryx.rs]: asking the policy decision point, its short cache of
    decisions, and the fallback when it does not answer.  The answer of the decision
    point (the HTTP exchange and its JSON) is an input of each call; the hash behind the
    cache key and the elapsed time are parameters and inputs. *)

From S2P Require Import Prelude Float Strings.

(* @src wardryx.rs WardryxMode *)
Inductive WardryxMode := WxOff | WxShadow | WxEnforce.
(* @src wardryx.rs FailMode *)
Inductive FailMode := FailOpen | FailClosed.
(* @src wardryx.rs WardryxDecision *)
Inductive WardryxDecision := WxAllow | WxDeny | WxHold.

#[export] Instance WardryxMode_eq_dec : EqDecision WardryxMode.
Proof. solve_decision. Defined.
#[export] Instance WardryxDecision_eq_dec : EqDecision WardryxDecision.
Proof. solve_decision. Defined.

Module WardryxDecision.
(* @src wardryx.rs WardryxDecision::parse *)
Definition parse (s : string) : option WardryxDecision :=
  let low := to_ascii_lowercase s in
  if bool_decide (low = "allow") then Some WxAllow
  else if bool_decide (low = "deny") then Some WxDeny
  else if bool_decide (low = "hold") then Some WxHold
  else None.

(* @src wardryx.rs WardryxDecision::as_wire_str *)
Definition as_wire_str (d : WardryxDecision) : string :=
  match d with WxAllow => "allow" | WxDeny => "deny" | WxHold => "hold" end.
End WardryxDecision.

(* @src wardryx.rs WardryxOutcome *)
Record WardryxOutcome := mkOutcome {
  wx_decision : WardryxDecision;
  policy_version : option string;
  wx_reason : option string;
  approval_id : option string;
  approval_token_required : bool
}.

(* @src wardryx.rs DecideContext *)
Record DecideContext := mkDecideContext {
  dc_agent_id : string;
  dc_run_id : string;
  dc_on_behalf_of : list string;
  dc_tool_names : list string;
  dc_steps : Z;
  dc_domains : list string;
  dc_model : string;
  dc_est_cost_usd : f64;
  dc_attestation_method : option string;
  dc_approval_token : option string
}.

(* @src wardryx.rs DecideWireResponse *)
Record DecideWireResponse := mkWireResponse {
  w_decision : string;
  w_policy_version : option string;
  w_reason : option string;
  w_approval_id : option string;
  w_approval_token_required : option bool;
  w_cacheable : bool
}.

(* @src wardryx.rs WardryxError *)
Inductive WardryxError := Transport (e : string) | Decode (e : string) | UnknownDecision (d : string).

(** [Display], by [thiserror]. *)
Definition show_error (e : WardryxError) : string :=
  match e with
  | Transport e => "wardryx request failed: " +:+ e
  | Decode e => "wardryx response was not valid JSON: " +:+ e
  | UnknownDecision d => "wardryx returned an unrecognized decision: " +:+ d
  end.

(** The client's reading of the decoded answer, or of the error before it. *)
(* @src wardryx.rs WardryxClient::decide *)
Definition client_decide (answer : result DecideWireResponse WardryxError)
  : result (WardryxOutcome * bool) WardryxError :=
  match answer with
  | Err e => Err e
  | Ok wire =>
      match WardryxDecision.parse (w_decision wire) with
      | None => Err (UnknownDecision (w_decision wire))
      | Some d =>
          Ok (mkOutcome d (w_policy_version wire) (w_reason wire) (w_approval_id wire)
                (default true (w_approval_token_required wire)), w_cacheable wire)
      end
  end.

(* @src wardryx.rs CacheEntry *)
Record CacheEntry := mkCacheEntry {
  ce_decision : WardryxDecision;
  ce_policy_version : option string;
  ce_reason : option string;
  cached_at : Z
}.

(* @src wardryx.rs Wardryx *)
Record Wardryx := mkWardryx {
  wx_mode : WardryxMode;
  failmode : FailMode;
  has_client : bool;
  ttl : Z;
  entries : gmap (string * Z) CacheEntry
}.

(* @src wardryx.rs DEFAULT_CACHE_TTL_MS *)
Definition DEFAULT_CACHE_TTL_MS : Z := 3000.

Module Wardryx.
(* @src wardryx.rs Wardryx::disabled *)
Definition disabled : Wardryx := mkWardryx WxOff FailOpen false DEFAULT_CACHE_TTL_MS ∅.
(* @src wardryx.rs Wardryx::new *)
Definition new (m : WardryxMode) (f : FailMode) (cache_ttl : Z) : Wardryx :=
  mkWardryx m f true cache_ttl ∅.

Section hook.
(** [DefaultHasher] over the sorted tool names and the attestation method. *)
Context (hash : list string → option string → Z).

(* @src wardryx.rs Cache::key *)
Definition key (agent_id : string) (tool_names : list string) (att : option string) : string * Z :=
  (agent_id, hash (sort_by str_leb tool_names) att).

Definition ctx_key (ctx : DecideContext) : string * Z :=
  key (dc_agent_id ctx) (dc_tool_names ctx) (dc_attestation_method ctx).

(* @src wardryx.rs Cache::get *)
Definition get (w : Wardryx) (k : string * Z) (now : Z) : option WardryxOutcome :=
  match entries w !! k with
  | None => None
  | Some e =>
      if ttl w <=? now - cached_at e then None
      else Some (mkOutcome (ce_decision e) (ce_policy_version e) (ce_reason e) None true)
  end.

(* @src wardryx.rs Cache::put *)
Definition put (w : Wardryx) (k : string * Z) (o : WardryxOutcome) (cacheable : bool) (now : Z)
  : Wardryx :=
  if bool_decide (wx_decision o = WxHold) then w
  else if negb cacheable then w
  else mkWardryx (wx_mode w) (failmode w) (has_client w) (ttl w)
         (<[k := mkCacheEntry (wx_decision o) (policy_version o) (wx_reason o) now]> (entries w)).

(* @src wardryx.rs Wardryx::fallback *)
Definition fallback (w : Wardryx) (detail : string) : WardryxOutcome :=
  mkOutcome (match failmode w with FailOpen => WxAllow | FailClosed => WxDeny end) None
    (Some ("wardryx unreachable (" +:+ detail +:+ "); failmode="
           +:+ (match failmode w with FailOpen => "Open" | FailClosed => "Closed" end)
           +:+ " applied")) None true.

(** After a miss: the decision point is asked, and its answer cached. *)
(* @src wardryx.rs 491-527 Wardryx::decide *)
Definition conclude (w : Wardryx) (ctx : DecideContext) (answered : Z)
    (answer : result DecideWireResponse WardryxError) : Wardryx * WardryxOutcome :=
  if negb (has_client w) then (w, fallback w "wardryx hook has no client configured")
  else match client_decide answer with
       | Ok (o, cacheable) => (put w (ctx_key ctx) o cacheable answered, o)
       | Err e => (w, fallback w (show_error e))
       end.

(** One call alone: [asked] and [answered] are the times of the cache lookup and of the
    answer.  ([Gateway] runs the two halves with other requests in between.) *)
(* @src wardryx.rs Wardryx::decide *)
Definition decide (w : Wardryx) (ctx : DecideContext) (asked answered : Z)
    (answer : result DecideWireResponse WardryxError) : Wardryx * WardryxOutcome :=
  match get w (ctx_key ctx) asked with
  | Some o => (w, o)
  | None => conclude w ctx answered answer
  end.

(** A call, with what the decision point answers if it is asked. *)
Record Asked := mkAsked {
  a_ctx : DecideContext; a_asked : Z; a_answered : Z;
  a_answer : result DecideWireResponse WardryxError
}.

Definition after (w : Wardryx) (calls : list Asked) : Wardryx :=
  foldl (λ w c, (decide w (a_ctx c) (a_asked c) (a_answered c) (a_answer c)).1) w calls.

(** An earlier answer that may stand in for the decision point's at [now]. *)
Definition vouches (t now : Z) (k : string * Z) (o : WardryxOutcome) (c : Asked) : Prop :=
  ctx_key (a_ctx c) = k ∧ now - a_answered c < t ∧ wx_decision o ≠ WxHold ∧
  ∃ o', client_decide (a_answer c) = Ok (o', true) ∧ wx_decision o' = wx_decision o ∧
        policy_version o' = policy_version o.

Definition cached_ok (calls : list Asked) (w : Wardryx) : Prop :=
  ∀ k e, entries w !! k = Some e →
    ∃ c o, c ∈ calls ∧ ctx_key (a_ctx c) = k ∧ cached_at e = a_answered c ∧
      client_decide (a_answer c) = Ok (o, true) ∧ wx_decision o = ce_decision e ∧
      policy_version o = ce_policy_version e ∧ ce_decision e ≠ WxHold.

Lemma decide_entries w ctx t1 t2 answer k e :
  entries (decide w ctx t1 t2 answer).1 !! k = Some e →
  entries w !! k = Some e ∨
  k = ctx_key ctx ∧ ∃ o, client_decide answer = Ok (o, true) ∧ wx_decision o ≠ WxHold ∧
    e = mkCacheEntry (wx_decision o) (policy_version o) (wx_reason o) t2.
Proof.
  unfold decide, conclude. destruct (get w (ctx_key ctx) t1); [by left|].
  destruct (negb (has_client w)); [by left|].
  destruct (client_decide answer) as [[o c]|e']; [|by left]. unfold put. simpl.
  case_bool_decide as Hh; [by left|]. destruct c; simpl; [|by left].
  rewrite lookup_insert. case_decide as Hk; [|by left]. intros [= <-]. right.
  split; [done|]. by exists o.
Qed.

Lemma conclude_config w ctx t answer :
  ttl (conclude w ctx t answer).1 = ttl w ∧ failmode (conclude w ctx t answer).1 = failmode w
  ∧ has_client (conclude w ctx t answer).1 = has_client w
  ∧ wx_mode (conclude w ctx t answer).1 = wx_mode w.
Proof.
  unfold conclude. destruct (negb _); [done|].
  destruct (client_decide answer) as [[o c]|e]; [|done]. unfold put.
  case_bool_decide; [done|]. by destruct c.
Qed.

Lemma decide_config w ctx t1 t2 answer :
  ttl (decide w ctx t1 t2 answer).1 = ttl w ∧ failmode (decide w ctx t1 t2 answer).1 = failmode w
  ∧ has_client (decide w ctx t1 t2 answer).1 = has_client w
  ∧ wx_mode (decide w ctx t1 t2 answer).1 = wx_mode w.
Proof.
  unfold decide. destruct (get w _ t1); [done|apply conclude_config].
Qed.

Lemma after_ok w calls :
  entries w = ∅ → cached_ok calls (after w calls) ∧ ttl (after w calls) = ttl w ∧
  failmode (after w calls) = failmode w ∧ has_client (after w calls) = has_client w.
Proof.
  intros He. induction calls as [|c calls IH] using rev_ind; simpl.
  - split; [|done]. intros k e. by rewrite He, lookup_empty.
  - unfold after in *. rewrite foldl_app. simpl. destruct IH as (IH & Ht & Hf & Hc).
    set (v := foldl _ w calls) in *.
    destruct (decide_config v (a_ctx c) (a_asked c) (a_answered c) (a_answer c))
      as (E1 & E2 & E3 & _).
    split; [|by rewrite E1, E2, E3]. intros k e H. apply decide_entries in H as [H|H].
    + destruct (IH k e H) as (c' & o & Hin & Hr). exists c', o. set_solver.
    + destruct H as (-> & o & Ho & Hh & ->). exists c, o. simpl. set_solver.
Qed.

(** C12: the hook never invents a decision.  After any calls, the outcome of the next one
    is the decision point's own answer; or an allow or deny it gave, marked cacheable,
    less than the time to live ago for the same key, so that a hold is never served
    from the cache and no approval id is; or, when the decision point did not answer
    intelligibly, the configured fail mode: deny when closed, allow when open. *)
Theorem wardryx_outcome_sound w calls ctx t1 t2 answer :
  entries w = ∅ →
  let w' := after w calls in
  let o := (decide w' ctx t1 t2 answer).2 in
  (∃ c, c ∈ calls ∧ vouches (ttl w) t1 (ctx_key ctx) o c ∧ approval_id o = None
        ∧ approval_token_required o = true) ∨
  (has_client w = true ∧ ∃ cacheable, client_decide answer = Ok (o, cacheable)) ∨
  ((has_client w = false ∨ ∃ e, client_decide answer = Err e) ∧
   wx_decision o = match failmode w with FailOpen => WxAllow | FailClosed => WxDeny end).
Proof.
  intros He. cbv zeta. destruct (after_ok w calls He) as (Hok & Ht & Hf & Hc).
  set (w' := after w calls) in *. unfold decide, conclude, get.
  destruct (entries w' !! ctx_key ctx) as [e|] eqn:E.
  - destruct (ttl w' <=? t1 - cached_at e) eqn:Hx; breflect.
    + right. destruct (has_client w') eqn:Hcl; simpl.
      * destruct (client_decide answer) as [[o c]|err]; simpl;
          [left; split; [congruence|by exists c]|right].
        split; [right; eauto|by rewrite Hf].
      * right. split; [left; congruence|by rewrite Hf].
    + left. destruct (Hok _ _ E) as (c & o & Hin & Hk & Hat & Ho & Hd & Hv & Hh).
      exists c. split; [done|]. split; [|done]. unfold vouches. simpl.
      split; [done|]. split; [lia|]. split; [done|]. by exists o.
  - right. destruct (has_client w') eqn:Hcl; simpl.
    + destruct (client_decide answer) as [[o c]|err]; simpl;
        [left; split; [congruence|by exists c]|right].
      split; [right; eauto|by rewrite Hf].
    + right. split; [left; congruence|by rewrite Hf].
Qed.
End hook.
End Wardryx.

Lemma wardryx_outcome_sound_witness :
  entries (Wardryx.new WxEnforce FailClosed 3000) = ∅ ∧
  wx_decision (Wardryx.decide (λ _ _, 0) (Wardryx.new WxEnforce FailClosed 3000)
     (mkDecideContext "a" "r" [] [] 0 [] "m" (f64_of_Z 0) None None) 0 0 (Err (Transport "down"))).2
  = WxDeny.
Proof.
  split; [reflexivity|].
  destruct (Wardryx.wardryx_outcome_sound (λ _ _, 0) (Wardryx.new WxEnforce FailClosed 3000) []
    (mkDecideContext "a" "r" [] [] 0 [] "m" (f64_of_Z 0) None None) 0 0 (Err (Transport "down"))
    eq_refl) as [(c & Hc & _)|[(_ & c & Hc)|(_ & Hd)]].
  - by apply elem_of_nil in Hc.
  - discriminate Hc.
  - exact Hd.
Defined.
