(* ===== verification/Text.v ===== *)
(** * Text of the request path

    What the gateway's request path uses of Rust's text library: [String::from_utf8_lossy]
    and [str::parse::<f64>]. *)

From S2P Require Import Prelude Float Strings.

(** ** [String::from_utf8_lossy] *)

Definition byte_in (lo hi : nat) (c : ascii) : bool :=
  ((lo <=? nat_of_ascii c) && (nat_of_ascii c <=? hi))%nat.
Definition cont (c : ascii) : bool := byte_in 128 191 c.

(** What a first byte announces: the width, and the range of the second byte. *)
Inductive Lead := Lead1 | Lead2 | Lead3 (lo hi : nat) | Lead4 (lo hi : nat) | LeadBad.

Definition lead (c : ascii) : Lead :=
  if byte_in 0 127 c then Lead1
  else if byte_in 194 223 c then Lead2
  else if byte_in 224 224 c then Lead3 160 191
  else if byte_in 237 237 c then Lead3 128 159
  else if byte_in 225 239 c then Lead3 128 191
  else if byte_in 240 240 c then Lead4 144 191
  else if byte_in 241 243 c then Lead4 128 191
  else if byte_in 244 244 c then Lead4 128 143
  else LeadBad.

(** U+FFFD *)
Definition REPLACEMENT : string :=
  String (ascii_of_nat 239) (String (ascii_of_nat 191) (String (ascii_of_nat 189) "")).

(** Every maximal prefix of a character that cannot be completed becomes one
    replacement character. *)
Fixpoint from_utf8_lossy (s : string) : string :=
  match s with
  | "" => ""
  | String a s1 =>
      match lead a, s1 with
      | Lead1, _ => String a (from_utf8_lossy s1)
      | Lead2, String b s2 =>
          if cont b then String a (String b (from_utf8_lossy s2))
          else REPLACEMENT +:+ from_utf8_lossy s1
      | Lead3 lo hi, String b s2 =>
          if byte_in lo hi b then
            match s2 with
            | String c s3 =>
                if cont c then String a (String b (String c (from_utf8_lossy s3)))
                else REPLACEMENT +:+ from_utf8_lossy s2
            | "" => REPLACEMENT
            end
          else REPLACEMENT +:+ from_utf8_lossy s1
      | Lead4 lo hi, String b s2 =>
          if byte_in lo hi b then
            match s2 with
            | String c s3 =>
                if cont c then
                  match s3 with
                  | String d s4 =>
                      if cont d
                      then String a (String b (String c (String d (from_utf8_lossy s4))))
                      else REPLACEMENT +:+ from_utf8_lossy s3
                  | "" => REPLACEMENT
                  end
                else REPLACEMENT +:+ from_utf8_lossy s2
            | "" => REPLACEMENT
            end
          else REPLACEMENT +:+ from_utf8_lossy s1
      | _, _ => REPLACEMENT +:+ from_utf8_lossy s1
      end
  end.

(** Well-formed text, a character at a time. *)
Inductive utf8 : string → Prop :=
| utf8_nil : utf8 ""
| utf8_1 a s : lead a = Lead1 → utf8 s → utf8 (String a s)
| utf8_2 a b s : lead a = Lead2 → cont b = true → utf8 s → utf8 (String a (String b s))
| utf8_3 a b c s lo hi :
    lead a = Lead3 lo hi → byte_in lo hi b = true → cont c = true → utf8 s →
    utf8 (String a (String b (String c s)))
| utf8_4 a b c d s lo hi :
    lead a = Lead4 lo hi → byte_in lo hi b = true → cont c = true → cont d = true → utf8 s →
    utf8 (String a (String b (String c (String d s)))).

Create HintDb text.
#[export] Hint Constructors utf8 : text.

Lemma utf8_replacement s : utf8 s → utf8 (REPLACEMENT +:+ s).
Proof. intros H. by apply (utf8_3 _ _ _ s 128 191). Qed.

#[export] Hint Resolve utf8_replacement : text.

Lemma lossy_utf8 s : utf8 (from_utf8_lossy s).
Proof.
  assert (∀ n s, (String.length s ≤ n)%nat → utf8 (from_utf8_lossy s)) as H; [|by eapply H].
  clear s. intros n. induction n as [|n IH]; intros [|a s] Hn; simpl in Hn; try lia; [constructor..|].
  assert (utf8 REPLACEMENT) as HR by (apply (utf8_replacement ""); constructor).
  cbn [from_utf8_lossy]. destruct (lead a) eqn:Ea.
  - constructor; [done|]. apply IH. lia.
  - destruct s as [|b s]; [done|]. simpl in Hn. destruct (cont b) eqn:?;
      [apply utf8_2; try done|apply utf8_replacement]; apply IH; simpl; lia.
  - destruct s as [|b s]; [done|]. simpl in Hn. destruct (byte_in lo hi b) eqn:?;
      [|apply utf8_replacement, IH; simpl; lia].
    destruct s as [|c s]; [done|]. simpl in Hn. destruct (cont c) eqn:?;
      [eapply utf8_3; try done|apply utf8_replacement]; apply IH; simpl; lia.
  - destruct s as [|b s]; [done|]. simpl in Hn. destruct (byte_in lo hi b) eqn:?;
      [|apply utf8_replacement, IH; simpl; lia].
    destruct s as [|c s]; [done|]. simpl in Hn. destruct (cont c) eqn:?;
      [|apply utf8_replacement, IH; simpl; lia].
    destruct s as [|d s]; [done|]. simpl in Hn. destruct (cont d) eqn:?;
      [eapply utf8_4; try done|apply utf8_replacement]; apply IH; simpl; lia.
  - destruct s; apply utf8_replacement, IH; simpl in *; lia.
Qed.

(** Well-formed text is left alone. *)
Lemma lossy_id s : utf8 s → from_utf8_lossy s = s.
Proof.
  induction 1; cbn [from_utf8_lossy]; try done;
    repeat match goal with H : ?x = _ |- context [?x] => rewrite H end; congruence.
Qed.

Example lossy_ex :
  from_utf8_lossy (String "a" (String (ascii_of_nat 240) (String (ascii_of_nat 159)
                     (String "b" (String (ascii_of_nat 255) "")))))
  = "a" +:+ REPLACEMENT +:+ "b" +:+ REPLACEMENT.
Proof. reflexivity. Qed.

(** ** [str::parse::<f64>] *)

(** Leading decimal digits: their value after [acc], their number, and the rest. *)
Fixpoint digits (acc : Z) (n : nat) (s : string) : Z * nat * string :=
  match s with
  | String c s' =>
      match digit_value c with
      | Some d => digits (10 * acc + d) (S n) s'
      | None => (acc, n, s)
      end
  | "" => (acc, n, "")
  end.

(** A sign, if there is one. *)
Definition sign (s : string) : bool * string :=
  match s with
  | String c s' => if bool_decide (c = "-"%char) then (true, s')
                   else if bool_decide (c = "+"%char) then (false, s') else (false, s)
  | "" => (false, "")
  end.

(** [n * 10^e], correctly rounded: one rounding of an exact value, or of a quotient of
    at least 66 bits with its sticky bit. *)
Definition decimal (neg : bool) (n e : Z) : f64 :=
  if n =? 0 then S754_zero neg
  else if 400 <? e then S754_infinity neg
  else if Z.log2 n + 3 * (e + 400) <? 0 then S754_zero neg
  else if 0 <=? e then f64_of_Z (signed neg (n * 10 ^ e))
  else
    let d := 10 ^ (- e) in
    let k := Z.max 0 (67 + Z.log2 d - Z.log2 n) in
    let q := n * 2 ^ k / d in
    let sticky := if n * 2 ^ k mod d =? 0 then 0 else 1 in
    binary_normalize 53 1024 (signed neg (2 * q + sticky)) (- (k + 1)) neg.

Definition parse_exponent (s : string) : option Z :=
  match s with
  | "" => Some 0
  | String c s =>
      if bool_decide (c = "e"%char) || bool_decide (c = "E"%char) then
        let '(neg, s) := sign s in
        match digits 0 O s with
        | (_, O, _) => None
        | (v, _, "") => Some (signed neg v)
        | _ => None
        end
      else None
  end.

Definition parse_number (neg : bool) (s : string) : option f64 :=
  let '(ip, n1, s) := digits 0 O s in
  let '(m, n2, s) := match s with
                     | String "." s => let '(m, n, s) := digits ip O s in (m, n, s)
                     | _ => (ip, O, s)
                     end in
  if (n1 + n2 =? 0)%nat then None
  else (λ e, decimal neg m (e - Z.of_nat n2)) <$> parse_exponent s.

Definition parse_f64 (s : string) : option f64 :=
  if is_empty_str s then None
  else
    let '(neg, t) := sign s in
    match parse_number neg t with
    | Some x => Some x
    | None =>
        if eq_ignore_ascii_case t "inf" || eq_ignore_ascii_case t "infinity"
        then Some (S754_infinity neg)
        else if eq_ignore_ascii_case t "nan" then Some S754_nan
        else None
    end.

Example parse_f64_ex :
  parse_f64 "5.0" = Some (f64_of_Z 5) ∧ parse_f64 "-.25e1" = Some (f64_lit (-5) 2) ∧
  parse_f64 "0.1" = Some (f64_lit 1 10) ∧ parse_f64 "1e-7" = Some (f64_lit 1 10000000) ∧
  parse_f64 "1e999" = Some (S754_infinity false) ∧
  parse_f64 "." = None ∧ parse_f64 " 1" = None ∧ parse_f64 "1e" = None ∧
  parse_f64 "NaN" = Some S754_nan ∧ parse_f64 "4.9e-324" = Some (S754_finite false 1 (-1074)) ∧
  parse_f64 "2.4e-324" = Some (S754_zero false).
Proof. vm_compute. done. Qed.

(** ** Zero-padded numbers *)

Definition is_digit_char (c : ascii) : bool := bool_decide (is_Some (digit_value c)).

Lemma digits_pretty z : 0 ≤ z → str_all is_digit_char (pretty z) = true.
Proof.
  intros Hz. destruct z as [|p|p]; [done| |lia].
  change (pretty (Z.pos p)) with (pretty (N.pos p)). unfold pretty, pretty_N. case_decide; [done|].
  apply pretty_N_go_all; [|done]. intros y. unfold pretty_N_char. by repeat case_match.
Qed.

Lemma zeros_app n s :
  str_all is_digit_char (String.append (String.concat "" (replicate n "0")) s) = str_all is_digit_char s ∧
  parse_digits 0 (String.append (String.concat "" (replicate n "0")) s) = parse_digits 0 s.
Proof.
  induction n as [|n [IH1 IH2]]; [done|]. cbn [replicate].
  assert (String.append (String.concat "" ("0" :: replicate n "0")) s
          = String "0" (String.append (String.concat "" (replicate n "0")) s)) as ->
    by (by destruct n).
  split; [done|]. cbn. done.
Qed.

Lemma pad_left_spec w z : 0 ≤ z →
  str_all is_digit_char (pad_left (S w) (pretty z)) = true ∧
  parse_decimal (pad_left (S w) (pretty z)) = Some z ∧ pad_left (S w) (pretty z) ≠ "".
Proof.
  intros Hz. unfold pad_left. destruct (zeros_app (S w - String.length (pretty z)) (pretty z)) as [H1 H2].
  assert (String.append (String.concat "" (replicate (S w - String.length (pretty z)) "0")) (pretty z) ≠ "")
    as Hne.
  { destruct (pretty z) as [|c s] eqn:E; [by cbn; destruct w|].
    by destruct (String.concat _ _). }
  split_and!; [by rewrite H1, digits_pretty| |done].
  unfold parse_decimal. destruct (String.append _ _) eqn:E; [done|]. rewrite <- E in *.
  by rewrite H2, parse_digits_pretty.
Qed.

