(* ===== verification/Request.v ===== *)
(** * What the request path reads

    The helpers of [crates/gateway/src/proxy.rs] over the request's headers and its JSON
    body.  [HeaderMap], [HeaderValue], [serde_json]'s parser and printer and the URL
    parser belong to libraries and are parameters. *)

From S2P Require Import Prelude Float Strings Text Json Dlp Taint.

(** [HeaderMap]: names are lower case; [get] finds the first value. *)
Abbreviation HeaderMap := (list (string * string)).

Section headers.
(** [HeaderValue::to_str]; [str::to_lowercase]. *)
Context (to_str : string → option string) (to_lowercase : string → string).

(* @src proxy.rs header_str *)
Definition header_str (headers : HeaderMap) (name : string) : option string :=
  assoc name headers ≫= to_str.

(* @src proxy.rs header_f64 *)
Definition header_f64 (headers : HeaderMap) (name : string) : option f64 :=
  header_str headers name ≫= parse_f64.

(** A captured header with a sanity cap: the value, and whether the over-cap counter
    is incremented. *)
Definition capped_header (cap : nat) (raw : option string) : option string * bool :=
  match raw with
  | None => (None, false)
  | Some raw =>
      if bool_decide (raw = "") then (None, false)
      else if (cap <? String.length raw)%nat then (None, true)
      else (Some raw, false)
  end.

(* @src proxy.rs ON_BEHALF_OF_MAX_BYTES *)
Definition ON_BEHALF_OF_MAX_BYTES : nat := 4096.
(* @src proxy.rs OUTCOME_MAX_BYTES *)
Definition OUTCOME_MAX_BYTES : nat := 128.

(* @src proxy.rs on_behalf_of_header *)
Definition on_behalf_of_header (headers : HeaderMap) : option string * bool :=
  capped_header ON_BEHALF_OF_MAX_BYTES (header_str headers "x-fuse-on-behalf-of").

(* @src proxy.rs outcome_header *)
Definition outcome_header (headers : HeaderMap) : option string * bool :=
  capped_header OUTCOME_MAX_BYTES (header_str headers "x-fuse-outcome").

(* @src proxy.rs split_on_behalf_of *)
Definition split_on_behalf_of (raw : string) : list string :=
  filter (λ s, s ≠ "") (trim <$> split_char ","%char raw).

(* @src proxy.rs taint_header_labels *)
Definition taint_header_labels (headers : HeaderMap) : Labels :=
  match header_str headers "x-fuse-taint" with
  | Some s => list_to_set (filter (λ p, p ≠ "") ((λ p, to_lowercase (trim p)) <$> split_char ","%char s))
  | None => ∅
  end.
End headers.

(* @src proxy.rs ParsedRequest *)
Record ParsedRequest := mkParsed {
  p_model : string;
  p_max_tokens : option Z;
  p_stream : bool
}.

(* @src proxy.rs parse_request *)
Definition parse_request (v : Value) : ParsedRequest :=
  mkParsed (default "unknown" (get_str "model" v)) (get_u64 "max_tokens" v)
           (default false (get "stream" v ≫= as_bool)).

(** [BTreeMap::insert] on an object's sorted members. *)
Fixpoint obj_insert (k : string) (x : Value) (m : list (string * Value)) : list (string * Value) :=
  match m with
  | [] => [(k, x)]
  | (k', x') :: m' =>
      if bool_decide (k = k') then (k, x) :: m'
      else if str_leb k k' then (k, x) :: m
      else (k', x') :: obj_insert k x m'
  end.

Section json.
Context (from_slice : string → option Value) (to_string : Value → string)
  (parse_url : string → option (string * option string)).

(* @src proxy.rs rewrite_model_field *)
Definition rewrite_model_field (body model : string) : option string :=
  m ← from_slice body ≫= as_object;
  Some (to_string (Obj (obj_insert "model" (Str model) m))).

(* @src proxy.rs cache_eligible *)
Definition cache_eligible (request : Value) : bool :=
  match get "tools" request with
  | None => true
  | Some (Arr a) => bool_decide (length a = O)
  | Some _ => false
  end.

(* @src proxy.rs concat_text_blocks *)
Definition concat_text_blocks (blocks : list Value) : string :=
  trim (foldl (λ buf b, match get_str "text" b with
                        | Some t => buf +:+ t +:+ " "
                        | None => buf
                        end) "" blocks).

(* @src proxy.rs system_text *)
Definition system_text (request : Value) : string :=
  match get "system" request with
  | Some (Str s) => s
  | Some (Arr blocks) => concat_text_blocks blocks
  | _ => ""
  end.

(* @src proxy.rs tools_text *)
Definition tools_text (request : Value) : string :=
  default "" (to_string <$> get "tools" request).

(** The first message of the reversed list whose role is [user], if it has text. *)
Fixpoint last_user_text (rev_messages : list Value) : string :=
  match rev_messages with
  | [] => ""
  | msg :: rest =>
      if negb (bool_decide (get_str "role" msg = Some "user")) then last_user_text rest
      else match get "content" msg with
           | Some (Str s) => s
           | Some (Arr blocks) => concat_text_blocks blocks
           | _ => ""
           end
  end.

(* @src proxy.rs semantic_core *)
Definition semantic_core (request : Value) : string :=
  let text := match get_array "messages" request with
              | Some messages => last_user_text (reverse messages)
              | None => ""
              end in
  concat_str (take 512 (char_list text)).

(* @src proxy.rs MAX_DOMAIN_SCAN_DEPTH *)
Definition MAX_DOMAIN_SCAN_DEPTH : nat := 12.

(** The host of a string that is an absolute http or https URL. *)
(* @src proxy.rs 1874-1882 collect_url_hosts *)
Definition url_host (s : string) : list string :=
  match parse_url s with
  | Some (scheme, Some host) =>
      if bool_decide (scheme = "http") || bool_decide (scheme = "https")
      then [to_ascii_lowercase host] else []
  | _ => []
  end.

(** [levels] is [MAX_DOMAIN_SCAN_DEPTH + 1 - depth]. *)
(* @src proxy.rs collect_url_hosts *)
Fixpoint collect_url_hosts (levels : nat) (v : Value) : list string :=
  match levels with
  | O => []
  | S levels =>
      match v with
      | Str s => url_host s
      | Arr items => items ≫= collect_url_hosts levels
      | Obj m => m ≫= λ p, collect_url_hosts levels p.2
      | _ => []
      end
  end.

(** [sort] then [dedup]. *)
Definition sort_dedup (l : list string) : list string := dedup (sort_by str_leb l).

(* @src proxy.rs referenced_domains *)
Definition referenced_domains (request : Value) : list string :=
  match get "tools" request with
  | None => []
  | Some tools => sort_dedup (collect_url_hosts (S MAX_DOMAIN_SCAN_DEPTH) tools)
  end.
End json.

(** ** What the readers promise *)

(** A captured value is the header's own, within its cap; an absent, empty or over-cap
    header is ignored, and only an over-cap one is counted. *)
Lemma capped_header_spec cap raw v b :
  capped_header cap raw = (v, b) →
  (∀ s, v = Some s → raw = Some s ∧ s ≠ "" ∧ (String.length s ≤ cap)%nat) ∧
  (b = true ↔ ∃ s, raw = Some s ∧ (cap < String.length s)%nat).
Proof.
  unfold capped_header. destruct raw as [s|]; [|naive_solver].
  case_bool_decide as E; [|destruct (cap <? String.length s)%nat eqn:Hc; breflect].
  - subst. intros [= <- <-]. split; [done|]. split; [done|]. intros (s & [= <-] & H). simpl in H. lia.
  - intros [= <- <-]. naive_solver.
  - intros [= <- <-]. split; [naive_solver|]. split; [done|]. intros (s' & [= <-] & H). lia.
Qed.

Lemma assoc_insert k x m : assoc k (obj_insert k x m) = Some x.
Proof.
  unfold assoc. induction m as [|[k' x'] m IH]; simpl; [by rewrite bool_decide_true|].
  case_bool_decide as E; simpl; [by rewrite bool_decide_true|].
  destruct (str_leb k k'); simpl; [by rewrite bool_decide_true|].
  by rewrite (bool_decide_false (k' = k)).
Qed.

Lemma assoc_insert_ne k k' x m : k ≠ k' → assoc k' (obj_insert k x m) = assoc k' m.
Proof.
  intros Hk. unfold assoc. induction m as [|[k2 x2] m IH]; simpl; [by rewrite bool_decide_false|].
  case_bool_decide as E; simpl.
  - subst k2. by rewrite bool_decide_false.
  - destruct (str_leb k k2); simpl; [by rewrite (bool_decide_false (k = k'))|].
    by destruct (bool_decide (k2 = k')).
Qed.

(** Rewriting the model changes the model the request names and nothing else of it. *)
Lemma rewrite_model_spec from_slice to_string body model body' :
  (∀ m, from_slice (to_string (Obj m)) = Some (Obj m)) →
  rewrite_model_field from_slice to_string body model = Some body' →
  ∃ old new, from_slice body = Some old ∧ from_slice body' = Some new ∧
    p_model (parse_request new) = model ∧
    p_max_tokens (parse_request new) = p_max_tokens (parse_request old) ∧
    p_stream (parse_request new) = p_stream (parse_request old) ∧
    ∀ k, k ≠ "model" → get k new = get k old.
Proof.
  intros Hrt. unfold rewrite_model_field.
  destruct (from_slice body) as [[| | | | |m]|]; simpl; try done. intros [= <-].
  exists (Obj m), (Obj (obj_insert "model" (Str model) m)). rewrite Hrt.
  assert (∀ k, k ≠ "model" → get k (Obj (obj_insert "model" (Str model) m)) = get k (Obj m))
    as Hk by (intros k ?; simpl; by rewrite assoc_insert_ne).
  split; [done|]. split; [done|]. unfold parse_request, get_str, get_u64. cbn [p_model p_max_tokens p_stream].
  rewrite !(Hk "max_tokens"), !(Hk "stream") by done. split; [|done].
  simpl. by rewrite assoc_insert.
Qed.

(** [dedup] keeps the elements. *)
Lemma dedup_elem l x : x ∈ dedup l ↔ x ∈ l.
Proof.
  induction l as [|a l IH]; [done|]. destruct l as [|b l]; [done|]. cbn [dedup].
  case_bool_decide as E; [subst; rewrite IH; set_solver|]. rewrite !elem_of_cons in *. tauto.
Qed.

(** A URL string occurs at a depth of a document. *)
Inductive occurs (s : string) : nat → Value → Prop :=
| occurs_here : occurs s O (Str s)
| occurs_arr d l v : v ∈ l → occurs s d v → occurs s (S d) (Arr l)
| occurs_obj d m k v : (k, v) ∈ m → occurs s d v → occurs s (S d) (Obj m).

Lemma collect_url_hosts_elem parse_url n v h :
  h ∈ collect_url_hosts parse_url n v ↔
  ∃ d s, (d < n)%nat ∧ occurs s d v ∧ h ∈ url_host parse_url s.
Proof.
  revert v. induction n as [|n IH]; intros v; simpl.
  { split; [by intros ?%elem_of_nil|intros (? & ? & ? & _); lia]. }
  destruct v as [| | |s|l|m];
    try (split; [by intros ?%elem_of_nil|intros (d & s & _ & H & _); inversion H]).
  - split; [intros H; exists O, s; repeat split; [lia|constructor|done]|].
    intros (d & s' & _ & H & ?). by inversion H; subst.
  - rewrite list_elem_of_bind. split.
    + intros (v & Hh & Hv). apply IH in Hh as (d & s & ? & ? & ?).
      exists (S d), s. split; [lia|]. split; [by econstructor|done].
    + intros (d & s & ? & H & ?). inversion H; subst. exists v. split; [|done].
      apply IH. eexists _, _. split; [|by split]. lia.
  - rewrite list_elem_of_bind. split.
    + intros ([k v] & Hh & Hv). apply IH in Hh as (d & s & ? & ? & ?).
      exists (S d), s. split; [lia|]. split; [by eapply occurs_obj|done].
    + intros (d & s & ? & H & ?). inversion H; subst. exists (k, v). split; [|done].
      apply IH. eexists _, _. split; [|by split]. lia.
Qed.

(** The domains reported are exactly the hosts of the URL strings up to the depth cap. *)
Lemma referenced_domains_elem parse_url request h :
  h ∈ referenced_domains parse_url request ↔
  ∃ tools d s, get "tools" request = Some tools ∧ (d ≤ MAX_DOMAIN_SCAN_DEPTH)%nat ∧
    occurs s d tools ∧ h ∈ url_host parse_url s.
Proof.
  unfold referenced_domains. destruct (get "tools" request) as [tools|].
  - unfold sort_dedup. rewrite dedup_elem, sort_by_elem, collect_url_hosts_elem. split.
    + intros (d & s & ? & ? & ?). exists tools, d, s. repeat split; try done. lia.
    + intros (t & d & s & [= <-] & ? & ? & ?). exists d, s. repeat split; try done. lia.
  - split; [by intros ?%elem_of_nil|naive_solver].
Qed.

Example semantic_core_ex :
  semantic_core (Obj [("messages", Arr [Obj [("content", Str "old"); ("role", Str "user")];
     Obj [("content", Arr [Obj [("text", Str " hi")]; Obj [("text", Str "there ")]]);
          ("role", Str "user")];
     Obj [("content", Str "x"); ("role", Str "assistant")]])]) = "hi there".
Proof. vm_compute. reflexivity. Qed.
