(* ===== verification/Provider.v ===== *)
(** * Reading the provider's answer

    [crates/gateway/src/provider.rs]: the token usage and the tool calls read out of a
    response as it flows by, the headers that reach the provider, and the stub provider.
    The HTTP exchange is an input; [serde_json]'s parser is a parameter. *)

From S2P Require Import Prelude Float Money Strings Text Json.
From S2P Require Request.

(** [text.lines()]: the parts between newlines, without a last empty one. *)
Definition strip_cr (s : string) : string :=
  match String.rev s with
  | String c r => if bool_decide (nat_of_ascii c = 13%nat) then String.rev r else s
  | "" => ""
  end.
Definition lines (s : string) : list string :=
  let parts := split_char (ascii_of_nat 10) s in
  match last parts with
  | Some "" => strip_cr <$> take (length parts - 1) parts
  | _ => (strip_cr <$> take (length parts - 1) parts) ++ option_list (last parts)
  end.

(** ** Usage *)

(* @src provider.rs set_if_positive *)
Definition set_if_positive (field : Z) (v : Value) (key : string) : Z :=
  match get_u64 key v with
  | Some n => if 0 <? n then n else field
  | None => field
  end.

(* @src provider.rs apply_anthropic *)
Definition apply_anthropic (usage : Usage) (u : Value) : Usage :=
  mkUsage (set_if_positive (input_tokens usage) u "input_tokens")
    (set_if_positive (output_tokens usage) u "output_tokens")
    (set_if_positive (cache_read_tokens usage) u "cache_read_input_tokens")
    (set_if_positive (cache_write_tokens usage) u "cache_creation_input_tokens")
    (tool_calls usage).

(* @src provider.rs apply_openai *)
Definition apply_openai (usage : Usage) (u : Value) : Usage :=
  mkUsage (set_if_positive (input_tokens usage) u "prompt_tokens")
    (set_if_positive (output_tokens usage) u "completion_tokens")
    (match get "prompt_tokens_details" u ≫= get_u64 "cached_tokens" with
     | Some cached => if 0 <? cached then cached else cache_read_tokens usage
     | None => cache_read_tokens usage
     end)
    (cache_write_tokens usage) (tool_calls usage).

(* @src provider.rs merge_usage *)
Definition merge_usage (usage : Usage) (v : Value) : Usage :=
  let usage := match get "message" v ≫= get "usage" with
               | Some u => apply_anthropic usage u
               | None => usage
               end in
  match get "usage" v with
  | Some u =>
      if negb (is_object u) then usage
      else if bool_decide (is_Some (get "prompt_tokens" u))
              || bool_decide (is_Some (get "completion_tokens" u))
      then apply_openai usage u else apply_anthropic usage u
  | None => usage
  end.

(** ** Tool calls *)

(* @src provider.rs ToolCallCounter *)
Record ToolCallCounter := mkCounter {
  seen : bool;
  anthropic : Z;              (* u32 *)
  openai_nonstream : Z;       (* u32 *)
  openai_stream_idx : gset (Z * Z)
}.

Definition no_calls : ToolCallCounter := mkCounter false 0 0 ∅.

Definition is_tool_use (b : Value) : bool := bool_decide (get_str "type" b = Some "tool_use").

(** The indexes of a choice's deltas. *)
(* @src provider.rs 164-181 ToolCallCounter::observe_streaming *)
Definition choice_calls (choice : Value) : list (Z * Z) :=
  let choice_idx := default 0 (get_u64 "index" choice) in
  match get "delta" choice ≫= get_array "tool_calls" with
  | Some deltas => omap (λ tc, (λ idx, (choice_idx, idx)) <$> get_u64 "index" tc) deltas
  | None => []
  end.

(* @src provider.rs ToolCallCounter::observe_streaming *)
Definition observe_streaming (c : ToolCallCounter) (v : Value) : ToolCallCounter :=
  mkCounter true
    (if bool_decide (get_str "type" v = Some "content_block_start")
        && bool_decide ((get "content_block" v ≫= get_str "type") = Some "tool_use")
     then u32_wrap (anthropic c + 1) else anthropic c)
    (openai_nonstream c)
    (list_to_set (default [] (get_array "choices" v) ≫= choice_calls) ∪ openai_stream_idx c).

(* @src provider.rs ToolCallCounter::observe_non_streaming *)
Definition observe_non_streaming (c : ToolCallCounter) (v : Value) : ToolCallCounter :=
  mkCounter true
    (match get_array "content" v with
     | Some content =>
         u32_wrap (anthropic c
                   + u32_wrap (Z.of_nat (length (filter (λ b, is_tool_use b = true) content))))
     | None => anthropic c
     end)
    (foldl (λ n choice, match get "message" choice ≫= get_array "tool_calls" with
                        | Some tc => u32_wrap (n + u32_wrap (Z.of_nat (length tc)))
                        | None => n
                        end) (openai_nonstream c) (default [] (get_array "choices" v)))
    (openai_stream_idx c).

(* @src provider.rs ToolCallCounter::finish *)
Definition counted (c : ToolCallCounter) : option Z :=
  if negb (seen c) then None
  else Some (u32_wrap (u32_wrap (anthropic c + openai_nonstream c)
                       + u32_wrap (Z.of_nat (size (openai_stream_idx c))))).

(** ** The parser *)

Section parser.
Context (from_str : string → option Value).

(** The buffered bytes. *)
(* @src provider.rs UsageParser *)
Abbreviation UsageParser := string (only parsing).

(* @src provider.rs UsageParser::CAP *)
Definition CAP : Z := 8 * 1024 * 1024.

Definition str_len (s : string) : Z := Z.of_nat (String.length s).

(* @src provider.rs UsageParser::feed *)
Definition feed (buf : UsageParser) (chunk : string) : UsageParser :=
  if CAP <=? str_len buf then buf
  else buf +:+ str_take (Z.to_nat (Z.min (CAP - str_len buf) (str_len chunk))) chunk.

(** The payload of a [data:] line. *)
(* @src provider.rs 87-89 UsageParser::finish *)
Definition data_line (line : string) : option string :=
  trim <$> strip_prefix "data:" (trim_start line).

(* @src provider.rs 88-97 UsageParser::finish *)
Definition observe_line (s : bool * Usage * ToolCallCounter) (line : string)
  : bool * Usage * ToolCallCounter :=
  let '(saw_sse, usage, calls) := s in
  match data_line line with
  | None => s
  | Some rest =>
      if is_empty_str rest || bool_decide (rest = "[DONE]") then (true, usage, calls)
      else match from_str rest with
           | Some v => (true, merge_usage usage v, observe_streaming calls v)
           | None => (true, usage, calls)
           end
  end.

(* @src provider.rs UsageParser::finish *)
Definition finish (buf : UsageParser) : Usage :=
  let text := from_utf8_lossy buf in
  let '(saw_sse, usage, calls) :=
    foldl observe_line (false, default_usage, no_calls) (lines text) in
  let '(usage, calls) :=
    if saw_sse then (usage, calls)
    else match from_str (trim text) with
         | Some v => (merge_usage usage v, observe_non_streaming calls v)
         | None => (usage, calls)
         end in
  mkUsage (input_tokens usage) (output_tokens usage) (cache_read_tokens usage)
    (cache_write_tokens usage) (counted calls).

(** ** The providers *)

(* @src provider.rs FORWARD_HEADERS *)
Definition FORWARD_HEADERS : list string :=
  ["authorization"; "x-api-key"; "anthropic-version"; "anthropic-beta"; "openai-organization";
   "openai-beta"; "content-type"; "accept"].

(** The headers of the upstream request. *)
(* @src provider.rs 320-324 HttpProvider::send *)
Definition forwarded_headers (headers : Request.HeaderMap) : list (string * string) :=
  omap (λ name, (λ v, (name, v)) <$> assoc name headers) FORWARD_HEADERS.

(** A chunk of the upstream body, or the error the stream broke with. *)
Abbreviation Chunk := (result string string) (only parsing).

(** The body as it is relayed, and the usage slot once the stream ended without an error. *)
(* @src provider.rs 343-352 HttpProvider::send *)
Fixpoint relay (buf : UsageParser) (upstream : list Chunk) : list Chunk * option Usage :=
  match upstream with
  | [] => ([], Some (finish buf))
  | Err e :: _ => ([Err ("upstream request failed: " +:+ e)], None)
  | Ok chunk :: upstream =>
      let '(body, u) := relay (feed buf chunk) upstream in (Ok chunk :: body, u)
  end.

(* @src provider.rs StubProvider *)
Record StubProvider := mkStub {
  st_input : Z; st_output : Z; st_sse : bool; st_body : option string
}.

(* @src provider.rs StubProvider::default *)
Definition default_stub : StubProvider := mkStub 1000 500 false None.

Definition quoted (s : string) : string := DQ +:+ s +:+ DQ.
Definition NL : string := String (ascii_of_nat 10) "".

(* @src provider.rs 405-431 StubProvider::send *)
Definition stub_chunks (p : StubProvider) : string * list string :=
  if st_sse p then
    ("text/event-stream",
     ["event: message_start" +:+ NL +:+ "data: {" +:+ quoted "type" +:+ ":" +:+ quoted "message_start"
        +:+ "," +:+ quoted "message" +:+ ":{" +:+ quoted "usage" +:+ ":{" +:+ quoted "input_tokens"
        +:+ ":" +:+ pretty (st_input p) +:+ "}}}" +:+ NL +:+ NL;
      "event: message_delta" +:+ NL +:+ "data: {" +:+ quoted "type" +:+ ":" +:+ quoted "message_delta"
        +:+ "," +:+ quoted "usage" +:+ ":{" +:+ quoted "output_tokens"
        +:+ ":" +:+ pretty (st_output p) +:+ "}}" +:+ NL +:+ NL;
      "data: [DONE]" +:+ NL +:+ NL])
  else
    ("application/json",
     [default ("{" +:+ quoted "stub" +:+ ":true," +:+ quoted "usage" +:+ ":{" +:+ quoted "input_tokens"
               +:+ ":" +:+ pretty (st_input p) +:+ "," +:+ quoted "output_tokens" +:+ ":"
               +:+ pretty (st_output p) +:+ "}}") (st_body p)]).

(* @src provider.rs 399-403 StubProvider::send *)
Definition stub_declared (p : StubProvider) : Usage := mkUsage (st_input p) (st_output p) 0 0 None.

#[export] Instance Usage_eq_dec : EqDecision Usage.
Proof. solve_decision. Defined.

(* @src provider.rs 433-444 StubProvider::send *)
Definition stub_usage (p : StubProvider) : Usage :=
  let parsed := finish (foldl feed "" (stub_chunks p).2) in
  if bool_decide (parsed = default_usage) then stub_declared p else parsed.

(** ** Correctness *)

(** The JSON values the parser looks into, in order. *)
Definition events (text : string) : list Value :=
  match omap data_line (lines text) with
  | [] => option_list (from_str (trim text))
  | payloads => omap from_str (filter (λ p, p ≠ "" ∧ p ≠ "[DONE]") payloads)
  end.

Definition is_streamed (text : string) : bool :=
  bool_decide (omap data_line (lines text) ≠ []).

Definition openai_shaped (u : Value) : bool :=
  bool_decide (is_Some (get "prompt_tokens" u)) || bool_decide (is_Some (get "completion_tokens" u)).

(** What a value reports for a field, under its Anthropic and its OpenAI name. *)
Definition reports (anthropic openai : Value → option Z) (v : Value) : list Z :=
  option_list ((get "message" v ≫= get "usage") ≫= anthropic) ++
  match get "usage" v with
  | Some u => if negb (is_object u) then []
              else option_list (if openai_shaped u then openai u else anthropic u)
  | None => []
  end.

Definition last_positive (l : list Z) : Z := default 0 (last (filter (λ n, 0 < n) l)).

Definition cached_tokens (u : Value) : option Z :=
  get "prompt_tokens_details" u ≫= get_u64 "cached_tokens".

Lemma last_positive_app l k : last_positive (l ++ k) =
  match last (filter (λ n, 0 < n) k) with Some n => n | None => last_positive l end.
Proof.
  unfold last_positive. rewrite filter_app, last_app. by destruct (last (filter _ k)).
Qed.

Lemma last_positive_option l (o : option Z) : last_positive (l ++ option_list o) =
  match o with Some n => if 0 <? n then n else last_positive l | None => last_positive l end.
Proof.
  rewrite last_positive_app. destruct o as [n|]; [|done]. cbn.
  destruct (0 <? n) eqn:E; breflect; case_decide; done || lia.
Qed.

(** A usage whose fields are the last positive ones reported. *)
Definition tracks_reports (l : list Value) (u : Usage) : Prop :=
  input_tokens u = last_positive (l ≫= reports (get_u64 "input_tokens") (get_u64 "prompt_tokens")) ∧
  output_tokens u =
    last_positive (l ≫= reports (get_u64 "output_tokens") (get_u64 "completion_tokens")) ∧
  cache_read_tokens u =
    last_positive (l ≫= reports (get_u64 "cache_read_input_tokens") cached_tokens) ∧
  cache_write_tokens u =
    last_positive (l ≫= reports (get_u64 "cache_creation_input_tokens") (λ _, None)).

Lemma field_step (l : list Value) v (f : Usage → Z) (a o : Value → option Z) u :
  (∀ u w, f (apply_anthropic u w) = match a w with Some n => if 0 <? n then n else f u | None => f u end) →
  (∀ u w, f (apply_openai u w) = match o w with Some n => if 0 <? n then n else f u | None => f u end) →
  f u = last_positive (l ≫= reports a o) →
  f (merge_usage u v) = last_positive ((l ++ [v]) ≫= reports a o).
Proof.
  intros Ha Ho Hf. rewrite bind_app. cbn [mbind list_bind]. rewrite app_nil_r. unfold reports at 2, merge_usage.
  rewrite app_assoc.
  assert (f (match get "message" v ≫= get "usage" with Some w => apply_anthropic u w | None => u end)
          = last_positive ((l ≫= reports a o) ++ option_list ((get "message" v ≫= get "usage") ≫= a))) as H1.
  { rewrite last_positive_option. destruct (get "message" v ≫= get "usage") as [w|]; cbn; [|done].
    rewrite Ha, Hf. done. }
  destruct (get "usage" v) as [w|]; [|by rewrite app_nil_r].
  destruct (negb (is_object w)); [by rewrite app_nil_r|].
  rewrite last_positive_option. fold (openai_shaped w). destruct (openai_shaped w).
  - rewrite Ho, H1. done.
  - rewrite Ha, H1. done.
Qed.

Lemma merge_tracks l v u : tracks_reports l u → tracks_reports (l ++ [v]) (merge_usage u v).
Proof. intros (H1 & H2 & H3 & H4). split_and!; by eapply field_step. Qed.

Lemma merge_all_tracks l : tracks_reports l (foldl merge_usage default_usage l).
Proof.
  induction l as [|v l IH] using rev_ind; [done|]. rewrite foldl_snoc. by apply merge_tracks.
Qed.

(** The streamed events of a text, whether or not it is a stream. *)
Definition stream_values (text : string) : list Value :=
  omap from_str (filter (λ p, p ≠ "" ∧ p ≠ "[DONE]") (omap data_line (lines text))).

Lemma observe_lines ls s u c :
  foldl observe_line (s, u, c) ls =
  (s || bool_decide (omap data_line ls ≠ []),
   foldl merge_usage u (omap from_str (filter (λ p, p ≠ "" ∧ p ≠ "[DONE]") (omap data_line ls))),
   foldl observe_streaming c
     (omap from_str (filter (λ p, p ≠ "" ∧ p ≠ "[DONE]") (omap data_line ls)))).
Proof.
  revert s u c. induction ls as [|l ls IH]; intros s u c; [by rewrite orb_false_r|].
  cbn [foldl omap list_omap]. unfold observe_line at 2.
  destruct (data_line l) as [rest|] eqn:E; [|apply IH].
  rewrite filter_cons. rewrite (bool_decide_true (rest :: _ ≠ [])) by done. rewrite orb_true_r.
  destruct (is_empty_str rest || bool_decide (rest = "[DONE]")) eqn:Es.
  - rewrite IH. rewrite decide_False; [done|]. intros [H1 H2].
    apply orb_true_iff in Es as [Es|Es]; [by destruct rest|by breflect].
  - rewrite decide_True.
    + cbn [omap list_omap]. destruct (from_str rest); rewrite IH; done.
    + apply orb_false_iff in Es as [Es Ed]. breflect. split; [by intros ->|done].
Qed.

Definition is_tool_start (v : Value) : bool :=
  bool_decide (get_str "type" v = Some "content_block_start")
  && bool_decide ((get "content_block" v ≫= get_str "type") = Some "tool_use").

(** The tool calls of a stream: the tool blocks announced, and the distinct indexes of a choice
    that deltas carry. *)
Definition streamed_calls (l : list Value) : Z :=
  Z.of_nat (length (filter (λ v, is_tool_start v = true) l)) +
  Z.of_nat (size (list_to_set (l ≫= λ v, default [] (get_array "choices" v) ≫= choice_calls)
                  : gset (Z * Z))).

Lemma u32_wrap_add_l a b : u32_wrap (u32_wrap a + b) = u32_wrap (a + b).
Proof. unfold u32_wrap. by rewrite Z.add_mod_idemp_l. Qed.
Lemma u32_wrap_add_r a b : u32_wrap (a + u32_wrap b) = u32_wrap (a + b).
Proof. unfold u32_wrap. by rewrite Z.add_mod_idemp_r. Qed.

Lemma observe_stream_all l :
  let c := foldl observe_streaming no_calls l in
  seen c = bool_decide (l ≠ []) ∧ openai_nonstream c = 0 ∧
  anthropic c = u32_wrap (Z.of_nat (length (filter (λ v, is_tool_start v = true) l))) ∧
  openai_stream_idx c =
    list_to_set (l ≫= λ v, default [] (get_array "choices" v) ≫= choice_calls).
Proof.
  induction l as [|v l IH] using rev_ind; [by split_and!|]. cbv zeta in *. rewrite foldl_snoc.
  destruct IH as (_ & H2 & H3 & H4). unfold observe_streaming at 1 3 5 7. cbn.
  fold (is_tool_start v). rewrite filter_app, length_app, bind_app, list_to_set_app_L, H4.
  split_and!; [|done| |].
  - symmetry. apply bool_decide_true. by destruct l.
  - rewrite H3. cbn. destruct (is_tool_start v); case_decide; try done; cbn.
    + rewrite u32_wrap_add_l. f_equal. lia.
    + f_equal. lia.
  - cbn. rewrite app_nil_r. set_solver.
Qed.

(** C34: The parsed usage is what the provider reported last. Each token count is the last
    positive one that the looked-at JSON values report for it, zero when none does; the tool
    calls are unknown exactly when nothing parsed; and in a stream they are the tool blocks
    announced plus the distinct calls of the choices, however often their deltas repeat. *)
Theorem usage_last_reported buf :
  let text := from_utf8_lossy buf in
  let u := finish buf in
  tracks_reports (events text) u ∧
  (tool_calls u = None ↔ events text = []) ∧
  (is_streamed text = true → events text ≠ [] →
   tool_calls u = Some (u32_wrap (streamed_calls (events text)))).
Proof.
  intros text u. unfold u, finish. fold text. rewrite observe_lines. cbn [orb].
  unfold events, is_streamed. destruct (omap data_line (lines text)) as [|p ps] eqn:E.
  - rewrite bool_decide_false by naive_solver. cbn.
    destruct (from_str (trim text)) as [v|]; cbn.
    + by split; [apply (merge_all_tracks [v])|].
    + by split; [apply (merge_all_tracks [])|].
  - rewrite !bool_decide_true by done. set (l := omap from_str _).
    pose proof (observe_stream_all l) as Ho. cbv zeta in Ho. destruct Ho as (H1 & H2 & H3 & H4).
    split; [apply (merge_all_tracks l)|split].
    + cbn [tool_calls]. unfold counted. rewrite H1. case_bool_decide as Hl; cbn; naive_solver.
    + intros _ Hl. cbn [tool_calls]. unfold counted. rewrite H1, bool_decide_true by done.
      rewrite H2, H3, H4. cbn [negb]. unfold streamed_calls.
      by rewrite Z.add_0_r, u32_wrap_add_r, !u32_wrap_add_l.
Qed.

(** ** The relayed body *)

Lemma str_take_app_ge n a b : (String.length a ≤ n)%nat →
  str_take n (a +:+ b) = a +:+ str_take (n - String.length a) b.
Proof.
  revert n. induction a as [|c a IH]; intros n H; [by rewrite Nat.sub_0_r|].
  cbn in H. destruct n as [|n]; [lia|].
  rewrite !cons_app. cbn [str_take String.length Nat.sub]. by rewrite IH by lia.
Qed.

Lemma str_take_min n s : str_take (n `min` String.length s) s = str_take n s.
Proof. revert n. induction s as [|c s IH]; intros [|n]; cbn; try done. by rewrite IH. Qed.

Lemma feed_take n buf chunk :
  n = Z.to_nat CAP → (String.length buf ≤ n)%nat → feed buf chunk = str_take n (buf +:+ chunk).
Proof.
  intros Hn H. unfold feed, str_len. rewrite str_take_app_ge by done.
  destruct (CAP <=? _) eqn:E; breflect.
  - replace (n - String.length buf)%nat with 0%nat by lia. by destruct chunk; rewrite append_nil_r.
  - rewrite <- (str_take_min (n - _)). do 2 f_equal. lia.
Qed.

Lemma str_take_le n s : (String.length (str_take n s) ≤ n)%nat.
Proof. revert n. induction s as [|c s IH]; intros [|n]; cbn; try lia. specialize (IH n). lia. Qed.

Lemma str_take_idem_app n a b : str_take n (str_take n a +:+ b) = str_take n (a +:+ b).
Proof.
  revert n. induction a as [|c a IH]; intros [|n]; try done.
  cbn [str_take]. rewrite !cons_app. cbn [str_take]. by rewrite IH.
Qed.

Lemma feed_all n buf chunks :
  n = Z.to_nat CAP → (String.length buf ≤ n)%nat →
  foldl feed buf chunks = str_take n (buf +:+ concat_str chunks).
Proof.
  intros Hn. revert buf. induction chunks as [|c chunks IH]; intros buf H; cbn [foldl concat_str].
  - rewrite str_take_app_ge by done. by destruct (_ - _)%nat; rewrite append_nil_r.
  - rewrite (feed_take n) by done. rewrite IH by apply str_take_le.
    by rewrite str_take_idem_app, append_assoc.
Qed.

Lemma relay_chunks buf chunks tail :
  relay buf ((Ok <$> chunks) ++ tail) =
  ((Ok <$> chunks) ++ (relay (foldl feed buf chunks) tail).1,
   (relay (foldl feed buf chunks) tail).2).
Proof.
  revert buf. induction chunks as [|c chunks IH]; intros buf; cbn [foldl fmap list_fmap app relay].
  - by destruct (relay buf tail).
  - by rewrite IH.
Qed.

(** C35: What the network did to the body does not show. However it was cut into chunks, the
    caller is relayed the very chunks that arrived, and the usage is that of the first [CAP]
    bytes of the whole; a stream that breaks ends with its error and reports no usage. *)
Theorem usage_chunk_invariant chunks err rest :
  relay "" (Ok <$> chunks) =
    (Ok <$> chunks, Some (finish (str_take (Z.to_nat CAP) (concat_str chunks)))) ∧
  relay "" ((Ok <$> chunks) ++ Err err :: rest) =
    ((Ok <$> chunks) ++ [Err ("upstream request failed: " +:+ err)], None).
Proof.
  split.
  - rewrite <- (app_nil_r (Ok <$> chunks)), relay_chunks. cbn [relay fst snd].
    rewrite app_nil_r, (feed_all _ _ _ eq_refl); [done|cbn; lia].
  - by rewrite relay_chunks.
Qed.

Lemma listed_names (f : string → option string) l :
  NoDup l → NoDup (fst <$> omap (λ name, (λ v, (name, v)) <$> f name) l).
Proof.
  induction 1 as [|x l Hx Hl IH]; cbn; [constructor|].
  destruct (f x) as [v|]; cbn; [|done]. constructor; [|done].
  intros ([y w] & -> & (n & Hn & Hf)%list_elem_of_omap)%list_elem_of_fmap.
  destruct (f n) as [u|]; simplify_eq/=. done.
Qed.

(** Only listed headers reach the provider: each at most once, with the first value the
    caller sent, and none of the gateway's own [x-fuse-] headers, the client key included. *)
Theorem headers_forwarded_listed headers name v :
  (name, v) ∈ forwarded_headers headers →
  name ∈ FORWARD_HEADERS ∧ assoc name headers = Some v ∧ starts_with "x-fuse-" name = false ∧
  NoDup (fst <$> forwarded_headers headers).
Proof.
  intros (n & Hn & Hf)%list_elem_of_omap. destruct (assoc n headers) as [w|] eqn:E; simplify_eq/=.
  split_and!; [done|done| |].
  - set_unfold. by destruct_or! Hn; subst.
  - apply listed_names. by apply (bool_decide_unpack _); vm_compute.
Qed.
End parser.

Definition demo_headers : Request.HeaderMap :=
  [("x-fuse-key", "sk-fuse-1"); ("authorization", "Bearer sk-up"); ("x-fuse-run-id", "r1")].

Lemma headers_forwarded_listed_witness :
  ("authorization", "Bearer sk-up") ∈ forwarded_headers demo_headers ∧
  starts_with "x-fuse-" "authorization" = false.
Proof.
  assert (("authorization", "Bearer sk-up") ∈ forwarded_headers demo_headers) as H
    by (change (forwarded_headers demo_headers) with [("authorization", "Bearer sk-up")];
        by apply list_elem_of_singleton).
  split; [exact H|]. exact (proj1 (proj2 (proj2 (headers_forwarded_listed _ _ _ H)))).
Defined.
