(* ===== verification/McpClient.v ===== *)
(** * The scanner's MCP client

    [crates/gateway/src/mcpclient.rs] and [mcpexposure_probe.rs]: the one-shot JSON-RPC
    client of [mcp-scan --url] (handshake, bounded bodies, answers as a JSON object or as
    an event stream) and the probe of an unauthenticated server.  The server is untrusted:
    it is a parameter that keeps a state of its own and answers every post as it likes. *)

From S2P Require Import Prelude Float Strings Text Json Mcp McpReport McpExposure.
From S2P Require Provider Request.

(* @src mcpclient.rs DEFAULT_MAX_BODY_BYTES *)
Definition DEFAULT_MAX_BODY_BYTES : Z := 8 * 1024 * 1024.

(* @src mcpclient.rs McpClientConfig *)
Record McpClientConfig := mkClientConfig {
  cfg_url : string;
  connect_timeout : Z;        (* seconds *)
  total_timeout : Z;
  extra_headers : list (string * string);
  max_body_bytes : Z          (* usize *)
}.

(** A [u64] or a [usize] read from the environment. *)
Definition env_or (v : option string) (dflt : Z) : Z := default dflt (v ≫= parse_unsigned u64_max).

(* @src mcpclient.rs McpClientConfig::new *)
Definition new (env : string → option string) (url : string) : McpClientConfig :=
  mkClientConfig url (env_or (env "TOKENFUSE_MCP_SCAN_CONNECT_TIMEOUT_SECS") 5)
    (env_or (env "TOKENFUSE_MCP_SCAN_TIMEOUT_SECS") 15) []
    (env_or (env "TOKENFUSE_MCP_SCAN_MAX_BODY_BYTES") DEFAULT_MAX_BODY_BYTES).

(* @src mcpclient.rs McpClientError *)
Inductive McpClientError :=
| Transport (e : string)
| Status (status : Z) (body : string)
| Parse (e : string)
| UnsupportedTransport (e : string)
| BodyTooLarge (limit : Z).

(** The text of an error, as [thiserror] derives it from the attributes. *)
(* @src mcpclient.rs McpClientError *)
Definition error_text (e : McpClientError) : string :=
  match e with
  | Transport m => "request failed: " +:+ m
  | Status s body => "server returned HTTP " +:+ pretty s +:+ ": " +:+ body
  | Parse m => "could not parse server response: " +:+ m
  | UnsupportedTransport m => m
  | BodyTooLarge limit => "response body exceeded the " +:+ pretty limit
      +:+ "-byte scan cap (set TOKENFUSE_MCP_SCAN_MAX_BODY_BYTES to change)"
  end.

(* @src mcpclient.rs content_type_matches *)
Definition content_type_matches (content_type expected : string) : bool :=
  eq_ignore_ascii_case (trim (default "" (head (split_char ";" content_type)))) expected.

(** The body arrives in chunks; the stream may break. *)
(* @src mcpclient.rs read_body_capped *)
Fixpoint read_body (max_bytes : Z) (buf : string) (stream : list (result string string))
  : result string McpClientError :=
  match stream with
  | [] => Ok buf
  | Err e :: _ => Err (Transport e)
  | Ok chunk :: stream =>
      if max_bytes <? Provider.str_len buf + Provider.str_len chunk
      then Err (BodyTooLarge max_bytes)
      else read_body max_bytes (buf +:+ chunk) stream
  end.
(* @src mcpclient.rs read_body_capped *)
Definition read_body_capped (stream : list (result string string)) (max_bytes : Z)
  : result string McpClientError := read_body max_bytes "" stream.

(** ** Messages *)

Definition rpc_id (n : Z) : Value := Number (PosInt n).

(* @src mcpclient.rs initialize_request *)
Definition initialize_request (version : string) : Value :=
  Obj [("id", rpc_id 1); ("jsonrpc", Str "2.0"); ("method", Str "initialize");
       ("params", Obj [("capabilities", Obj []);
                       ("clientInfo", Obj [("name", Str "tokenfuse-mcp-scan");
                                           ("version", Str version)]);
                       ("protocolVersion", Str "2025-06-18")])].

(* @src mcpclient.rs initialized_notification *)
Definition initialized_notification : Value :=
  Obj [("jsonrpc", Str "2.0"); ("method", Str "notifications/initialized")].

(* @src mcpclient.rs 153-158 fetch_tools_list *)
Definition tools_list_request : Value :=
  Obj [("id", rpc_id 2); ("jsonrpc", Str "2.0"); ("method", Str "tools/list");
       ("params", Obj [])].

(* @src mcpclient.rs 317-322 probe_tools_call *)
Definition tools_call_request (tool_name : string) (arguments : Value) : Value :=
  Obj [("id", rpc_id 2); ("jsonrpc", Str "2.0"); ("method", Str "tools/call");
       ("params", Obj [("arguments", arguments); ("name", Str tool_name)])].

(** [serde_json]'s equality. *)
Fixpoint value_eqb (v w : Value) : bool :=
  match v, w with
  | Null, Null => true
  | Bool a, Bool b => Bool.eqb a b
  | Number (PosInt n), Number (PosInt m) => n =? m
  | Number (NegInt n), Number (NegInt m) => n =? m
  | Number (FloatNum x), Number (FloatNum y) => SFeqb x y
  | Str a, Str b => bool_decide (a = b)
  | Arr l, Arr k =>
      (fix eqs l k := match l, k with
                      | [], [] => true
                      | a :: l, b :: k => value_eqb a b && eqs l k
                      | _, _ => false
                      end) l k
  | Obj l, Obj k =>
      (fix eqs l k := match l, k with
                      | [], [] => true
                      | (i, a) :: l, (j, b) :: k => bool_decide (i = j) && value_eqb a b && eqs l k
                      | _, _ => false
                      end) l k
  | _, _ => false
  end.

Definition same_id (want got : option Value) : bool :=
  match want, got with
  | Some v, Some w => value_eqb w v
  | None, None => true
  | _, _ => false
  end.

(** ** Exchanges *)

(** A posted message. *)
Record Post := mkPost { p_url : string; p_headers : list (string * string); p_body : string }.

(** What the server makes of it; header names are lower case, as [HeaderMap] keeps them. *)
Record Response := mkResponse {
  r_status : Z; r_headers : list (string * string); r_chunks : list (result string string)
}.

(* @src mcpclient.rs ToolsListProbe *)
Record ToolsListProbe := mkListProbe {
  lp_status : Z; lp_headers : list (string * string); lp_body : Value
}.

(* @src mcpclient.rs ToolCallProbe *)
Record ToolCallProbe := mkCallProbe { cp_status : Z; cp_body : Value }.

(** The functions of libraries the client calls. *)
Record ClientLib := mkClientLib {
  c_to_str : string → option string;              (* HeaderValue::to_str *)
  c_from_slice : string → result Value string;    (* serde_json *)
  c_to_vec : Value → string;
  c_debug : string → string;                      (* {:?} of a str *)
  c_debug_value : Value → string;                 (* {:?} of a Value *)
  c_build : option string;                        (* the error of ClientBuilder::build *)
  c_url_parse : string → option (string * option string);
  c_version : string                              (* CARGO_PKG_VERSION *)
}.

Section client.
Context {W : Type} (serve : W → Post → W * result Response string) (lib : ClientLib).

(** A computation that talks to the server. *)
Definition C (A : Type) : Type := W → W * result A McpClientError.
#[export] Instance C_ret : MRet C := λ A a w, (w, Ok a).
#[export] Instance C_bind : MBind C := λ A B k m w,
  match m w with (w, Ok a) => k a w | (w, Err e) => (w, Err e) end.
Definition lift {A} (r : result A McpClientError) : C A := λ w, (w, r).

(** The first value of a header. *)
Definition response_header (r : Response) (name : string) : option string :=
  Request.header_str (c_to_str lib) (r_headers r) name.

(* @src mcpclient.rs build_client *)
Definition build_client : C unit :=
  lift match c_build lib with Some e => Err (Transport e) | None => Ok tt end.

(* @src mcpclient.rs 448-460 send *)
Definition post_headers (cfg : McpClientConfig) (session_id : option string)
  : list (string * string) :=
  [("content-type", "application/json"); ("accept", "application/json, text/event-stream")]
  ++ match session_id with Some sid => [("Mcp-Session-Id", sid)] | None => [] end
  ++ extra_headers cfg.

(** Printing a [Value] does not fail, so there is no encode error. *)
(* @src mcpclient.rs send *)
Definition send (cfg : McpClientConfig) (req : Value) (session_id : option string) : C Response :=
  λ w, match serve w (mkPost (cfg_url cfg) (post_headers cfg session_id) (c_to_vec lib req)) with
       | (w, Ok r) => (w, Ok r)
       | (w, Err e) => (w, Err (Transport e))
       end.

Definition is_success (status : Z) : bool := (200 <=? status) && (status <? 300).

(* @src mcpclient.rs send_notification *)
Definition send_notification (cfg : McpClientConfig) (req : Value) (session_id : option string)
  : C unit :=
  resp ← send cfg req session_id;
  lift (if is_success (r_status resp) then Ok tt
        else let bytes := match read_body_capped (r_chunks resp) (max_body_bytes cfg) with
                          | Ok b => b
                          | Err _ => ""
                          end in
             Err (Status (r_status resp) (from_utf8_lossy bytes))).

(** ** Event streams *)

(* @src mcpclient.rs flush_sse_event *)
Definition flush_sse_event (data_lines : list string) (frames : list Value) : list Value :=
  match data_lines with
  | [] => frames
  | _ => match c_from_slice lib (join (String (ascii_of_nat 10) "") data_lines) with
         | Ok v => frames ++ [v]
         | Err _ => frames
         end
  end.

Definition cr (c : ascii) : bool := bool_decide (c = ascii_of_nat 13).

(* @src mcpclient.rs 390-402 parse_sse_frames *)
Definition sse_line (s : list string * list Value) (line : string) : list string * list Value :=
  let '(data_lines, frames) := s in
  let line := trim_end_chars cr line in
  if is_empty_str line then ([], flush_sse_event data_lines frames)
  else match strip_prefix "data:" line with
       | Some rest => (data_lines ++ [default rest (strip_prefix " " rest)], frames)
       | None => (data_lines, frames)
       end.

(* @src mcpclient.rs parse_sse_frames *)
Definition parse_sse_frames (text : string) : list Value :=
  let '(data_lines, frames) := foldl sse_line ([], []) (Provider.lines text) in
  flush_sse_event data_lines frames.

(** ** Requests *)

(** The headers whose value is text. *)
(* @src mcpclient.rs 197-205 post_rpc_full *)
Definition readable_headers (r : Response) : list (string * string) :=
  omap (λ '(k, v), (λ v, (to_ascii_lowercase k, v)) <$> c_to_str lib v) (r_headers r).

(** The answer to a request that asks for [want_id]. *)
(* @src mcpclient.rs 219-242 post_rpc_full *)
Definition read_answer (want_id : option Value) (content_type bytes : string)
  : result Value McpClientError :=
  if content_type_matches content_type "text/event-stream" then
    match find (λ frame, same_id want_id (get "id" frame)) (parse_sse_frames (from_utf8_lossy bytes))
    with
    | Some frame => Ok frame
    | None => Err (Parse ("SSE stream ended without a response matching request id "
                          +:+ c_debug_value lib (default Null want_id)))
    end
  else if negb (content_type_matches content_type "application/json") then
    Err (UnsupportedTransport ("server responded with unsupported content-type "
                               +:+ c_debug lib content_type))
  else match c_from_slice lib bytes with
       | Ok v => Ok v
       | Err e => Err (Parse e)
       end.

(* @src mcpclient.rs post_rpc_full *)
Definition post_rpc_full (cfg : McpClientConfig) (req : Value) (session_id : option string)
  : C (Value * Z * list (string * string) * option string) :=
  resp ← send cfg req session_id;
  let sid := response_header resp "mcp-session-id" in
  let headers := readable_headers resp in
  let content_type := default "" (response_header resp "content-type") in
  bytes ← lift (read_body_capped (r_chunks resp) (max_body_bytes cfg));
  if negb (is_success (r_status resp))
  then lift (Err (Status (r_status resp) (from_utf8_lossy bytes)))
  else
    v ← lift (read_answer (get "id" req) content_type bytes);
    mret (v, r_status resp, headers, sid).

(* @src mcpclient.rs post_rpc *)
Definition post_rpc (cfg : McpClientConfig) (req : Value) (session_id : option string)
  : C (Value * option string) :=
  '(value, _, _, sid) ← post_rpc_full cfg req session_id;
  mret (value, sid).

(** [initialize] and [notifications/initialized]; the session the server opened. *)
(* @src mcpclient.rs 126-145 fetch_tools_list *)
Definition handshake (cfg : McpClientConfig) : C (option string) :=
  build_client;;
  '(_, sid) ← post_rpc cfg (initialize_request (c_version lib)) None;
  send_notification cfg initialized_notification sid;;
  mret sid.

(* @src mcpclient.rs fetch_tools_list *)
Definition fetch_tools_list (cfg : McpClientConfig) : C Value :=
  sid ← handshake cfg;
  '(tools_resp, _) ← post_rpc cfg tools_list_request sid;
  mret tools_resp.

(* @src mcpclient.rs fetch_tools_list_probe *)
Definition fetch_tools_list_probe (cfg : McpClientConfig) : C ToolsListProbe :=
  sid ← handshake cfg;
  '(body, status, headers, _) ← post_rpc_full cfg tools_list_request sid;
  mret (mkListProbe status headers body).

(* @src mcpclient.rs probe_tools_call *)
Definition probe_tools_call (cfg : McpClientConfig) (tool_name : string) (arguments : Value)
  : C ToolCallProbe :=
  sid ← handshake cfg;
  '(body, status, _, _) ← post_rpc_full cfg (tools_call_request tool_name arguments) sid;
  mret (mkCallProbe status body).

(** ** The exposure probe *)

(** The unauthenticated [tools/list]: whether it answered, the tools and the CORS check. *)
(* @src mcpexposure_probe.rs 64-75 run_exposure_probe *)
Definition list_check (tools_of : Value → list McpTool) (cfg : McpClientConfig) (w : W)
  : W * (bool * nat * bool) :=
  match fetch_tools_list_probe cfg w with
  | (w, Ok probe) =>
      let tool_count := length (tools_of (lp_body probe)) in
      let cors := existsb (λ '(k, v), bool_decide (k = "access-control-allow-origin")
                                      && bool_decide (trim v = "*")) (lp_headers probe) in
      (w, ((0 <? tool_count)%nat, tool_count, cors))
  | (w, Err _) => (w, (false, O, false))
  end.

(* @src mcpexposure_probe.rs 77-98 run_exposure_probe *)
Definition call_check (cfg : McpClientConfig) (attempt_call : bool) (call_tool : option string)
    (w : W) : W * CallAttempt :=
  if attempt_call then
    match call_tool with
    | None => (w, Skipped ("--attempt-call requires an explicit --call-tool <name>; refusing to "
                           +:+ "auto-pick a tool from server-controlled descriptions"))
    | Some name =>
        match probe_tools_call cfg name (Obj []) w with
        | (w, Ok resp) => (w, if bool_decide (get "error" (cp_body resp) = None)
                              then Succeeded name else Rejected name)
        | (w, Err _) => (w, Rejected name)
        end
    end
  else (w, NotRequested).

(* @src mcpexposure_probe.rs 52-62 run_exposure_probe *)
Definition scheme_host (to_lowercase : string → string) (url : string) : string * string :=
  match c_url_parse lib url with
  | Some (scheme, host) => (scheme, default "" host)
  | None => default ("", "") (parse_url_host_scheme to_lowercase url)
  end.

(* @src mcpexposure_probe.rs run_exposure_probe *)
Definition run_exposure_probe (to_lowercase : string → string) (tools_of : Value → list McpTool)
    (env : string → option string) (url : string) (attempt_call : bool)
    (call_tool : option string) (w : W) : W * ProbeOutcome :=
  let cfg := new env url in
  let '(scheme, host) := scheme_host to_lowercase url in
  let '(w, (unauth_list_returned, unauth_tool_count, cors_wildcard)) := list_check tools_of cfg w in
  let '(w, call_attempt) := call_check cfg attempt_call call_tool w in
  (w, mkProbe scheme host unauth_list_returned unauth_tool_count cors_wildcard call_attempt).
End client.

(** ** Bounded bodies *)

Lemma str_len_app a b : Provider.str_len (a +:+ b) = Provider.str_len a + Provider.str_len b.
Proof. unfold Provider.str_len. rewrite append_length. lia. Qed.

(** What has been buffered never exceeds the cap, wherever the stream stops. *)
Lemma read_body_capped_bounded stream max b :
  0 <= max → read_body_capped stream max = Ok b → Provider.str_len b <= max.
Proof.
  unfold read_body_capped. intros Hmax.
  assert (Provider.str_len "" <= max) as Hb by (unfold Provider.str_len; simpl; lia).
  revert Hb. generalize "". induction stream as [|[c|e] stream IH]; intros buf Hb; simpl.
  - by intros [= <-].
  - destruct (Z.ltb_spec max (Provider.str_len buf + Provider.str_len c)) as [|Hc]; [done|].
    apply IH. rewrite str_len_app. lia.
  - done.
Qed.

Lemma read_body_spec max buf cs :
  Provider.str_len buf <= max →
  read_body max buf (Ok <$> cs)
  = if Provider.str_len (buf +:+ concat_str cs) <=? max
    then Ok (buf +:+ concat_str cs) else Err (BodyTooLarge max).
Proof.
  revert buf. induction cs as [|c cs IH]; intros buf Hb; simpl.
  - rewrite append_nil_r. by rewrite (proj2 (Z.leb_le _ _) Hb).
  - rewrite <- append_assoc. destruct (Z.ltb_spec max (Provider.str_len buf + Provider.str_len c)) as [Hc|Hc].
    + rewrite (proj2 (Z.leb_gt _ _)); [done|]. rewrite !str_len_app.
      unfold Provider.str_len in *. lia.
    + apply IH. rewrite str_len_app. lia.
Qed.

(** How the server cuts the body into chunks does not matter. *)
Theorem read_body_capped_chunks cs max :
  0 <= max →
  read_body_capped (Ok <$> cs) max
  = if Provider.str_len (concat_str cs) <=? max
    then Ok (concat_str cs) else Err (BodyTooLarge max).
Proof. intros Hmax. unfold read_body_capped. rewrite read_body_spec; [done|]. by simpl. Qed.

(** ** Event streams *)

(** A stream as the transport writes it: the payload lines of an event and its other fields,
    every line ended by a newline, and every event by an empty line. *)
Inductive Field := Data (s : string) | Other (s : string).
Definition field_line (f : Field) : string :=
  match f with Data s => "data: " +:+ s | Other s => s end.
Definition eol (crlf : bool) : string :=
  (if crlf then String (ascii_of_nat 13) "" else "") +:+ String (ascii_of_nat 10) "".
Definition stream_lines (events : list (list Field)) : list string :=
  events ≫= (λ e, (field_line <$> e) ++ [""]).
Definition render_stream (crlf : bool) (events : list (list Field)) : string :=
  concat_str ((λ l, l +:+ eol crlf) <$> stream_lines events).

Definition payload (e : list Field) : list string :=
  omap (λ f, match f with Data s => Some s | Other _ => None end) e.

(** A field fits on a line and is not mistaken for another. *)
Definition field_ok (f : Field) : Prop :=
  free_of (ascii_of_nat 10) (field_line f) ∧ trim_end_chars cr (field_line f) = field_line f ∧
  match f with Data _ => True | Other s => s ≠ "" ∧ strip_prefix "data:" s = None end.

Lemma split_lines_text ls :
  Forall (free_of (ascii_of_nat 10)) ls →
  split_char (ascii_of_nat 10) (concat_str ((λ l, l +:+ String (ascii_of_nat 10) "") <$> ls))
  = ls ++ [""].
Proof.
  induction 1 as [|l ls Hl _ IH]; [done|]. rewrite fmap_cons. cbn [concat_str].
  rewrite append_assoc, cons_app, split_char_cons by done. cbn [app]. f_equal. apply IH.
Qed.

Lemma strip_cr_crlf l : Provider.strip_cr (l +:+ String (ascii_of_nat 13) "") = l.
Proof.
  unfold Provider.strip_cr. rewrite str_rev_append.
  change (String.rev (String (ascii_of_nat 13) "")) with (String (ascii_of_nat 13) "").
  rewrite cons_app. rewrite bool_decide_true by done. apply str_rev_rev.
Qed.

Lemma trim_start_chars_length f s : (String.length (trim_start_chars f s) <= String.length s)%nat.
Proof. induction s as [|c s IH]; simpl; [lia|]. destruct (f c); simpl; lia. Qed.

Lemma strip_cr_id l : trim_end_chars cr l = l → Provider.strip_cr l = l.
Proof.
  unfold trim_end_chars, Provider.strip_cr. intros Hl.
  assert (trim_start_chars cr (String.rev l) = String.rev l) as Hr.
  { rewrite <- Hl at 2. by rewrite str_rev_rev. }
  destruct (String.rev l) as [|c r] eqn:Hrev.
  - by rewrite <- (str_rev_rev l), Hrev.
  - simpl in Hr. unfold cr in Hr. case_bool_decide as Hc; [|by rewrite bool_decide_false; [|intros Hn;
      apply Hc; rewrite <- (ascii_nat_embedding c), Hn]].
    pose proof (trim_start_chars_length cr r) as Hlen. unfold cr in Hlen at 1.
    apply (f_equal String.length) in Hr. simpl in Hr. unfold cr in *. lia.
Qed.

Lemma lines_text crlf ls :
  Forall (λ l, free_of (ascii_of_nat 10) l ∧ trim_end_chars cr l = l) ls →
  Provider.lines (concat_str ((λ l, l +:+ eol crlf) <$> ls)) = ls.
Proof.
  intros Hls. unfold Provider.lines, eol.
  set (end_ := if crlf then String (ascii_of_nat 13) "" else "").
  assert (((λ l, l +:+ (end_ +:+ String (ascii_of_nat 10) "")) <$> ls)
          = (λ l, l +:+ String (ascii_of_nat 10) "") <$> ((λ l, l +:+ end_) <$> ls)) as ->.
  { rewrite <- list_fmap_compose. apply list_fmap_ext. intros i l _. cbn. by rewrite append_assoc. }
  rewrite split_lines_text.
  - rewrite last_snoc, length_app, length_fmap. simpl. replace (_ + 1 - 1)%nat with (length ls) by lia.
    rewrite take_app_length' by by rewrite length_fmap. rewrite <- list_fmap_compose.
    rewrite <- (list_fmap_id ls) at 2. apply list_fmap_ext. intros i l Hl. cbn. unfold end_.
    destruct crlf; [apply strip_cr_crlf|]. rewrite append_nil_r. apply strip_cr_id.
    by apply (Forall_lookup_1 _ _ _ _ Hls) in Hl as [_ ?].
  - apply Forall_fmap. apply (Forall_impl _ _ _ Hls). intros l [Hl _]. cbn. unfold free_of in *.
    rewrite count_char_append, Hl. unfold end_. by destruct crlf.
Qed.

Section streams.
Context (lib : ClientLib).

Lemma other_line s : field_ok (Other s) → ∀ st, sse_line lib st s = st.
Proof.
  intros (_ & Htrim & Hne & Hpre) [d fr]. cbn [field_line] in Htrim. unfold sse_line. rewrite Htrim, Hpre.
  by destruct s.
Qed.

Lemma data_line_pushed s d fr :
  field_ok (Data s) → sse_line lib (d, fr) ("data: " +:+ s) = (d ++ [s], fr).
Proof.
  intros (_ & Htrim & _). cbn [field_line] in Htrim. unfold sse_line. rewrite Htrim.
  change ("data: " +:+ s) with ("data:" +:+ (" " +:+ s)).
  rewrite (proj2 (strip_prefix_some _ _ _) eq_refl).
  by rewrite (proj2 (strip_prefix_some " " _ _) eq_refl).
Qed.

Lemma event_lines e d fr :
  Forall field_ok e →
  foldl (sse_line lib) (d, fr) (field_line <$> e) = (d ++ payload e, fr).
Proof.
  intros He. revert d. induction He as [|[s|s] e Hf _ IH]; intros d; cbn [foldl fmap list_fmap].
  - by rewrite app_nil_r.
  - cbn [field_line]. rewrite data_line_pushed by done. rewrite IH, <- app_assoc. done.
  - cbn [field_line]. rewrite other_line by done. apply IH.
Qed.

(** The parser finds, in order, what the events carry: the payload lines of an event are one
    document, the other fields and the events that are no document are skipped, whichever
    line ending the server uses. *)
Theorem sse_decodes crlf events :
  Forall (Forall field_ok) events →
  parse_sse_frames lib (render_stream crlf events)
  = omap (λ e, match c_from_slice lib (join (String (ascii_of_nat 10) "") e) with
               | Ok v => Some v
               | Err _ => None
               end) (filter (λ e, e ≠ []) (payload <$> events)).
Proof.
  intros Hev. unfold parse_sse_frames, render_stream. rewrite lines_text.
  - set (doc := omap _).
    assert (∀ fr, foldl (sse_line lib) ([], fr) (stream_lines events)
                  = ([], fr ++ doc (filter (λ e, e ≠ []) (payload <$> events)))) as Hfold.
    { induction Hev as [|e events He Hev IH]; intros fr; [by rewrite app_nil_r|].
      unfold stream_lines. cbn [mbind list_bind]. fold (stream_lines events).
      rewrite foldl_app, foldl_app, event_lines by done. cbn [foldl app].
      assert (sse_line lib (payload e, fr) "" = ([], flush_sse_event lib (payload e) fr)) as ->
        by done.
      fold (stream_lines events). etransitivity; [apply IH|]. f_equal. cbn [fmap list_fmap].
      destruct (payload e) as [|l p] eqn:Hp.
      - by rewrite filter_cons_False by (intros Hn; by apply Hn).
      - rewrite filter_cons_True by done. cbn [flush_sse_event]. unfold doc. cbn [omap list_omap].
        destruct (c_from_slice lib _); [by rewrite <- app_assoc|done]. }
    by rewrite Hfold.
  - apply Forall_bind, (Forall_impl _ _ _ Hev). intros e He. apply Forall_app. split.
    + apply Forall_fmap, (Forall_impl _ _ _ He). by intros f (Hfree & Htrim & _).
    + by repeat constructor.
Qed.
End streams.

(** ** What the scanned server is sent *)

Section posts.
Context {W : Type} (serve : W → Post → W * result Response string) (lib : ClientLib).

(** The server, with a log of what it was sent. *)
Definition logged (w : W * list Post) (p : Post) : (W * list Post) * result Response string :=
  let '(w', r) := serve w.1 p in ((w', w.2 ++ [p]), r).

Definition message (cfg : McpClientConfig) (session_id : option string) (req : Value) : Post :=
  mkPost (cfg_url cfg) (post_headers cfg session_id) (c_to_vec lib req).

(** A whole conversation: the session the server opened is named from the second message on. *)
Definition conversation (cfg : McpClientConfig) (session_id : option string) (last : Value)
  : list Post :=
  [message cfg None (initialize_request (c_version lib));
   message cfg session_id initialized_notification; message cfg session_id last].

Lemma send_logged cfg req sid w :
  (send logged lib cfg req sid w).1.2 = w.2 ++ [message cfg sid req].
Proof. unfold send, logged. by destruct (serve w.1 _) as [w' [r|e]]. Qed.

Lemma post_rpc_full_logged cfg req sid w :
  (post_rpc_full logged lib cfg req sid w).1.2 = w.2 ++ [message cfg sid req].
Proof.
  rewrite <- (send_logged cfg req sid w). unfold post_rpc_full, mbind, C_bind, lift.
  destruct (send logged lib cfg req sid w) as [w' [r|e]]; [|done].
  destruct (read_body_capped _ _); [|done]. destruct (negb _); [done|].
  by destruct (read_answer _ _ _).
Qed.

Lemma post_rpc_logged cfg req sid w :
  (post_rpc logged lib cfg req sid w).1.2 = w.2 ++ [message cfg sid req].
Proof.
  rewrite <- (post_rpc_full_logged cfg req sid w). unfold post_rpc, mbind, C_bind.
  by destruct (post_rpc_full _ _ _ _ _ w) as [w' [[[[]]]|]].
Qed.

Lemma notification_logged cfg req sid w :
  (send_notification logged lib cfg req sid w).1.2 = w.2 ++ [message cfg sid req].
Proof.
  rewrite <- (send_logged cfg req sid w). unfold send_notification, mbind, C_bind, lift.
  by destruct (send logged lib cfg req sid w) as [w' [r|e]].
Qed.

Lemma handshake_logged cfg last w :
  ∃ sid k, (handshake logged lib cfg w).1.2 = w.2 ++ take k (conversation cfg sid last) ∧
    (k <= 2)%nat ∧ ∀ s, (handshake logged lib cfg w).2 = Ok s → s = sid ∧ k = 2%nat.
Proof.
  unfold handshake, build_client, mbind, C_bind, lift.
  destruct (c_build lib); [by exists None, 0%nat; rewrite app_nil_r; split; [|split; [lia|]]|].
  pose proof (post_rpc_logged cfg (initialize_request (c_version lib)) None w) as H1.
  destruct (post_rpc _ _ _ _ None w) as [w1 [[v sid]|e]]; cbn [fst snd] in H1.
  2:{ exists None, 1%nat. cbn. split; [done|]. split; [lia|done]. }
  pose proof (notification_logged cfg initialized_notification sid w1) as H2.
  destruct (send_notification _ _ _ _ sid w1) as [w2 [[]|e]]; cbn [fst snd] in H2;
    exists sid, 2%nat; cbn; (split; [by rewrite H2, H1, <- app_assoc|]); (split; [lia|]).
  - by intros s [= <-].
  - done.
Qed.

(** Either the client stopped earlier, or it sent the whole conversation. *)
Definition talked {A} (cfg : McpClientConfig) (last : Value) (w : W * list Post)
    (out : (W * list Post) * A) (finished : A → Prop) : Prop :=
  ∃ sid k, out.1.2 = w.2 ++ take k (conversation cfg sid last) ∧ (finished out.2 → k = 3%nat).

Definition is_ok {A E} (r : result A E) : Prop := match r with Ok _ => True | Err _ => False end.

Lemma session_logged {A} cfg last w (k : Value * Z * list (string * string) * option string → A) :
  talked cfg last w
    ((sid ← handshake logged lib cfg; x ← post_rpc_full logged lib cfg last sid;
      @mret (C (W := W * list Post)) _ _ (k x)) w) is_ok.
Proof.
  destruct (handshake_logged cfg last w) as (sid & n & Hlog & Hn & Hok).
  unfold mbind, C_bind. destruct (handshake logged lib cfg w) as [w1 [s|e]]; cbn [fst snd] in *.
  2:{ exists sid, n. by split. }
  destruct (Hok s eq_refl) as [-> ->].
  pose proof (post_rpc_full_logged cfg last sid w1) as H2.
  destruct (post_rpc_full _ _ _ _ sid w1) as [w2 [x|e]]; cbn [fst snd] in H2;
    exists sid, 3%nat; cbn; (split; [by rewrite H2, Hlog, <- app_assoc|done]).
Qed.

Lemma list_probe_logged cfg w :
  talked cfg tools_list_request w (fetch_tools_list_probe logged lib cfg w) is_ok.
Proof.
  pose proof (session_logged cfg tools_list_request w (λ '(b, s, h, _), mkListProbe s h b)) as H.
  unfold fetch_tools_list_probe, mbind, C_bind in *.
  destruct (handshake _ _ _ w) as [w1 [s|e]]; [|done].
  by destruct (post_rpc_full _ _ _ _ _ w1) as [w2 [[[[]]]|]].
Qed.

Lemma call_probe_logged cfg name args w :
  talked cfg (tools_call_request name args) w (probe_tools_call logged lib cfg name args w) is_ok.
Proof.
  pose proof (session_logged cfg (tools_call_request name args) w
                (λ '(b, s, _, _), mkCallProbe s b)) as H.
  unfold probe_tools_call, mbind, C_bind in *.
  destruct (handshake _ _ _ w) as [w1 [s|e]]; [|done].
  by destruct (post_rpc_full _ _ _ _ _ w1) as [w2 [[[[]]]|]].
Qed.

Lemma fetch_logged cfg w :
  talked cfg tools_list_request w (fetch_tools_list logged lib cfg w) is_ok.
Proof.
  pose proof (session_logged cfg tools_list_request w (λ '(b, _, _, _), b)) as H.
  unfold fetch_tools_list, post_rpc, mbind, C_bind in *.
  destruct (handshake _ _ _ w) as [w1 [s|e]]; [|done].
  by destruct (post_rpc_full _ _ _ _ _ w1) as [w2 [[[[]]]|]].
Qed.

Lemma list_check_logged tools_of cfg w :
  talked cfg tools_list_request w (list_check logged lib tools_of cfg w)
    (λ '(returned, _, _), returned = true).
Proof.
  pose proof (list_probe_logged cfg w) as (sid & k & Hlog & Hok). exists sid, k.
  unfold list_check. destruct (fetch_tools_list_probe _ _ _ w) as [w1 [p|e]]; cbn in *;
    (split; [done|]); [auto|done].
Qed.

(** The call, when the operator asked for one by name. *)
Definition asked_call (attempt_call : bool) (call_tool : option string) : option string :=
  if attempt_call then call_tool else None.

Lemma call_check_logged cfg attempt tool w :
  match asked_call attempt tool with
  | Some name => talked cfg (tools_call_request name (Obj [])) w
                   (call_check logged lib cfg attempt tool w) (λ c, c = Succeeded name)
  | None => (call_check logged lib cfg attempt tool w).1 = w
  end.
Proof.
  unfold asked_call, call_check. destruct attempt; [|done]. destruct tool as [name|]; [|done].
  pose proof (call_probe_logged cfg name (Obj []) w) as (sid & k & Hlog & Hok). exists sid, k.
  destruct (probe_tools_call _ _ _ _ _ w) as [w1 [p|e]]; cbn in *; (split; [done|]); [auto|done].
Qed.

Lemma call_check_named cfg attempt tool w name :
  (call_check logged lib cfg attempt tool w).2 = Succeeded name → asked_call attempt tool = Some name.
Proof.
  unfold asked_call, call_check. destruct attempt; [|done]. destruct tool as [n|]; [|done].
  destruct (probe_tools_call _ _ _ _ _ w) as [w1 [p|e]]; cbn; [|done].
  case_bool_decide; congruence.
Qed.

Definition unauthenticated (url : string) (p : Post) : Prop :=
  p_url p = url ∧
  Forall (λ h, h.1 ∈ ["content-type"; "accept"; "Mcp-Session-Id"]) (p_headers p).

Lemma conversation_unauthenticated env url sid last k :
  Forall (unauthenticated url) (take k (conversation (new env url) sid last)).
Proof.
  apply Forall_take. unfold conversation, message, unauthenticated, post_headers, new. cbn.
  repeat constructor; destruct sid; repeat constructor; set_solver.
Qed.

(** C27: Whatever the scanned server answers, the exposure probe posts to the given URL only, and
    only this: an unauthenticated handshake and a [tools/list], cut short where an answer fails;
    then, if and only if the operator asked for a call and named the tool, a second handshake
    and a [tools/call] of that tool with no arguments.  No message carries a header but the two
    content headers and the session the server itself opened, and the two positive verdicts are
    reported only after the whole exchange behind them. *)
Theorem probe_sends_only to_lowercase tools_of env url attempt_call call_tool w :
  ∃ sid1 k1 sid2 k2 after out,
    run_exposure_probe logged lib to_lowercase tools_of env url attempt_call call_tool (w, [])
    = (after, out) ∧
    after.2 = take k1 (conversation (new env url) sid1 tools_list_request)
              ++ match asked_call attempt_call call_tool with
                 | Some name =>
                     take k2 (conversation (new env url) sid2 (tools_call_request name (Obj [])))
                 | None => []
                 end ∧
    Forall (unauthenticated url) after.2 ∧
    (unauth_list_returned out = true → k1 = 3%nat) ∧
    (∀ name, call_attempt out = Succeeded name →
             k2 = 3%nat ∧ asked_call attempt_call call_tool = Some name).
Proof.
  unfold run_exposure_probe. set (cfg := new env url). destruct (scheme_host _ _ _) as [sch h].
  pose proof (list_check_logged tools_of cfg (w, [])) as (sid1 & k1 & H1 & Hk1).
  destruct (list_check _ _ _ _ _) as [w1 [[returned n] cors]]. cbn [fst snd] in *.
  pose proof (call_check_logged cfg attempt_call call_tool w1) as H2.
  pose proof (call_check_named cfg attempt_call call_tool w1) as Hnamed.
  destruct (call_check _ _ _ _ _ w1) as [w2 c]. cbn [fst snd] in *.
  destruct (asked_call attempt_call call_tool) as [name|].
  - destruct H2 as (sid2 & k2 & H2 & Hk2). cbn [fst snd] in *.
    exists sid1, k1, sid2, k2, w2, (mkProbe sch h returned n cors c). rewrite H2, H1.
    split; [done|]. split; [done|]. split; [|split; [exact Hk1|]].
    + apply Forall_app. split; apply conversation_unauthenticated.
    + cbn. intros n' ->. specialize (Hnamed n' eq_refl) as [= ->]. auto.
  - subst w2. exists sid1, k1, None, O, w1, (mkProbe sch h returned n cors c).
    rewrite H1. split; [done|]. split; [by rewrite app_nil_r|].
    split; [apply conversation_unauthenticated|]. split; [exact Hk1|].
    cbn. intros n' ->. by specialize (Hnamed n' eq_refl).
Qed.
End posts.
