(* ===== verification/Console.v ===== *)
(** * The world of a command

    What the command-line front ends of [crates/gateway/src/main.rs] read and leave behind:
    files, the two terminal streams, and the state of what they talk to, with a monad of
    fallible steps over it.  Shared by [mcp-scan] and by the commands that read the trace. *)

From S2P Require Import Prelude.

(** ** The command line's world *)

(** What a command reads and leaves behind; [net] is the state of the servers it talks to. *)
Record World (W : Type) := mkWorld {
  files : gmap string string;
  out : list string;          (* lines printed on stdout *)
  err : list string;          (* lines printed on stderr *)
  net : W
}.
Arguments mkWorld {W}.
Arguments files {W}.
Arguments out {W}.
Arguments err {W}.
Arguments net {W}.

Section world.
Context {W : Type}.

Definition M (A : Type) : Type := World W → World W * result A string.
#[export] Instance M_ret : MRet M := λ A a w, (w, Ok a).
#[export] Instance M_bind : MBind M := λ A B k m w,
  match m w with (w, Ok a) => k a w | (w, Err e) => (w, Err e) end.
Definition fail {A} (e : string) : M A := λ w, (w, Err e).
Definition println (l : string) : M unit :=
  λ w, (mkWorld (files w) (out w ++ [l]) (err w) (net w), Ok tt).
Definition eprintln (l : string) : M unit :=
  λ w, (mkWorld (files w) (out w) (err w ++ [l]) (net w), Ok tt).
Definition print_all (ls : list string) : M unit :=
  λ w, (mkWorld (files w) (out w ++ ls) (err w) (net w), Ok tt).

(** [fs::read_to_string] and [fs::write], with the system's messages. *)
Definition read_to_string (io_error : string → string) (path : string) : M string := λ w,
  (w, match files w !! path with
      | Some s => Ok s
      | None => Err ("read " +:+ path +:+ ": " +:+ io_error path)
      end).
Definition write (unwritable : string → option string) (path contents : string) : M unit := λ w,
  match unwritable path with
  | Some e => (w, Err ("write " +:+ path +:+ ": " +:+ e))
  | None => (mkWorld (<[path := contents]> (files w)) (out w) (err w) (net w), Ok tt)
  end.

(** [.map_err(|e| format!(.., e))] *)
Definition map_err {A} (f : string → string) (m : M A) : M A := λ w,
  match m w with (w, Ok a) => (w, Ok a) | (w, Err e) => (w, Err (f e)) end.

(** A computation over the network, with its error as text. *)
Definition network {A E} (error_text : E → string) (m : W → W * result A E) : M A := λ w,
  match m (net w) with
  | (n, Ok a) => (mkWorld (files w) (out w) (err w) n, Ok a)
  | (n, Err e) => (mkWorld (files w) (out w) (err w) n, Err (error_text e))
  end.


Lemma bind_ok {A B} (m : M A) (k : A → M B) (w w' : World W) b :
  (m ≫= k) w = (w', Ok b) ↔ ∃ w1 a, m w = (w1, Ok a) ∧ k a w1 = (w', Ok b).
Proof.
  unfold mbind, M_bind. destruct (m w) as [w1 [a|e]]; split.
  - by exists w1, a.
  - by intros (? & ? & [= <- <-] & ?).
  - done.
  - by intros (? & ? & ? & ?).
Qed.

Lemma bind_step {A B} (m : M A) (k : A → M B) (w w1 : World W) a b :
  m w = (w1, Ok a) → k a w1 = b → (m ≫= k) w = b.
Proof. unfold mbind, M_bind. by intros -> ->. Qed.

Lemma map_err_ok {A} f (m : M A) (w w' : World W) a :
  map_err f m w = (w', Ok a) ↔ m w = (w', Ok a).
Proof. unfold map_err. by destruct (m w) as [? [?|?]]; split; intros [= <- <-]. Qed.

End world.
