(* ===== verification/ClusterMain.v ===== *)
(** * Running a node

    How a node of the cluster comes up: the transport a gateway's replica and the
    [tokenfuse-cluster] binary serve over ([raft_ledger.rs] of the gateway, [server.rs] and
    [main.rs] of [crates/cluster/src]), the client certificates of [net_http.rs], the
    in-process transport and cluster of [network.rs] and [lib.rs], and the two demos of the
    binary.  The consensus library is the class of [ClusterNode]; certificates and sockets
    are parameters. *)

From S2P Require Import Prelude Float Strings Ledger LedgerInv Cluster ClusterNode Console.

Abbreviation Env := (string → option string).

(** ** Transport *)

(** The PEM texts a server is given. *)
Inductive Transport := Http | Https (cert key : string) | Mutual (cert key ca : string).

(** [rustls] and its PEM reader. *)
Class TlsLib := {
  Cert : Type; PrivateKey : Type; RootStore : Type; Verifier : Type; ServerConfig : Type;
  no_roots : RootStore;
  pem_certs : string → list (result Cert string);
  add_root : Cert → RootStore → result RootStore string;
  client_verifier : RootStore → result Verifier string;
  pem_key : string → result (option PrivateKey) string;
  server_config : Verifier → list Cert → PrivateKey → result ServerConfig string;
  config_from_pem : string → string → result ServerConfig string
}.

(** [Result]'s [?] and the collecting of results. *)
Definition and_then {A B E} (r : result A E) (k : A → result B E) : result B E :=
  match r with Ok a => k a | Err e => Err e end.
Definition context {A} (what : string) (r : result A string) : result A string :=
  match r with Ok a => Ok a | Err e => Err (what +:+ e) end.
Notation "x ←? r ; k" := (and_then r (λ x, k)) (at level 20, r at level 100, k at level 200, right associativity).

Section tls.
Context `{TlsLib}.

(* @src cluster/server.rs 304-310 serve_mtls *)
Fixpoint add_roots (cas : list (result Cert string)) (roots : RootStore) : result RootStore string :=
  match cas with
  | [] => Ok roots
  | c :: cas =>
      cert ←? context "client CA parse: " c;
      roots ←? context "client CA add: " (add_root cert roots);
      add_roots cas roots
  end.

(** [collect::<Result<Vec<_>, _>>()] *)
Fixpoint collect {A} (l : list (result A string)) : result (list A) string :=
  match l with [] => Ok [] | r :: l => a ←? r; l ←? collect l; Ok (a :: l) end.

(* @src cluster/server.rs serve_mtls *)
Definition mtls_config (cert key ca : string) : result ServerConfig string :=
  roots ←? add_roots (pem_certs ca) no_roots;
  verifier ←? context "client verifier: " (client_verifier roots);
  certs ←? context "server cert parse: " (collect (pem_certs cert));
  key ←? context "server key parse: " (pem_key key);
  match key with
  | None => Err "no private key in TLS key PEM"
  | Some key => context "server config: " (server_config verifier certs key)
  end.

(** What a server listens with: plainly, or with a configuration. *)
(* @src cluster/server.rs 248-285 serve *)
Definition listen (t : Transport) : result (option ServerConfig) string :=
  match t with
  | Http => Ok None
  | Https cert key => c ←? config_from_pem cert key; Ok (Some c)
  | Mutual cert key ca => c ←? mtls_config cert key ca; Ok (Some c)
  end.

(** Every client that is let in has shown a certificate of the authority: the configuration of
    a mutual server is built from a verifier of exactly the certificates of its file. *)
Lemma mutual_verifies cert key ca c :
  mtls_config cert key ca = Ok c →
  ∃ cas roots v certs k, pem_certs ca = Ok <$> cas ∧
    foldl (λ r x, and_then r (add_root x)) (Ok no_roots) cas = Ok roots ∧
    client_verifier roots = Ok v ∧ server_config v certs k = Ok c.
Proof.
  unfold mtls_config. assert (∀ l r roots, add_roots l r = Ok roots → ∃ cas, l = Ok <$> cas ∧
    foldl (λ r x, and_then r (add_root x)) (Ok r) cas = Ok roots) as Hroots.
  { induction l as [|[x|e] l IH]; intros r roots; cbn [add_roots context and_then]; [|..|done].
    - intros [= ->]. by exists [].
    - destruct (add_root x r) as [r'|e] eqn:E; cbn; [|done]. intros (cas & -> & Hc)%IH.
      exists (x :: cas). cbn. by rewrite E. }
  destruct (add_roots _ _) as [roots|] eqn:Er; cbn; [|done].
  destruct (client_verifier roots) as [v|] eqn:Ev; cbn; [|done].
  destruct (collect _) as [certs|]; cbn; [|done]. destruct (pem_key key) as [[k|]|]; cbn; [|done..].
  destruct (server_config v certs k) eqn:Ec; cbn; [|done]. intros [= <-].
  apply Hroots in Er as (cas & ? & ?). by exists cas, roots, v, certs, k.
Qed.
End tls.

(** ** The certificates of a client *)

(** What a peer's client trusts and presents, with the errors it logs. *)
Record ClientTls := mkClientTls {
  ct_root : option string; ct_identity : option string; ct_errors : list string
}.

Definition set_and_filled (v : option string) : option string :=
  s ← v; if is_empty_str s then None else Some s.

Section client.
Context (env : Env) (read : string → result string string)
        (is_certificate : string → bool) (identity : string → result unit string).

Definition ok_of {A E} (r : result A E) : option A := match r with Ok a => Some a | Err _ => None end.

(* @src net_http.rs build_client *)
Definition build_client : ClientTls :=
  let root := path ← env "TOKENFUSE_CLUSTER_CA"; pem ← ok_of (read path);
              if is_certificate pem then Some pem else None in
  match env "TOKENFUSE_CLUSTER_CLIENT_CERT", env "TOKENFUSE_CLUSTER_CLIENT_KEY" with
  | Some c, Some k =>
      if is_empty_str c || is_empty_str k then mkClientTls root None []
      else match read c, read k with
           | Ok cert, Ok key =>
               let pem := cert +:+ String (ascii_of_nat 10) "" +:+ key in
               match identity pem with
               | Ok _ => mkClientTls root (Some pem) []
               | Err e => mkClientTls root None ["cluster client identity: " +:+ e]
               end
           | _, _ => mkClientTls root None ["cluster client cert/key unreadable"]
           end
  | _, _ => mkClientTls root None []
  end.
End client.

(** ** Building a node *)

(** [Config] of openraft, as far as the program sets it: times in milliseconds. *)
Record NodeConfig := mkNodeConfig {
  cluster_name : string;
  heartbeat_interval : Z;
  election_timeout_min : Z;
  election_timeout_max : Z
}.

(* @src cluster/lib.rs node_config *)
Definition node_config : NodeConfig := mkNodeConfig "tokenfuse" 50 150 300.

(** [dir.join(name)] for a name without separators. *)
Definition join_path (dir name : string) : string :=
  if is_empty_str dir then name
  else match strip_suffix "/" dir with Some _ => dir +:+ name | None => dir +:+ "/" +:+ name end.

(* @src redbstore.rs 65 open_node_db *)
Definition node_file (dir : string) (id : Z) : string :=
  join_path dir ("node-" +:+ pretty id +:+ ".redb").

Inductive Storage := InMemory | Durable (dir : string).

Section build.
(** openraft's check of its configuration; redb's database; the two stores over it
    ([RedbStore]); and openraft's node over a network to the peers. *)
Context {Db : Type} (validate : NodeConfig → result NodeConfig string)
        (create_dir_all : string → unit) (database_create : string → result Db string)
        (log_store sm_store : Db → result unit string)
        (raft_new : Z → NodeConfig → gmap Z string → option string → option Db → result unit string).

(* @src redbstore.rs open_node_db *)
Definition open_node_db (dir : string) (id : Z) : result Db string :=
  let _ := create_dir_all dir in database_create (node_file dir id).

(* @src cluster/server.rs HttpNode::build *)
Definition build (id : Z) (peers : gmap Z string) (token : option string) : result HttpNode string :=
  config ←? validate node_config;
  _ ←? raft_new id config peers token None;
  Ok (mkNode id peers token).

(* @src cluster/server.rs HttpNode::build_durable *)
Definition build_durable (id : Z) (peers : gmap Z string) (dir : string) (token : option string)
  : result HttpNode string :=
  config ←? validate node_config;
  db ←? open_node_db dir id;
  _ ←? log_store db;
  _ ←? sm_store db;
  _ ←? raft_new id config peers token (Some db);
  Ok (mkNode id peers token).

(* @src gateway/raft_ledger.rs 41-53 RaftLedger::start *)
Definition build_storage (id : Z) (peers : gmap Z string) (token : option string) (st : Storage)
  : result HttpNode string :=
  match st with InMemory => build id peers token | Durable dir => build_durable id peers dir token end.

(** A node that is built is the one that was asked for; a durable one only over its own file,
    with both stores open. *)
Lemma build_storage_spec id peers token st n :
  build_storage id peers token st = Ok n →
  n = mkNode id peers token ∧
  ∀ dir, st = Durable dir → ∃ db, database_create (node_file dir id) = Ok db ∧
    log_store db = Ok tt ∧ sm_store db = Ok tt.
Proof.
  destruct st as [|dir]; cbn [build_storage]; unfold build, build_durable, open_node_db;
    destruct (validate _); cbn; try done.
  - destruct (raft_new _ _ _ _ _); cbn; [|done]. by intros [= <-].
  - destruct (database_create _) as [db|] eqn:Ed; cbn; [|done].
    destruct (log_store db) as [[]|] eqn:El; cbn; [|done].
    destruct (sm_store db) as [[]|] eqn:Es; cbn; [|done].
    destruct (raft_new _ _ _ _ _); cbn; [|done]. intros [= <-]. split; [done|].
    intros ? [= <-]. by exists db.
Qed.
End build.

(** Nodes that share a directory never share a file. *)
Lemma node_file_inj dir i j : node_file dir i = node_file dir j → i = j.
Proof.
  assert (∀ a b c : string, a +:+ b = a +:+ c → b = c) as Hl.
  { intros a b c. induction a as [|x a IH]; [done|]. rewrite !cons_app. by intros [= ?%IH]. }
  intros H. assert (pretty i +:+ ".redb" = pretty j +:+ ".redb") as Hn.
  { unfold node_file, join_path in H. destruct (is_empty_str dir); [by apply (Hl "node-")|].
    destruct (strip_suffix "/" dir); apply Hl in H; [by apply (Hl "node-")|].
    apply (Hl "/") in H. by apply (Hl "node-"). }
  apply (f_equal (strip_suffix ".redb")) in Hn. rewrite !strip_suffix_append in Hn.
  injection Hn. apply (inj pretty).
Qed.

(** ** The gateway's replica *)

(** A replica that is up: its storage, what it listens with, and whether it initializes the
    cluster. *)
Record Replica := mkReplica { rp_storage : Storage; rp_transport : Transport; rp_bootstrap : bool }.

Section replica.
(** The environment, the files, and the construction of the node. *)
Context (env : Env) (read : string → result string string) (build : Storage → result unit string).

(* @src gateway/raft_ledger.rs 61-69 RaftLedger::start *)
Definition server_pem : result (option (string * string)) string :=
  match env "TOKENFUSE_CLUSTER_TLS_CERT", env "TOKENFUSE_CLUSTER_TLS_KEY" with
  | Some c, Some k =>
      if is_empty_str c || is_empty_str k then Ok None
      else cert ←? read c; key ←? read k; Ok (Some (cert, key))
  | _, _ => Ok None
  end.

(* @src gateway/raft_ledger.rs 70-73 RaftLedger::start *)
Definition client_ca : result (option string) string :=
  match env "TOKENFUSE_CLUSTER_MTLS_CA" with
  | Some p => if is_empty_str p then Ok None else ca ←? read p; Ok (Some ca)
  | None => Ok None
  end.

(* @src gateway/raft_ledger.rs RaftLedger::start *)
Definition start (data_dir : option string) (bootstrap : bool) : result Replica string :=
  let storage := match data_dir with
                 | Some dir => if is_empty_str dir then InMemory else Durable dir
                 | None => InMemory
                 end in
  _ ←? build storage;
  tls ←? server_pem;
  ca ←? client_ca;
  Ok (mkReplica storage
        match tls, ca with
        | Some (cert, key), Some ca => Mutual cert key ca
        | Some (cert, key), None => Https cert key
        | None, _ => Http
        end bootstrap).

(** A file named in the environment. *)
Definition named (var : string) : option string :=
  p ← env var; if is_empty_str p then None else Some p.

Lemma server_pem_spec tls :
  server_pem = Ok tls →
  match named "TOKENFUSE_CLUSTER_TLS_CERT", named "TOKENFUSE_CLUSTER_TLS_KEY" with
  | Some c, Some k => ∃ cert key, read c = Ok cert ∧ read k = Ok key ∧ tls = Some (cert, key)
  | _, _ => tls = None
  end.
Proof.
  unfold server_pem, named. destruct (env "TOKENFUSE_CLUSTER_TLS_CERT") as [c|]; cbn; [|by intros [= <-]].
  destruct (env "TOKENFUSE_CLUSTER_TLS_KEY") as [k|]; cbn; [|destruct (is_empty_str c); by intros [= <-]].
  destruct (is_empty_str c); cbn; [by intros [= <-]|]. destruct (is_empty_str k); cbn; [by intros [= <-]|].
  destruct (read c); cbn; [|done]. destruct (read k); cbn; [|done]. intros [= <-]. eauto.
Qed.

Lemma client_ca_spec ca :
  client_ca = Ok ca →
  match named "TOKENFUSE_CLUSTER_MTLS_CA" with
  | Some p => ∃ a, read p = Ok a ∧ ca = Some a
  | None => ca = None
  end.
Proof.
  unfold client_ca, named. destruct (env "TOKENFUSE_CLUSTER_MTLS_CA") as [p|]; cbn; [|naive_solver].
  destruct (is_empty_str p); cbn; [naive_solver|]. destruct (read p) as [a|]; cbn; naive_solver.
Qed.

(** A replica listens as it was configured, or does not start.  It is encrypted exactly when
    a certificate and a key are both named, with the contents of those files; then it demands
    client certificates exactly when an authority is named; and a named file that cannot be
    read, or a node that cannot be built, stops the start.  Without the certificate or the key,
    the authority is ignored and the node serves plainly. *)
Theorem replica_transport data_dir bootstrap r :
  start data_dir bootstrap = Ok r →
  (rp_transport r = Http ↔
     named "TOKENFUSE_CLUSTER_TLS_CERT" = None ∨ named "TOKENFUSE_CLUSTER_TLS_KEY" = None) ∧
  (∀ cert key, rp_transport r = Https cert key ∨ (∃ ca, rp_transport r = Mutual cert key ca) →
     ∃ c k, named "TOKENFUSE_CLUSTER_TLS_CERT" = Some c ∧ named "TOKENFUSE_CLUSTER_TLS_KEY" = Some k ∧
       read c = Ok cert ∧ read k = Ok key) ∧
  (∀ cert key ca, rp_transport r = Mutual cert key ca →
     ∃ p, named "TOKENFUSE_CLUSTER_MTLS_CA" = Some p ∧ read p = Ok ca) ∧
  (∀ p, named "TOKENFUSE_CLUSTER_MTLS_CA" = Some p → ∃ ca, read p = Ok ca ∧
     ∀ cert key, rp_transport r ≠ Https cert key) ∧
  build (rp_storage r) = Ok tt ∧ rp_bootstrap r = bootstrap.
Proof.
  unfold start. set (storage := match data_dir with Some _ => _ | None => _ end).
  destruct (build storage) as [[]|] eqn:Eb; cbn; [|done].
  destruct server_pem as [tls|] eqn:Et; cbn; [|done]. apply server_pem_spec in Et.
  destruct client_ca as [ca|] eqn:Ec; cbn; [|done]. apply client_ca_spec in Ec. intros [= <-]. cbn.
  destruct (named "TOKENFUSE_CLUSTER_TLS_CERT") as [c|], (named "TOKENFUSE_CLUSTER_TLS_KEY") as [k|],
    (named "TOKENFUSE_CLUSTER_MTLS_CA") as [p|];
    repeat match goal with
           | H : ∃ _, _ |- _ => destruct H
           | H : _ ∧ _ |- _ => destruct H
           end; subst; split_and!; naive_solver.
Qed.
End replica.

(** ** The in-process transport *)

(** How a raft call to a peer fails: it cannot be reached, or it answered an error. *)
Inductive RpcError := Unreachable (e : string) | Network (e : string) | Remote (target : Z) (e : string).

Section in_process.
Context {W : Type} (rpc : Z → string → string → W → W * result string string).

(** The nodes registered with the router, by id. *)
(* @src cluster/network.rs Router::register *)
Definition register (id : Z) (registry : gset Z) : gset Z := {[id]} ∪ registry.

(* @src cluster/network.rs Conn::peer *)
Definition peer (registry : gset Z) (target : Z) : result Z RpcError :=
  if bool_decide (target ∈ registry) then Ok target else Err (Unreachable "peer not in router").

(** The three calls, by name. *)
(* @src cluster/network.rs 65-111 RaftNetwork for Conn *)
Definition conn_call (registry : gset Z) (target : Z) (what body : string) (w : W)
  : W * result string RpcError :=
  match peer registry target with
  | Err e => (w, Err e)
  | Ok id => match rpc id what body w with
             | (w, Ok r) => (w, Ok r)
             | (w, Err e) => (w, Err (Remote target e))
             end
  end.

(** The same over HTTP, with the exchange and the decoding of the answer as parameters. *)
Context (exchange : string → option string → string → W → W * result string string)
        (decode : string → result (result string string) string).

(* @src net_http.rs 157-190 RaftNetwork for HttpConn *)
Definition http_call (base : string) (tok : option string) (target : Z) (what body : string) (w : W)
  : W * result string RpcError :=
  match conn_post base tok ("/raft/" +:+ what) with
  | Err e => (w, Err (Network e))
  | Ok (url, auth) =>
      match exchange url auth body w with
      | (w, Err e) => (w, Err (Network e))
      | (w, Ok bytes) =>
          (w, match decode bytes with
              | Err e => Err (Network e)
              | Ok (Ok r) => Ok r
              | Ok (Err e) => Err (Remote target e)
              end)
      end
  end.
End in_process.

(** ** An in-process cluster *)

Section cluster.
Context {W : Type} `{Raft W}.
(** Building a node, the leader a node knows, the clock in milliseconds and the passing of
    time. *)
Context (raft_new : Z → W → W * result unit string) (current_leader : Z → W → option Z)
        (clock : W → Z) (sleep : Z → W → W).

(* @src cluster/lib.rs 83-99 Cluster::start *)
Fixpoint start_nodes (ids : list Z) (registry : gset Z) (w : W) : W * result (gset Z) string :=
  match ids with
  | [] => (w, Ok registry)
  | id :: ids => match raft_new id w with
                 | (w, Err e) => (w, Err e)
                 | (w, Ok _) => start_nodes ids (register id registry) w
                 end
  end.

(** The nodes, and who the router reaches; [None] is the panic of [nodes[0]]. *)
(* @src cluster/lib.rs Cluster::start *)
Definition start_cluster (ids : list Z) (w : W) : option (W * result (list Z * gset Z) string) :=
  match start_nodes ids ∅ w with
  | (w, Err e) => Some (w, Err e)
  | (w, Ok registry) =>
      match ids with
      | [] => None
      | first :: _ =>
          Some match initialize first (list_to_map ((λ i, (i, "")) <$> ids)) w with
               | (w, Ok _) => (w, Ok (ids, registry))
               | (w, Err e) => (w, Err e)
               end
      end
  end.

(** The loop with at most [fuel] looks; [None] is out of fuel. *)
(* @src cluster/lib.rs Cluster::wait_for_leader *)
Fixpoint wait_from (fuel : nat) (since timeout : Z) (nodes : list Z) (w : W) : W * option (option Z) :=
  match fuel with
  | O => (w, None)
  | S fuel =>
      match leader current_leader nodes w with
      | Some l => (w, Some (Some l))
      | None => if timeout <? clock w - since then (w, Some None)
                else wait_from fuel since timeout nodes (sleep 20 w)
      end
  end.
Definition wait_for_leader (fuel : nat) (timeout : Z) (nodes : list Z) (w : W) : W * option (option Z) :=
  wait_from fuel (clock w) timeout nodes w.

(** Waiting ends after [timeout / 20 + 2] looks at most, with a leader some node named or with
    none after the whole timeout. *)
Lemma waiting_ends (sleeps : ∀ d w, clock w + d ≤ clock (sleep d w)) timeout nodes w :
  0 ≤ timeout →
  ∃ w' o, wait_for_leader (Z.to_nat (timeout / 20 + 2)) timeout nodes w = (w', Some o) ∧
    o = leader current_leader nodes w' ∧ (o = None → timeout < clock w' - clock w).
Proof.
  intros Ht. unfold wait_for_leader.
  assert (∀ fuel v, clock w + timeout < clock v + 20 * (Z.of_nat fuel - 1) → (0 < fuel)%nat →
    ∃ w' o, wait_from fuel (clock w) timeout nodes v = (w', Some o) ∧
      o = leader current_leader nodes w' ∧ (o = None → timeout < clock w' - clock w)) as Hloop.
  { induction fuel as [|fuel IH]; intros v Hv Hf; [lia|]. cbn [wait_from].
    destruct (leader current_leader nodes v) as [l|] eqn:El; [by exists v, (Some l)|].
    destruct (timeout <? clock v - clock w) eqn:E; [exists v, None; split_and!; try done; lia|].
    specialize (sleeps 20 v). destruct fuel as [|fuel]; [lia|]. apply IH; lia. }
  apply Hloop; pose proof (Z.div_mod timeout 20); pose proof (Z.mod_pos_bound timeout 20);
    pose proof (Z.div_pos timeout 20); lia.
Qed.
End cluster.

(** ** The binary *)

Section binary.
Context {W : Type} `{Raft W}.
Context (listening : string → option HttpNode) (unreachable undecodable : string) (fuel : nat).
Context (sleep : Z → W → W).

(** A call of the client: its transport and decoding failures are texts. *)
(* @src cluster/server.rs 461-519 Client *)
Definition client_call (base : string) (tok : option string) (c : Call) (w : W)
  : W * result Reply string :=
  match listening base with
  | None => (w, Err unreachable)
  | Some n =>
      match serve listening unreachable undecodable fuel n (bearer tok) c w with
      | (w, Some Unauthorized) => (w, Err undecodable)
      | (w, Some r) => (w, Ok r)
      | (w, None) => (w, Err unreachable)
      end
  end.

(** The task that [--init] spawns, and the line it prints. *)
(* @src cluster/main.rs 95-106 serve *)
Definition init_task (id : Z) (http : string) (w : W) : W * string :=
  match client_call ("http://" +:+ http) None Init (sleep 300 w) with
  | (w, Ok (RUnit (Ok _))) => (w, "cluster initialized from node " +:+ pretty id)
  | (w, Ok (RUnit (Err e))) => (w, "init rejected: " +:+ e)
  | (w, Ok _) => (w, "init call failed: " +:+ undecodable)
  | (w, Err e) => (w, "init call failed: " +:+ e)
  end.

(** [--init] never initializes a cluster that has a token: the call is made without it. *)
Lemma init_needs_no_token id http n tok w :
  listening ("http://" +:+ http) = Some n → token n = Some tok →
  init_task id http w = (sleep 300 w, "init call failed: " +:+ undecodable).
Proof.
  intros Hl Ht. unfold init_task, client_call. rewrite Hl. cbn [bearer serve].
  unfold serve, require_auth. by rewrite Ht.
Qed.

Context (build : Z → Peers → option string → W → W * result unit string)
        (socket : string → result unit string) (io_error : string → string).

Abbreviation Cmd := (M (W := W)).
Definition lift {A} (f : W → W * A) : Cmd A :=
  λ w, let '(n, a) := f (net w) in (mkWorld (files w) (out w) (err w) n, Ok a).
Definition try {A} (r : result A string) : Cmd A := λ w, (w, r).
Definition read_pem (path : string) : Cmd string := λ w,
  (w, match files w !! path with Some s => Ok s | None => Err (io_error path) end).

(** What the process listens with; the task of [--init] runs beside it. *)
(* @src cluster/main.rs serve *)
Definition serve_command (args : list string) : Cmd (Transport * option (W → W * string)) :=
  let flags := parse_flags args in
  let filled k := s ← flags !! k; if is_empty_str s then None else Some s in
  match flags !! "id" ≫= parse_unsigned u64_max with
  | None => fail "--id required"
  | Some id =>
      match flags !! "http" with
      | None => fail "--http addr required"
      | Some http =>
          let peers := parse_peers (default "" (flags !! "peers")) in
          r ← lift (build id peers (flags !! "token"));
          _ ← try r;
          _ ← try (socket http);
          _ ← println ("node " +:+ pretty id +:+ " serving on http://" +:+ http);
          let init := if bool_decide (is_Some (flags !! "init")) then Some (init_task id http) else None in
          match filled "tls-cert", filled "tls-key" with
          | Some c, Some k =>
              cert ← read_pem c; key ← read_pem k;
              match filled "mtls-ca" with
              | Some ca =>
                  _ ← println "serving over mutual TLS (client certs required)";
                  ca ← read_pem ca; mret (Mutual cert key ca, init)
              | None => _ ← println "serving over HTTPS (TLS)"; mret (Https cert key, init)
              end
          | _, _ => mret (Http, init)
          end
      end
  end.

(* @src cluster/main.rs 20 USD *)
Definition USD : Z := 1000000.
(** [{:.2}] of micros in dollars. *)
Definition dollars (micros : Z) : string :=
  "$" +:+ f64_fixed 2 (f64_div (f64_of_Z micros) (f64_of_Z USD)).

Definition verdict (r : Response) : string := if accepted r then "ACCEPTED" else "DENIED  ".
(** One line of the demos. *)
Definition reserve_line (i micros : Z) (r : Response) : string :=
  "reserve #" +:+ pretty i +:+ "  " +:+ dollars micros +:+ "  → " +:+ verdict r +:+ "  (reserved "
  +:+ dollars (r_reserved_micros r) +:+ " / budget " +:+ dollars (r_budget_micros r) +:+ ")".

(** ** The demos *)

Definition NL : string := String (ascii_of_nat 10) "".
Definition ask (base : string) (c : Call) : Cmd Reply :=
  network (λ e : string, e) (client_call base None c).
Definition unit_reply (what : string) (r : Reply) : Cmd unit :=
  match r with
  | RUnit (Ok _) => mret tt
  | RUnit (Err e) => fail (what +:+ e)
  | _ => fail undecodable
  end.
Definition write_reply (what : string) (r : Reply) : Cmd Response :=
  match r with
  | RWrite (Ok r) => mret r
  | RWrite (Err e) => fail (what +:+ e)
  | _ => fail undecodable
  end.
Definition some_or {A} (e : string) (o : option A) : Cmd A :=
  match o with Some a => mret a | None => fail e end.

Definition demo_peers : Peers :=
  {[1 := "http://127.0.0.1:5001"; 2 := "http://127.0.0.1:5002"; 3 := "http://127.0.0.1:5003"]}.
Definition quoted (s : string) : string := DQ +:+ s +:+ DQ.

(* @src cluster/main.rs 162-170 demo_http *)
Fixpoint find_leader (looks : nat) : Cmd (option Z) :=
  match looks with
  | O => mret None
  | S looks =>
      r ← lift (client_call "http://127.0.0.1:5001" None Metrics);
      match r with
      | Ok (RMetrics (mkMetrics _ (Some l) _)) => mret (Some l)
      | _ => _ ← lift (λ w, (sleep 50 w, tt)); find_leader looks
      end
  end.

(* @src cluster/main.rs 183-204 demo_http *)
Fixpoint reserve_http (run : string) (i : Z) (cents : list Z) : Cmd unit :=
  match cents with
  | [] => mret tt
  | c :: cents =>
      r ← ask "http://127.0.0.1:5001" (Write (Reserve run (c * 10000)));
      r ← write_reply "reserve: " r;
      _ ← println (reserve_line i (c * 10000) r);
      reserve_http run (i + 1) cents
  end.

(* @src cluster/main.rs demo_http *)
Definition demo_http : Cmd unit :=
  let run := "agent-42" in
  _ ← println ("── TokenFuse HA cluster demo (HTTP transport) ──" +:+ NL);
  r ← lift (build 1 demo_peers None); _ ← try r;
  r ← lift (build 2 demo_peers None); _ ← try r;
  r ← lift (build 3 demo_peers None); _ ← try r;
  _ ← lift (λ w, (sleep 300 w, tt));
  _ ← println ("started 3 nodes over HTTP: [" +:+
        String.concat ", " (quoted <$> ["http://127.0.0.1:5001"; "http://127.0.0.1:5002"; "http://127.0.0.1:5003"])
        +:+ "]");
  r ← ask "http://127.0.0.1:5001" Init; _ ← unit_reply "init: " r;
  l ← find_leader 100; l ← some_or "no leader" l;
  _ ← println ("leader elected: node " +:+ pretty l +:+ NL);
  r ← ask "http://127.0.0.1:5001" (Write (Open run USD None)); _ ← write_reply "open: " r;
  _ ← println ("opened budget for " +:+ run +:+ ": $1.00" +:+ NL);
  _ ← reserve_http run 1 [40; 40; 40];
  _ ← lift (λ w, (sleep 200 w, tt));
  r ← ask "http://127.0.0.1:5003" (Read run);
  s ← match r with RRun o => some_or "run not replicated to node 3" o | _ => fail undecodable end;
  _ ← println (NL +:+ "read replicated state from follower node 3 (HTTP):" +:+ NL +:+ "  reserved "
               +:+ dollars (reserved_micros s) +:+ " / budget " +:+ dollars (budget_micros s));
  println (NL +:+ "✔ budget replicated + enforced across 3 nodes over real HTTP sockets.").

Section in_process_demo.
Context (raft_new : Z → W → W * result unit string) (current_leader : Z → W → option Z)
        (clock : W → Z).

Definition write_through (nodes : list Z) (req : Request) : Cmd Response :=
  network (λ e : string, e) (cluster_write current_leader nodes req).

(* @src cluster/main.rs 241-266 demo_in_process *)
Fixpoint reserve_local (nodes : list Z) (run : string) (i : Z) (cents : list Z) : Cmd unit :=
  match cents with
  | [] => mret tt
  | c :: cents =>
      r ← write_through nodes (Reserve run (c * 10000));
      _ ← println (reserve_line i (c * 10000) r
                   +:+ if accepted r then "" else "  — " +:+ reason r);
      reserve_local nodes run (i + 1) cents
  end.

(** [None] where the program panics: a follower is looked for and read without a check. *)
(* @src cluster/main.rs demo_in_process *)
Definition demo_in_process : Cmd (option unit) :=
  let run := "agent-42" in
  let ids := [1; 2; 3] in
  _ ← println ("── TokenFuse HA cluster demo (in-process) ──" +:+ NL);
  _ ← println "starting 3 nodes {1, 2, 3} …";
  c ← lift (λ w, match start_cluster raft_new ids w with
                 | Some p => p | None => (w, Err "panic") end);
  c ← try c;
  let nodes := c.1 in
  l ← lift (wait_for_leader current_leader clock sleep 252 5000 nodes);
  l ← some_or "no leader elected" (mjoin l);
  _ ← println ("leader elected: node " +:+ pretty l +:+ NL);
  _ ← write_through nodes (Open run USD None);
  _ ← println ("opened budget for " +:+ run +:+ ": $1.00" +:+ NL);
  _ ← reserve_local nodes run 1 [40; 40; 40];
  _ ← write_through nodes (Settle run (40 * 10000) (25 * 10000));
  _ ← println (NL +:+ "settled reservation #1: actual $0.25 (was reserved $0.40)");
  _ ← lift (λ w, (sleep 200 w, tt));
  let follower := head (filter (λ id, id ≠ l) nodes) in
  s ← lift (λ w, (w, f ← follower; s ← read_run f run w; Some (f, s)));
  match s with
  | None => mret None
  | Some (f, s) =>
      _ ← println (NL +:+ "read replicated state from follower node " +:+ pretty f +:+ ":" +:+ NL
                   +:+ "  spent    " +:+ dollars (spent_micros s) +:+ NL
                   +:+ "  reserved " +:+ dollars (reserved_micros s) +:+ NL
                   +:+ "  budget   " +:+ dollars (budget_micros s));
      _ ← println (NL +:+ "✔ budget replicated + enforced by consensus across 3 nodes.");
      mret (Some tt)
  end.

Inductive Command := RunServe (args : list string) | RunHttpDemo | RunDemo.
(* @src cluster/main.rs main *)
Definition command (args : list string) : Command :=
  match args with
  | a :: rest => if bool_decide (a = "serve") then RunServe rest
                 else if bool_decide (a = "demo-http") then RunHttpDemo else RunDemo
  | [] => RunDemo
  end.
End in_process_demo.
End binary.

(** ** Instances *)

(** A cluster in which consensus is immediate: node 1 leads, every node has what it applied. *)
#[local] Instance instant_raft : Raft (LedgerState * Z) := {|
  client_write := λ n req w,
    if bool_decide (n = 1) then let '(st, r) := LedgerState.apply w.1 req in ((st, w.2), Written r)
    else (w, WriteForward (Some 1) "forward to 1");
  ensure_linearizable := λ n w, (w, if bool_decide (n = 1) then Linear
                                    else LinForward (Some 1) "forward to 1");
  read_run := λ _ run w, cruns w.1 !! run;
  initialize := λ _ _ w, (w, Ok tt);
  raft_add_learner := λ _ _ _ w, (w, Ok tt);
  raft_change_membership := λ _ _ w, (w, Ok tt);
  raft_metrics := λ _ _, (Some 1, "Leader");
  raft_rpc := λ _ _ _ w, (w, "null")
|}.

Definition instant_node (base : string) : option HttpNode :=
  (λ id, mkNode id demo_peers None) <$>
    (fst <$> find (λ p, bool_decide (p.2 = base)) (map_to_list demo_peers)).
Definition pass_time (d : Z) (w : LedgerState * Z) : LedgerState * Z := (w.1, w.2 + d).
Definition blank : World (LedgerState * Z) := mkWorld ∅ [] [] (mkLedgerState ∅, 0).

(** What the demos print: the second reservation fits, the third is denied. *)
Example demo_in_process_prints :
  let r := demo_in_process pass_time (λ _ w, (w, Ok tt)) (λ _ _, Some 1) snd blank in
  take 4 (drop 4 (out r.1)) =
    ["reserve #1  $0.40  → ACCEPTED  (reserved $0.40 / budget $1.00)";
     "reserve #2  $0.40  → ACCEPTED  (reserved $0.80 / budget $1.00)";
     "reserve #3  $0.40  → DENIED    (reserved $0.80 / budget $1.00)  — " +:+
       default "" (reason <$> Some ((LedgerState.apply (LedgerState.apply (LedgerState.apply (LedgerState.apply (mkLedgerState ∅)
         (Open "agent-42" USD None)).1 (Reserve "agent-42" 400000)).1
         (Reserve "agent-42" 400000)).1 (Reserve "agent-42" 400000)).2));
     NL +:+ "settled reservation #1: actual $0.25 (was reserved $0.40)"] ∧ r.2 = Ok (Some tt).
Proof. vm_compute. done. Qed.

Example demo_http_prints :
  let r := demo_http instant_node "down" "no json" 2 pass_time (λ _ _ _ w, (w, Ok tt)) blank in
  (length (out r.1), r.2) = (9%nat, Ok tt).
Proof. vm_compute. done. Qed.

(** The binary's flags and a node with a token. *)
Example token_and_init :
  let listening base := if bool_decide (base = "http://127.0.0.1:5001")
                        then Some (mkNode 1 demo_peers (Some "t")) else None in
  (init_task listening "down" "no json" 2 pass_time 1 "127.0.0.1:5001" (mkLedgerState ∅, 0)).2 =
    "init call failed: no json".
Proof. by vm_compute. Qed.

(** An authority alone: the replica serves plainly. *)
Definition ca_only (v : string) : option string :=
  if bool_decide (v = "TOKENFUSE_CLUSTER_MTLS_CA") then Some "ca.pem" else None.

Lemma replica_transport_witness :
  ∃ r, start ca_only (λ p, Ok p) (λ _, Ok tt) None true = Ok r ∧ rp_transport r = Http.
Proof.
  assert (start ca_only (λ p, Ok p) (λ _, Ok tt) None true = Ok (mkReplica InMemory Http true)) as E
    by (vm_compute; reflexivity).
  exists (mkReplica InMemory Http true). split; [exact E|].
  destruct (replica_transport ca_only (λ p, Ok p) (λ _, Ok tt) None true _ E) as [[_ Hh] _].
  apply Hh. left. vm_compute. reflexivity.
Defined.
