(* ===== verification/Radar.v ===== *)
(** * Radar: connections to language models

    The probe in the kernel ([crates/radar/radar-ebpf/src/main.rs]) turns each [connect] to an
    IPv4 address into a record of the ring buffer; the process in user space
    ([crates/radar/src/main.rs]) reads the records and prints a line for each, with a flag on
    those that go to a model.  The two exchange the memory of a [repr(C)] structure, on
    x86_64: little-endian words.  Loading and attaching the probe is the library's. *)

From S2P Require Import Prelude Strings Text.

(** ** Words in memory *)

Definition byte (z : Z) : ascii := ascii_of_N (Z.to_N (z mod 256)).
Definition unbyte (c : ascii) : Z := Z.of_N (N_of_ascii c).

(** The [n] bytes of a little-endian word, and the word of the bytes. *)
Fixpoint le (n : nat) (z : Z) : string :=
  match n with O => "" | S n => String (byte z) (le n (z / 256)) end.
Fixpoint of_le (s : string) : Z :=
  match s with "" => 0 | String c s => unbyte c + 256 * of_le s end.

(** [u16::from_be] and [u32::from_be] on a little-endian machine: the bytes in reverse. *)
Definition from_be (n : nat) (z : Z) : Z := of_le (String.rev (le n z)).

Lemma unbyte_byte z : unbyte (byte z) = z mod 256.
Proof.
  unfold unbyte, byte. pose proof (Z.mod_pos_bound z 256 ltac:(lia)).
  rewrite N_ascii_embedding by lia. lia.
Qed.

Lemma unbyte_range c : 0 ≤ unbyte c < 256.
Proof. unfold unbyte. pose proof (N_ascii_bounded c). lia. Qed.

Lemma byte_unbyte c : byte (unbyte c) = c.
Proof.
  unfold byte. rewrite Z.mod_small by apply unbyte_range. unfold unbyte.
  by rewrite N2Z.id, ascii_N_embedding.
Qed.

Lemma le_length n z : String.length (le n z) = n.
Proof. revert z. induction n as [|n IH]; intros z; cbn; [done|by rewrite IH]. Qed.

Lemma of_le_le n z : of_le (le n z) = z mod 256 ^ Z.of_nat n.
Proof.
  revert z. induction n as [|n IH]; intros z; cbn [le of_le]; [by rewrite Z.mod_1_r|].
  rewrite IH, unbyte_byte, Nat2Z.inj_succ, Z.pow_succ_r by lia.
  rewrite Z.rem_mul_r by (pose proof (Z.pow_pos_nonneg 256 (Z.of_nat n) ltac:(lia) ltac:(lia)); lia). lia.
Qed.

Lemma of_le_small n z : 0 ≤ z < 256 ^ Z.of_nat n → of_le (le n z) = z.
Proof. intros. rewrite of_le_le. by apply Z.mod_small. Qed.

Lemma le_of_le s : le (String.length s) (of_le s) = s.
Proof.
  induction s as [|c s IH]; [done|]. cbn [String.length of_le le]. pose proof (unbyte_range c).
  f_equal.
  - unfold byte. rewrite Z.mul_comm, Z.mod_add by lia. exact (byte_unbyte c).
  - rewrite Z.add_comm, Z.mul_comm, Z.div_add_l, Z.div_small, Z.add_0_r by lia. exact IH.
Qed.

Lemma of_le_app a b : of_le (a +:+ b) = of_le a + 256 ^ Z.of_nat (String.length a) * of_le b.
Proof.
  induction a as [|c a IH]; [cbn [String.length of_le]; change ("" +:+ b) with b; lia|].
  rewrite cons_app. cbn [String.length of_le]. rewrite IH, Nat2Z.inj_succ, Z.pow_succ_r; lia.
Qed.

(** ** The record of a connection *)

(* @src src/crates/radar/radar-ebpf/src/main.rs ConnEvent *)
Record ConnEvent := mkConnEvent {
  pid : Z;
  dport : Z;
  daddr : Z;
  comm : string
}.

(** Its memory: [_pad] is zero, [comm] has sixteen bytes. *)
Definition conn_bytes (ev : ConnEvent) : string :=
  le 4 (pid ev) +:+ le 2 (dport ev) +:+ le 2 0 +:+ le 4 (daddr ev) +:+ comm ev.

(** ** In the kernel *)

(* @src src/crates/radar/radar-ebpf/src/main.rs AF_INET *)
Definition AF_INET : Z := 2.

(** The three words of a [SockAddrIn] in memory. *)
(* @src src/crates/radar/radar-ebpf/src/main.rs SockAddrIn *)
Record SockAddrIn := mkSockAddrIn { sin_family : Z; sin_port : Z; sin_addr : Z }.
Definition sockaddr_in (b : string) : SockAddrIn :=
  mkSockAddrIn (of_le (str_slice 0 2 b)) (of_le (str_slice 2 4 b)) (of_le (str_slice 4 8 b)).

(** What the record submitted to the ring buffer is.  [addr_ptr] is the argument read from the
    context, [probe_read] the user's memory, [current_comm] the name of the calling thread and
    [room] whether the ring buffer has room. *)
(* @src src/crates/radar/radar-ebpf/src/main.rs try_radar *)
Definition try_radar (addr_ptr : result Z Z) (probe_read : Z → nat → option string)
    (pid_tgid : Z) (current_comm : option string) (room : bool) : option string :=
  match addr_ptr with
  | Err _ => None
  | Ok addr_ptr =>
      if bool_decide (addr_ptr = 0) then None
      else
        match probe_read addr_ptr 8%nat with
        | None => None
        | Some b =>
            let sa := sockaddr_in b in
            if bool_decide (sin_family sa ≠ AF_INET) then None
            else
              let pid := Z.shiftr pid_tgid 32 in
              let comm := default (repeat_str (String "000" "") 16) current_comm in
              if room
              then Some (conn_bytes (mkConnEvent pid (from_be 2 (sin_port sa)) (from_be 4 (sin_addr sa)) comm))
              else None
        end
  end.

(** ** In user space *)

(** [read_unaligned] of the item, when it is long enough. *)
(* @src radar/main.rs ConnEvent *)
Definition read_event (item : string) : option ConnEvent :=
  if (String.length item <? 28)%nat then None
  else Some (mkConnEvent (of_le (str_slice 0 4 item)) (of_le (str_slice 4 6 item))
               (of_le (str_slice 8 12 item)) (str_slice 12 28 item)).

Inductive IpAddr := V4 (a : Z) | V6 (a : Z).

Definition hosts : list string :=
  ["api.anthropic.com:443"; "api.openai.com:443"; "generativelanguage.googleapis.com:443"].

(** The addresses of the providers when the process starts. *)
(* @src radar/main.rs resolve_llm_ips *)
Definition resolve_llm_ips (to_socket_addrs : string → option (list IpAddr)) : gset Z :=
  list_to_set (h ← hosts; default [] (to_socket_addrs h) ≫= λ a, match a with V4 v4 => [v4] | V6 _ => [] end).

(* @src radar/main.rs is_llm *)
Definition is_llm (ip port : Z) (llm : gset Z) : option string :=
  if bool_decide (ip ∈ llm) then Some "LLM provider"
  else if bool_decide (port = 11434) then Some "local Ollama"
  else if bool_decide (port = 8000) || bool_decide (port = 8001) then Some "local vLLM?"
  else None.

(** [Ipv4Addr]: its octets, whether it is a loopback address and how it is printed. *)
Definition octet (ip : Z) (i : Z) : Z := ip / 256 ^ (3 - i) mod 256.
Definition is_loopback (ip : Z) : bool := bool_decide (octet ip 0 = 127).
Definition show_ip (ip : Z) : string :=
  pretty (octet ip 0) +:+ "." +:+ pretty (octet ip 1) +:+ "." +:+ pretty (octet ip 2) +:+ "."
    +:+ pretty (octet ip 3).

(** [{:<w}]: padded on the right to [w] characters. *)
Definition pad_right (w : nat) (s : string) : string := s +:+ repeat_str " " (w - char_count s).

Definition NUL : ascii := "000".
Definition comm_text (comm : string) : string :=
  trim_end_chars (λ c, bool_decide (c = NUL)) (from_utf8_lossy comm).

(** The line printed for a record, when it is not skipped. *)
(* @src radar/main.rs 72-99 main *)
Definition report_event (llm : gset Z) (ev : ConnEvent) : option string :=
  let ip := daddr ev in
  if bool_decide (dport ev = 0) then None
  else if is_loopback ip && bool_decide (dport ev ≠ 11434) && bool_decide (dport ev ≠ 8000) then None
  else
    let comm := comm_text (comm ev) in
    if bool_decide (comm = "tokenfuse-radar") then None
    else
      let flag := default "" (is_llm ip (dport ev) llm) in
      let marker := if is_empty_str flag then "" else "  <== " in
      Some (pad_right 8 (pretty (pid ev)) +:+ " " +:+ pad_right 16 comm +:+ " "
              +:+ pad_right 21 (show_ip ip +:+ ":" +:+ pretty (dport ev)) +:+ " " +:+ marker +:+ flag).

(** One item of the ring buffer. *)
(* @src radar/main.rs 68-71 main *)
Definition report (llm : gset Z) (item : string) : option string :=
  ev ← read_event item; report_event llm ev.

(** What the process prints, with the items in the order they were submitted, and the error it
    ends with, if it does: while it watches it does not return. *)
(* @src radar/main.rs 54-102 main *)
Definition main (attached ring : result unit string) (to_socket_addrs : string → option (list IpAddr))
    (items : list string) : list string * option string :=
  match attached with
  | Err e => ([], Some e)
  | Ok _ =>
      let llm := resolve_llm_ips to_socket_addrs in
      let header :=
        ["tokenfuse-radar: watching outbound connections (known LLM IPs: " +:+
           pretty (Z.of_nat (size llm)) +:+ ")";
         pad_right 8 "PID" +:+ " " +:+ pad_right 16 "COMM" +:+ " " +:+ pad_right 21 "DEST" +:+ " FLAG"] in
      match ring with
      | Err e => (header, Some e)
      | Ok _ => (header ++ omap (report llm) items, None)
      end
  end.

(** ** What is read is what was written *)

Lemma str_slice_mid a b c p q :
  String.length a = p → (p + String.length b)%nat = q → str_slice p q (a +:+ b +:+ c) = b.
Proof.
  intros <- <-. unfold str_slice. rewrite <-append_assoc, str_take_app by (rewrite append_length; lia).
  rewrite <-append_length, str_take_all. apply str_drop_app.
Qed.

Lemma from_be_rev n z : 0 ≤ z < 256 ^ Z.of_nat n → from_be n (of_le (String.rev (le n z))) = z.
Proof.
  intros Hz. unfold from_be. set (s := String.rev (le n z)).
  assert (String.length s = n) as Hl by by unfold s; rewrite str_rev_length, le_length.
  rewrite <-Hl at 1. rewrite le_of_le. unfold s. rewrite str_rev_rev. by apply of_le_small.
Qed.

(** The fields of a record in the ranges of their types. *)
Record typed_event (ev : ConnEvent) : Prop := mkTypedEvent {
  te_pid : in_u32 (pid ev);
  te_port : 0 ≤ dport ev < 65536;
  te_addr : in_u32 (daddr ev);
  te_comm : String.length (comm ev) = 16%nat
}.

Lemma read_conn_bytes ev : typed_event ev → read_event (conn_bytes ev) = Some ev.
Proof.
  intros [Hp Hd Ha Hc]. unfold in_u32, u32_max in *. unfold read_event, conn_bytes.
  rewrite !append_length, !le_length, Hc. cbn [Nat.ltb Nat.leb Nat.add].
  destruct ev as [p d a c]. cbn [pid dport daddr comm] in *. do 2 f_equal.
  - etrans; [apply f_equal, (str_slice_mid "" (le 4 p)); by rewrite ?le_length|apply of_le_small; cbn; lia].
  - etrans; [apply f_equal, (str_slice_mid (le 4 p) (le 2 d)); by rewrite ?le_length|].
    apply of_le_small; cbn; lia.
  - replace (le 4 p +:+ _) with ((le 4 p +:+ le 2 d +:+ le 2 0) +:+ le 4 a +:+ c)
      by by rewrite !append_assoc.
    rewrite str_slice_mid by by rewrite ?append_length, ?le_length. apply of_le_small; cbn; lia.
  - replace (le 4 p +:+ _) with ((le 4 p +:+ le 2 d +:+ le 2 0 +:+ le 4 a) +:+ c +:+ "")
      by by rewrite !append_assoc, append_nil_r.
    by rewrite str_slice_mid by by rewrite ?append_length, ?le_length, ?Hc.
Qed.

(** ** Every connection to an IPv4 address *)

(** What is left out, and what a line looks like. *)
Definition unreported (ev : ConnEvent) : Prop :=
  dport ev = 0 ∨ (is_loopback (daddr ev) = true ∧ dport ev ≠ 11434 ∧ dport ev ≠ 8000) ∨
  comm_text (comm ev) = "tokenfuse-radar".

Lemma report_event_spec llm ev :
  (report_event llm ev = None ↔ unreported ev) ∧
  (¬ unreported ev → ∃ flag,
     report_event llm ev =
       Some (pad_right 8 (pretty (pid ev)) +:+ " " +:+ pad_right 16 (comm_text (comm ev)) +:+ " "
               +:+ pad_right 21 (show_ip (daddr ev) +:+ ":" +:+ pretty (dport ev)) +:+ " " +:+ flag) ∧
     (daddr ev ∈ llm → flag = "  <== LLM provider")).
Proof.
  unfold report_event, unreported. case_bool_decide as Hp; [split; [split; auto|tauto]|].
  destruct (is_loopback (daddr ev)); cbn [andb].
  - case_bool_decide as Ho; cbn [andb]; [case_bool_decide as H8; [split; [split; auto|tauto]|]|];
      (case_bool_decide as Hc; [split; [split; auto|tauto]|]).
    all: split; [split; [done|tauto]|intros _; eexists; split; [done|]];
      intros Hi; unfold is_llm; by rewrite bool_decide_true.
  - case_bool_decide as Hc; [split; [split; auto|tauto]|].
    split; [split; [done|intros [?|[[? _]|?]]; done]|intros _; eexists; split; [done|]].
    intros Hi. unfold is_llm. by rewrite bool_decide_true.
Qed.

(** The memory of the address a program connects to: the family in the machine's order, port
    and address in the network's. *)
Definition sockaddr_bytes (family port ip : Z) : string :=
  le 2 family +:+ String.rev (le 2 port) +:+ String.rev (le 4 ip).

Lemma sockaddr_read family port ip :
  0 ≤ family < 65536 →
  sockaddr_in (sockaddr_bytes family port ip) =
    mkSockAddrIn family (of_le (String.rev (le 2 port))) (of_le (String.rev (le 4 ip))).
Proof.
  intros Hf. unfold sockaddr_in, sockaddr_bytes. f_equal.
  etrans; [apply f_equal, (str_slice_mid "" (le 2 family)); by rewrite ?le_length|].
  apply of_le_small; cbn; lia.
Qed.

(** The name a line shows; a thread whose name the kernel does not give has an empty one. *)
Definition name_shown (name : option string) : string :=
  match name with Some n => comm_text n | None => "" end.

(** C38: What Radar reports of a connection whose address the kernel could read.  A program
    that calls [connect] with an IPv4 address leads, through the kernel's record and the ring
    buffer, to the line of its process id, its name (empty when the kernel gives none) and the
    address and port it named, in the machine's words and the network's byte order alike,
    flagged when the address is a provider's.  The line is missing exactly when the ring buffer
    is full, and for port 0, for every loopback address with a port other than 11434 and 8000
    (so also for 8001, which [is_llm] and the comment at the filter count as a model port,
    [local_8001_unreported]), and for a program called tokenfuse-radar.  An address of another
    family, IPv6 included, is never reported. *)
Theorem connection_reported llm addr_ptr probe_read pid_tgid name room family port ip :
  addr_ptr ≠ 0 → 0 ≤ pid_tgid < 2 ^ 64 → 0 ≤ family < 65536 → 0 ≤ port < 65536 → in_u32 ip →
  (∀ n, name = Some n → String.length n = 16%nat) →
  probe_read addr_ptr 8%nat = Some (sockaddr_bytes family port ip) →
  let line := try_radar (Ok addr_ptr) probe_read pid_tgid name room ≫= report llm in
  let skipped := port = 0 ∨ (is_loopback ip = true ∧ port ≠ 11434 ∧ port ≠ 8000) ∨
                 name_shown name = "tokenfuse-radar" in
  (line = None ↔ family ≠ 2 ∨ room = false ∨ skipped) ∧
  (family = 2 → room = true → ¬ skipped → ∃ flag,
     line = Some (pad_right 8 (pretty (pid_tgid / 2 ^ 32)) +:+ " " +:+ pad_right 16 (name_shown name)
                    +:+ " " +:+ pad_right 21 (show_ip ip +:+ ":" +:+ pretty port) +:+ " " +:+ flag) ∧
     (ip ∈ llm → flag = "  <== LLM provider")) ∧
  (is_loopback ip = true → port = 8001 → line = None).
Proof.
  intros Hptr Ht Hf Hp Hip Hn Hr line skipped.
  set (nm := default (repeat_str (String "000" "") 16) name).
  assert (comm_text nm = name_shown name) as Hname by (destruct name; [done|by vm_compute]).
  assert (line = if bool_decide (family ≠ 2) then None
                 else if room then report_event llm (mkConnEvent (pid_tgid / 2 ^ 32) port ip nm)
                 else None) as ->.
  { unfold line, try_radar. rewrite bool_decide_false by done. rewrite Hr, sockaddr_read by done.
    cbn [sin_family sin_port sin_addr]. unfold AF_INET. case_bool_decide; [done|].
    destruct room; [|done]. fold nm. cbn [mbind option_bind]. unfold report.
    rewrite Z.shiftr_div_pow2 by lia.
    unfold in_u32, u32_max in Hip. rewrite !from_be_rev by (cbn; lia).
    rewrite read_conn_bytes; [done|]. split; unfold in_u32, u32_max; cbn; try done.
    - split; [apply Z.div_pos; lia|]. assert (pid_tgid / 2 ^ 32 < 2 ^ 32); [|lia].
      apply Z.div_lt_upper_bound; lia.
    - unfold nm. destruct name as [n|]; [by apply Hn|done]. }
  case_bool_decide as Hfam; [split_and!; [by split; [left|]|done|done]|].
  destruct room; [|split_and!; [by split; [right; left|]|done|done]].
  pose proof (report_event_spec llm (mkConnEvent (pid_tgid / 2 ^ 32) port ip nm)) as [Hs Hl].
  assert (unreported (mkConnEvent (pid_tgid / 2 ^ 32) port ip nm) ↔ skipped) as Hsk
    by (unfold unreported, skipped; cbn [comm pid daddr dport]; by rewrite Hname).
  cbn [comm pid daddr dport] in Hl. rewrite Hname in Hl. split_and!.
  - rewrite Hs, Hsk. split; [by right; right|intros [?|[?|?]]; done].
  - intros _ _ Hno. apply Hl. by rewrite Hsk.
  - intros Hlo ->. apply Hs, Hsk. right. left. split; [done|lia].
Qed.

(** ** Instances *)

(** curl, process 4242, to 160.79.104.10:443. *)
Definition curl_name : string := "curl" +:+ repeat_str (String NUL "") 12.
Definition anthropic : Z := 2689558538.

Lemma connection_reported_witness :
  (try_radar (Ok 140737000) (λ _ _, Some (sockaddr_bytes 2 443 anthropic)) (4242 * 2 ^ 32 + 4243)
     (Some curl_name) true ≫= report {[anthropic]}) =
  Some "4242     curl             160.79.104.10:443       <== LLM provider".
Proof.
  destruct (connection_reported {[anthropic]} 140737000 (λ _ _, Some (sockaddr_bytes 2 443 anthropic))
    (4242 * 2 ^ 32 + 4243) (Some curl_name) true 2 443 anthropic) as (_ & H & _);
    [done|lia|lia|lia|by vm_compute|by intros n [= <-]|done|].
  destruct H as (flag & -> & Hf); [done|done|by intros [|[[]|]]|].
  by rewrite Hf by set_solver.
Defined.

(** A model served on the loopback interface at port 8001 is one [is_llm] knows, but its
    connections are skipped with the local chatter; at port 8000 they are flagged. *)
Example local_8001_unreported :
  is_llm 2130706433 8001 ∅ = Some "local vLLM?" ∧
  report_event ∅ (mkConnEvent 7 8001 2130706433 curl_name) = None ∧
  report_event ∅ (mkConnEvent 7 8000 2130706433 curl_name) =
    Some "7        curl             127.0.0.1:8000          <== local vLLM?".
Proof. by vm_compute. Qed.

(** A connection over IPv6 leaves no record. *)
Example ipv6_unreported :
  try_radar (Ok 140737000) (λ _ _, Some (sockaddr_bytes 10 443 0)) 0 (Some curl_name) true = None.
Proof. by vm_compute. Qed.
