(* ===== verification/McpScan.v ===== *)
(** * The [mcp-scan] command

    [crates/gateway/src/mcpcli.rs] and the [mcp-scan] branch of [main.rs]: the scan of a
    listing read from a file or fetched live, the lockfile, the reports it writes and the exit
    code a pipeline sees.  Files are a map, the terminal a list of lines; the JSON forms of the
    lock and of the report, the scanned server and the failures of writes are parameters. *)

From S2P Require Import Prelude Float Strings Text Json Mcp McpReport McpExposure McpClient Console.

(* @src mcpcli.rs OutputMode *)
Inductive OutputMode := Human | JsonOutput.
#[export] Instance OutputMode_eq_dec : EqDecision OutputMode.
Proof. solve_decision. Defined.

(* @src mcpcli.rs ScanOptions *)
Record ScanOptions := mkOptions {
  lock_path : option string;
  write_lock : bool;
  o_mode : OutputMode;
  json_out : option string;
  sarif_out : option string;
  skip_exposure : bool;
  attempt_call : bool;
  call_tool : option string
}.

(** The functions of libraries a scan calls, and the environment. *)
Record ScanLib := mkScanLib {
  s_client : ClientLib;
  s_env : string → option string;
  s_fingerprint : string → string → string → Z;
  s_to_lowercase : string → string;
  s_lock_json : Lock → string;
  s_lock_parse : string → result Lock string;
  s_report_json : ScanReport → string;
  s_pretty : Value → string;
  s_io_error : string → string;
  s_unwritable : string → option string
}.

Section scan.
Context {W : Type} (serve : W → Post → W * result Response string) (lib : ScanLib).

Definition tools_of (v : Value) : list McpTool :=
  parse_tools (s_fingerprint lib) (c_to_vec (s_client lib)) v.

(** Lines a human sees, and nobody else. *)
Definition say (mode : OutputMode) (ls : list string) : M (W := W) unit :=
  if bool_decide (mode = Human) then print_all ls else mret tt.

Definition drift_line (d : Drift) : string :=
  match d with
  | Changed n => "    ⛔ RUG PULL: tool '" +:+ n +:+ "' description/schema changed"
  | Added n => "    + new tool '" +:+ n +:+ "' (not in lock)"
  | Removed n => "    - tool '" +:+ n +:+ "' removed"
  end.

(* @src mcpcli.rs 146-155 build_scan_report *)
Definition injection_lines (findings : list ScanFinding) : list string :=
  match findings with
  | [] => ["  injection scan: clean"]
  | _ => ("  injection scan: " +:+ pretty (length findings) +:+ " issue(s)")
         :: ((λ f, "    ⚠ " +:+ tool f +:+ ": " +:+ issue f) <$> findings)
  end.

(* @src mcpcli.rs 159-193 build_scan_report *)
Definition check_lock (tools : list McpTool) (path : string) (write_lock : bool)
    (mode : OutputMode) : M (W := W) (list Drift) :=
  if write_lock then
    write (s_unwritable lib) path (s_lock_json lib (from_tools tools));;
    say mode ["  lock: wrote " +:+ pretty (length tools) +:+ " tool fingerprints to " +:+ path];;
    mret []
  else
    lock_raw ← read_to_string (s_io_error lib) path;
    match s_lock_parse lib lock_raw with
    | Err e => fail ("parse " +:+ path +:+ ": " +:+ e)
    | Ok lock =>
        let drifts := diff tools lock in
        say mode match drifts with
                 | [] => ["  lock: no drift — matches " +:+ path]
                 | _ => ("  lock: " +:+ pretty (length drifts) +:+ " change(s) vs " +:+ path)
                        :: (drift_line <$> drifts)
                 end;;
        mret drifts
    end.

(* @src mcpcli.rs build_scan_report *)
Definition build_scan_report (tools : list McpTool) (lock_path : option string)
    (write_lock : bool) (mode : OutputMode) : M (W := W) ScanReport :=
  let findings := scan_injection (s_to_lowercase lib) tools in
  say mode (injection_lines findings);;
  drifts ← match lock_path with
           | Some path => check_lock tools path write_lock mode
           | None => mret []
           end;
  mret (from_scan (c_version (s_client lib)) tools findings drifts).

(* @src mcpcli.rs emit_report *)
Definition emit_report (report : ScanReport) (mode : OutputMode) (json_out sarif_out : option string)
  : M (W := W) unit :=
  (if bool_decide (mode = JsonOutput) then println (s_report_json lib report) else mret tt);;
  match json_out with
  | Some path => write (s_unwritable lib) path (s_report_json lib report)
  | None => mret tt
  end;;
  match sarif_out with
  | Some path =>
      write (s_unwritable lib) path (s_pretty lib (to_sarif report (version report)));;
      say mode ["  sarif: wrote SARIF 2.1.0 report to " +:+ path]
  | None => mret tt
  end.

(* @src mcpcli.rs run *)
Definition run (tools_path : string) (opts : ScanOptions) : M (W := W) ScanReport :=
  let mode := o_mode opts in
  raw ← read_to_string (s_io_error lib) tools_path;
  match c_from_slice (s_client lib) raw with
  | Err e => fail ("parse " +:+ tools_path +:+ ": " +:+ e)
  | Ok value =>
      let tools := tools_of value in
      say mode ["MCP scan — " +:+ pretty (length tools) +:+ " tool(s) in " +:+ tools_path];;
      report ← build_scan_report tools (lock_path opts) (write_lock opts) mode;
      emit_report report mode (json_out opts) (sarif_out opts);;
      mret report
  end.

Definition exposure_line (f : Finding) : string :=
  match f_tool f with
  | Some t => "    ⚠ [" +:+ f_kind f +:+ "] " +:+ t +:+ ": " +:+ f_message f
  | None => "    ⚠ [" +:+ f_kind f +:+ "] " +:+ f_message f
  end.

(** The exposure findings of a live scan. *)
(* @src mcpcli.rs 104-121 run_live *)
Definition exposure (url : string) (opts : ScanOptions) (tools : list McpTool)
  : M (W := W) (list Finding) :=
  outcome ← (λ w, let '(n, o) := run_exposure_probe serve (s_client lib) (s_to_lowercase lib) tools_of
                                  (s_env lib) url (attempt_call opts) (call_tool opts) (net w) in
                  (mkWorld (files w) (out w) (err w) n, Ok o));
  let extra := exposure_findings (s_to_lowercase lib) outcome
               ++ ssrf_capable_findings (s_to_lowercase lib) tools in
  say (o_mode opts) match extra with
                    | [] => ["  exposure scan: clean"]
                    | _ => ("  exposure scan: " +:+ pretty (length extra) +:+ " issue(s)")
                           :: (exposure_line <$> extra)
                    end;;
  mret extra.

(* @src mcpcli.rs run_live *)
Definition run_live (url : string) (opts : ScanOptions) : M (W := W) ScanReport :=
  let mode := o_mode opts in
  value ← network error_text (fetch_tools_list serve (s_client lib) (new (s_env lib) url));
  let tools := tools_of value in
  say mode ["MCP scan — " +:+ pretty (length tools) +:+ " tool(s) live from " +:+ url];;
  report ← build_scan_report tools (lock_path opts) (write_lock opts) mode;
  report ← (if negb (skip_exposure opts)
            then extra ← exposure url opts tools; mret (push_findings report extra)
            else say mode ["  exposure scan: skipped (--skip-exposure)"];; mret report);
  emit_report report mode (json_out opts) (sarif_out opts);;
  mret report.
End scan.

(** ** The command *)

(** [rest.iter().position(|a| a == flag)] and the argument after it. *)
Definition position (flag : string) (rest : list string) : option nat :=
  fst <$> list_find (λ a, a = flag) rest.
Definition flag_value (flag : string) (rest : list string) : option string :=
  position flag rest ≫= λ i, rest !! S i.
Definition has_flag (flag : string) (rest : list string) : bool := bool_decide (flag ∈ rest).

(* @src gateway/main.rs 126-133 main *)
Definition flag_value_idx (rest : list string) : list nat :=
  omap (λ flag, S <$> position flag rest)
    ["--url"; "--lock"; "--json-out"; "--sarif"; "--fail-on"; "--call-tool"].

(* @src gateway/main.rs 134-138 main *)
Definition tools_path (rest : list string) : option string :=
  snd <$> find (λ '(i, a), negb (starts_with "--" a) && negb (bool_decide (i ∈ flag_value_idx rest)))
            (imap pair rest).

(* @src gateway/main.rs 78-107 main *)
Definition scan_options (rest : list string) : ScanOptions :=
  mkOptions (flag_value "--lock" rest) (has_flag "--write-lock" rest)
    (if has_flag "--json" rest then JsonOutput else Human)
    (flag_value "--json-out" rest) (flag_value "--sarif" rest)
    (has_flag "--skip-exposure" rest) (has_flag "--attempt-call" rest)
    (flag_value "--call-tool" rest).

(* @src gateway/main.rs 109-122 main *)
Definition threshold (to_lowercase : string → string) (rest : list string)
  : result (option Severity) string :=
  match flag_value "--fail-on" rest with
  | None => Ok (Some High)
  | Some raw =>
      if bool_decide (raw = "none") then Ok None
      else match from_str to_lowercase raw with
           | Ok s => Ok (Some s)
           | Err e => Err e
           end
  end.

Definition scan_usage : string :=
  "usage: tokenfuse mcp-scan <tools.json> [--lock <file>] [--write-lock] [--json] [--json-out <file>] [--sarif <file>] [--fail-on <severity>|none]"
  +:+ String (ascii_of_nat 10) ""
  +:+ "       tokenfuse mcp-scan --url <endpoint> [--lock <file>] [--write-lock] [--json] [--json-out <file>] [--sarif <file>] [--fail-on <severity>|none] [--skip-exposure] [--attempt-call --call-tool <name>]".

Section command.
Context {W : Type} (serve : W → Post → W * result Response string) (lib : ScanLib).

(** The scan the arguments ask for. *)
(* @src gateway/main.rs 153-182 main *)
Definition requested_scan (rest : list string) : M (W := W) ScanReport :=
  let opts := scan_options rest in
  match tools_path rest, flag_value "--url" rest with
  | Some _, Some _ => fail "mcp-scan error: pass either <tools.json> or --url, not both"
  | None, Some url =>
      map_err (String.append "mcp-scan error: ") (run_live serve lib url opts)
  | Some p, None =>
      (if skip_exposure opts || attempt_call opts || bool_decide (is_Some (call_tool opts))
       then eprintln "mcp-scan: note: --skip-exposure/--attempt-call/--call-tool only apply to --url (live) scans; ignoring for file mode"
       else mret tt);;
      map_err (String.append "mcp-scan error: ") (run lib p opts)
  | None, None => fail scan_usage
  end.

(* @src gateway/main.rs 190-204 main *)
Definition result_line (r : ScanReport) (code : Z) (t : option Severity) : string :=
  let count := λ s, pretty (default O (report_summary r !! as_str s)) in
  "RESULT: " +:+ count Critical +:+ " critical, " +:+ count High +:+ " high, "
  +:+ count Medium +:+ " medium, " +:+ count Low +:+ " low — exit " +:+ pretty code
  +:+ " (fail-on: " +:+ match t with Some t => as_str t | None => "none" end +:+ ")".

(** The exit code of the process. *)
(* @src gateway/main.rs 76-206 main *)
Definition mcp_scan (rest : list string) (w : World W) : World W * Z :=
  match threshold (s_to_lowercase lib) rest with
  | Err e => ((eprintln ("mcp-scan error: " +:+ e) w).1, 2)
  | Ok t =>
      match requested_scan rest w with
      | (w, Err e) => ((eprintln e w).1, scan_exit_code (Err e) t)
      | (w, Ok r) =>
          let code := scan_exit_code (E := string) (Ok (max_severity r)) t in
          if bool_decide (o_mode (scan_options rest) = Human)
          then ((println (result_line r code t) w).1, code) else (w, code)
      end
  end.
End command.

(** ** What a green scan means *)

Section green.
Context {W : Type} (serve : W → Post → W * result Response string) (lib : ScanLib).

Lemma say_ok mode ls (w w' : World W) x :
  say mode ls w = (w', Ok x) → files w' = files w ∧ net w' = net w.
Proof. unfold say, print_all, mret, M_ret. case_bool_decide; by intros [= <-]. Qed.

Lemma say_total mode ls (w : World W) : ∃ w', say mode ls w = (w', Ok tt).
Proof. unfold say, print_all, mret, M_ret. case_bool_decide; by eexists. Qed.

(** The lock the scan was checked against, and the differences it found. *)
Definition checked (opts : ScanOptions) (fs : gmap string string) (tools : list McpTool)
    (drifts : list Drift) : Prop :=
  match lock_path opts with
  | Some l =>
      if write_lock opts then drifts = []
      else ∃ raw lock, fs !! l = Some raw ∧ s_lock_parse lib raw = Ok lock ∧
                       drifts = diff tools lock
  | None => drifts = []
  end.

Lemma build_report_ok tools opts (w w' : World W) r :
  build_scan_report lib tools (lock_path opts) (write_lock opts) (o_mode opts) w = (w', Ok r) →
  ∃ drifts, r = from_scan (c_version (s_client lib)) tools
                  (scan_injection (s_to_lowercase lib) tools) drifts ∧
            checked opts (files w) tools drifts.
Proof.
  unfold build_scan_report, checked. intros (w1 & [] & H1 & H2)%bind_ok.
  apply say_ok in H1 as [<- _]. apply bind_ok in H2 as (w2 & drifts & H2 & [= <- <-]).
  exists drifts. split; [done|]. revert H2. destruct (lock_path opts) as [l|]; [|by intros [= <- <-]].
  unfold check_lock. destruct (write_lock opts).
  - intros (w3 & [] & _ & H3)%bind_ok. apply bind_ok in H3 as (w4 & [] & _ & H4).
    by injection H4 as _ <-.
  - intros (w3 & raw & Hread & H3)%bind_ok. unfold read_to_string in Hread.
    destruct (files w1 !! l) as [raw'|]; [|done]. injection Hread as <- ->.
    exists raw. destruct (s_lock_parse lib raw) as [lock|e]; [|done]. exists lock.
    apply bind_ok in H3 as (w4 & [] & _ & H4). by injection H4 as _ <-.
Qed.

(** Where the listing comes from. *)
Definition listing (rest : list string) (w : World W) (v : Value) : Prop :=
  match tools_path rest, flag_value "--url" rest with
  | Some p, None => ∃ raw, files w !! p = Some raw ∧ c_from_slice (s_client lib) raw = Ok v
  | None, Some url => (fetch_tools_list serve (s_client lib) (new (s_env lib) url) (net w)).2 = Ok v
  | _, _ => False
  end.

Lemma push_nothing v tools inj drifts :
  push_findings (from_scan v tools inj drifts) [] = from_scan v tools inj drifts.
Proof. unfold push_findings, from_scan. cbn. by rewrite app_nil_r. Qed.

Lemma run_ok p opts (w w' : World W) r :
  run lib p opts w = (w', Ok r) →
  ∃ raw v drifts, files w !! p = Some raw ∧ c_from_slice (s_client lib) raw = Ok v ∧
    checked opts (files w) (tools_of lib v) drifts ∧
    r = from_scan (c_version (s_client lib)) (tools_of lib v)
          (scan_injection (s_to_lowercase lib) (tools_of lib v)) drifts.
Proof.
  unfold run. intros (w1 & raw & Hread & H)%bind_ok. unfold read_to_string in Hread.
  destruct (files w !! p) as [raw'|]; [|done]. injection Hread as <- ->.
  destruct (c_from_slice (s_client lib) raw) as [v|e] eqn:Hv; [|done].
  apply bind_ok in H as (w2 & [] & H2 & H). apply say_ok in H2 as [Hf _].
  apply bind_ok in H as (w3 & r' & H3 & H). apply build_report_ok in H3 as (drifts & -> & Hc).
  apply bind_ok in H as (w4 & [] & _ & [= _ <-]). rewrite Hf in Hc.
  exists raw, v, drifts. eauto.
Qed.

Lemma run_live_ok url opts (w w' : World W) r :
  run_live serve lib url opts w = (w', Ok r) →
  ∃ v drifts extra, (fetch_tools_list serve (s_client lib) (new (s_env lib) url) (net w)).2 = Ok v ∧
    checked opts (files w) (tools_of lib v) drifts ∧
    r = push_findings (from_scan (c_version (s_client lib)) (tools_of lib v)
          (scan_injection (s_to_lowercase lib) (tools_of lib v)) drifts) extra.
Proof.
  unfold run_live. intros (w1 & v & Hnet & H)%bind_ok. unfold network in Hnet.
  destruct (fetch_tools_list _ _ _ (net w)) as [n [v'|e]] eqn:Hfetch; [|done].
  injection Hnet as <- ->. cbn [snd].
  apply bind_ok in H as (w2 & [] & H2 & H). apply say_ok in H2 as [Hf _]. cbn [files] in Hf.
  apply bind_ok in H as (w3 & r' & H3 & H). apply build_report_ok in H3 as (drifts & -> & Hc).
  rewrite Hf in Hc. apply bind_ok in H as (w4 & r4 & H4 & H).
  apply bind_ok in H as (w5 & [] & _ & [= _ <-]). revert H4.
  destruct (negb (skip_exposure opts)).
  - intros (w6 & extra & _ & [= _ <-])%bind_ok. eauto 10.
  - intros (w6 & [] & _ & [= _ <-])%bind_ok. exists v, drifts, []. by rewrite push_nothing.
Qed.

Lemma requested_scan_ok rest (w w' : World W) r :
  requested_scan serve lib rest w = (w', Ok r) →
  ∃ v drifts extra, listing rest w v ∧
    checked (scan_options rest) (files w) (tools_of lib v) drifts ∧
    r = push_findings (from_scan (c_version (s_client lib)) (tools_of lib v)
                         (scan_injection (s_to_lowercase lib) (tools_of lib v)) drifts) extra.
Proof.
  unfold requested_scan, listing. destruct (tools_path rest) as [p|], (flag_value "--url" rest) as [url|];
    try done.
  - intros (w1 & [] & Hnote & H)%bind_ok.
    assert (files w1 = files w) as Hf by (revert Hnote; case_match; by intros [= <-]).
    apply map_err_ok, run_ok in H as (raw & v & drifts & Hraw & Hv & Hc & ->).
    rewrite Hf in *. exists v, drifts, []. rewrite push_nothing. eauto.
  - intros H%map_err_ok%run_live_ok. naive_solver.
Qed.

(** The list of tools a document carries, if it carries one. *)
Definition carried (v : Value) : option (list Value) :=
  or_else (get "tools" v) (get "result" v ≫= get "tools") ≫= as_array.

(** C26: What a green scan says.  When the command exits 0 with a threshold, a JSON document
    was read (from the file, or as the server's answer to [tools/list]), and among the tools
    it carries no finding reaches the threshold; at [high] or below it no description carries
    an injection marker; and, when a lock was given to check against, the lock was read and
    every listed tool it pins has the pinned fingerprint.  A document or an answer that could
    not be had, or is not JSON, never gives exit 0; but one that carries no list of tools, a
    JSON-RPC error for instance, is an empty listing and does ([error_answer_scans_green],
    contrary to the comment in main.rs). *)
Theorem green_scan_is_clean rest (w w' : World W) t :
  threshold (s_to_lowercase lib) rest = Ok (Some t) →
  mcp_scan serve lib rest w = (w', 0) →
  ∃ v, listing rest w v ∧ (carried v = None → tools_of lib v = []) ∧
    ((rank t <= rank High)%nat → scan_injection (s_to_lowercase lib) (tools_of lib v) = []) ∧
    (∀ l, flag_value "--lock" rest = Some l → has_flag "--write-lock" rest = false →
       ∃ raw lock, files w !! l = Some raw ∧ s_lock_parse lib raw = Ok lock ∧
         ∀ tl fp, tl ∈ tools_of lib v → lock !! name tl = Some fp → fp = fingerprint_ tl).
Proof.
  intros Ht. unfold mcp_scan. rewrite Ht.
  destruct (requested_scan serve lib rest w) as [w1 [r|e]] eqn:Hscan; [|by intros [= _ ?]].
  apply requested_scan_ok in Hscan as (v & drifts & extra & Hlist & Hcheck & Hr).
  set (code := scan_exit_code _ _). intros Hcode.
  assert (code = 0) as Hzero by (revert Hcode; case_bool_decide; by intros [= _ ?]).
  assert (¬ reaches t (findings r)) as Hno.
  { intros Hreach%max_severity_reaches. unfold code, scan_exit_code in Hzero.
    by rewrite Hreach in Hzero. }
  exists v. split; [done|]. split; [unfold tools_of, parse_tools, carried; by intros ->|].
  rewrite Hr in Hno. unfold push_findings, from_scan in Hno.
  cbn [findings] in Hno. rewrite !reaches_app in Hno. split.
  - intros Hle. destruct (scan_injection _ _) as [|f fs]; [done|]. exfalso. apply Hno. left. left.
    apply Exists_cons. left. simpl. exact Hle.
  - intros l Hl Hw. unfold checked, scan_options in Hcheck. cbn in Hcheck. rewrite Hl, Hw in Hcheck.
    destruct Hcheck as (raw & lock & Hraw & Hp & ->). exists raw, lock. split; [done|].
    split; [done|]. intros tl fp Htl Hfp. destruct (decide (fp = fingerprint_ tl)) as [|Hne]; [done|].
    exfalso. apply Hno. left. right. apply Exists_exists. exists (drift_finding (Changed (name tl))).
    split; [|destruct t; simpl; lia]. apply (list_elem_of_fmap_2 drift_finding).
    apply diff_elem. eauto 6.
Qed.

Lemma build_report_writes tools l mode (w : World W) :
  s_unwritable lib l = None →
  ∃ w', build_scan_report lib tools (Some l) true mode w
        = (w', Ok (from_scan (c_version (s_client lib)) tools
                     (scan_injection (s_to_lowercase lib) tools) [])) ∧
    files w' = <[l := s_lock_json lib (from_tools tools)]> (files w).
Proof.
  intros Hwr. unfold build_scan_report, check_lock.
  destruct (say_total mode (injection_lines (scan_injection (s_to_lowercase lib) tools)) w)
    as (w1 & H1). pose proof (say_ok _ _ _ _ _ H1) as [Hf _].
  set (w2 := mkWorld (<[l := s_lock_json lib (from_tools tools)]> (files w1)) (out w1) (err w1) (net w1)).
  destruct (say_total mode ["  lock: wrote " +:+ pretty (length tools) +:+ " tool fingerprints to "
                            +:+ l] w2) as (w3 & H3). pose proof (say_ok _ _ _ _ _ H3) as [Hf3 _].
  exists w3. split; [|by rewrite Hf3, <- Hf].
  eapply bind_step; [exact H1|]. eapply bind_step; [|done].
  eapply (bind_step _ _ _ w2 tt); [unfold write; by rewrite Hwr|]. by eapply bind_step; [exact H3|].
Qed.

Lemma build_report_checks tools l mode raw lock (w : World W) :
  files w !! l = Some raw → s_lock_parse lib raw = Ok lock →
  ∃ w', build_scan_report lib tools (Some l) false mode w
        = (w', Ok (from_scan (c_version (s_client lib)) tools
                     (scan_injection (s_to_lowercase lib) tools) (diff tools lock))).
Proof.
  intros Hraw Hp. unfold build_scan_report, check_lock.
  destruct (say_total mode (injection_lines (scan_injection (s_to_lowercase lib) tools)) w)
    as (w1 & H1). pose proof (say_ok _ _ _ _ _ H1) as [Hf _].
  edestruct (say_total mode) as (w3 & H3).
  exists w3. eapply bind_step; [exact H1|]. eapply bind_step; [|done].
  eapply (bind_step _ _ _ w1 raw); [unfold read_to_string; by rewrite Hf, Hraw|]. rewrite Hp.
  by eapply bind_step; [exact H3|].
Qed.

Lemma run_with p l wl mode raw v (w : World W) (P : World W → Prop) r :
  files w !! p = Some raw → c_from_slice (s_client lib) raw = Ok v →
  (∀ w2 : World W, files w2 = files w → ∃ w3,
     build_scan_report lib (tools_of lib v) (Some l) wl mode w2 = (w3, Ok r) ∧ P w3) →
  ∃ w4, run lib p (mkOptions (Some l) wl mode None None false false None) w = (w4, Ok r) ∧
        ∃ w3, P w3 ∧ files w4 = files w3.
Proof.
  intros H0 Hv Hb. unfold run. cbn [o_mode lock_path write_lock json_out sarif_out].
  destruct (say_total mode ["MCP scan — " +:+ pretty (length (tools_of lib v)) +:+ " tool(s) in "
                            +:+ p] w) as (w2 & H2). pose proof (say_ok _ _ _ _ _ H2) as [Hf _].
  destruct (Hb w2 Hf) as (w3 & H3 & HP).
  assert (∃ w4, emit_report lib r mode None None w3 = (w4, Ok tt) ∧ files w4 = files w3)
    as (w4 & H4 & Hf4).
  { unfold emit_report, println, mbind, M_bind, mret, M_ret. case_bool_decide; by eexists. }
  exists w4. split; [|by exists w3]. eapply bind_step; [unfold read_to_string; by rewrite H0|].
  rewrite Hv. eapply bind_step; [exact H2|]. eapply bind_step; [exact H3|].
  by eapply bind_step; [exact H4|].
Qed.

(** Pinning a listing and checking it again finds no drift: the report of the second scan is
    the report of the first.  The lock must not overwrite the listing, and two tools of one
    name would be pinned as one. *)
Theorem pinned_scan_repeats p l mode raw v (w : World W) :
  l ≠ p → files w !! p = Some raw → c_from_slice (s_client lib) raw = Ok v →
  NoDup (name <$> tools_of lib v) → s_unwritable lib l = None →
  (∀ k, s_lock_parse lib (s_lock_json lib k) = Ok k) →
  ∃ w1 w2 r,
    run lib p (mkOptions (Some l) true mode None None false false None) w = (w1, Ok r) ∧
    run lib p (mkOptions (Some l) false mode None None false false None) w1 = (w2, Ok r).
Proof.
  intros Hne Hraw Hv Hnd Hwr Hround.
  pose proof (λ wl w0 P r H0, run_with p l wl mode raw v w0 P r H0 Hv) as Hrun.
  destruct (Hrun true w (λ w3, files w3 = <[l := s_lock_json lib (from_tools (tools_of lib v))]> (files w))
    (from_scan (c_version (s_client lib)) (tools_of lib v)
       (scan_injection (s_to_lowercase lib) (tools_of lib v)) [])) as (w4 & H4 & w3 & Hw3 & Hf4);
    [done| |].
  { intros w2 Hf2. destruct (build_report_writes (tools_of lib v) l mode w2 Hwr) as (w3 & H3 & Hf3).
    exists w3. by rewrite Hf3, Hf2. }
  destruct (Hrun false w4 (λ _, True) (from_scan (c_version (s_client lib)) (tools_of lib v)
       (scan_injection (s_to_lowercase lib) (tools_of lib v)) [])) as (w5 & H5 & _);
    [by rewrite Hf4, Hw3, lookup_insert_ne| |eauto].
  intros w2 Hf2. destruct (build_report_checks (tools_of lib v) l mode
    (s_lock_json lib (from_tools (tools_of lib v))) (from_tools (tools_of lib v)) w2) as (w6 & H6);
    [by rewrite Hf2, Hf4, Hw3, lookup_insert_eq|done|].
  rewrite diff_pinned in H6 by done. eauto.
Qed.

(** An answer that is no listing has no tools, so nothing is found in it: a server that answers
    [tools/list] with an error object passes the scan with exit code 0. *)
Theorem error_answer_scans_green e m (w : World W) n :
  fetch_tools_list serve (s_client lib) (new (s_env lib) "http://h/") (net w)
    = (n, Ok (Obj [("error", e); ("id", m); ("jsonrpc", Str "2.0")])) →
  (mcp_scan serve lib ["--url"; "http://h/"; "--skip-exposure"; "--json"] w).2 = 0.
Proof.
  intros Hfetch. unfold mcp_scan.
  change (threshold (s_to_lowercase lib) ["--url"; "http://h/"; "--skip-exposure"; "--json"])
    with (Ok (E := string) (Some High)).
  unfold requested_scan.
  change (tools_path ["--url"; "http://h/"; "--skip-exposure"; "--json"]) with (@None string).
  change (flag_value "--url" ["--url"; "http://h/"; "--skip-exposure"; "--json"])
    with (Some "http://h/").
  unfold map_err, run_live, network, mbind, M_bind. rewrite Hfetch. reflexivity.
Qed.

(** A [--lock] that is the last argument names no file: nothing is checked, and nothing says so. *)
Theorem lock_without_file_unchecked (w : World W) :
  mcp_scan serve lib ["tools.json"; "--lock"] w = mcp_scan serve lib ["tools.json"] w.
Proof. reflexivity. Qed.
End green.

(** A scan of a file against its lock that exits 0. *)
Definition demo_client : ClientLib :=
  mkClientLib Some (λ s, if bool_decide (s = "T") then Ok (Obj [("tools", Arr [Obj [("name", Str "add")]])])
                         else Err "no json")
    (λ _, "{}") (λ s, s) (λ _, "") None (λ _, None) "1".
Definition demo_scan : ScanLib :=
  mkScanLib demo_client (λ _, None) (λ _ _ _, 7) (λ s, s) (λ _, "L")
    (λ s, if bool_decide (s = "L") then Ok {["add" := 7]} else Err "no lock")
    (λ _, "") (λ _, "") (λ _, "not found") (λ _, None).
Definition demo_server (w : unit) (p : Post) : unit * result Response string := (w, Err "refused").
Definition demo_world : World unit :=
  mkWorld (<["t.json" := "T"]> {["l.json" := "L"]}) [] [] tt.

Lemma green_scan_is_clean_witness :
  ∃ v, listing demo_server demo_scan ["t.json"; "--lock"; "l.json"] demo_world v ∧
    (carried v = None → tools_of demo_scan v = []) ∧
    ((rank High <= rank High)%nat →
     scan_injection (s_to_lowercase demo_scan) (tools_of demo_scan v) = []) ∧
    (∀ l, flag_value "--lock" ["t.json"; "--lock"; "l.json"] = Some l →
       has_flag "--write-lock" ["t.json"; "--lock"; "l.json"] = false →
       ∃ raw lock, files demo_world !! l = Some raw ∧ s_lock_parse demo_scan raw = Ok lock ∧
         ∀ tl fp, tl ∈ tools_of demo_scan v → lock !! name tl = Some fp → fp = fingerprint_ tl).
Proof.
  apply (green_scan_is_clean demo_server demo_scan ["t.json"; "--lock"; "l.json"] demo_world
           (mcp_scan demo_server demo_scan ["t.json"; "--lock"; "l.json"] demo_world).1 High);
    vm_compute; reflexivity.
Defined.
