(* ===== verification/McpBroker.v ===== *)
(** * The MCP broker

    [crates/gateway/src/mcpbroker.rs]: the JSON-RPC proxy between an agent and its MCP
    servers, with its scans, its policy gate and its secret injection.  A call is a
    program over the policy hook's state that may answer early; what it shows outside (the
    forwarded payloads and the emitted events) is logged in order.  The HTTP exchanges,
    [serde_json], the regular expressions and the hashes are parameters. *)

From S2P Require Import Prelude Float Strings Text Json Loops SecretBroker Mcp AgentEvent Wardryx Dlp.
From S2P Require Request.

(* @src mcpbroker.rs ScanMode *)
Inductive ScanMode := ScanOff | ScanWarn | ScanBlock.
#[export] Instance ScanMode_eq_dec : EqDecision ScanMode.
Proof. solve_decision. Defined.

#[export] Instance EventType_decision : EqDecision EventType.
Proof. solve_decision. Defined.
#[export] Instance DlpMode_decision : EqDecision DlpMode.
Proof. solve_decision. Defined.

(** The hook is kept apart: its cache changes. *)
(* @src mcpbroker.rs BrokerState *)
Record BrokerState := mkBroker {
  upstream : string;
  named_upstreams : gmap string string;
  vault : SecretVault;
  scan_mode : ScanMode;
  b_dlp : DlpMode;
  b_dlp_pii : DlpMode;
  lock : option Lock
}.

(* @src mcpbroker.rs CallContext *)
Record CallContext := mkCall {
  cc_agent_id : option string;
  cc_upstream : option string;
  cc_on_behalf_of : list string;
  cc_attestation_method : option string;
  cc_approval_token : option string
}.
Definition default_context : CallContext := mkCall None None [] None None.

(** The functions of libraries the broker calls. *)
Record BrokerLib := mkBrokerLib {
  l_to_str : string → option string;               (* HeaderValue::to_str *)
  l_to_lowercase : string → string;
  l_from_str : string → result Value string;       (* serde_json *)
  l_to_string : Value → string;
  l_debug : string → string;                       (* {:?} of a str *)
  l_find_iter : string → string → list (nat * nat);
  l_tools_hash : list string → option string → Z;
  l_fingerprint : string → string → string → Z
}.

(** An upstream's answer to a posted payload: no success, a body cut short, or its bytes. *)
Inductive Posted := Failed (e : string) | Unread (e : string) | Received (bytes : string).

(** The world around one call: the other calls' effect on the hook's cache, the policy
    decision point with the times of the question and the answer, and the upstreams. *)
Record Outside := mkOutside {
  crowd : gmap (string * Z) CacheEntry → gmap (string * Z) CacheEntry;
  o_pdp : DecideContext → Z * Z * result DecideWireResponse WardryxError;
  post : string → string → Posted;
  millis : Z
}.

(** What a call shows outside. *)
Inductive Shown :=
| Forwarded (url payload : string)
| Event (t : EventType) (ts : Z) (agent : option string) (data : Value).

Record Bk := mkBk { hook : Wardryx; shown : list Shown }.

Inductive Outcome (A : Type) := Go (a : A) | Return (v : Value).
Arguments Go {A}.
Arguments Return {A}.

Definition B (A : Type) : Type := Bk → Bk * Outcome A.
#[export] Instance B_ret : MRet B := λ A a s, (s, Go a).
#[export] Instance B_bind : MBind B := λ A C k m s,
  match m s with (s, Go a) => k a s | (s, Return v) => (s, Return v) end.
Definition refuse {A} (v : Value) : B A := λ s, (s, Return v).
Definition show (a : Shown) : B unit := λ s, (mkBk (hook s) (shown s ++ [a]), Go tt).
Definition mode : B WardryxMode := λ s, (s, Go (wx_mode (hook s))).

(** A JSON integer. *)
Definition json_int (n : Z) : Value := Number (if 0 <=? n then PosInt n else NegInt n).

(* @src mcpbroker.rs rpc_error *)
Definition rpc_error (id : Value) (code : Z) (message : string) : Value :=
  Obj [("error", Obj [("code", json_int code); ("message", Str message)]); ("id", id);
       ("jsonrpc", Str "2.0")].

(* @src mcpbroker.rs reason_suffix *)
Definition reason_suffix (reason : option string) : string :=
  match reason with
  | Some r => if bool_decide (r = "") then "" else " (" +:+ r +:+ ")"
  | None => ""
  end.

(** [req["params"] = params] on an object. *)
Definition set_params (params req : Value) : Value :=
  match req with Obj m => Obj (Request.obj_insert "params" params m) | _ => req end.

(** A member of the response's [_tokenfuse] object, created when it is absent and left
    alone when it is not an object. *)
(* @src mcpbroker.rs 543-548 process *)
Definition annotate (k : string) (v : Value) (out : Value) : Value :=
  match out with
  | Obj m =>
      let entry := match default (Obj []) (assoc "_tokenfuse" m) with
                   | Obj t => Obj (Request.obj_insert k v t)
                   | entry => entry
                   end in
      Obj (Request.obj_insert "_tokenfuse" entry m)
  | _ => out
  end.

Section broker.
Context (lib : BrokerLib) (st : BrokerState) (net : Outside).

Definition secrets_in (text : string) : list Finding := Dlp.scan (l_find_iter lib) text.
Definition pii_in (text : string) : list Finding := Dlp.scan_pii (l_find_iter lib) text.
Definition tools_of (out : Value) : list McpTool :=
  parse_tools (l_fingerprint lib) (l_to_string lib) out.
Definition poisoned (tools : list McpTool) : list ScanFinding :=
  scan_injection (l_to_lowercase lib) tools.

(** [st.events.emit(t, now_millis(), agent_id, None, None, data)] *)
Definition emit (t : EventType) (agent : option string) (data : Value) : B unit :=
  show (Event t (millis net) agent data).

(* @src mcpbroker.rs 165-176 emit_tool_call *)
Definition tool_call_data (tool url : string) (d : WardryxDecision) (m : WardryxMode) : Value :=
  Obj [("decision", Str ((if bool_decide (m = WxShadow) then "would-" else "")
                         +:+ WardryxDecision.as_wire_str d));
       ("tool", Str tool); ("upstream", Str url)].
(* @src mcpbroker.rs emit_tool_call *)
Definition emit_tool_call (agent : option string) (tool url : string) (d : WardryxDecision)
    (m : WardryxMode) : B unit :=
  emit ToolCall agent (tool_call_data tool url d m).

(* @src mcpbroker.rs 192-212 handle *)
Definition context_of (headers : Request.HeaderMap) : CallContext :=
  let header := Request.header_str (l_to_str lib) headers in
  mkCall (header "x-fuse-agent-id") (header "x-fuse-mcp-upstream")
    (default [] ((λ s, filter (λ p, p ≠ "") (trim <$> split_char ","%char s))
                   <$> header "x-fuse-on-behalf-of"))
    (header "x-fuse-attestation-method") (header "x-fuse-approval-token").

(* @src mcpbroker.rs resolve_upstream *)
Definition resolve_upstream (ctx : CallContext) (id : Value) : result string Value :=
  match cc_upstream ctx with
  | None => Ok (upstream st)
  | Some name =>
      match named_upstreams st !! name with
      | Some url => Ok url
      | None => Err (rpc_error id (-32005) ("unknown mcp upstream " +:+ l_debug lib name
                                            +:+ " (X-Fuse-Mcp-Upstream)"))
      end
  end.

(* @src mcpbroker.rs 280-299 process *)
Definition secret_gate (id req : Value) : B (list Finding) :=
  if bool_decide (b_dlp st = DlpOff) then mret []
  else match get "params" req with
       | None => mret []
       | Some params =>
           let findings := secrets_in (l_to_string lib params) in
           match findings with
           | [] => mret []
           | _ => if bool_decide (b_dlp st = DlpBlock)
                  then refuse (rpc_error id (-32002) ("blocked: raw secret in tool arguments ("
                                                      +:+ summary findings +:+ ")"))
                  else mret findings
           end
       end.

(** [secrets] are the spans the secret scan found: they win over a personal-data span. *)
Definition spare (secrets pii : list Finding) : list Finding :=
  filter (λ p, existsb (λ f, spans_overlap f p) secrets = false) pii.

(* @src mcpbroker.rs 307-344 process *)
Definition pii_gate (id req : Value) (secrets : list Finding) : B Value :=
  if bool_decide (b_dlp_pii st = DlpOff) then mret req
  else match get "params" req with
       | None => mret req
       | Some params =>
           let text := l_to_string lib params in
           match pii_in text with
           | [] => mret req
           | found =>
               match b_dlp_pii st with
               | DlpBlock => refuse (rpc_error id (-32006) ("blocked: pii in tool arguments ("
                                                           +:+ pii_summary found +:+ ")"))
               | DlpMask =>
                   match spare secrets found with
                   | [] => mret req
                   | to_redact => match l_from_str lib (redact text to_redact) with
                                  | Ok redacted => mret (set_params redacted req)
                                  | Err _ => mret req
                                  end
                   end
               | DlpShadow | DlpOff => mret req
               end
           end
       end.

(* @src mcpbroker.rs 362-383 process *)
Definition decide_context (ctx : CallContext) (aid tool : string) : DecideContext :=
  mkDecideContext aid ("mcp:" +:+ aid) (cc_on_behalf_of ctx)
    (if bool_decide (tool = "") then [] else [tool]) 0 [] "" (f64_of_Z 0)
    (cc_attestation_method ctx) (cc_approval_token ctx).

(** The name of the called tool. *)
Definition tool_name (req : Value) : string := default "" (get "params" req ≫= get_str "name").

(** The hook's decision, after what the other calls did to its cache. *)
Definition decided (dctx : DecideContext) (w : Wardryx) : Wardryx * WardryxOutcome :=
  let w := mkWardryx (wx_mode w) (failmode w) (has_client w) (ttl w) (crowd net (entries w)) in
  let '(asked, answered, answer) := o_pdp net dctx in
  Wardryx.decide (l_tools_hash lib) w dctx asked answered answer.
Definition ask (dctx : DecideContext) : B WardryxOutcome := λ s,
  let '(w, o) := decided dctx (hook s) in (mkBk w (shown s), Go o).

(** The verdict a shadow gate would have enforced. *)
(* @src mcpbroker.rs 353-443 process *)
Definition wardryx_gate (ctx : CallContext) (id req : Value) (url : string) : B (option string) :=
  m ← mode;
  if bool_decide (m = WxOff) then mret None
  else match cc_agent_id ctx with
       | None => mret None
       | Some aid =>
           let tool := tool_name req in
           o ← ask (decide_context ctx aid tool);
           emit_tool_call (Some aid) tool url (wx_decision o) m;;
           if bool_decide (m = WxEnforce) then
             match wx_decision o with
             | WxDeny => refuse (rpc_error id (-32004) ("blocked: policy denied tool "
                           +:+ l_debug lib tool +:+ reason_suffix (wx_reason o)))
             | WxHold => refuse (rpc_error id (-32004) ("blocked: tool " +:+ l_debug lib tool
                           +:+ " requires approval"
                           +:+ default "" ((λ a, " (approval " +:+ a +:+ ")") <$> approval_id o)))
             | WxAllow => mret None
             end
           else mret (Some (WardryxDecision.as_wire_str (wx_decision o)))
       end.

(* @src mcpbroker.rs 445-453 process *)
Definition inject (req : Value) : Value :=
  match get "params" req with
  | Some params => set_params (inject_secrets params (vault st)).1 req
  | None => req
  end.

(** The gates of a [tools/call], and the request they leave. *)
(* @src mcpbroker.rs 272-454 process *)
Definition broker_call (ctx : CallContext) (id req : Value) (url : string)
  : B (Value * option string) :=
  secrets ← secret_gate id req;
  req ← pii_gate id req secrets;
  shadow ← wardryx_gate ctx id req url;
  mret (inject req, shadow).

(** Printing a [Value] does not fail, so there is no encode error. *)
(* @src mcpbroker.rs 456-481 process *)
Definition forward (id : Value) (url : string) (req : Value) : B Value :=
  let payload := l_to_string lib req in
  show (Forwarded url payload);;
  match post net url payload with
  | Failed e => refuse (rpc_error id (-32000) ("upstream error: " +:+ e))
  | Unread e => refuse (rpc_error id (-32000) ("upstream read: " +:+ e))
  | Received bytes =>
      match l_from_str lib bytes with
      | Ok out => mret out
      | Err e => refuse (rpc_error id (-32000) ("bad upstream json: " +:+ e))
      end
  end.

Definition changed_tool (d : Drift) : option string :=
  match d with Changed n => Some n | _ => None end.

(** The pinned tools whose definition changed. *)
Definition rug_pulled (tools : list McpTool) : list string :=
  match lock st with Some l => omap changed_tool (diff tools l) | None => [] end.

(* @src mcpbroker.rs 487-518 process *)
Definition drift_gate (agent : option string) (id : Value) (tools : list McpTool) : B unit :=
  match rug_pulled tools with
  | [] => mret tt
  | changed =>
      emit McpDrift agent (Obj [("tools_changed", Arr (Str <$> changed))]);;
      if bool_decide (scan_mode st = ScanBlock)
      then refuse (rpc_error id (-32003) ("blocked: tool definition changed (rug-pull): "
                                          +:+ join ", " changed))
      else mret tt
  end.

(* @src mcpbroker.rs 484-538 process *)
Definition listing_gate (agent : option string) (id out : Value) : B Value :=
  let tools := tools_of out in
  drift_gate agent id tools;;
  let findings := poisoned tools in
  match findings with
  | [] => mret out
  | _ =>
      let n := Z.of_nat (length findings) in
      if bool_decide (scan_mode st = ScanBlock)
      then refuse (rpc_error id (-32001) ("blocked: " +:+ pretty n
                                          +:+ " poisoned tool description(s)"))
      else mret match out with
                | Obj m => Obj (Request.obj_insert "_tokenfuse"
                                  (Obj [("mcp_findings", json_int n)]) m)
                | _ => out
                end
  end.

(* @src mcpbroker.rs 560-572 process *)
Definition pii_note (out : Value) : Value :=
  if bool_decide (b_dlp_pii st = DlpShadow) then
    match pii_in (l_to_string lib out) with
    | [] => out
    | found => annotate "dlp_pii" (Str ("found " +:+ pii_summary found)) out
    end
  else out.

(* @src mcpbroker.rs 608-612 process *)
Definition redact_answer (out : Value) (to_redact : list Finding) : Value :=
  match to_redact with
  | [] => out
  | _ => match l_from_str lib (redact (l_to_string lib out) to_redact) with
         | Ok redacted => redacted
         | Err _ => out
         end
  end.

(* @src mcpbroker.rs 551-613 process *)
Definition response_gate (id out : Value) : B Value :=
  if bool_decide (b_dlp st = DlpOff) && bool_decide (b_dlp_pii st = DlpOff) then mret out
  else
    let out := pii_note out in
    let text := l_to_string lib out in
    let secrets := if bool_decide (b_dlp st = DlpOff) then [] else secrets_in text in
    let pii := if bool_decide (b_dlp_pii st = DlpBlock) || bool_decide (b_dlp_pii st = DlpMask)
               then pii_in text else [] in
    if bool_decide (b_dlp_pii st = DlpBlock) && negb (bool_decide (pii = []))
    then refuse (rpc_error id (-32006) ("blocked: pii in tool response ("
                                        +:+ pii_summary pii +:+ ")"))
    else mret (redact_answer out (secrets ++ spare secrets pii)).

(** The request's id, and its method ([""] when it has none). *)
Definition id_of (req : Value) : Value := default Null (get "id" req).
Definition method_of (req : Value) : string := default "" (get_str "method" req).

(* @src mcpbroker.rs process *)
Definition process_body (ctx : CallContext) (req : Value) : B Value :=
  let id := id_of req in
  let method := method_of req in
  match resolve_upstream ctx id with
  | Err e => refuse e
  | Ok url =>
      '(req, shadow) ← (if bool_decide (method = "tools/call") then broker_call ctx id req url
                        else mret (req, None));
      out ← forward id url req;
      out ← (if bool_decide (method = "tools/list") && negb (bool_decide (scan_mode st = ScanOff))
             then listing_gate (cc_agent_id ctx) id out else mret out);
      let out := match shadow with
                 | Some would => annotate "wardryx" (Str ("would-" +:+ would)) out
                 | None => out
                 end in
      response_gate id out
  end.

(* @src mcpbroker.rs process *)
Definition process (ctx : CallContext) (req : Value) (s : Bk) : Bk * Value :=
  match process_body ctx req s with (s, Go v) | (s, Return v) => (s, v) end.

(* @src mcpbroker.rs handle *)
Definition handle (headers : Request.HeaderMap) (req : Value) (s : Bk) : Bk * Value :=
  process (context_of headers) req s.

(** The answers to the lines of standard input, in order; a blank line has none. *)
(* @src mcpbroker.rs run_stdio *)
Fixpoint run_stdio (lines : list string) (s : Bk) : Bk * list string :=
  match lines with
  | [] => (s, [])
  | line :: lines =>
      let line := trim line in
      if bool_decide (line = "") then run_stdio lines s
      else let '(s, resp) := match l_from_str lib line with
                             | Ok req => process default_context req s
                             | Err e => (s, rpc_error Null (-32700) ("parse error: " +:+ e))
                             end in
           let '(s, out) := run_stdio lines s in
           (s, (l_to_string lib resp +:+ String NL "") :: out)
  end.
End broker.
