(* ===== verification/McpBrokerProps.v ===== *)
(** * What the MCP broker guarantees

    The theorems on the calls of [McpBroker]: what is forwarded and what is refused, the
    events, the vetted listings, the answers released to the caller, and the two ways
    past the gates (a batch, an answer that no longer parses once masked). *)

From S2P Require Import Prelude Float Strings Text Json Loops SecretBroker Mcp AgentEvent Wardryx Dlp McpBroker.
From S2P Require Request.

(** ** Reasoning about a call *)

Definition triple {A} (P : Bk → Prop) (m : B A) (Q : A → Bk → Prop) (E : Value → Bk → Prop) : Prop :=
  ∀ s, P s → match m s with (s', Go a) => Q a s' | (s', Return v) => E v s' end.

Section rules.
Context {A C : Type}.
Implicit Types (P : Bk → Prop) (E : Value → Bk → Prop).

Lemma t_ret (a : A) (Q : A → Bk → Prop) E : triple (Q a) (mret a) Q E.
Proof. by intros s. Qed.
Lemma t_refuse v (Q : A → Bk → Prop) E : triple (E v) (refuse v) Q E.
Proof. by intros s. Qed.
Lemma t_bind P (m : B A) (k : A → B C) R (Q : C → Bk → Prop) E :
  triple P m R E → (∀ a, triple (R a) (k a) Q E) → triple P (m ≫= k) Q E.
Proof.
  intros Hm Hk s Hs. specialize (Hm s Hs). unfold mbind, B_bind.
  destruct (m s) as [s' [a|v]]; [by apply Hk|done].
Qed.
Lemma t_pre P P' (m : B A) (Q : A → Bk → Prop) E :
  (∀ s, P s → P' s) → triple P' m Q E → triple P m Q E.
Proof. intros H Hm s Hs. by apply Hm, H. Qed.
Lemma t_if P (b : bool) (m n : B A) (Q : A → Bk → Prop) E :
  (b = true → triple P m Q E) → (b = false → triple P n Q E) →
  triple P (if b then m else n) Q E.
Proof. destruct b; auto. Qed.
End rules.

Lemma t_show P a (Q : unit → Bk → Prop) E :
  (∀ s, P s → Q tt (mkBk (hook s) (shown s ++ [a]))) → triple P (show a) Q E.
Proof. intros H s Hs. by apply H. Qed.

(** Run the steps at the head of a call. *)
Ltac run := unfold mbind, B_bind, mret, B_ret; cbn.

(** A refusal: a JSON-RPC error with the request's id. *)
Definition refusal (id v : Value) : Prop := ∃ code message, v = rpc_error id code message.

Lemma refusal_error id code message : refusal id (rpc_error id code message).
Proof. by exists code, message. Qed.

Definition payloads (l : list Shown) : list (string * string) :=
  omap (λ a, match a with Forwarded url p => Some (url, p) | _ => None end) l.
Definition events_of (t : EventType) (l : list Shown) : list (option string * Value) :=
  omap (λ a, match a with
             | Event x _ agent data => if bool_decide (x = t) then Some (agent, data) else None
             | _ => None
             end) l.

Lemma payloads_app l k : payloads (l ++ k) = payloads l ++ payloads k.
Proof. apply omap_app. Qed.
Lemma events_app t l k : events_of t (l ++ k) = events_of t l ++ events_of t k.
Proof. apply omap_app. Qed.

Section correct.
Context (lib : BrokerLib) (st : BrokerState) (net : Outside).

(** The upstream a call is configured for. *)
Definition chosen (ctx : CallContext) (url : string) : Prop :=
  match cc_upstream ctx with
  | None => url = upstream st
  | Some name => named_upstreams st !! name = Some url
  end.

(** What the gates found of the parameters they let through. *)
Definition vetted (req : Value) : Prop :=
  ∀ params, get "params" req = Some params →
    (b_dlp st = DlpBlock → secrets_in lib (l_to_string lib params) = []) ∧
    (b_dlp_pii st = DlpBlock → pii_in lib (l_to_string lib params) = []).

(** The request with its personal data masked, when that is the mode. *)
Definition masked_request (req : Value) : Value :=
  match get "params" req with
  | Some params =>
      let text := l_to_string lib params in
      let secrets := if bool_decide (b_dlp st = DlpOff) then [] else secrets_in lib text in
      if bool_decide (b_dlp_pii st = DlpMask) then
        match spare secrets (pii_in lib text) with
        | [] => req
        | to_redact => match l_from_str lib (redact text to_redact) with
                       | Ok redacted => set_params redacted req
                       | Err _ => req
                       end
        end
      else req
  | None => req
  end.

(** The event of a gated call. *)
Definition audit (ctx : CallContext) (req : Value) (url : string) (w : Wardryx) : list Shown :=
  if bool_decide (wx_mode w = WxOff) then []
  else match cc_agent_id ctx with
       | None => []
       | Some aid =>
           let tool := tool_name req in
           [Event ToolCall (millis net) (Some aid)
              (tool_call_data tool url
                 (wx_decision (decided lib net (decide_context ctx aid tool) w).2) (wx_mode w))]
       end.

(** The hook lets the call through: it does not enforce, it cannot tell whose call it is, or
    the decision is to allow it. *)
Definition allowed (ctx : CallContext) (req : Value) (w : Wardryx) : Prop :=
  ∀ aid, wx_mode w = WxEnforce → cc_agent_id ctx = Some aid →
    wx_decision (decided lib net (decide_context ctx aid (tool_name req)) w).2 = WxAllow.

Lemma secret_gate_spec id req w :
  triple (λ s, s = mkBk w []) (secret_gate lib st id req)
    (λ secrets s, s = mkBk w [] ∧ ∀ params, get "params" req = Some params →
       secrets = (if bool_decide (b_dlp st = DlpOff) then []
                  else secrets_in lib (l_to_string lib params)) ∧
       (b_dlp st = DlpBlock → secrets_in lib (l_to_string lib params) = []))
    (λ v s, refusal id v ∧ s = mkBk w [] ∧ ¬ vetted req).
Proof.
  unfold secret_gate. apply t_if; intros Hd; breflect.
  - intros s ->. split; [done|]. intros params _. rewrite bool_decide_true by done. split; congruence.
  - destruct (get "params" req) as [params|] eqn:Ep; [|by intros s ->].
    destruct (secrets_in lib (l_to_string lib params)) as [|f l] eqn:E.
    + intros s ->. split; [done|]. intros ? [= <-]. by rewrite bool_decide_false, E.
    + apply t_if; intros Hb; breflect; intros s ->.
      { split_and!; [apply refusal_error|done|]. intros Hv.
        destruct (Hv params Ep) as [Hv' _]. rewrite E in Hv'. naive_solver. }
      split; [done|]. intros ? [= <-]. rewrite bool_decide_false, E by done. by split.
Qed.

Lemma pii_gate_spec id req secrets w :
  (∀ params, get "params" req = Some params →
     secrets = (if bool_decide (b_dlp st = DlpOff) then []
                else secrets_in lib (l_to_string lib params))) →
  triple (λ s, s = mkBk w []) (pii_gate lib st id req secrets)
    (λ req' s, s = mkBk w [] ∧ req' = masked_request req ∧
       ∀ params, get "params" req = Some params → b_dlp_pii st = DlpBlock →
         pii_in lib (l_to_string lib params) = [])
    (λ v s, refusal id v ∧ s = mkBk w [] ∧ ¬ vetted req).
Proof.
  intros Hs. unfold pii_gate, masked_request.
  destruct (get "params" req) as [params|] eqn:Ep; cbv zeta.
  2:{ apply t_if; intros _; by intros s ->. }
  rewrite (Hs params) by done. apply t_if; intros Hd; breflect.
  - rewrite bool_decide_false by congruence. intros s ->. split_and!; [done..|congruence].
  - destruct (pii_in lib (l_to_string lib params)) as [|f l] eqn:E.
    + intros s ->. split_and!; [done|by repeat case_bool_decide|]. by intros ? [= <-].
    + destruct (b_dlp_pii st) eqn:Em; [done|..].
      * intros s ->. by split_and!.
      * rewrite (bool_decide_true (DlpMask = DlpMask)) by done.
        destruct (spare _ _); [|destruct (l_from_str _ _)]; intros s ->; by split_and!.
      * intros s ->. split_and!; [apply refusal_error|done|]. intros Hv.
        destruct (Hv params Ep) as [_ Hv']. rewrite E in Hv'. naive_solver.
Qed.

Lemma wardryx_gate_spec ctx id req url w :
  triple (λ s, s = mkBk w []) (wardryx_gate lib net ctx id req url)
    (λ shadow s, shown s = audit ctx req url w ∧ allowed ctx req w ∧
       (wx_mode w ≠ WxShadow → shadow = None))
    (λ v s, refusal id v ∧ shown s = audit ctx req url w ∧ ¬ allowed ctx req w).
Proof.
  intros s ->. unfold wardryx_gate, audit, allowed. run.
  destruct (bool_decide (wx_mode w = WxOff)) eqn:Em; breflect; cbn.
  { split_and!; congruence. }
  destruct (cc_agent_id ctx) as [aid|]; cbn; [|done].
  unfold ask. cbn [hook].
  destruct (decided lib net (decide_context ctx aid (tool_name req)) w) as [w' o] eqn:Eo. cbn.
  destruct (bool_decide (wx_mode w = WxEnforce)) eqn:En; breflect; cbn.
  2:{ split_and!; [done..|]. by destruct (wx_mode w). }
  destruct (wx_decision o) eqn:Ed; cbn.
  - split_and!; [done| |done]. intros aid' _ [= <-]. by rewrite Eo.
  - split_and!; [apply refusal_error|done|]. intros H. specialize (H aid En eq_refl).
    rewrite Eo in H. cbn in H. congruence.
  - split_and!; [apply refusal_error|done|]. intros H. specialize (H aid En eq_refl).
    rewrite Eo in H. cbn in H. congruence.
Qed.

(** A call the gates let through. *)
Definition cleared (ctx : CallContext) (req : Value) (w : Wardryx) : Prop :=
  vetted req ∧ allowed ctx (masked_request req) w.

Lemma broker_call_spec ctx id req url w :
  triple (λ s, s = mkBk w []) (broker_call lib st net ctx id req url)
    (λ '(req', shadow) s, req' = inject st (masked_request req) ∧ cleared ctx req w ∧
       shown s = audit ctx (masked_request req) url w ∧
       (wx_mode w ≠ WxShadow → shadow = None))
    (λ v s, refusal id v ∧ ¬ cleared ctx req w ∧
       (¬ vetted req ∧ shown s = [] ∨ vetted req ∧ shown s = audit ctx (masked_request req) url w)).
Proof.
  unfold broker_call, cleared. intros s ->.
  pose proof (secret_gate_spec id req w _ eq_refl) as H1. unfold mbind, B_bind.
  destruct (secret_gate lib st id req _) as [s1 [secrets|v]].
  2:{ destruct H1 as (Hr & -> & Hv). split_and!; [done| |by left]. by intros [? _]. }
  destruct H1 as [-> H1].
  pose proof (pii_gate_spec id req secrets w (λ p Hp, proj1 (H1 p Hp)) _ eq_refl) as H2.
  destruct (pii_gate lib st id req secrets _) as [s2 [req'|v]].
  2:{ destruct H2 as (Hr & -> & Hv). split_and!; [done| |by left]. by intros [? _]. }
  destruct H2 as (-> & -> & H2).
  assert (vetted req) as Hv by (intros p Hp; split; [apply (H1 p Hp)|by apply H2]).
  pose proof (wardryx_gate_spec ctx id (masked_request req) url w _ eq_refl) as H3.
  destruct (wardryx_gate lib net ctx id _ url _) as [s3 [shadow|v]].
  - by destruct H3 as (H3 & H4 & H5).
  - destruct H3 as (Hr & H3 & H4). split_and!; [done|by intros [_ ?]|by right].
Qed.

Lemma forward_spec l id url req :
  triple (λ s, shown s = l) (forward lib net id url req)
    (λ out s, shown s = l ++ [Forwarded url (l_to_string lib req)] ∧
       ∃ bytes, post net url (l_to_string lib req) = Received bytes ∧ l_from_str lib bytes = Ok out)
    (λ v s, shown s = l ++ [Forwarded url (l_to_string lib req)] ∧ refusal id v).
Proof.
  intros s <-. unfold forward. run. destruct (post net url _) as [e|e|bytes] eqn:E; cbn.
  1-2: split; [done|apply refusal_error].
  destruct (l_from_str lib bytes) eqn:Eo; cbn; [eauto|]. split; [done|apply refusal_error].
Qed.

(** The event of a listing in which pinned tools changed. *)
Definition drift_event (agent : option string) (out : Value) : list Shown :=
  match rug_pulled st (tools_of lib out) with
  | [] => []
  | changed => [Event McpDrift (millis net) agent (Obj [("tools_changed", Arr (Str <$> changed))])]
  end.

(** A listing the scan has nothing against. *)
Definition wholesome (out : Value) : Prop :=
  rug_pulled st (tools_of lib out) = [] ∧ poisoned lib (tools_of lib out) = [].

Lemma listing_gate_spec l agent id out :
  triple (λ s, shown s = l) (listing_gate lib st net agent id out)
    (λ out' s, shown s = l ++ drift_event agent out ∧
       (wholesome out → out' = out) ∧ (scan_mode st = ScanBlock → wholesome out))
    (λ v s, shown s = l ++ drift_event agent out ∧ refusal id v).
Proof.
  intros s <-. unfold listing_gate, drift_gate, drift_event, wholesome.
  destruct (rug_pulled st (tools_of lib out)) as [|c changed]; run.
  - rewrite app_nil_r. destruct (poisoned lib (tools_of lib out)) as [|f found]; [done|].
    destruct (bool_decide (scan_mode st = ScanBlock)) eqn:E; breflect; cbn.
    + split; [done|apply refusal_error].
    + split_and!; [done|naive_solver|done].
  - destruct (bool_decide (scan_mode st = ScanBlock)) eqn:E; breflect; cbn.
    + split; [done|apply refusal_error].
    + destruct (poisoned lib (tools_of lib out)); cbn; split_and!; naive_solver.
Qed.

(** What is masked in an answer. *)
Definition to_redact (text : string) : list Finding :=
  let secrets := if bool_decide (b_dlp st = DlpOff) then [] else secrets_in lib text in
  secrets ++ (if bool_decide (b_dlp_pii st = DlpMask) then spare secrets (pii_in lib text) else []).

(** What the caller is given of an answer: the answer itself when nothing is to be masked, the
    masked answer, or, when the masked text is no longer JSON, the answer itself. *)
Definition released (out resp : Value) : Prop :=
  let text := l_to_string lib out in
  (b_dlp_pii st = DlpBlock → pii_in lib text = []) ∧
  (l_from_str lib (redact text (to_redact text)) = Ok resp ∧ to_redact text ≠ [] ∨
   resp = out ∧
   (to_redact text = [] ∨ ∃ e, l_from_str lib (redact text (to_redact text)) = Err e)).

Lemma redact_answer_cases out found : let text := l_to_string lib out in
  l_from_str lib (redact text found) = Ok (redact_answer lib out found) ∧ found ≠ [] ∨
  redact_answer lib out found = out ∧
  (found = [] ∨ ∃ e, l_from_str lib (redact text found) = Err e).
Proof.
  unfold redact_answer. destruct found as [|f found]; [auto|].
  destruct (l_from_str lib (redact _ (f :: found))) eqn:E; [by left|]. right. eauto.
Qed.

Lemma response_gate_spec l id out :
  triple (λ s, shown s = l) (response_gate lib st id out)
    (λ resp s, shown s = l ∧ released (pii_note lib st out) resp)
    (λ v s, shown s = l ∧ refusal id v).
Proof.
  intros s <-. unfold response_gate, released, to_redact. cbv zeta.
  destruct (bool_decide (b_dlp st = DlpOff) && bool_decide (b_dlp_pii st = DlpOff)) eqn:E.
  { apply andb_true_iff in E as [E1 E2]. breflect. unfold pii_note. rewrite E1, E2.
    split; [done|]. split; [done|]. right. by split; [|left]. }
  clear E. set (secrets := if bool_decide (b_dlp st = DlpOff) then [] else _). clearbody secrets.
  destruct (b_dlp_pii st) eqn:Ep.
  - split; [done|]. split; [done|]. apply redact_answer_cases.
  - split; [done|]. split; [done|]. apply redact_answer_cases.
  - split; [done|]. split; [done|]. apply redact_answer_cases.
  - change (bool_decide (DlpBlock = DlpBlock)) with true. cbn [andb orb].
    destruct (pii_in lib _) as [|f found]; [|by split; [|apply refusal_error]].
    split; [done|]. split; [done|]. apply redact_answer_cases.
Qed.
Definition is_call (req : Value) : bool := bool_decide (method_of req = "tools/call").
Definition is_listing (req : Value) : bool := bool_decide (method_of req = "tools/list").

(** What is sent for a request. *)
Definition sent (req : Value) : Value :=
  if is_call req then inject st (masked_request req) else req.

(** What a forwarded request shows, up to its payload. *)
Definition prologue (ctx : CallContext) (req : Value) (url : string) (w : Wardryx) : list Shown :=
  (if is_call req then audit ctx (masked_request req) url w else [])
  ++ [Forwarded url (l_to_string lib (sent req))].

(** A request that is not forwarded. *)
Definition stopped (ctx : CallContext) (req : Value) (w : Wardryx) (resp : Value) (l : list Shown)
  : Prop :=
  refusal (id_of req) resp ∧
  ((∀ url, ¬ chosen ctx url) ∧ l = [] ∨
   ∃ url, chosen ctx url ∧ is_call req = true ∧ ¬ cleared ctx req w ∧
     (¬ vetted req ∧ l = [] ∨ vetted req ∧ l = audit ctx (masked_request req) url w)).

(** A request that is. *)
Definition brokered (ctx : CallContext) (req : Value) (w : Wardryx) (resp : Value) (l : list Shown)
  : Prop :=
  ∃ url, chosen ctx url ∧ (is_call req = true → cleared ctx req w) ∧
  (refusal (id_of req) resp ∧ l = prologue ctx req url w ∨
   ∃ bytes out, post net url (l_to_string lib (sent req)) = Received bytes ∧
     l_from_str lib bytes = Ok out ∧
     l = prologue ctx req url w
         ++ (if is_listing req && negb (bool_decide (scan_mode st = ScanOff))
             then drift_event (cc_agent_id ctx) out else []) ∧
     (refusal (id_of req) resp ∨
      (is_listing req = true → scan_mode st = ScanBlock → wholesome out) ∧
      ∃ out', released (pii_note lib st out') resp ∧
        ((is_listing req = true → scan_mode st ≠ ScanOff → wholesome out) →
         (is_call req = true → wx_mode w ≠ WxShadow) → out' = out))).

Lemma resolve_chosen ctx id :
  match resolve_upstream lib st ctx id with
  | Ok url => chosen ctx url
  | Err v => refusal id v ∧ ∀ url, ¬ chosen ctx url
  end.
Proof.
  unfold resolve_upstream, chosen. destruct (cc_upstream ctx) as [name|]; [|done].
  destruct (named_upstreams st !! name); [done|]. by split; [apply refusal_error|].
Qed.

(** The first part of a call. *)
Definition gated (ctx : CallContext) (req : Value) (url : string) : B (Value * option string) :=
  if is_call req then broker_call lib st net ctx (id_of req) req url else mret (req, None).

Lemma gated_spec ctx req url w :
  chosen ctx url →
  triple (λ s, s = mkBk w []) (gated ctx req url)
    (λ '(req', shadow) s, req' = sent req ∧ (is_call req = true → cleared ctx req w) ∧
       shown s = (if is_call req then audit ctx (masked_request req) url w else []) ∧
       ((is_call req = true → wx_mode w ≠ WxShadow) → shadow = None))
    (λ v s, stopped ctx req w v (shown s)).
Proof.
  intros Hu s ->. unfold gated, sent, stopped. destruct (is_call req) eqn:Ec; [|done].
  pose proof (broker_call_spec ctx (id_of req) req url w _ eq_refl) as H.
  destruct (broker_call _ _ _ _ _ _ _ _) as [s [[req' shadow]|v]].
  - destruct H as (H1 & H2 & H3 & H4). split_and!; auto.
  - destruct H as (H1 & H2 & H3). split; [done|]. right. exists url. by split_and!.
Qed.

(** The last part, from the upstream's answer on. *)
Definition finished (ctx : CallContext) (req out : Value) (shadow : option string) : B Value :=
  out ← (if is_listing req && negb (bool_decide (scan_mode st = ScanOff))
         then listing_gate lib st net (cc_agent_id ctx) (id_of req) out else mret out);
  response_gate lib st (id_of req)
    match shadow with
    | Some would => annotate "wardryx" (Str ("would-" +:+ would)) out
    | None => out
    end.

Lemma finished_spec l ctx req out shadow :
  let l' := l ++ (if is_listing req && negb (bool_decide (scan_mode st = ScanOff))
                  then drift_event (cc_agent_id ctx) out else []) in
  triple (λ s, shown s = l) (finished ctx req out shadow)
    (λ resp s, shown s = l' ∧ (is_listing req = true → scan_mode st = ScanBlock → wholesome out) ∧
       ∃ out', released (pii_note lib st out') resp ∧
         ((is_listing req = true → scan_mode st ≠ ScanOff → wholesome out) →
          shadow = None → out' = out))
    (λ v s, shown s = l' ∧ refusal (id_of req) v).
Proof.
  intros l'. apply t_bind with (R := λ out' s, shown s = l' ∧
      (is_listing req = true → scan_mode st = ScanBlock → wholesome out) ∧
      ((is_listing req = true → scan_mode st ≠ ScanOff → wholesome out) → out' = out)).
  - unfold l'. destruct (is_listing req) eqn:El; cbn [andb].
    2:{ intros s <-. by rewrite app_nil_r. }
    destruct (bool_decide (scan_mode st = ScanOff)) eqn:Es; cbn [negb]; breflect.
    { intros s <-. rewrite app_nil_r. split_and!; [done|congruence|done]. }
    intros s Hs. pose proof (listing_gate_spec l (cc_agent_id ctx) (id_of req) out s Hs) as H.
    destruct (listing_gate _ _ _ _ _ _ _) as [s' [out'|v]]; [|done].
    destruct H as (H1 & H2 & H3). split_and!; auto.
  - intros out' s (Hs & Hb & Ho).
    pose proof (response_gate_spec l' (id_of req)
                  match shadow with
                  | Some would => annotate "wardryx" (Str ("would-" +:+ would)) out'
                  | None => out'
                  end s Hs) as H.
    destruct (response_gate _ _ _ _ _) as [s' [resp|v]]; [|done].
    destruct H as [H1 H2]. split_and!; [done|done|]. eexists. split; [exact H2|].
    intros Hw ->. by apply Ho.
Qed.

Lemma process_body_parts ctx req :
  process_body lib st net ctx req =
  match resolve_upstream lib st ctx (id_of req) with
  | Err e => refuse e
  | Ok url => '(req', shadow) ← gated ctx req url;
              out ← forward lib net (id_of req) url req';
              finished ctx req out shadow
  end.
Proof. done. Qed.

Lemma process_cases ctx req w :
  let '(s, resp) := process lib st net ctx req (mkBk w []) in
  stopped ctx req w resp (shown s) ∨ brokered ctx req w resp (shown s).
Proof.
  set (Q := λ resp s, stopped ctx req w resp (shown s) ∨ brokered ctx req w resp (shown s)).
  assert (triple (λ s, s = mkBk w []) (process_body lib st net ctx req) Q Q) as H.
  2:{ specialize (H _ eq_refl). unfold process. by destruct (process_body _ _ _ _ _ _) as [? []]. }
  rewrite process_body_parts. pose proof (resolve_chosen ctx (id_of req)) as Hu.
  destruct (resolve_upstream lib st ctx (id_of req)) as [url|v].
  2:{ intros s ->. left. destruct Hu. split; [done|by left]. }
  intros s Hs0. pose proof (gated_spec ctx req url w Hu s Hs0) as H1. unfold mbind, B_bind.
  destruct (gated ctx req url s) as [s1 [[req' shadow]|v]]; [|by left].
  destruct H1 as (-> & Hc & H1 & Hs).
  assert (prologue ctx req url w = shown s1 ++ [Forwarded url (l_to_string lib (sent req))]) as Hp
    by (unfold prologue; by rewrite H1).
  pose proof (forward_spec (shown s1) (id_of req) url (sent req) s1 eq_refl) as H2.
  destruct (forward lib net (id_of req) url (sent req) s1) as [s2 [out|v]].
  2:{ destruct H2 as [H2 Hr]. right. exists url. do 2 (split; [done|]). left. by rewrite Hp. }
  destruct H2 as (H2 & bytes & Hb & Ho).
  pose proof (finished_spec _ ctx req out shadow s2 H2) as H3. cbv zeta in H3. rewrite <- Hp in H3.
  destruct (finished ctx req out shadow s2) as [s3 [resp|v]]; right; exists url;
    do 2 (split; [done|]); right; exists bytes, out; do 2 (split; [done|]).
  - destruct H3 as (H3 & H4 & out' & H5 & H6). split; [done|]. right. split; [done|].
    exists out'. split; [done|]. intros Hw Hsh. by apply H6, Hs.
  - destruct H3 as [H3 Hr]. split; [done|]. by left.
Qed.
Lemma call_not_listing req : is_listing req = true → is_call req = false.
Proof. unfold is_listing, is_call. intros H. breflect. by rewrite H. Qed.

Lemma prologue_payloads ctx req url w :
  payloads (prologue ctx req url w) = [(url, l_to_string lib (sent req))].
Proof.
  unfold prologue, audit. rewrite payloads_app. destruct (is_call req); [|done].
  destruct (bool_decide _); [done|]. by destruct (cc_agent_id ctx).
Qed.

Lemma drift_payloads agent out : payloads (drift_event agent out) = [].
Proof. unfold drift_event. by destruct (rug_pulled st _). Qed.

Lemma audit_payloads ctx req url w : payloads (audit ctx req url w) = [].
Proof. unfold audit. destruct (bool_decide _); [done|]. by destruct (cc_agent_id ctx). Qed.

Lemma brokered_payloads ctx req w resp l :
  brokered ctx req w resp l →
  ∃ url, chosen ctx url ∧ (is_call req = true → cleared ctx req w) ∧
    payloads l = [(url, l_to_string lib (sent req))].
Proof.
  intros (url & Hu & Hc & H). exists url. do 2 (split; [done|]).
  destruct H as [[_ ->]|(bytes & out & _ & _ & -> & _)]; [apply prologue_payloads|].
  rewrite payloads_app, prologue_payloads. by case_match; rewrite ?drift_payloads.
Qed.

Lemma brokered_tool_events ctx req w resp l url :
  chosen ctx url → brokered ctx req w resp l → is_call req = true →
  events_of ToolCall l = events_of ToolCall (audit ctx (masked_request req) url w).
Proof.
  intros Hu (url' & Hu' & _ & H) Hc.
  assert (url' = url) as -> by (unfold chosen in *; destruct (cc_upstream ctx); congruence).
  assert (events_of ToolCall (prologue ctx req url w)
          = events_of ToolCall (audit ctx (masked_request req) url w)) as Hp
    by (unfold prologue; rewrite Hc, events_app; apply app_nil_r).
  assert (is_listing req = false) as Hl
    by (destruct (is_listing req) eqn:E; [|done]; by rewrite call_not_listing in Hc).
  destruct H as [[_ ->]|(bytes & out & _ & _ & -> & _)]; [done|]. by rewrite Hl, app_nil_r.
Qed.

(** No agent id, no question to the hook. *)
Lemma anonymous_not_asked ctx req w :
  is_call req = true → cc_agent_id ctx = None →
  events_of ToolCall (shown (process lib st net ctx req (mkBk w [])).1) = [].
Proof.
  intros Hc Ha. assert (∀ url, audit ctx (masked_request req) url w = []) as Hno
    by (intros url; unfold audit; rewrite Ha; by case_match).
  pose proof (process_cases ctx req w) as H. destruct (process lib st net ctx req _) as [s resp].
  cbn [fst]. destruct H as [[_ [[_ ->]|(url & _ & _ & _ & [[_ ->]|[_ ->]])]]|H]; [done..| |].
  - by rewrite Hno.
  - pose proof H as (url & Hu & _). by rewrite (brokered_tool_events _ _ _ _ _ url Hu H Hc), Hno.
Qed.

(** C28: The broker forwards what it cleared and nothing else.  A request is posted at most
    once, to the upstream configured for the name it gives (or the default).  A single
    [tools/call] is posted only when its raw parameters hold nothing a blocking scan objects
    to and, when the call names its agent, an enforcing policy hook allows the tool to that
    agent, asked before any secret is put in; secrets are put into such a call alone.  A
    request that is not posted is answered by a refusal with its id.  Two kinds of traffic
    are outside of that: a call without an agent id (over standard input, or without
    [X-Fuse-Agent-Id]) is never put to the hook, whatever its mode; and a JSON-RPC batch is
    no [tools/call] to the broker, so what is in it is posted as it came, past the scans and
    the hook. *)
Theorem mcp_forwards_cleared ctx req w :
  let '(s, resp) := process lib st net ctx req (mkBk w []) in
  (match payloads (shown s) with
   | [] => refusal (id_of req) resp ∧
           ¬ ((∃ url, chosen ctx url) ∧ (is_call req = true → cleared ctx req w))
   | [(url, payload)] =>
       chosen ctx url ∧ payload = l_to_string lib (sent req) ∧
       (is_call req = true → vetted req ∧
          ∀ aid, cc_agent_id ctx = Some aid → wx_mode w = WxEnforce →
            wx_decision (decided lib net
              (decide_context ctx aid (tool_name (masked_request req))) w).2 = WxAllow)
   | _ => False
   end) ∧
  (is_call req = true → cc_agent_id ctx = None → events_of ToolCall (shown s) = []) ∧
  (∀ batch url, req = Arr batch → chosen ctx url →
     payloads (shown s) = [(url, l_to_string lib (Arr batch))]).
Proof.
  pose proof (process_cases ctx req w) as H. pose proof (anonymous_not_asked ctx req w) as Hanon.
  destruct (process lib st net ctx req _) as [s resp]. cbn [fst] in Hanon.
  split_and!; [|done|].
  - destruct H as [[Hr H]|H].
    + assert (payloads (shown s) = []) as ->.
      { destruct H as [[_ ->]|(url & _ & _ & _ & [[_ ->]|[_ ->]])]; auto using audit_payloads. }
      split; [done|]. intros [[url Hu] Hc].
      destruct H as [[Hn _]|(? & _ & Hcall & Hn & _)]; [by apply (Hn url)|auto].
    + apply brokered_payloads in H as (url & Hu & Hc & ->). do 2 (split; [done|]).
      intros Hcall. destruct (Hc Hcall) as [Hv Ha]. split; [done|]. intros aid H1 H2. by apply Ha.
  - intros batch url -> Hu. destruct H as [[_ [[Hn _]|(? & _ & Hc & _)]]|H]; [by destruct (Hn url)|done|].
    apply brokered_payloads in H as (url' & Hu' & _ & ->).
    by assert (url' = url) as -> by (unfold chosen in *; destruct (cc_upstream ctx); congruence).
Qed.

(** A listing that a blocking scan lets through is clean. The caller of [tools/list] either
    gets a refusal, or an answer made from an upstream listing in which no pinned tool's
    definition changed and no description looks poisoned. *)
Theorem mcp_listing_vetted ctx req w :
  is_listing req = true → scan_mode st = ScanBlock →
  let '(s, resp) := process lib st net ctx req (mkBk w []) in
  refusal (id_of req) resp ∨
  ∃ url bytes out, chosen ctx url ∧ post net url (l_to_string lib req) = Received bytes ∧
    l_from_str lib bytes = Ok out ∧ wholesome out ∧ released (pii_note lib st out) resp.
Proof.
  intros Hl Hs. pose proof (process_cases ctx req w) as H. pose proof (call_not_listing req Hl) as Hc.
  destruct (process lib st net ctx req _) as [s resp].
  destruct H as [[Hr _]|(url & Hu & _ & H)]; [by left|].
  destruct H as [[Hr _]|(bytes & out & Hp & Ho & _ & H)]; [by left|].
  destruct H as [Hr|(Hw & out' & H & He)]; [by left|]. right. exists url, bytes, out.
  unfold sent in Hp. rewrite Hc in Hp. specialize (Hw Hl Hs). split_and!; try done.
  rewrite <- He; [done|done|congruence].
Qed.

(** A gate that is off: nothing is scanned, asked or put in. *)
Definition unconfigured (w : Wardryx) : Prop :=
  b_dlp st = DlpOff ∧ b_dlp_pii st = DlpOff ∧ scan_mode st = ScanOff ∧ vault st = ∅ ∧
  wx_mode w = WxOff.

(** An object as [serde_json] keeps it: members by increasing key. *)
Definition ordered (req : Value) : Prop :=
  match req with Obj m => StronglySorted (λ a b, str_leb b a = false) (fst <$> m) | _ => True end.

Lemma insert_same k v m :
  StronglySorted (λ a b, str_leb b a = false) (fst <$> m) → assoc k m = Some v →
  Request.obj_insert k v m = m.
Proof.
  induction m as [|[k' v'] m IH]; [done|]. cbn. intros Hs Ha. apply StronglySorted_inv in Hs as [Hs Hf].
  unfold assoc in Ha. cbn in Ha.
  destruct (bool_decide (k' = k)) eqn:E; breflect.
  - simplify_eq/=. by rewrite bool_decide_true.
  - rewrite bool_decide_false by done. fold (assoc k m) in Ha.
    rewrite IH by done. destruct (str_leb k k') eqn:El; [|done].
    rewrite Forall_forall in Hf. rewrite Hf in El; [done|].
    clear -Ha. unfold assoc in Ha. apply fmap_Some in Ha as ([k'' ?] & Hf%find_some & ->).
  destruct Hf as [Hf Hk]. breflect. cbn in Hk. subst. apply list_elem_of_In, in_map_iff.
  by exists (k, v0).
Qed.

Lemma chosen_resolves ctx id url : chosen ctx url → resolve_upstream lib st ctx id = Ok url.
Proof.
  unfold chosen, resolve_upstream. destruct (cc_upstream ctx) as [name|]; [|by intros ->].
  by intros ->.
Qed.

Lemma set_same req params : ordered req → get "params" req = Some params → set_params params req = req.
Proof. destruct req; try done. cbn. intros Ho Hg. by rewrite insert_same. Qed.

Lemma inject_nothing req : vault st = ∅ → ordered req → inject st req = req.
Proof.
  intros Hv Ho. unfold inject, inject_secrets. rewrite Hv.
  destruct (get "params" req) as [params|] eqn:E; [|done].
  rewrite (proj2 (inject_preserves params ∅ no_injection)). by apply set_same.
Qed.

(** A broker with nothing switched on is invisible: the upstream is posted the request as it
    came, once, and the caller is given the upstream's answer as it came. *)
Theorem mcp_transparent ctx req w url bytes out :
  unconfigured w → ordered req → chosen ctx url →
  post net url (l_to_string lib req) = Received bytes → l_from_str lib bytes = Ok out →
  let '(s, resp) := process lib st net ctx req (mkBk w []) in
  shown s = [Forwarded url (l_to_string lib req)] ∧ resp = out ∧ hook s = w.
Proof.
  intros (H1 & H2 & H3 & H4 & H5) Ho Hu Hp Hb.
  unfold process. rewrite process_body_parts, (chosen_resolves ctx _ url Hu).
  assert (gated ctx req url (mkBk w []) = (mkBk w [], Go (req, None))) as Hg.
  { unfold gated. destruct (is_call req); [|done].
    unfold broker_call, secret_gate, pii_gate, wardryx_gate, mode, mbind, B_bind. rewrite H1, H2.
    change (bool_decide (DlpOff = DlpOff)) with true. unfold mret, B_ret. cbv beta iota.
    cbn [hook]. rewrite H5. change (bool_decide (WxOff = WxOff)) with true. cbv beta iota.
    by rewrite inject_nothing. }
  unfold mbind, B_bind at 1. rewrite Hg. unfold forward, show, mbind, B_bind. rewrite Hp, Hb.
  unfold mret, B_ret, finished, response_gate. rewrite H1, H2, H3.
  change (bool_decide (ScanOff = ScanOff)) with true. cbn [negb]. rewrite andb_false_r. done.
Qed.

(** A batch is not a call: none of the gates sees what is in it. *)
Lemma batch_skips_gates ctx l w url :
  chosen ctx url →
  shown (process lib st net ctx (Arr l) (mkBk w [])).1 = [Forwarded url (l_to_string lib (Arr l))].
Proof.
  intros Hu. pose proof (process_cases ctx (Arr l) w) as H.
  destruct (process lib st net ctx (Arr l) _) as [s resp]. cbn [fst].
  destruct H as [[_ [[Hn _]|(? & _ & Hc & _)]]|(url' & Hu' & _ & H)]; [by destruct (Hn url)|done|].
  assert (url' = url) as ->.
  { unfold chosen in *. destruct (cc_upstream ctx); congruence. }
  by destruct H as [[_ ->]|(bytes & out & _ & _ & -> & _)].
Qed.

(** When the masked answer is no longer JSON, the caller is given the answer unmasked. *)
Lemma unparsed_redaction_released id out e l :
  b_dlp st ≠ DlpOff → b_dlp_pii st = DlpOff →
  secrets_in lib (l_to_string lib out) = l → l ≠ [] →
  l_from_str lib (redact (l_to_string lib out) l) = Err e →
  ∀ s, response_gate lib st id out s = (s, Go out).
Proof.
  intros H1 H2 H3 Hl He s. unfold response_gate, pii_note. rewrite H2.
  rewrite (bool_decide_false (b_dlp st = DlpOff)) by done. cbv zeta.
  change (bool_decide (DlpOff = DlpBlock)) with false. cbn [andb orb].
  change (bool_decide (DlpOff = DlpShadow)) with false. cbv beta iota. rewrite H3.
  change (bool_decide (DlpOff = DlpMask)) with false. unfold spare. cbv beta iota.
  rewrite app_nil_r. unfold redact_answer. rewrite He. by destruct l.
Qed.
(** Every call put to the policy hook leaves one event, the refused ones too. It names the
    agent, the tool as it would be called, the upstream and the decision, marked as hypothetical
    exactly in shadow mode; and the call is forwarded exactly when the hook is not enforcing or
    the decision is to allow. *)
Theorem mcp_calls_audited ctx req w aid url :
  is_call req = true → wx_mode w ≠ WxOff → cc_agent_id ctx = Some aid →
  chosen ctx url → vetted req →
  let s := (process lib st net ctx req (mkBk w [])).1 in
  let tool := tool_name (masked_request req) in
  let d := wx_decision (decided lib net (decide_context ctx aid tool) w).2 in
  events_of ToolCall (shown s) = [(Some aid, tool_call_data tool url d (wx_mode w))] ∧
  (payloads (shown s) ≠ [] ↔ (wx_mode w = WxEnforce → d = WxAllow)).
Proof.
  intros Hc Hm Ha Hu Hv s tool d. unfold s.
  assert (events_of ToolCall (audit ctx (masked_request req) url w)
          = [(Some aid, tool_call_data tool url d (wx_mode w))]) as He
    by (unfold audit; rewrite bool_decide_false, Ha by done; done).
  assert (cleared ctx req w ↔ (wx_mode w = WxEnforce → d = WxAllow)) as Hcl.
  { unfold cleared, allowed. rewrite Ha. naive_solver. }
  pose proof (process_cases ctx req w) as H. destruct (process lib st net ctx req _) as [s' resp].
  cbn [fst]. destruct H as [[_ [[Hn _]|(url' & Hu' & _ & Hn & H)]]|H]; [by destruct (Hn url)|..].
  - assert (url' = url) as -> by (unfold chosen in *; destruct (cc_upstream ctx); congruence).
    destruct H as [[? _]|[_ ->]]; [done|]. rewrite audit_payloads. naive_solver.
  - pose proof (brokered_payloads _ _ _ _ _ H) as (url' & _ & Hcl' & ->).
    rewrite (brokered_tool_events _ _ _ _ _ _ Hu H Hc). naive_solver.
Qed.

(** On standard input every line that is not blank has one answer, in order. *)
Lemma run_stdio_answers lines s :
  length (run_stdio lib st net lines s).2 = length (filter (λ l, trim l ≠ "") lines).
Proof.
  revert s. induction lines as [|line lines IH]; intros s; [done|]. cbn [run_stdio].
  rewrite filter_cons. destruct (bool_decide (trim line = "")) eqn:E; breflect.
  - rewrite decide_False by auto. apply IH.
  - rewrite decide_True by done.
    destruct (match l_from_str lib (trim line) with Ok _ => _ | Err _ => _ end) as [s' resp].
    specialize (IH s'). destruct (run_stdio _ _ _ lines s'). cbn in *. by rewrite IH.
Qed.
End correct.

(** ** Concrete calls *)

Definition demo_answer : Value :=
  Obj [("result", Obj [("tools", Arr [Obj [("description", Str "Find pages."); ("name", Str "search")]])])].

Definition demo_lib : BrokerLib :=
  mkBrokerLib Some id (λ s, if bool_decide (s = "listing") then Ok demo_answer else Err "no JSON")
    (λ v, default "answer" (get_str "method" v)) id (λ _ _, [])
    (λ names _, Z.of_nat (length names)) (λ n d s, Z.of_nat (String.length (n +:+ d +:+ s))).

Definition demo_state (scan : ScanMode) (dlp : DlpMode) : BrokerState :=
  mkBroker "http://mcp" {["crm" := "http://crm"]} ∅ scan dlp DlpOff (Some {["search" := 17]}).

Definition demo_net (decision : string) : Outside :=
  mkOutside id (λ _, (0, 1, Ok (mkWireResponse decision None (Some "no") None None false)))
    (λ _ _, Received "listing") 1700000000000.

Definition demo_request (method : string) : Value :=
  Obj [("id", Number (PosInt 7)); ("method", Str method); ("params", Obj [("name", Str "search")])].

Definition demo_context : CallContext := mkCall (Some "agent-1") (Some "crm") [] None None.

Definition enforcing : Wardryx := Wardryx.new WxEnforce FailClosed 3000.

(** A denied call is refused with the reason and never posted; an allowed one is. *)
Example mcp_denied :
  process demo_lib (demo_state ScanWarn DlpBlock) (demo_net "deny") demo_context
    (demo_request "tools/call") (mkBk enforcing []) =
  (mkBk enforcing [Event ToolCall 1700000000000 (Some "agent-1")
                     (tool_call_data "search" "http://crm" WxDeny WxEnforce)],
   rpc_error (Number (PosInt 7)) (-32004) "blocked: policy denied tool search (no)").
Proof. vm_compute. reflexivity. Qed.

Example mcp_allowed :
  payloads (shown (process demo_lib (demo_state ScanWarn DlpBlock) (demo_net "allow") demo_context
                     (demo_request "tools/call") (mkBk enforcing [])).1) =
  [("http://crm", "tools/call")].
Proof. vm_compute. reflexivity. Qed.

Lemma mcp_listing_vetted_witness :
  is_listing (demo_request "tools/list") = true ∧
  let '(s, resp) := process demo_lib (demo_state ScanBlock DlpBlock) (demo_net "allow") demo_context
                      (demo_request "tools/list") (mkBk enforcing []) in
  refusal (id_of (demo_request "tools/list")) resp ∨
  ∃ url bytes out, chosen (demo_state ScanBlock DlpBlock) demo_context url ∧
    post (demo_net "allow") url (l_to_string demo_lib (demo_request "tools/list")) = Received bytes ∧
    l_from_str demo_lib bytes = Ok out ∧ wholesome demo_lib (demo_state ScanBlock DlpBlock) out ∧
    released demo_lib (demo_state ScanBlock DlpBlock)
      (pii_note demo_lib (demo_state ScanBlock DlpBlock) out) resp.
Proof.
  split; [reflexivity|].
  exact (mcp_listing_vetted demo_lib (demo_state ScanBlock DlpBlock) (demo_net "allow") demo_context
           (demo_request "tools/list") enforcing eq_refl eq_refl).
Defined.

Definition off_state : BrokerState := mkBroker "http://mcp" ∅ ∅ ScanOff DlpOff DlpOff None.

Lemma mcp_transparent_witness :
  let '(s, resp) := process demo_lib off_state (demo_net "deny") default_context
                      (demo_request "tools/call") (mkBk Wardryx.disabled []) in
  shown s = [Forwarded "http://mcp" "tools/call"] ∧ resp = demo_answer ∧ hook s = Wardryx.disabled.
Proof.
  apply (mcp_transparent demo_lib off_state (demo_net "deny") default_context
           (demo_request "tools/call") Wardryx.disabled "http://mcp" "listing" demo_answer).
  - by split_and!.
  - cbn. repeat constructor.
  - reflexivity.
  - reflexivity.
  - reflexivity.
Defined.

Lemma mcp_calls_audited_witness :
  events_of ToolCall
    (shown (process demo_lib (demo_state ScanWarn DlpBlock) (demo_net "hold") demo_context
              (demo_request "tools/call") (mkBk enforcing [])).1) =
  [(Some "agent-1", tool_call_data "search" "http://crm" WxHold WxEnforce)].
Proof.
  pose proof (mcp_calls_audited demo_lib (demo_state ScanWarn DlpBlock) (demo_net "hold") demo_context
    (demo_request "tools/call") enforcing "agent-1" "http://crm" eq_refl) as H.
  apply H; [done|reflexivity|reflexivity|].
  intros params [= <-]. split; reflexivity.
Defined.
