(* ===== verification/FocusExport.v ===== *)
(** * The FOCUS export

    [crates/gateway/src/focusexport.rs]: the projection of trace rows to FOCUS columns, the
    CSV it is written as, the timestamps of its window, and the command around them.  The
    rows come from DataFusion: the query is text here and its answer an input. *)

From S2P Require Import Prelude Float Money Strings Text Breaker Timefmt.

(* @src focusexport.rs Args *)
Record Args := mkArgs {
  a_traces : option string; a_out : option string; a_from : option string; a_to : option string
}.
Definition no_args : Args := mkArgs None None None None.

(** [it.next().cloned()] after a flag. *)
(* @src focusexport.rs parse_args *)
Fixpoint parse_flags (args : list string) (o : Args) : Args :=
  match args with
  | [] => o
  | a :: rest =>
      if bool_decide (a = "--traces") then
        match rest with
        | [] => mkArgs None (a_out o) (a_from o) (a_to o)
        | v :: rest => parse_flags rest (mkArgs (Some v) (a_out o) (a_from o) (a_to o))
        end
      else if bool_decide (a = "--out") then
        match rest with
        | [] => mkArgs (a_traces o) None (a_from o) (a_to o)
        | v :: rest => parse_flags rest (mkArgs (a_traces o) (Some v) (a_from o) (a_to o))
        end
      else if bool_decide (a = "--from") then
        match rest with
        | [] => mkArgs (a_traces o) (a_out o) None (a_to o)
        | v :: rest => parse_flags rest (mkArgs (a_traces o) (a_out o) (Some v) (a_to o))
        end
      else if bool_decide (a = "--to") then
        match rest with
        | [] => mkArgs (a_traces o) (a_out o) (a_from o) None
        | v :: rest => parse_flags rest (mkArgs (a_traces o) (a_out o) (a_from o) (Some v))
        end
      else parse_flags rest o
  end.
Definition parse_args (args : list string) : Args := parse_flags args no_args.

(* @src focusexport.rs FocusRecord *)
Record FocusRecord := mkFocus {
  ts_millis : Z;              (* i64 *)
  f_run_id : string;
  model : string;
  decision : string;
  f_input_tokens : Z;         (* u64 *)
  f_output_tokens : Z;        (* u64 *)
  cost_microusd : Z;          (* i64 *)
  agent_id : string;
  parent_run_id : string;
  outcome : string;
  unit_ : string;
  f_tool_calls : option Z     (* Option<u32> *)
}.

(* @src focusexport.rs HEADER *)
Definition HEADER : list string :=
  ["BilledCost"; "EffectiveCost"; "BillingCurrency"; "ChargePeriodStart"; "ChargePeriodEnd";
   "ChargeDescription"; "ProviderName"; "PublisherName"; "InvoiceIssuerName"; "ServiceName";
   "ServiceCategory"; "ResourceId"; "ResourceName"; "SubAccountId"; "SubAccountName"; "x_run_id";
   "x_parent_run_id"; "x_agent_id"; "x_model"; "x_tokens_in"; "x_tokens_out"; "x_blocked";
   "x_cost_basis"; "x_outcome"; "x_unit"; "x_tool_calls"].

(** ** Rows *)

(* @src focusexport.rs is_blocked_decision *)
Definition is_blocked_decision (decision : string) : bool :=
  existsb (λ r, bool_decide (as_wire_str r = decision))
    [BudgetExceeded; PolicyViolation; LoopDetected; Killed; WasmPolicy; TaintBlocked; DlpBlocked;
     UnitBudgetExceeded; IdentityMismatch].

(* @src focusexport.rs provider_from_model *)
Definition provider_from_model (model : string) : string :=
  let m := to_ascii_lowercase model in
  if contains "claude" m then "Anthropic"
  else if contains "gpt" m || contains "chatgpt" m || starts_with "o1" m || starts_with "o3" m
          || starts_with "o4" m then "OpenAI"
  else if contains "gemini" m then "Google"
  else if contains "llama" m then "Meta"
  else if contains "mistral" m then "Mistral AI"
  else "Unknown".

(* @src focusexport.rs usd_string *)
Definition usd_string (microusd : Z) : string := f64_fixed 6 (Microusd.as_usd microusd).

Definition bool_string (b : bool) : string := if b then "true" else "false".

(** The charge of a row, and where it comes from. *)
(* @src focusexport.rs 341-348 to_row *)
Definition charge (rec : FocusRecord) : Z * string :=
  if is_blocked_decision (decision rec) then (0, "blocked")
  else if (f_input_tokens rec =? 0) && (f_output_tokens rec =? 0) && negb (cost_microusd rec =? 0)
  then (cost_microusd rec, "estimated")
  else (cost_microusd rec, "settled").

(* @src focusexport.rs to_row *)
Definition to_row (rec : FocusRecord) : list string :=
  let blocked := is_blocked_decision (decision rec) in
  let '(cost, cost_basis) := charge rec in
  let billed := usd_string cost in
  let ts := ts_millis_to_rfc3339 (ts_millis rec) in
  let provider := provider_from_model (model rec) in
  [billed; billed; "USD"; ts; ts; "LLM call model=" +:+ model rec; provider; provider; provider;
   "LLM inference"; "AI and Machine Learning"; agent_id rec; agent_id rec; f_run_id rec; f_run_id rec;
   f_run_id rec; parent_run_id rec; agent_id rec; model rec; pretty (f_input_tokens rec);
   pretty (f_output_tokens rec); bool_string blocked; cost_basis; outcome rec; unit_ rec;
   default "" (pretty <$> f_tool_calls rec)].

(** ** CSV *)

Definition dquote : ascii := ascii_of_nat 34.
Definition newline : ascii := ascii_of_nat 10.
Definition comma : ascii := ","%char.

Definition has (c : ascii) (s : string) : bool := (0 <? count_char c s)%nat.

(* @src focusexport.rs csv_quote *)
Definition csv_quote (field : string) : string :=
  if has comma field || has dquote field || has newline field || has (ascii_of_nat 13) field
  then DQ +:+ str_map (λ c, if bool_decide (c = dquote) then DQ +:+ DQ else String c "") field +:+ DQ
  else field.

(* @src focusexport.rs csv_row *)
Definition csv_row (fields : list string) : string := join_char comma (csv_quote <$> fields).

(* @src focusexport.rs render_csv *)
Definition render_csv (records : list FocusRecord) : string :=
  concat_str ((λ row, csv_row row +:+ String newline "") <$> (HEADER :: (to_row <$> records))).

(** ** Timestamps *)

(** The [Err] is the text of the message. *)
(* @src focusexport.rs parse_rfc3339_millis *)
Definition parse_rfc3339_millis (s : string) : result Z string :=
  let s := trim s in
  let bad := Err ("expected RFC3339 like 2026-01-02T15:04:05Z, got '" +:+ s +:+ "'") in
  let date := λ date,
    match split_char "-" date with
    | [y; m; d] =>
        match parse_i64 y, parse_unsigned u32_max m, parse_unsigned u32_max d with
        | Some y, Some m, Some d =>
            if (1 <=? m) && (m <=? 12) && (1 <=? d) && (d <=? 31) then Some (y, m, d) else None
        | _, _, _ => None
        end
    | _ => None
    end in
  let time := λ time,
    match split_char ":" (default time (head (split_char "." time))) with
    | [hh; mm; ss] =>
        match parse_i64 hh, parse_i64 mm, parse_i64 ss with
        | Some hh, Some mm, Some ss =>
            if (0 <=? hh) && (hh <? 24) && (0 <=? mm) && (mm <? 60) && (0 <=? ss) && (ss <? 60)
            then Some (hh, mm, ss) else None
        | _, _, _ => None
        end
    | _ => None
    end in
  match strip_suffix "Z" s ≫= split_once "T" with
  | None => bad
  | Some (d, t) =>
      match date d, time t with
      | Some (y, m, d), Some (hh, mm, ss) =>
          Ok (i64_wrap (days_from_civil y m d * 86400000 + hh * 3600000 + mm * 60000 + ss * 1000))
      | _, _ => bad
      end
  end.

(** ** The command *)

(** The text of the query. *)
(* @src focusexport.rs 205-228 load_records *)
Definition load_sql (from_ms to_ms : option Z) : string :=
  let conds := option_list ((λ f, "ts_millis >= " +:+ pretty f) <$> from_ms)
               ++ option_list ((λ t, "ts_millis <= " +:+ pretty t) <$> to_ms) in
  "select ts_millis, run_id, model, decision, cast(input_tokens as bigint) as input_tokens, "
  +:+ "cast(output_tokens as bigint) as output_tokens, "
  +:+ "cast(cost_microusd as bigint) as cost_microusd, coalesce(agent_id, '') as agent_id, "
  +:+ "coalesce(parent_run_id, '') as parent_run_id, coalesce(outcome, '') as outcome, "
  +:+ "coalesce(unit, '') as unit, cast(tool_calls as bigint) as tool_calls from calls"
  +:+ (match conds with [] => "" | _ => " where " +:+ String.concat " and " conds end)
  +:+ " order by ts_millis, run_id".

(** A row of the answer, its columns typed. *)
Record QueryRow := mkQueryRow {
  q_ts : Z; q_run : string; q_model : string; q_decision : string; q_input : Z; q_output : Z;
  q_cost : Z; q_agent : string; q_parent : string; q_outcome : string; q_unit : string;
  q_tool_calls : option Z
}.

(* @src focusexport.rs 258-281 load_records *)
Definition record_of (r : QueryRow) : FocusRecord :=
  mkFocus (q_ts r) (q_run r) (q_model r) (q_decision r) (Z.max (q_input r) 0) (Z.max (q_output r) 0)
    (q_cost r) (q_agent r) (q_parent r) (q_outcome r) (q_unit r)
    ((λ n, u32_wrap (Z.max n 0)) <$> q_tool_calls r).

(** A bound of the window, absent or parsed. *)
Definition bound (flag : string) (o : option string) : result (option Z) string :=
  match o with
  | None => Ok None
  | Some s => match parse_rfc3339_millis s with
              | Ok ms => Ok (Some ms)
              | Err e => Err ("bad " +:+ flag +:+ ": " +:+ e)
              end
  end.

(** The file to write and its records.  [query dir sql] is DataFusion's answer. *)
(* @src focusexport.rs 155-186 run *)
Definition to_export (query : string → string → result (list QueryRow) string) (args : Args)
  : result (string * list FocusRecord) string :=
  match a_traces args with
  | None => Err "missing --traces <dir-or-glob>"
  | Some traces =>
      match a_out args with
      | None => Err "missing --out <file.csv>"
      | Some out_path =>
          match bound "--from" (a_from args) with
          | Err e => Err e
          | Ok from_ms =>
              match bound "--to" (a_to args) with
              | Err e => Err e
              | Ok to_ms =>
                  match query traces (load_sql from_ms to_ms) with
                  | Err e => Err ("could not read traces at '" +:+ traces +:+ "': " +:+ e)
                  | Ok [] =>
                      Err ("no calls found in the trace at '" +:+ traces +:+ "'"
                           +:+ (if bool_decide (is_Some from_ms) || bool_decide (is_Some to_ms)
                                then " in the given --from/--to window" else "")
                           +:+ " — nothing to export")
                  | Ok rows => Ok (out_path, record_of <$> rows)
                  end
              end
          end
      end
  end.

Example row_blocked :
  take 6 (to_row (mkFocus 1783566764100 "r1" "gpt-4o" "killed" 0 0 4200 "a" "" "" "" (Some 0))) =
  ["0.000000"; "0.000000"; "USD"; "2026-07-09T03:12:44Z"; "2026-07-09T03:12:44Z"; "LLM call model=gpt-4o"].
Proof. vm_compute. reflexivity. Qed.

Example rfc3339_loose :
  parse_rfc3339_millis "2026-02-31T00:00:00Z" = parse_rfc3339_millis "2026-03-03T00:00:00.x:yZ".
Proof. vm_compute. reflexivity. Qed.

(** ** Readers of CSV files

    RFC 4180: a field is bare text without quotes, or quoted text in which a doubled quote
    stands for one; fields end at commas and rows at newlines.  Readers differ in the rest:
    whether a carriage return outside of quotes ends a row, is dropped or is text, and what
    becomes of a quote inside bare text or of text after a closing quote.  [other] is what a
    reader does there, whatever that is. *)

Inductive reading := AtStart | InBare | InQuotes | AfterQuote.

Definition return_ : ascii := ascii_of_nat 13.

Section readers.
Context (other : reading → ascii → string → list string → string → option (list (list string))).

(** The rows from here on, with the fields read so far of the row and the text of the field. *)
Fixpoint read_from (q : reading) (field : string) (row : list string) (s : string)
  : option (list (list string)) :=
  match s with
  | "" => match q, row with AtStart, [] => Some [] | _, _ => None end
  | String c s =>
      let put q := read_from q (field +:+ String c "") row s in
      let end_field := read_from AtStart "" (row ++ [field]) s in
      let end_row := cons (row ++ [field]) <$> read_from AtStart "" [] s in
      match q with
      | InQuotes => if bool_decide (c = dquote) then read_from AfterQuote field row s else put InQuotes
      | _ =>
          if bool_decide (c = comma) then end_field
          else if bool_decide (c = newline) then end_row
          else if bool_decide (c = return_) then other q c field row s
          else match q with
               | AtStart => if bool_decide (c = dquote) then read_from InQuotes "" row s else put InBare
               | InBare => if bool_decide (c = dquote) then other q c field row s else put InBare
               | _ => if bool_decide (c = dquote) then put InQuotes else other q c field row s
               end
      end
  end.
Definition read_csv (s : string) : option (list (list string)) := read_from AtStart "" [] s.

(** What reading goes on with after a field: its end by a comma, or by the end of the row. *)
Definition ended (c : ascii) (row : list string) (s : string) : option (list (list string)) :=
  if bool_decide (c = comma) then read_from AtStart "" row s
  else cons row <$> read_from AtStart "" [] s.

Lemma has_false c s : has c s = false ↔ free_of c s.
Proof. unfold has, free_of. rewrite Nat.ltb_ge. lia. Qed.

Lemma read_bare c f x row s :
  c = comma ∨ c = newline → free_of comma x → free_of dquote x → free_of newline x →
  free_of return_ x →
  read_from InBare f row (x +:+ String c s) = ended c (row ++ [f +:+ x]) s.
Proof.
  intros Hc. revert f. induction x as [|d x IH]; intros f H1 H2 H3 H4.
  - rewrite append_nil_r. unfold ended. simpl. by destruct Hc as [-> | ->].
  - unfold free_of in *. simpl in *. repeat case_bool_decide; try done; try congruence.
    rewrite IH by done. by rewrite append_assoc.
Qed.

Lemma read_quoted c f x row s :
  c = comma ∨ c = newline →
  read_from InQuotes f row
    (str_map (λ d, if bool_decide (d = dquote) then DQ +:+ DQ else String d "") x
     +:+ DQ +:+ String c s) = ended c (row ++ [f +:+ x]) s.
Proof.
  intros Hc. revert f. induction x as [|d x IH]; intros f.
  - rewrite append_nil_r. unfold ended. simpl. by destruct Hc as [-> | ->].
  - cbn [str_map]. case_bool_decide as Hd.
    + subst. simpl. rewrite IH. by rewrite append_assoc.
    + simpl. rewrite bool_decide_false by done. rewrite IH. by rewrite append_assoc.
Qed.

Lemma read_field c x row s :
  c = comma ∨ c = newline →
  read_from AtStart "" row (csv_quote x +:+ String c s) = ended c (row ++ [x]) s.
Proof.
  intros Hc. unfold csv_quote. destruct (_ || _) eqn:E.
  - rewrite !append_assoc. exact (read_quoted c "" x row s Hc).
  - rewrite !orb_false_iff, !has_false in E. destruct E as [[[H1 H2] H3] H4]. fold return_ in H4.
    destruct x as [|d x].
    + unfold ended. simpl. by destruct Hc as [-> | ->].
    + simpl. unfold free_of in *. simpl in *. repeat case_bool_decide; try done; try congruence.
      by rewrite read_bare.
Qed.

Lemma read_row x l row s :
  read_from AtStart "" row (csv_row (x :: l) +:+ String newline s)
  = cons (row ++ x :: l) <$> read_csv s.
Proof.
  revert x row. induction l as [|y l IH]; intros x row.
  - unfold csv_row. cbn [fmap list_fmap join_char]. rewrite read_field by auto. done.
  - unfold csv_row. cbn [fmap list_fmap]. rewrite join_char_cons, append_assoc.
    change (String comma (join_char comma (csv_quote y :: (csv_quote <$> l))) +:+ String newline s)
      with (String comma (csv_row (y :: l) +:+ String newline s)).
    rewrite read_field by auto. unfold ended. rewrite bool_decide_true by done.
    rewrite IH. by rewrite <- app_assoc.
Qed.

End readers.

(** C39: The exported file says exactly what the trace says.  Whatever text the columns hold,
    commas, quotes, newlines and carriage returns included, a reader gets back the header and
    then every row's columns, in order, if it follows RFC 4180 on bare fields, quoted fields
    and rows that end in a newline; whatever it makes of a carriage return outside of quotes,
    of a quote inside bare text and of text after a closing quote. *)
Theorem csv_roundtrip other records :
  read_csv other (render_csv records) = Some (HEADER :: (to_row <$> records)).
Proof.
  assert (∀ rows, Forall (λ row : list string, row ≠ []) rows →
    read_csv other (concat_str ((λ row, csv_row row +:+ String newline "") <$> rows)) = Some rows) as H.
  { induction 1 as [|row rows Hr _ IH]; [done|]. cbn [fmap list_fmap concat_str].
    destruct row as [|x l]; [done|]. rewrite append_assoc.
    change (String newline "" +:+ ?s) with (String newline s). unfold read_csv at 1.
    rewrite read_row. cbn [app]. by rewrite IH. }
  apply H. constructor; [done|]. apply Forall_fmap, Forall_true. intros r. unfold compose, to_row.
  by destruct (charge r).
Qed.

(** ** Timestamps read back *)

Lemma digits_free c s : is_digit_char c = false → str_all is_digit_char s = true → free_of c s.
Proof. intros Hc. by apply free_of_all. Qed.

Lemma digits_visible s : str_all is_digit_char s = true → str_all visible s = true.
Proof.
  apply str_all_impl. intros c. unfold is_digit_char, digit_value, visible. cbv zeta.
  destruct (((48 <=? nat_of_ascii c) && (nat_of_ascii c <=? 57))%nat) eqn:E; [|done].
  apply andb_true_iff in E as [E1%Nat.leb_le E2%Nat.leb_le]. intros _.
  rewrite !(proj2 (Nat.leb_le _ _)) by lia. done.
Qed.

(** Unsigned digits without a sign. *)
Lemma digits_no_sign p s :
  is_digit_char p = false → str_all is_digit_char s = true → s ≠ "" →
  strip_prefix (String p "") s = None.
Proof.
  intros Hp. destruct s as [|c s]; [done|]. cbn. intros [Hc _]%andb_true_iff _.
  by rewrite bool_decide_false by congruence.
Qed.

Lemma parse_pad max w z :
  0 ≤ z ≤ max → parse_unsigned max (pad_left (S w) (pretty z)) = Some z.
Proof.
  intros Hz. destruct (pad_left_spec w z) as (H1 & H2 & H3); [lia|]. unfold parse_unsigned.
  rewrite digits_no_sign by done. rewrite H2. by rewrite (proj2 (Z.leb_le _ _)) by lia.
Qed.

Lemma parse_i64_pad w z :
  0 ≤ z ≤ i64_max → parse_i64 (pad_left (S w) (pretty z)) = Some z.
Proof.
  intros Hz. destruct (pad_left_spec w z) as (H1 & H2 & H3); [lia|]. unfold parse_i64.
  rewrite digits_no_sign by done. by apply parse_pad.
Qed.

Lemma split_once_char c a b :
  free_of c a → split_once (String c "") (a +:+ String c b) = Some (a, b).
Proof.
  unfold free_of. induction a as [|d a IH]; simpl; [by rewrite bool_decide_true|].
  case_bool_decide; [done|]. intros Hf. by rewrite IH.
Qed.

Lemma free_of_sep c a d b : c ≠ d → free_of c a → free_of c b → free_of c (a +:+ String d b).
Proof.
  unfold free_of. intros Hc Ha Hb. rewrite count_char_append. cbn [count_char].
  rewrite bool_decide_false by done. lia.
Qed.

Lemma date_time_parts y m d hh mm ss :
  0 ≤ y ≤ i64_max → 1 ≤ m ≤ 12 → 1 ≤ d ≤ 31 → 0 ≤ hh < 24 → 0 ≤ mm < 60 → 0 ≤ ss < 60 →
  parse_rfc3339_millis
    ((pad0 4 y +:+ "-" +:+ pad0 2 m +:+ "-" +:+ pad0 2 d +:+ "T" +:+ pad0 2 hh +:+ ":"
      +:+ pad0 2 mm +:+ ":" +:+ pad0 2 ss) +:+ "Z") =
  Ok (i64_wrap (days_from_civil y m d * 86400000 + hh * 3600000 + mm * 60000 + ss * 1000)).
Proof.
  intros Hy Hm Hd Hh Hn Hs. unfold pad0. rewrite !(proj2 (Z.ltb_ge _ _)) by lia.
  destruct (pad_left_spec 3 y) as (Vy & _); [lia|]. destruct (pad_left_spec 1 m) as (Vm & _); [lia|].
  destruct (pad_left_spec 1 d) as (Vd & _); [lia|]. destruct (pad_left_spec 1 hh) as (Vh & _); [lia|].
  destruct (pad_left_spec 1 mm) as (Vn & _); [lia|]. destruct (pad_left_spec 1 ss) as (Vs & _); [lia|].
  pose proof (parse_i64_pad 3 y Hy) as Py.
  pose proof (parse_pad u32_max 1 m) as Pm. pose proof (parse_pad u32_max 1 d) as Pd.
  pose proof (parse_i64_pad 1 hh) as Ph. pose proof (parse_i64_pad 1 mm) as Pn.
  pose proof (parse_i64_pad 1 ss) as Ps.
  revert Vy Vm Vd Vh Vn Vs Py Pm Pd Ph Pn Ps.
  generalize (pad_left 4 (pretty y)) (pad_left 2 (pretty m)) (pad_left 2 (pretty d))
    (pad_left 2 (pretty hh)) (pad_left 2 (pretty mm)) (pad_left 2 (pretty ss)).
  intros Sy Sm Sd Sh Sn Ss Vy Vm Vd Vh Vn Vs Py Pm Pd Ph Pn Ps.
  unfold parse_rfc3339_millis. rewrite trim_visible.
  2:{ rewrite !str_all_append, (digits_visible Sy), (digits_visible Sm), (digits_visible Sd),
      (digits_visible Sh), (digits_visible Sn), (digits_visible Ss) by done. done. }
  rewrite strip_suffix_append. cbn [mbind option_bind].
  assert (∀ c s, is_digit_char c = false → str_all is_digit_char s = true → free_of c s) as F
    by apply digits_free.
  replace (Sy +:+ "-" +:+ Sm +:+ "-" +:+ Sd +:+ "T" +:+ Sh +:+ ":" +:+ Sn +:+ ":" +:+ Ss)
    with ((Sy +:+ String "-" (Sm +:+ String "-" Sd))
          +:+ String "T" (Sh +:+ String ":" (Sn +:+ String ":" Ss)))
    by (rewrite append_assoc, cons_app, append_assoc; done).
  rewrite split_once_char by (repeat apply free_of_sep; by auto).
  rewrite (split_char_cons "-" Sy) by auto.
  rewrite (split_char_cons "-" Sm) by auto. rewrite (split_char_free "-" Sd) by auto.
  rewrite Py, Pm, Pd by (unfold u32_max; lia).
  rewrite (split_char_free ".") by (repeat apply free_of_sep; by auto). cbn [head from_option id].
  rewrite (split_char_cons ":" Sh) by auto. rewrite (split_char_cons ":" Sn) by auto.
  rewrite (split_char_free ":" Ss) by auto. rewrite Ph, Pn, Ps by mach.
  rewrite !(proj2 (Z.leb_le _ _)), !(proj2 (Z.ltb_lt _ _)) by lia. done.
Qed.

(** A window bound written as the export writes timestamps is read back to the second: every
    instant from the year 0 on, as far as an [i64] of milliseconds reaches. *)
Theorem rfc3339_roundtrip t :
  -719468 * 86400000 ≤ t ≤ i64_max →
  parse_rfc3339_millis (ts_millis_to_rfc3339 t) = Ok (t - t mod 1000).
Proof.
  intros Ht. unfold ts_millis_to_rfc3339, date_time.
  assert (in_i64 (t / 1000 / 86400 + 719468)) as Hz by (clear -Ht; mach; div_lia).
  pose proof (day_roundtrip _ Hz) as Hd.
  assert (0 ≤ (civil_from_days (t / 1000 / 86400)).1.1 ≤ i64_max) as Hy.
  { rewrite civil_from_days_eq by done. cbv zeta. cbn [fst].
    destruct (yoe_bounds ((t / 1000 / 86400 + 719468) mod 146097)) as [Hb _].
    { apply Z.mod_pos_bound. lia. }
    assert (0 ≤ (t / 1000 / 86400 + 719468) / 146097 ≤ i64_max / 86400000) as He
      by (clear -Ht; mach; div_lia).
    revert He Hb. generalize ((t / 1000 / 86400 + 719468) / 146097). intros era He Hb.
    assert (i64_max / 86400000 < 1000000000000) by (vm_compute; done).
    assert (0 ≤ era < 1000000000000) by lia. clear H He. destruct (_ <=? 2); mach. }
  destruct (civil_from_days (t / 1000 / 86400)) as [[y m] d]. cbn [fst] in Hy.
  destruct Hd as [Hv Hd]. apply valid_date_iff in Hv.
  rewrite date_time_parts; [|lia|lia| |div_lia..].
  - rewrite Hd. f_equal. rewrite i64_wrap_id; [div_lia|]. clear -Ht. mach. div_lia.
  - pose proof Hv. unfold month_length in *. repeat case_match; lia.
Qed.

Example focus_quoted : csv_row ["a,b"; "c"] = DQ +:+ "a,b" +:+ DQ +:+ ",c".
Proof. vm_compute. reflexivity. Qed.

(** A year that does not fit wraps to another instant instead of being refused. *)
Example window_wraps :
  parse_rfc3339_millis "300000000-01-01T00:00:00Z" = Ok (-8979720640928751616).
Proof. vm_compute. reflexivity. Qed.

Lemma rfc3339_roundtrip_witness :
  parse_rfc3339_millis "2026-07-09T03:12:44Z" = Ok 1783566764000.
Proof.
  pose proof (rfc3339_roundtrip 1783566764100) as H.
  change (ts_millis_to_rfc3339 1783566764100) with "2026-07-09T03:12:44Z" in H.
  exact (H ltac:(vm_compute; split; discriminate)).
Defined.
