(* ===== verification/TraceCli.v ===== *)
(** * The commands that read the trace

    [crates/gateway/src/sqlq.rs], [backtestcli.rs], [savingscli.rs], [outcomescli.rs] and
    [compliancecli.rs]: the loaders that turn record batches into calls, the flags, and the
    reports the commands print.  DataFusion is a parameter: it answers a query text over a
    directory with record batches. *)

From S2P Require Import Prelude Float Money Strings Text Console.
From S2P Require Backtest Savings Outcomes Compliance McpReport FocusExport.

#[local] Existing Instance Compliance.Enforcement_eq_dec.

(** ** Record batches *)

(** A column of a batch; a null cell holds the default value. *)
Inductive Column :=
| Utf8 (cells : list string)
| Utf8View (cells : list string)
| Int64 (cells : list Z)
| UInt32 (cells : list Z)
| OtherColumn.

Record Batch := mkBatch { columns : list Column; num_rows : nat }.

(** [b.column(i)]; a query answers the columns it selects. *)
Definition column (b : Batch) (i : nat) : Column := default OtherColumn (columns b !! i).

(* @src sqlq.rs str_at *)
Definition str_at (col : Column) (i : nat) : string :=
  match col with
  | Utf8 cells | Utf8View cells => default "" (cells !! i)
  | _ => ""
  end.

(** [downcast_ref::<Int64Array>().ok_or(..)] and [value(i)]. *)
Definition int64_array (col : Column) (e : string) : result (list Z) string :=
  match col with Int64 cells => Ok cells | _ => Err e end.
Definition uint32_array (col : Column) (e : string) : result (list Z) string :=
  match col with UInt32 cells => Ok cells | _ => Err e end.
Definition value (cells : list Z) (i : nat) : Z := default 0 (cells !! i).

Definition Engine : Type := string → string → result (list Batch) string.

(** The rows of every batch, or the first error. *)
Fixpoint load_rows {A} (rows : Batch → result (list A) string) (bs : list Batch)
  : result (list A) string :=
  match bs with
  | [] => Ok []
  | b :: bs =>
      match rows b with
      | Err e => Err e
      | Ok l => match load_rows rows bs with
                | Ok k => Ok (l ++ k)
                | Err e => Err e
                end
      end
  end.

(** [where a and b], when there is a condition. *)
Definition where_clause (since until : option Z) : string :=
  let conds := option_list ((λ s, "ts_millis >= " +:+ pretty s) <$> since)
               ++ option_list ((λ u, "ts_millis <= " +:+ pretty u) <$> until) in
  match conds with [] => "" | _ => " where " +:+ join " and " conds end.

(* @src sqlq.rs 74-88 load_calls *)
Definition calls_sql (since until : option Z) : string :=
  "select run_id, decision, cast(cost_microusd as bigint) as cost, "
  +:+ "cast(coalesce(saved_microusd, 0) as bigint) as saved from calls"
  +:+ where_clause since until.

(* @src sqlq.rs 92-111 load_calls *)
Definition batch_calls (b : Batch) : result (list Savings.Call) string :=
  match int64_array (column b 2) "cost column type", int64_array (column b 3) "saved column type" with
  | Err e, _ | Ok _, Err e => Err e
  | Ok cost, Ok saved =>
      Ok ((λ i, Savings.mkCall (str_at (column b 0) i) (str_at (column b 1) i) (value cost i)
                  (value saved i)) <$> seq 0 (num_rows b))
  end.

(* @src sqlq.rs load_calls *)
Definition load_calls (engine : Engine) (dir : string) (since until : option Z)
  : result (list Savings.Call) string :=
  match engine (calls_sql since until) dir with
  | Err e => Err e
  | Ok batches => load_rows batch_calls batches
  end.

(* @src sqlq.rs run *)
Definition sql_run {W} (engine : Engine) (pretty_format : list Batch → result string string)
    (sql dir : string) : M (W := W) unit :=
  match engine sql dir with
  | Err e => fail e
  | Ok batches => match pretty_format batches with
                  | Ok text => println text
                  | Err e => fail e
                  end
  end.

(** [{:<w}] and [{:>w}]: padding counts characters. *)
Definition spaces (n : nat) : string := repeat_str " " n.
Definition left_aligned (w : nat) (s : string) : string := s +:+ spaces (w - char_count s).
Definition right_aligned (w : nat) (s : string) : string := spaces (w - char_count s) +:+ s.

(** ** Savings *)

(* @src savingscli.rs print_empty *)
Definition print_empty (dir : string) : list string :=
  ["TokenFuse savings — no trace yet at " +:+ dir;
   "  set TOKENFUSE_DATA_DIR and run some traffic, then try again."].

(* @src savingscli.rs 39-62 run *)
Definition savings_lines (dir : string) (r : Savings.SavingsReport) : list string :=
  ["TokenFuse savings — from " +:+ dir;
   "  runaway spend stopped:   " +:+ Microusd.display (Savings.blocked_spend_microusd r)
     +:+ "   (" +:+ pretty (Savings.blocked_calls r) +:+ " blocked call(s) across "
     +:+ pretty (Savings.budget_breaks_prevented r) +:+ " budget break(s))";
   "  cache saved:             " +:+ Microusd.display (Savings.cache_saved_microusd r);
   "  router saved:            " +:+ Microusd.display (Savings.router_saved_microusd r)]
  ++ ((λ '(reason, spend), "    " +:+ left_aligned 16 reason +:+ " " +:+ Microusd.display spend)
        <$> btree_list (Savings.by_reason_microusd r)).

(* @src savingscli.rs run *)
Definition savings_run {W} (engine : Engine) (dir : string) : M (W := W) unit :=
  print_all match load_calls engine dir None None with
            | Err _ | Ok [] => print_empty dir
            | Ok calls => savings_lines dir (Savings.compute_savings calls)
            end.

(** ** Backtest *)

(* @src backtestcli.rs describe *)
Definition describe (p : Backtest.BacktestPolicy) : string :=
  let usd b := f64_fixed 4 (f64_div (f64_of_Z b) (f64_of_Z 1000000)) in
  join ", " (option_list ((λ b, "budget/run $" +:+ usd b) <$> Backtest.budget_per_run_micro p)
             ++ option_list ((λ s, "budget/step $" +:+ usd s) <$> Backtest.budget_per_step_micro p)
             ++ option_list ((λ m, "max_steps " +:+ pretty m) <$> Backtest.max_steps p)).

Definition step_sql : string :=
  "select run_id, cast(step as bigint) as step, cast(cost_microusd as bigint) as cost from calls".

(* @src backtestcli.rs 75-93 load_calls *)
Definition batch_steps (b : Batch) : result (list Backtest.Call) string :=
  match int64_array (column b 1) "step column type", int64_array (column b 2) "cost column type" with
  | Err e, _ | Ok _, Err e => Err e
  | Ok step, Ok cost =>
      Ok ((λ i, Backtest.mkCall (str_at (column b 0) i) (u32_wrap (Z.max (value step i) 0))
                  (value cost i)) <$> seq 0 (num_rows b))
  end.

(* @src backtestcli.rs load_calls *)
Definition load_steps (engine : Engine) (dir : string) : result (list Backtest.Call) string :=
  match engine step_sql dir with
  | Err e => Err e
  | Ok batches => load_rows batch_steps batches
  end.

(** [Some((v * 1e6) as i64)] *)
Definition micros (v : f64) : Z := f64_to_i64 (f64_mul v (f64_of_Z 1000000)).

(** A flag's value is the next argument, which is used up whether or not it parses. *)
(* @src backtestcli.rs parse_policy *)
Fixpoint parse_policy_from (args : list string) (p : Backtest.BacktestPolicy)
  : Backtest.BacktestPolicy :=
  let '(run, step, steps) := (Backtest.budget_per_run_micro p, Backtest.budget_per_step_micro p,
                              Backtest.max_steps p) in
  match args with
  | "--budget" :: v :: args =>
      parse_policy_from args
        (Backtest.mkBacktestPolicy (or_else (micros <$> parse_f64 v) run) step steps)
  | "--budget-per-step" :: v :: args =>
      parse_policy_from args
        (Backtest.mkBacktestPolicy run (or_else (micros <$> parse_f64 v) step) steps)
  | "--max-steps" :: v :: args =>
      parse_policy_from args
        (Backtest.mkBacktestPolicy run step (or_else (parse_unsigned 4294967295 v) steps))
  | _ :: args => parse_policy_from args p
  | [] => p
  end.
(* @src backtestcli.rs parse_policy *)
Definition parse_policy (args : list string) : Backtest.BacktestPolicy :=
  parse_policy_from args (Backtest.mkBacktestPolicy None None None).

(* @src backtestcli.rs 24-48 run *)
Definition backtest_lines (policy : Backtest.BacktestPolicy) (r : Backtest.BacktestReport)
  : list string :=
  let usd m := f64_fixed 6 (f64_div (f64_of_Z m) (f64_of_Z 1000000)) in
  let pct := if 0 <? Backtest.spent_microusd r
             then f64_mul (f64_div (f64_of_Z (Backtest.saved_microusd r))
                                   (f64_of_Z (Backtest.spent_microusd r))) (f64_of_Z 100)
             else f64_of_Z 0 in
  ["TokenFuse backtest";
   "  candidate policy   : " +:+ describe policy;
   "  runs               : " +:+ pretty (Backtest.runs_total r) +:+ " ("
     +:+ pretty (Backtest.runs_affected r) +:+ " affected)";
   "  calls              : " +:+ pretty (Backtest.calls_total r) +:+ " ("
     +:+ pretty (Backtest.calls_blocked r) +:+ " would be blocked)";
   "  spend in trace     : $" +:+ usd (Backtest.spent_microusd r);
   "  would have saved   : $" +:+ usd (Backtest.saved_microusd r) +:+ " (" +:+ f64_fixed 1 pct +:+ "%)";
   "  projected spend    : $" +:+ usd (Backtest.projected_microusd r)].

(* @src backtestcli.rs run *)
Definition backtest_run {W} (engine : Engine) (dir : string) (policy : Backtest.BacktestPolicy)
  : M (W := W) unit :=
  if Backtest.is_empty policy
  then eprintln "no candidate policy given. Try: tokenfuse backtest --budget 2.0 --max-steps 20"
  else match load_steps engine dir with
       | Err e => fail e
       | Ok [] => println ("no calls in the trace at " +:+ dir)
       | Ok calls => print_all (backtest_lines policy (Backtest.backtest calls policy))
       end.

(** ** Outcomes *)

(* @src outcomescli.rs Args *)
Record OutcomeArgs := mkOutcomeArgs {
  oa_traces : option string; oa_from : option string; oa_to : option string; oa_json : bool
}.

(* @src outcomescli.rs parse_args *)
Fixpoint parse_outcome_from (args : list string) (o : OutcomeArgs) : OutcomeArgs :=
  match args with
  | [] => o
  | "--json" :: args =>
      parse_outcome_from args (mkOutcomeArgs (oa_traces o) (oa_from o) (oa_to o) true)
  | ["--traces"] => mkOutcomeArgs None (oa_from o) (oa_to o) (oa_json o)
  | ["--from"] => mkOutcomeArgs (oa_traces o) None (oa_to o) (oa_json o)
  | ["--to"] => mkOutcomeArgs (oa_traces o) (oa_from o) None (oa_json o)
  | "--traces" :: v :: args =>
      parse_outcome_from args (mkOutcomeArgs (Some v) (oa_from o) (oa_to o) (oa_json o))
  | "--from" :: v :: args =>
      parse_outcome_from args (mkOutcomeArgs (oa_traces o) (Some v) (oa_to o) (oa_json o))
  | "--to" :: v :: args =>
      parse_outcome_from args (mkOutcomeArgs (oa_traces o) (oa_from o) (Some v) (oa_json o))
  | _ :: args => parse_outcome_from args o
  end.
(* @src outcomescli.rs parse_args *)
Definition parse_outcome_args (args : list string) : OutcomeArgs :=
  parse_outcome_from args (mkOutcomeArgs None None None false).

(* @src outcomescli.rs 117-131 load_calls *)
Definition outcomes_sql (from_ms to_ms : option Z) : string :=
  "select run_id, decision, cast(cost_microusd as bigint) as cost, "
  +:+ "coalesce(outcome, '') as outcome, step from calls" +:+ where_clause from_ms to_ms.

(* @src outcomescli.rs 135-155 load_calls *)
Definition batch_outcomes (b : Batch) : result (list Outcomes.Call) string :=
  match int64_array (column b 2) "cost column type", uint32_array (column b 4) "step column type" with
  | Err e, _ | Ok _, Err e => Err e
  | Ok cost, Ok step =>
      Ok ((λ i, Outcomes.mkCall (str_at (column b 0) i) (str_at (column b 1) i) (value cost i)
                  (str_at (column b 3) i) (value step i)) <$> seq 0 (num_rows b))
  end.

(* @src outcomescli.rs load_calls *)
Definition load_outcomes (engine : Engine) (dir : string) (from_ms to_ms : option Z)
  : result (list Outcomes.Call) string :=
  match engine (outcomes_sql from_ms to_ms) dir with
  | Err e => Err e
  | Ok batches => load_rows batch_outcomes batches
  end.

(* @src outcomescli.rs print_human *)
Definition outcome_lines (dir : string) (rows : list Outcomes.OutcomeRow) : list string :=
  let line a b c d e f :=
    "  " +:+ left_aligned 28 a +:+ " " +:+ right_aligned 6 b +:+ " " +:+ right_aligned 14 c +:+ " "
    +:+ right_aligned 14 d +:+ " " +:+ right_aligned 8 e +:+ " " +:+ right_aligned 8 f in
  ["TokenFuse outcomes — from " +:+ dir;
   line "OUTCOME" "RUNS" "TOTAL" "MEAN/RUN" "CALLS" "BLOCKED"]
  ++ ((λ r, line (default "(untagged)" (Outcomes.row_outcome r)) (pretty (Outcomes.runs r))
              (Microusd.display (Outcomes.total_cost_microusd r))
              (Microusd.display (Outcomes.mean_cost_microusd r))
              (pretty (Outcomes.row_calls r)) (pretty (Outcomes.blocked_calls r))) <$> rows).

(* @src outcomescli.rs run *)
Definition outcomes_run {W} (engine : Engine) (rows_json : list Outcomes.OutcomeRow → string)
    (args : OutcomeArgs) : M (W := W) unit :=
  match oa_traces args with
  | None => fail "missing --traces <dir-or-glob>"
  | Some traces =>
      match FocusExport.bound "--from" (oa_from args), FocusExport.bound "--to" (oa_to args) with
      | Err e, _ | Ok _, Err e => fail e
      | Ok from_ms, Ok to_ms =>
          match load_outcomes engine traces from_ms to_ms with
          | Err e => fail ("could not read traces at '" +:+ traces +:+ "': " +:+ e)
          | Ok [] =>
              fail ("no calls found in the trace at '" +:+ traces +:+ "'"
                    +:+ (if bool_decide (is_Some from_ms) || bool_decide (is_Some to_ms)
                         then " in the given --from/--to window" else "")
                    +:+ " — nothing to report")
          | Ok calls =>
              let rows := Outcomes.compute_outcomes calls in
              if oa_json args then println (rows_json rows) else print_all (outcome_lines traces rows)
          end
      end
  end.

(** ** Compliance *)

(* @src compliancecli.rs Args *)
Record ComplianceArgs := mkComplianceArgs {
  ca_since : option Z; ca_until : option Z; ca_json : bool; ca_markdown : bool;
  ca_scan_report : option string
}.

(* @src compliancecli.rs parse_args *)
Fixpoint parse_compliance_from (args : list string) (o : ComplianceArgs) : ComplianceArgs :=
  let '(s, u, j, m, r) := (ca_since o, ca_until o, ca_json o, ca_markdown o, ca_scan_report o) in
  match args with
  | [] => o
  | "--json" :: args => parse_compliance_from args (mkComplianceArgs s u true m r)
  | "--markdown" :: args => parse_compliance_from args (mkComplianceArgs s u j true r)
  | ["--since"] => mkComplianceArgs None u j m r
  | ["--until"] => mkComplianceArgs s None j m r
  | ["--scan-report"] => mkComplianceArgs s u j m None
  | "--since" :: v :: args => parse_compliance_from args (mkComplianceArgs (parse_i64 v) u j m r)
  | "--until" :: v :: args => parse_compliance_from args (mkComplianceArgs s (parse_i64 v) j m r)
  | "--scan-report" :: v :: args => parse_compliance_from args (mkComplianceArgs s u j m (Some v))
  | _ :: args => parse_compliance_from args o
  end.
(* @src compliancecli.rs parse_args *)
Definition parse_compliance_args (args : list string) : ComplianceArgs :=
  parse_compliance_from args (mkComplianceArgs None None false false None).

(* @src compliancecli.rs enf_label *)
Definition enf_label (e : Compliance.Enforcement) : string :=
  match e with
  | Compliance.Enforced => "enforced"
  | Compliance.Partial => "partial"
  | Compliance.Documented => "documented"
  end.
(** [.to_uppercase()] of it. *)
Definition enf_heading (e : Compliance.Enforcement) : string :=
  match e with
  | Compliance.Enforced => "ENFORCED"
  | Compliance.Partial => "PARTIAL"
  | Compliance.Documented => "DOCUMENTED"
  end.

Definition key_counts (m : gmap string Z) : list string :=
  (λ '(k, v), k +:+ "=" +:+ pretty v) <$> btree_list m.

(* @src compliancecli.rs evidence_summary *)
Definition evidence_summary (c : Compliance.ControlEvidence) : string :=
  let parts := key_counts (Compliance.decision_counts c) ++ key_counts (Compliance.finding_counts c)
               ++ (if 0 <? Compliance.incident_count c
                   then ["incidents=" +:+ pretty (Compliance.incident_count c)] else []) in
  match parts with [] => "—" | _ => join ", " parts end.

(** The list without the later occurrences. *)
Fixpoint distinct (l : list string) (seen : list string) : list string :=
  match l with
  | [] => []
  | x :: l => if bool_decide (x ∈ seen) then distinct l seen else x :: distinct l (x :: seen)
  end.

(* @src compliancecli.rs frameworks_for *)
Definition frameworks_for (id : string) : string :=
  match find (λ c, bool_decide (Compliance.control_id c = id)) Compliance.CATALOG with
  | Some c => join ", " (distinct (fst <$> Compliance.frameworks c) [])
  | None => ""
  end.

(* @src compliancecli.rs 173-182 print_human *)
Definition control_lines (c : Compliance.ControlEvidence) : list string :=
  let mark := if Compliance.covered c
              then if Compliance.evidence_seen c then "[x]" else "[~]" else "[ ]" in
  ["  " +:+ mark +:+ " " +:+ left_aligned 16 (Compliance.ce_control_id c) +:+ " "
     +:+ Compliance.ce_title c;
   "        evidence: " +:+ evidence_summary c].

Definition of_enforcement (e : Compliance.Enforcement) (cs : list Compliance.ControlEvidence)
  : list Compliance.ControlEvidence := filter (λ c, Compliance.ce_enforcement c = e) cs.

(* @src compliancecli.rs 164-183 print_human *)
Definition group_lines (cs : list Compliance.ControlEvidence) (e : Compliance.Enforcement)
  : list string :=
  match of_enforcement e cs with
  | [] => []
  | group => (enf_heading e +:+ ":") :: (group ≫= control_lines) ++ [""]
  end.

(* @src compliancecli.rs print_human *)
Definition human_lines (dir : string) (r : Compliance.ComplianceReport) : list string :=
  ["TokenFuse compliance — from " +:+ dir;
   "  " +:+ pretty (Compliance.decisions_total r) +:+ " decision(s) and "
     +:+ pretty (Compliance.findings_total r) +:+ " finding(s) in scope";
   ""]
  ++ ([Compliance.Enforced; Compliance.Partial; Compliance.Documented]
        ≫= group_lines (Compliance.controls r))
  ++ ["Legend: [x] covered, evidence seen  ·  [~] active guard, no events  ·  [ ] not covered"; "";
      Compliance.generated_note r; ""; "Frameworks (versions pinned at mapping time):"]
  ++ ((λ '(id, name, ver), "  " +:+ left_aligned 14 id +:+ " " +:+ name +:+ " — " +:+ ver)
        <$> Compliance.framework_versions r).

(* @src compliancecli.rs 204-217 print_markdown *)
Definition markdown_row (c : Compliance.ControlEvidence) : string :=
  "| `" +:+ Compliance.ce_control_id c +:+ "` " +:+ Compliance.ce_title c +:+ " | "
  +:+ enf_label (Compliance.ce_enforcement c) +:+ " | " +:+ frameworks_for (Compliance.ce_control_id c)
  +:+ " | " +:+ evidence_summary c +:+ " | "
  +:+ (if Compliance.covered c
       then if Compliance.evidence_seen c then "yes" else "yes (no events)" else "no") +:+ " |".

(* @src compliancecli.rs print_markdown *)
Definition markdown_lines (r : Compliance.ComplianceReport) : list string :=
  ["| Control | Enforcement | Frameworks | Evidence | Covered |"; "| --- | --- | --- | --- | --- |"]
  ++ (markdown_row <$> Compliance.controls r) ++ [""; "_" +:+ Compliance.generated_note r +:+ "_"].

(* @src compliancecli.rs load_findings *)
Definition load_findings {W} (io_error : string → string)
    (parse_report : string → result McpReport.ScanReport string) (path : string)
  : M (W := W) (list McpReport.Finding) :=
  raw ← read_to_string io_error path;
  match parse_report raw with
  | Ok r => mret (McpReport.findings r)
  | Err e => fail ("parse " +:+ path +:+ ": " +:+ e)
  end.

(* @src compliancecli.rs 78-87 run *)
Definition empty_note (dir : string) : list string :=
  ["TokenFuse compliance — no trace yet at " +:+ dir;
   "  showing the controls TokenFuse enforces; run some traffic (and optionally pass";
   "  --scan-report <mcp-scan.json>) to attach runtime evidence, then try again."; ""].

(* @src compliancecli.rs run *)
Definition compliance_run {W} (engine : Engine) (io_error : string → string)
    (parse_report : string → result McpReport.ScanReport string)
    (report_json : Compliance.ComplianceReport → string) (dir : string) (args : ComplianceArgs)
  : M (W := W) unit :=
  findings ← match ca_scan_report args with
             | Some path => load_findings io_error parse_report path
             | None => mret []
             end;
  let calls := match load_calls engine dir (ca_since args) (ca_until args) with
               | Ok calls => calls
               | Err _ => []
               end in
  let report := Compliance.compute_compliance Compliance.CATALOG calls findings in
  if ca_json args then println (report_json report)
  else if ca_markdown args then print_all (markdown_lines report)
  else print_all ((match calls, findings with [], [] => empty_note dir | _, _ => [] end)
                  ++ human_lines dir report).

(** ** Loading is exact *)

Definition is_text (col : Column) (cells : list string) : Prop := col = Utf8 cells ∨ col = Utf8View cells.

Lemma str_at_text col cells i s : is_text col cells → cells !! i = Some s → str_at col i = s.
Proof. by intros [-> | ->] Hi; simpl; rewrite Hi. Qed.

(** A batch that holds these calls. *)
Definition spells (b : Batch) (calls : list Savings.Call) : Prop :=
  num_rows b = length calls ∧
  ∃ c0 c1, columns b = [c0; c1; Int64 (Savings.cost_microusd <$> calls);
                        Int64 (Savings.saved_microusd <$> calls)] ∧
           is_text c0 (Savings.run_id <$> calls) ∧ is_text c1 (Savings.decision <$> calls).

Lemma batch_calls_exact b calls : spells b calls → batch_calls b = Ok calls.
Proof.
  intros (Hn & c0 & c1 & Hcols & H0 & H1). unfold batch_calls, column. rewrite Hcols, Hn. cbn.
  f_equal. apply list_eq. intros i. rewrite list_lookup_fmap.
  destruct (calls !! i) as [c|] eqn:Hc.
  - rewrite lookup_seq_lt by (by apply lookup_lt_Some in Hc). cbn. f_equal.
    rewrite (str_at_text c0 _ i (Savings.run_id c) H0), (str_at_text c1 _ i (Savings.decision c) H1)
      by (by rewrite list_lookup_fmap, Hc).
    unfold value. rewrite !list_lookup_fmap, Hc. by destruct c.
  - rewrite lookup_seq_ge by (by apply lookup_ge_None in Hc). done.
Qed.

Lemma load_rows_exact {A} (rows : Batch → result (list A) string) bs ls :
  Forall2 (λ b l, rows b = Ok l) bs ls → load_rows rows bs = Ok (concat ls).
Proof. induction 1 as [|b l bs ls Hb _ IH]; [done|]. simpl. by rewrite Hb, IH. Qed.

(** The loader returns exactly the calls of the answered batches, in order, whichever text type
    the engine chose. *)
Theorem load_calls_exact (engine : Engine) dir since until bs ls :
  engine (calls_sql since until) dir = Ok bs → Forall2 spells bs ls →
  load_calls engine dir since until = Ok (concat ls).
Proof.
  intros He Hs. unfold load_calls. rewrite He. apply load_rows_exact.
  apply (Forall2_impl _ _ _ _ Hs). intros b l. apply batch_calls_exact.
Qed.

(** An engine error is reported as an empty trace, whatever the error was. *)
Theorem unreadable_trace_reads_as_empty {W} (engine : Engine) dir e (w : World W) :
  engine (calls_sql None None) dir = Err e →
  savings_run engine dir w = (mkWorld (files w) (out w ++ print_empty dir) (err w) (net w), Ok tt).
Proof. intros He. unfold savings_run, load_calls. by rewrite He. Qed.

(** ** The printed reports are complete *)

(** The three groups of the human report hold every control once. *)
Lemma groups_are_controls cs :
  [Compliance.Enforced; Compliance.Partial; Compliance.Documented]
    ≫= (λ e, of_enforcement e cs) ≡ₚ cs.
Proof.
  induction cs as [|c cs IH]; [done|]. unfold of_enforcement in *. cbn [mbind list_bind] in *.
  rewrite !app_nil_r in *. rewrite !filter_cons.
  destruct (Compliance.ce_enforcement c) eqn:Hc; repeat case_decide; try congruence.
  - simpl. by rewrite IH.
  - cbn [app]. rewrite <- Permutation_middle. by rewrite IH.
  - cbn [app]. rewrite app_assoc, <- Permutation_middle, <- app_assoc. by rewrite IH.
Qed.

(** The auditor's table cannot be broken by what the trace or a scan report holds. *)
Definition bar : ascii := "|".

Lemma join_free c sep l :
  free_of c sep → Forall (free_of c) l → free_of c (join sep l).
Proof.
  intros Hsep. induction 1 as [|x l Hx Hl IH]; [done|]. destruct l as [|y l]; [done|].
  change (join sep (x :: y :: l)) with (x +:+ sep +:+ join sep (y :: l)).
  unfold free_of in *. rewrite !count_char_append. lia.
Qed.

Lemma pretty_bar (z : Z) : free_of bar (pretty z).
Proof. by apply (free_of_all bar _ digit_or_minus), pretty_Z_digits. Qed.

Lemma watch_keys keys m k : is_Some (Compliance.watch keys m !! k) → k ∈ keys.
Proof.
  rewrite Compliance.watch_lookup. case_decide; [done|]. by intros [? ?].
Qed.

Lemma key_counts_free keys m :
  Forall (free_of bar) keys → Forall (free_of bar) (key_counts (Compliance.watch keys m)).
Proof.
  intros Hk. apply Forall_fmap, Forall_forall. intros [k v] Hin%btree_list_elem. unfold compose.
  rewrite Forall_forall in Hk. unfold free_of in *. rewrite !count_char_append.
  rewrite (pretty_bar v), (Hk k) by (apply (watch_keys keys m); by eexists). done.
Qed.

(** The catalog's own texts. *)
Definition bars (s : string) : nat := count_char bar s.
Definition clean_control (c : Compliance.ControlMapping) : bool :=
  forallb (λ s, Nat.eqb (bars s) 0)
    ([Compliance.control_id c; Compliance.title c; frameworks_for (Compliance.control_id c)]
     ++ Compliance.evidence_decisions c ++ Compliance.evidence_finding_kinds c).

Lemma catalog_clean : forallb clean_control Compliance.CATALOG = true.
Proof. vm_compute. reflexivity. Qed.

Lemma evidence_free d f i c :
  clean_control c = true → free_of bar (evidence_summary (Compliance.control_evidence d f i c)).
Proof.
  unfold clean_control. rewrite !forallb_app, !andb_true_iff. intros (_ & Hd & Hf).
  assert (∀ l, forallb (λ s, Nat.eqb (bars s) 0) l = true → Forall (free_of bar) l) as Hall.
  { intros l Hl. rewrite forallb_forall in Hl. apply Forall_forall. intros s Hs.
    by apply Nat.eqb_eq, Hl, list_elem_of_In. }
  unfold evidence_summary, Compliance.control_evidence. cbn [Compliance.decision_counts
    Compliance.finding_counts Compliance.incident_count].
  set (parts := key_counts _ ++ _).
  assert (Forall (free_of bar) parts) as Hparts.
  { apply Forall_app. split; [by apply key_counts_free, Hall|]. apply Forall_app.
    split; [by apply key_counts_free, Hall|]. case_match; [|constructor]. constructor; [|constructor].
    unfold free_of. rewrite count_char_append. rewrite (pretty_bar _). done. }
  destruct parts as [|p parts]; [done|]. by apply join_free.
Qed.

Lemma row_bars d f i c :
  clean_control c = true → bars (markdown_row (Compliance.control_evidence d f i c)) = 6%nat.
Proof.
  intros Hc. pose proof (evidence_free d f i c Hc) as He. unfold bars, markdown_row.
  unfold clean_control in Hc. rewrite forallb_app in Hc. apply andb_true_iff in Hc as [Hc _].
  cbn [forallb] in Hc. rewrite !andb_true_iff, !Nat.eqb_eq in Hc. unfold bars in Hc.
  destruct Hc as (Hid & Ht & Hf & _). rewrite !count_char_append, He.
  cbn [Compliance.control_evidence Compliance.ce_control_id Compliance.ce_title].
  unfold Compliance.control_evidence.
  cbn [Compliance.ce_control_id Compliance.ce_title Compliance.ce_enforcement Compliance.covered
       Compliance.evidence_seen].
  rewrite Hid, Ht, Hf. destruct (Compliance.enforcement c); repeat case_match; reflexivity.
Qed.

(** Every control of the catalog has its row, in order, of five cells. *)
Theorem markdown_table_exact calls findings :
  ∃ rows, markdown_lines (Compliance.compute_compliance Compliance.CATALOG calls findings)
          = ["| Control | Enforcement | Frameworks | Evidence | Covered |";
             "| --- | --- | --- | --- | --- |"] ++ rows
            ++ [""; "_" +:+ Compliance.DISCLAIMER +:+ "_"] ∧
    length rows = length Compliance.CATALOG ∧ Forall (λ r, bars r = 6%nat) rows.
Proof.
  eexists. split; [reflexivity|]. split.
  - by rewrite !length_fmap.
  - apply Forall_fmap, Forall_fmap, Forall_forall. intros c Hc. unfold compose. apply row_bars.
    pose proof catalog_clean as Hall. rewrite forallb_forall in Hall.
    by apply Hall, list_elem_of_In.
Qed.
