(* ===== verification/KeysReport.v ===== *)
(** * The key lifecycle report

    [crates/gateway/src/keysreport.rs]: what is configured, bound and recorded of every
    client key, in one list.  The trace rows come from DataFusion and the directory from
    the environment: both are inputs. *)

From S2P Require Import Prelude Float Money Strings Taint Identity AppState.

(* @src keysreport.rs HISTORY_CACHE_TTL *)
Definition HISTORY_CACHE_TTL : Z := 15.

(* @src keysreport.rs HistoryFold *)
Record HistoryFold := mkFold {
  h_calls : Z;                          (* u64 *)
  h_identity_mismatches : Z;            (* u64 *)
  h_first_seen_millis : option Z;
  h_last_seen_millis : option Z
}.
Definition no_history : HistoryFold := mkFold 0 0 None None.

Abbreviation History := (gmap string HistoryFold) (only parsing).

(** A row of the trace: the key, the time and the decision. *)
Record TraceRow := mkTraceRow { t_key : string; t_ts : Z; t_decision : string }.

(* @src keysreport.rs 241-247 history_fold *)
Definition fold_entry (e : HistoryFold) (r : TraceRow) : HistoryFold :=
  mkFold (u64_wrap (h_calls e + 1))
    (if bool_decide (t_decision r = "identity_mismatch")
     then u64_wrap (h_identity_mismatches e + 1) else h_identity_mismatches e)
    (Some (match h_first_seen_millis e with Some f => Z.min f (t_ts r) | None => t_ts r end))
    (Some (match h_last_seen_millis e with Some l => Z.max l (t_ts r) | None => t_ts r end)).

(* @src keysreport.rs history_fold *)
Definition fold_rows (rows : list TraceRow) : History :=
  foldl (λ m r, <[t_key r := fold_entry (default no_history (m !! t_key r)) r]> m) ∅ rows.

(* @src keysreport.rs history_fold *)
Definition history_fold (query : string → string → result (list TraceRow) string) (dir : string)
  : result History string :=
  match query dir ("select coalesce(key_id, '') as key_id, ts_millis, decision from calls "
                   +:+ "where coalesce(key_id, '') <> ''") with
  | Ok rows => Ok (fold_rows rows)
  | Err e => Err e
  end.

(** When the fold was computed, for which directory, and the fold. *)
(* @src keysreport.rs HistoryCacheSlot *)
Record HistoryCacheSlot := mkSlot { s_at : Z; s_dir : string; s_fold : History }.

(** [now] is the instant of the lookup, [scanned] the scan of the directory and [done_at] the
    instant it ended; instants are in seconds, as exact as the clock. *)
(* @src keysreport.rs cached_history_fold *)
Definition cached_history_fold (cache : option HistoryCacheSlot) (dir : string) (now done_at : Z)
    (scanned : result History string) : option HistoryCacheSlot * result History string :=
  let fresh := match cache with
               | Some c => if bool_decide (s_dir c = dir) && (now - s_at c <? HISTORY_CACHE_TTL)
                           then Some (s_fold c) else None
               | None => None
               end in
  match fresh with
  | Some fold => (cache, Ok fold)
  | None => match scanned with
            | Ok fold => (Some (mkSlot done_at dir fold), Ok fold)
            | Err e => (cache, Err e)
            end
  end.

(** ** The report *)

(* @src keysreport.rs KeyView *)
Record KeyView := mkKeyView {
  v_key_id : string;
  v_configured : bool;
  v_bound : bool;
  v_unit : option string;
  v_agents : list string;
  v_created : option string;
  v_since_startup : KeyCounters;
  v_history : option HistoryFold
}.

(* @src keysreport.rs KeysReport *)
Record KeysReport := mkReport {
  strict_mode : string;
  identity_map_configured : bool;
  history_available : bool;
  unauthorized_since_startup : UnauthorizedCounters;
  keys : list KeyView
}.

Section report.
Context (client_keys : ClientKeys) (identity : IdentityMap) (strict : StrictMode) (stats : KeyStats).

(** The trimmed directory, when there is one. *)
(* @src keysreport.rs 119 build_report *)
Definition trace_dir (data_dir : option string) : option string :=
  match trim <$> data_dir with
  | Some d => if bool_decide (d = "") then None else Some d
  | None => None
  end.

(* @src keysreport.rs 152-176 build_report *)
Definition key_view (history : option History) (key_id : string) : KeyView :=
  let binding := IdentityMap.key_binding identity key_id in
  mkKeyView key_id
    (bool_decide (key_id ∈ ClientKeys.key_ids client_keys))
    (bool_decide (is_Some binding))
    (ki_unit <$> binding)
    (default [] (ki_agents <$> binding))
    (binding ≫= ki_created)
    (default default_counters ((KeyStats.snapshot stats).1 !! key_id))
    ((λ h : History, default no_history (h !! key_id)) <$> history).

(** The keys of the three sources. *)
(* @src keysreport.rs 143-147 build_report *)
Definition all_keys (history : option History) : gset string :=
  list_to_set (ClientKeys.key_ids client_keys) ∪ list_to_set (IdentityMap.key_ids identity)
  ∪ dom (default (∅ : History) history).

(** [scanned] is what the history fold answered, [None] when there is no directory. *)
(* @src keysreport.rs build_report *)
Definition build_report (scanned : option (result History string)) : KeysReport :=
  let history := match scanned with Some (Ok fold) => Some fold | _ => None end in
  mkReport (StrictMode.as_wire_str strict) (IdentityMap.enabled identity)
    (bool_decide (is_Some history)) (KeyStats.snapshot stats).2
    (key_view history <$> sorted_elements (all_keys history)).

(** The handler, over the shared cache. *)
(* @src keysreport.rs list_keys *)
Definition list_keys (query : string → string → result (list TraceRow) string)
    (data_dir : option string) (now done_at : Z) (cache : option HistoryCacheSlot)
  : option HistoryCacheSlot * KeysReport :=
  match trace_dir data_dir with
  | None => (cache, build_report None)
  | Some dir =>
      let '(cache, scanned) := cached_history_fold cache dir now done_at (history_fold query dir) in
      (cache, build_report (Some scanned))
  end.
End report.

(** ** Correctness *)

Definition of_key (k : string) (rows : list TraceRow) : list TraceRow :=
  filter (λ r, t_key r = k) rows.
Definition mismatches (rows : list TraceRow) : list TraceRow :=
  filter (λ r, t_decision r = "identity_mismatch") rows.

(** The least and the greatest of a list's times. *)
Definition earliest (rows : list TraceRow) (t : Z) : Prop :=
  (∃ r, r ∈ rows ∧ t_ts r = t) ∧ ∀ r, r ∈ rows → t ≤ t_ts r.
Definition latest (rows : list TraceRow) (t : Z) : Prop :=
  (∃ r, r ∈ rows ∧ t_ts r = t) ∧ ∀ r, r ∈ rows → t_ts r ≤ t.

(** The fold of one key's rows. *)
Definition summarizes (rows : list TraceRow) (h : HistoryFold) : Prop :=
  h_calls h = u64_wrap (Z.of_nat (length rows)) ∧
  h_identity_mismatches h = u64_wrap (Z.of_nat (length (mismatches rows))) ∧
  match rows with
  | [] => h_first_seen_millis h = None ∧ h_last_seen_millis h = None
  | _ => ∃ a b, h_first_seen_millis h = Some a ∧ earliest rows a ∧
                h_last_seen_millis h = Some b ∧ latest rows b
  end.

Lemma u64_wrap_succ n : u64_wrap (u64_wrap n + 1) = u64_wrap (n + 1).
Proof. unfold u64_wrap. by rewrite Z.add_mod_idemp_l. Qed.

Lemma fold_entry_summary rows h r : summarizes rows h → summarizes (rows ++ [r]) (fold_entry h r).
Proof.
  intros (Hc & Hm & Ht). unfold summarizes, mismatches in *. rewrite filter_app, !length_app. cbn.
  split_and!.
  - rewrite Hc, u64_wrap_succ. f_equal. lia.
  - rewrite Hm. case_bool_decide; case_decide; try done; cbn.
    + rewrite u64_wrap_succ. f_equal. lia.
    + f_equal. lia.
  - unfold earliest, latest. destruct rows as [|r0 rows]; cbn [app].
    + destruct Ht as [-> ->]. exists (t_ts r), (t_ts r).
      split_and!; try done; try (exists r; set_solver);
        intros r' ->%list_elem_of_singleton; lia.
    + destruct Ht as (a & b & -> & [(ra & Ha & Hat) Hal] & -> & [(rb & Hb & Hbt) Hbl]).
      exists (Z.min a (t_ts r)), (Z.max b (t_ts r)). rewrite app_comm_cons.
      setoid_rewrite elem_of_app. setoid_rewrite list_elem_of_singleton. split_and!; try done.
      * destruct (Z.min_spec a (t_ts r)) as [[_ ->]|[_ ->]]; [exists ra|exists r]; auto.
      * intros r' [H%Hal| ->]; lia.
      * destruct (Z.max_spec b (t_ts r)) as [[_ ->]|[_ ->]]; [exists r|exists rb]; auto.
      * intros r' [H%Hbl| ->]; lia.
Qed.

(** The history of a key is that of its rows and of no others: how many calls and
    mismatches, the first and the last time seen; and a key is in the fold exactly when some row
    carries it. *)
Theorem history_exact rows k :
  summarizes (of_key k rows) (default no_history (fold_rows rows !! k)) ∧
  (is_Some (fold_rows rows !! k) ↔ ∃ r, r ∈ rows ∧ t_key r = k).
Proof.
  unfold fold_rows, of_key. induction rows as [|r rows [IH1 IH2]] using rev_ind.
  - split; [done|]. split; [by intros [? ?]|set_solver].
  - rewrite foldl_snoc, filter_app, filter_cons, filter_nil. destruct (decide (t_key r = k)) as [<-|Hk].
    + rewrite lookup_insert_eq. split; [by apply fold_entry_summary|]. set_solver.
    + rewrite lookup_insert_ne, app_nil_r by done. split; [done|]. rewrite IH2. set_solver.
Qed.

Section report.
Context (client_keys : ClientKeys) (identity : IdentityMap) (strict : StrictMode) (stats : KeyStats).

Lemma sorted_elements_perm s : sorted_elements s ≡ₚ elements s.
Proof. apply merge_sort_Permutation. Qed.

(** The report has one entry per key that is configured, bound or in the history, and no
    other, and an entry says of its key what each source says; without a readable trace every
    key's history is absent rather than empty. *)
Theorem report_complete scanned k :
  let r := build_report client_keys identity strict stats scanned in
  let history := match scanned with Some (Ok fold) => Some fold | _ => None end in
  NoDup (v_key_id <$> keys r) ∧
  (k ∈ v_key_id <$> keys r ↔
   (∃ secret, by_secret client_keys !! secret = Some k) ∨ is_Some (im_keys identity !! k)
   ∨ ∃ fold, history = Some fold ∧ is_Some (fold !! k)) ∧
  (∀ v, v ∈ keys r → v_key_id v = k →
   (v_configured v = true ↔ ∃ secret, by_secret client_keys !! secret = Some k) ∧
   (v_bound v = true ↔ is_Some (im_keys identity !! k)) ∧
   v_unit v = kb_unit <$> im_keys identity !! k ∧
   v_history v = (λ fold : History, default no_history (fold !! k)) <$> history) ∧
  history_available r = bool_decide (is_Some history).
Proof.
  intros r history. unfold r, build_report. fold history. cbn [keys history_available].
  assert (v_key_id <$> (key_view client_keys identity stats history
            <$> sorted_elements (all_keys client_keys identity history))
          = sorted_elements (all_keys client_keys identity history)) as Hk
    by (rewrite <- list_fmap_compose; apply list_fmap_id).
  assert (k ∈ ClientKeys.key_ids client_keys ↔ ∃ secret, by_secret client_keys !! secret = Some k)
    as Hc.
  { unfold ClientKeys.key_ids. rewrite list_elem_of_fmap. split.
    - intros ([s ?] & -> & H%elem_of_map_to_list). by exists s.
    - intros (s & H). exists (s, k). by rewrite elem_of_map_to_list. }
  assert (k ∈ IdentityMap.key_ids identity ↔ is_Some (im_keys identity !! k)) as Hi.
  { unfold IdentityMap.key_ids. rewrite list_elem_of_fmap. split.
    - intros ([? b] & -> & H%elem_of_map_to_list). by exists b.
    - intros (b & H). exists (k, b). by rewrite elem_of_map_to_list. }
  split_and!; [| | |done].
  - rewrite Hk, sorted_elements_perm. apply NoDup_elements.
  - rewrite Hk, sorted_elements_perm, elem_of_elements. unfold all_keys.
    rewrite !elem_of_union, !elem_of_list_to_set, elem_of_dom, Hc, Hi.
    destruct history as [fold|]; cbn; [naive_solver|].
    split; [|naive_solver]. intros [H|[? [=]]]; tauto.
  - intros v (k' & -> & _)%list_elem_of_fmap Hv. cbn in Hv. subst k'. cbn.
    rewrite !bool_decide_eq_true, Hc. unfold IdentityMap.key_binding. rewrite fmap_is_Some.
    split_and!; [done|done| |done]. by destruct (im_keys identity !! k).
Qed.
End report.

(** A served fold is at most the time to live old, of the directory asked for, or just made. *)
Lemma cached_fold_fresh cache dir now done_at scanned fold :
  (cached_history_fold cache dir now done_at scanned).2 = Ok fold →
  scanned = Ok fold ∨ ∃ c, cache = Some c ∧ s_dir c = dir ∧ s_fold c = fold ∧ now - s_at c < 15.
Proof.
  unfold cached_history_fold. destruct cache as [c|].
  - destruct (bool_decide (s_dir c = dir) && (now - s_at c <? HISTORY_CACHE_TTL)) eqn:E.
    + apply andb_true_iff in E as [E1 E2%Z.ltb_lt]. breflect. intros [= <-]. right. eauto.
    + destruct scanned; intros [= <-]. by left.
  - destruct scanned; intros [= <-]. by left.
Qed.
