(* ===== verification/Sinks.v ===== *)
(** * Trace sinks, control-plane pollers and the default prices

    [crates/gateway/src/sink.rs], [cloudsink.rs] and [pricebook.rs].  A sink buffers records
    behind a mutex and hands full buffers to a writer outside it, so several batches may be on
    their way at once: the sinks are step relations over the buffer, the batches in flight and
    what arrived.  Whether a write or a push succeeds is an input of its step; the Parquet
    encoding is the library's. *)

From S2P Require Import Prelude Float Money Strings Text UnitLedger AppState LedgerBackend.

(** ** Sinks *)

(** What the gateway asks of a sink. *)
(* @src gateway/sink.rs EventSink *)
Class EventSink (S : Type) := { record : CallRecord → S → S; flush : S → S }.

(* @src gateway/sink.rs 124-127 NullSink *)
#[export] Instance NullSink : EventSink unit := {| record := λ _ s, s; flush := λ s, s |}.

(* @src gateway/sink.rs 135-144 TeeSink *)
#[export] Instance TeeSink {A B} `{EventSink A} `{EventSink B} : EventSink (A * B) :=
  {| record := λ r '(a, b), (record r a, record r b); flush := λ '(a, b), (flush a, flush b) |}.

(** The buffer, the batches on their way and what became of the others, and, for the theorems,
    every record in the order it was recorded. *)
Record Sink := mkSink {
  buffer : list CallRecord;
  in_flight : list (list CallRecord);
  arrived : list (list CallRecord);
  lost : list (list CallRecord);
  recorded : list CallRecord
}.
Definition empty_sink : Sink := mkSink [] [] [] [] [].

(** [buf.push(rec)] *)
Definition push (r : CallRecord) (s : Sink) : Sink :=
  mkSink (buffer s ++ [r]) (in_flight s) (arrived s) (lost s) (recorded s ++ [r]).

(** [std::mem::take(&mut *buf)]; nothing is sent for an empty buffer. *)
(* @src gateway/sink.rs ParquetSink::flush *)
Definition take_all (s : Sink) : Sink :=
  match buffer s with
  | [] => s
  | b => mkSink [] (in_flight s ++ [b]) (arrived s) (lost s) (recorded s)
  end.

(** A batch in flight ends: it arrived, or it is dropped. *)
Definition land (before : list (list CallRecord)) (b : list CallRecord)
    (after : list (list CallRecord)) (ok : bool) (s : Sink) : Sink :=
  mkSink (buffer s) (before ++ after) (if ok then arrived s ++ [b] else arrived s)
    (if ok then lost s else lost s ++ [b]) (recorded s).

(** ** The Parquet sink *)

Record ParquetSink := mkParquet {
  sink : Sink;
  threshold : nat;
  seq : Z;                                    (* AtomicU64 *)
  instance : string;
  files : gmap string (list CallRecord)
}.

(** [token] is the process id and the start time in hexadecimal. *)
(* @src gateway/sink.rs ParquetSink::new *)
Definition new_parquet (limit : nat) (token : string) : ParquetSink :=
  mkParquet empty_sink (limit `max` 1) 0 token ∅.

(** The critical section of [record]. *)
(* @src gateway/sink.rs 381-393 ParquetSink::record *)
Definition parquet_push (r : CallRecord) (p : ParquetSink) : ParquetSink :=
  let s := push r (sink p) in
  mkParquet (if (threshold p <=? length (buffer s))%nat then take_all s else s)
    (threshold p) (seq p) (instance p) (files p).

(** [format!("calls-{}-{seq:08}.parquet", self.instance)] *)
(* @src gateway/sink.rs 364-367 ParquetSink::write_batch *)
Definition segment_name (token : string) (n : Z) : string :=
  "calls-" +:+ token +:+ String "-" (pad_left 8 (pretty n) +:+ ".parquet").

(** Writing a batch in flight; [File::create] truncates. *)
(* @src gateway/sink.rs ParquetSink::write_batch *)
Definition write_batch (before : list (list CallRecord)) (b : list CallRecord)
    (after : list (list CallRecord)) (ok : bool) (p : ParquetSink) : ParquetSink :=
  let name := segment_name (instance p) (seq p) in
  mkParquet (land before b after ok (sink p)) (threshold p) (u64_wrap (seq p + 1)) (instance p)
    (if ok then <[name := b]> (files p) else delete name (files p)).

(** [record] up to the write of the batch it took, and [flush] likewise. *)
#[export] Instance parquet_sink : EventSink ParquetSink :=
  {| record := parquet_push;
     flush := λ p, mkParquet (take_all (sink p)) (threshold p) (seq p) (instance p) (files p) |}.

Inductive parquet_step : ParquetSink → ParquetSink → Prop :=
| PRecord r p : parquet_step p (parquet_push r p)
| PFlush p :
    parquet_step p (flush p)
| PWrite p before b after ok :
    in_flight (sink p) = before ++ b :: after → parquet_step p (write_batch before b after ok p).

(** ** The cloud sink *)

(* @src cloudsink.rs BATCH *)
Definition BATCH : nat := 20.

(* @src cloudsink.rs CloudSink::take_if_full *)
Definition take_if_full (s : Sink) : Sink :=
  if (BATCH <=? length (buffer s))%nat then take_all s else s.

(** [record] is two critical sections; a push may fail and is not retried. *)
(* @src cloudsink.rs 46-92 CloudSink *)
Inductive cloud_step : Sink → Sink → Prop :=
| CPush r s : cloud_step s (push r s)
| CTake s : cloud_step s (take_if_full s)
| CFlush s : cloud_step s (take_all s)
| CShip s before b after ok :
    in_flight s = before ++ b :: after → cloud_step s (land before b after ok s).

(** ** Polling the control plane *)

(** The answer to a poll: no answer, or a status and a body that may be cut short. *)
Inductive Polled := NoAnswer | Answered (status : Z) (body : option string).

(** The payload of a successful poll, if there is one. *)
(* @src cloudsink.rs 113-136 spawn_budget_poller *)
Definition polled {A} (decode : string → option A) (a : Polled) : option A :=
  match a with
  | Answered status body =>
      if (200 <=? status) && (status <? 300) then body ≫= decode else None
  | NoAnswer => None
  end.

(* @src cloudsink.rs spawn_budget_poller *)
Definition budget_tick (decode : string → option (gmap string Microusd)) (a : Polled)
    (s : AppState) : AppState :=
  match polled decode a with Some m => AppState.set_cloud_budgets s m | None => s end.

(* @src cloudsink.rs spawn_kill_poller *)
Definition kill_tick (decode : string → option (list string)) (a : Polled) (s : AppState) : AppState :=
  match polled decode a with Some runs => foldl AppState.kill s runs | None => s end.

(* @src cloudsink.rs spawn_unit_budget_poller *)
Definition unit_budget_tick (decode : string → option (gmap string Microusd)) (a : Polled)
    (l : UnitLedger) : UnitLedger :=
  match polled decode a with Some m => UnitLedger.set_overrides l m | None => l end.

(** ** The default prices *)

(** [n/d] as the decimal literal of the source. *)
Definition usd (n d : Z) : f64 := f64_lit n d.

(* @src pricebook.rs default_price_book *)
Definition default_price_book : PriceBook :=
  let price := ModelPrice.per_mtok_usd in
  let with_ m p b := PriceBook.with_ b m p in
  PriceBook.with_fallback
   (with_ "o1" (price (usd 15 1) (usd 60 1) (usd 15 2) (usd 15 1))
   (with_ "gpt-4o-mini" (price (usd 15 100) (usd 60 100) (usd 75 1000) (usd 15 100))
   (with_ "gpt-4o" (price (usd 5 2) (usd 10 1) (usd 5 4) (usd 5 2))
   (with_ "claude-opus-4-5-20251101" (price (usd 5 1) (usd 25 1) (usd 1 2) (usd 25 4))
   (with_ "claude-opus-4-5" (price (usd 5 1) (usd 25 1) (usd 1 2) (usd 25 4))
   (with_ "claude-sonnet-4-5-20250929" (price (usd 3 1) (usd 15 1) (usd 3 10) (usd 15 4))
   (with_ "claude-sonnet-4-5" (price (usd 3 1) (usd 15 1) (usd 3 10) (usd 15 4))
   (with_ "claude-haiku-4-5-20251001" (price (usd 1 1) (usd 5 1) (usd 1 10) (usd 5 4))
   (with_ "claude-haiku-4-5" (price (usd 1 1) (usd 5 1) (usd 1 10) (usd 5 4))
   (with_ "gpt" (price (usd 5 2) (usd 10 1) (usd 1 4) (usd 25 8))
   (with_ "claude-haiku" (price (usd 8 10) (usd 4 1) (usd 8 100) (usd 1 1))
   (with_ "claude-sonnet" (price (usd 3 1) (usd 15 1) (usd 30 100) (usd 15 4))
    PriceBook.new))))))))))))
   (price (usd 15 1) (usd 75 1) (usd 3 2) (usd 75 4)).

(** ** Correctness *)

(** Every record is in exactly one place. *)
Definition conserved (s : Sink) : Prop :=
  recorded s ≡ₚ mjoin (arrived s) ++ mjoin (lost s) ++ mjoin (in_flight s) ++ buffer s.

Lemma mjoin_snoc {A} (l : list (list A)) b : mjoin (l ++ [b]) = mjoin l ++ b.
Proof. rewrite join_app. cbn. by rewrite app_nil_r. Qed.

Lemma push_conserved r s : conserved s → conserved (push r s).
Proof. unfold conserved. intros H. cbn. rewrite H. by rewrite <- !app_assoc. Qed.

Lemma take_conserved s : conserved s → conserved (take_all s).
Proof.
  unfold conserved, take_all. intros H. destruct (buffer s) as [|r b] eqn:E; [by rewrite H, E|].
  cbn [recorded arrived lost in_flight buffer]. rewrite H, mjoin_snoc, app_nil_r. done.
Qed.

Lemma land_conserved before b after ok s :
  in_flight s = before ++ b :: after → conserved s → conserved (land before b after ok s).
Proof.
  unfold conserved, land. intros Hi H. rewrite Hi in H. cbn. rewrite H, !join_app. cbn.
  destruct ok; rewrite mjoin_snoc; solve_Permutation.
Qed.

Lemma take_all_empty s : length (buffer (take_all s)) = 0%nat.
Proof. unfold take_all. by destruct (buffer s) eqn:E; cbn; rewrite ?E. Qed.

(** A sink loses nothing by itself. Under every interleaving of recording, flushing and
    writing, each record of the trace is exactly once among what arrived, the batches a failed
    write dropped, the batches on their way and the buffer; so once a flush has been written out
    and no write failed, what arrived is what was recorded. *)
Theorem parquet_conserves limit token p :
  rtc parquet_step (new_parquet limit token) p →
  conserved (sink p) ∧ (length (buffer (sink p)) < threshold p)%nat ∧
  (lost (sink p) = [] → in_flight (sink p) = [] → buffer (sink p) = [] →
   mjoin (arrived (sink p)) ≡ₚ recorded (sink p)).
Proof.
  intros H. assert (conserved (sink p) ∧ (length (buffer (sink p)) < threshold p)%nat) as [H1 H2].
  { refine (rtc_ind_r (λ p, conserved (sink p) ∧ (length (buffer (sink p)) < threshold p)%nat)
              _ _ _ _ H); [split; [by constructor|cbn; lia]|].
    clear. intros p q _ Hs [IH1 IH2].
    destruct Hs as [r p|p|p before b after ok Hi]; unfold parquet_push, write_batch, flush, parquet_sink;
      cbn [sink threshold].
    - destruct (threshold p <=? _)%nat eqn:E.
      + split; [by apply take_conserved, push_conserved|]. rewrite take_all_empty. lia.
      + apply Nat.leb_gt in E. by split; [apply push_conserved|].
    - split; [by apply take_conserved|]. rewrite take_all_empty. lia.
    - by split; [apply land_conserved|]. }
  split_and!; [done..|]. intros Hl Hi Hb. unfold conserved in H1. rewrite Hl, Hi, Hb in H1.
  cbn in H1. by rewrite app_nil_r in H1.
Qed.

Lemma cloud_conserves s : rtc cloud_step empty_sink s → conserved s.
Proof.
  intros H. refine (rtc_ind_r conserved _ _ _ _ H); [by constructor|].
  intros t u _ [r v|v|v|v before b after ok Hi] Hc.
  - by apply push_conserved.
  - unfold take_if_full. by case_match; [apply take_conserved|].
  - by apply take_conserved.
  - by apply land_conserved.
Qed.

Lemma digits_no_dash n : 0 ≤ n → count_char "-" (pad_left 8 (pretty n)) = 0%nat.
Proof. intros H. apply (free_of_all _ _ is_digit_char); [done|]. by apply pad_left_spec. Qed.

(** Two segments of one writer, or of writers with different tokens, have different names. *)
Lemma segment_name_inj a b n m :
  0 ≤ n → 0 ≤ m → segment_name a n = segment_name b m → a = b ∧ n = m.
Proof.
  intros Hn Hm. unfold segment_name. intros H. simplify_eq.
  apply sep_split_count in H as [-> H].
  2:{ by rewrite !count_char_append, !digits_no_dash. }
  split; [done|].
  assert (strip_suffix ".parquet" (pad_left 8 (pretty n) +:+ ".parquet")
          = strip_suffix ".parquet" (pad_left 8 (pretty m) +:+ ".parquet")) as H' by by rewrite H.
  rewrite !strip_suffix_append in H'. simplify_eq.
  destruct (pad_left_spec 7 n) as (_ & Pn & _); [done|].
  destruct (pad_left_spec 7 m) as (_ & Pm & _); [done|]. congruence.
Qed.

(** The segments on disk of a writer that has written fewer than [2^64]: one per batch that
    arrived, under a number below the next. *)
Definition segments_ok (p : ParquetSink) : Prop :=
  (snd <$> map_to_list (files p)) ≡ₚ arrived (sink p) ∧ 0 ≤ seq p ∧
  ∀ name, is_Some (files p !! name) → ∃ n, 0 ≤ n < seq p ∧ name = segment_name (instance p) n.

(** The steps of a writer whose counter does not wrap. *)
Definition counted_step (p q : ParquetSink) : Prop := parquet_step p q ∧ seq p < u64_max.

(** No segment overwrites another: as long as the counter does not wrap, the files on disk
    are exactly the batches that arrived. *)
Theorem segments_kept limit token p :
  rtc counted_step (new_parquet limit token) p →
  (snd <$> map_to_list (files p)) ≡ₚ arrived (sink p).
Proof.
  intros H. cut (segments_ok p); [by intros [? _]|].
  refine (rtc_ind_r segments_ok _ _ _ _ H).
  { split_and!; [done|done|]. intros name [? [=]]. }
  clear. intros p q _ [Hs Hlt] (Hf & H0 & Hn). destruct Hs as [r p|p|p before b after ok Hi].
  - unfold segments_ok, parquet_push. cbn. split; [|done]. unfold take_all.
    destruct (threshold p <=? _)%nat; [|done]. by destruct (buffer _).
  - unfold segments_ok, flush, parquet_sink. cbn. split; [|done]. unfold take_all.
    by destruct (buffer _).
  - assert (files p !! segment_name (instance p) (seq p) = None) as Hfresh.
    { apply eq_None_not_Some. intros (n & Hlt' & E)%Hn. apply segment_name_inj in E as [_ E]; lia. }
    unfold segments_ok, write_batch. cbn [files sink seq instance land arrived].
    assert (u64_wrap (seq p + 1) = seq p + 1) as -> by (unfold u64_wrap; rewrite Z.mod_small; mach).
    destruct ok.
    + split_and!; [|lia|].
      * rewrite map_to_list_insert by done. cbn. rewrite Hf. apply Permutation_cons_append.
      * intros name [b' [[<- _]|[_ H]]%lookup_insert_Some]; [exists (seq p); split; [lia|done]|].
        destruct (Hn name) as (n & Hn' & ->); [by exists b'|]. exists n. split; [lia|done].
    + rewrite delete_id by done. split_and!; [done|lia|]. intros name (n & Hn' & ->)%Hn.
      exists n. split; [lia|done].
Qed.

(** A poll that fails in any way changes nothing; kills only accumulate. *)
Lemma poll_failed {A} (decode : string → option A) a :
  (∀ status body, a = Answered status body → ¬ 200 ≤ status < 300) →
  polled decode a = None.
Proof.
  intros H. destruct a as [|status body]; [done|]. cbn. specialize (H status body eq_refl).
  destruct (200 <=? status) eqn:E1; [|done]. destruct (status <? 300) eqn:E2; [|done].
  apply Z.leb_le in E1. apply Z.ltb_lt in E2. lia.
Qed.

Lemma kill_tick_keeps decode a s run :
  AppState.is_killed s run = true → AppState.is_killed (kill_tick decode a s) run = true.
Proof.
  unfold kill_tick. destruct (polled decode a) as [runs|]; [|done].
  revert s. induction runs as [|r runs IH]; intros s H; [done|]. apply IH.
  unfold AppState.is_killed, AppState.kill in *. cbn.
  rewrite bool_decide_eq_true in *. set_solver.
Qed.

(** Microdollars per million tokens of one entry. *)
Definition rates (p : ModelPrice) : list Z :=
  [input_per_mtok p; output_per_mtok p; cache_read_per_mtok p; cache_write_per_mtok p].

(** The literals of the table are the microdollars meant. *)
Example price_table :
  (λ m, rates <$> PriceBook.price default_price_book m) <$>
    ["claude-sonnet-4-5"; "claude-haiku"; "gpt-4o-mini"; "o1"; "unheard-of"] =
  [Some [3000000; 15000000; 300000; 3750000]; Some [800000; 4000000; 80000; 1000000];
   Some [150000; 600000; 75000; 150000]; Some [15000000; 60000000; 7500000; 15000000];
   Some [15000000; 75000000; 1500000; 18750000]].
Proof. vm_compute. reflexivity. Qed.

(** The fallback is at least as dear as every listed model in input, output and cache writes,
    but not in cache reads. *)
Lemma fallback_dominates m p :
  prices default_price_book !! m = Some p →
  input_per_mtok p ≤ 15000000 ∧ output_per_mtok p ≤ 75000000 ∧ cache_write_per_mtok p ≤ 18750000.
Proof.
  intros H. assert (map_Forall (λ _ p, input_per_mtok p ≤ 15000000 ∧ output_per_mtok p ≤ 75000000 ∧
    cache_write_per_mtok p ≤ 18750000) (prices default_price_book)) as Hall.
  { apply (bool_decide_unpack _). vm_compute. done. }
  exact (Hall m p H).
Qed.

Definition demo_record (run : string) : CallRecord :=
  mkCallRecord 1 run "m" "allow" 100 50 700 1 "" 0 "" "" "" "" "" None.

Lemma parquet_conserves_witness :
  let p := write_batch [] [demo_record "r1"; demo_record "r2"] [] true
             (parquet_push (demo_record "r2") (parquet_push (demo_record "r1") (new_parquet 2 "t"))) in
  conserved (sink p) ∧ mjoin (arrived (sink p)) ≡ₚ recorded (sink p).
Proof.
  assert (rtc parquet_step (new_parquet 2 "t")
    (write_batch [] [demo_record "r1"; demo_record "r2"] [] true
      (parquet_push (demo_record "r2") (parquet_push (demo_record "r1") (new_parquet 2 "t"))))) as H.
  { eapply rtc_l; [apply (PRecord (demo_record "r1"))|].
    eapply rtc_l; [apply (PRecord (demo_record "r2"))|].
    eapply rtc_l; [|apply rtc_refl]. apply PWrite. reflexivity. }
  pose proof (parquet_conserves 2 "t" _ H) as (H1 & _ & H2).
  split; [exact H1|]. apply H2; reflexivity.
Defined.

(** ** The columns of the trace

    The files [ParquetSink] writes and the schema they are read with: columns were appended over
    time, so a directory holds files with fewer columns than today's, and the reader fills the
    missing ones with nulls. *)

Module TraceFiles.

Inductive DataType := Int64 | Utf8 | UInt64 | UInt32.
#[export] Instance DataType_eq_dec : EqDecision DataType.
Proof. solve_decision. Defined.

(** A column of a schema: its name, its type and whether it may hold nulls. *)
Record Column := mkColumn { c_name : string; c_type : DataType; c_nullable : bool }.

(** The values of a column. *)
Inductive Values := Numbers (t : DataType) (l : list (option Z)) | Texts (l : list (option string)).

(* @src gateway/sink.rs ParquetSink::schema *)
Definition schema : list Column :=
  [mkColumn "ts_millis" Int64 false;
   mkColumn "run_id" Utf8 false;
   mkColumn "model" Utf8 false;
   mkColumn "decision" Utf8 false;
   mkColumn "input_tokens" UInt64 false;
   mkColumn "output_tokens" UInt64 false;
   mkColumn "cost_microusd" Int64 false;
   mkColumn "step" UInt32 false;
   mkColumn "agent_id" Utf8 false;
   mkColumn "saved_microusd" Int64 false;
   mkColumn "parent_run_id" Utf8 false;
   mkColumn "on_behalf_of" Utf8 false;
   mkColumn "outcome" Utf8 false;
   mkColumn "key_id" Utf8 false;
   mkColumn "unit" Utf8 false;
   mkColumn "tool_calls" UInt32 true].

(* @src gateway/sink.rs ParquetSink::read_schema *)
Definition read_schema : list Column :=
  [mkColumn "ts_millis" Int64 false;
   mkColumn "run_id" Utf8 false;
   mkColumn "model" Utf8 false;
   mkColumn "decision" Utf8 false;
   mkColumn "input_tokens" UInt64 false;
   mkColumn "output_tokens" UInt64 false;
   mkColumn "cost_microusd" Int64 false;
   mkColumn "step" UInt32 false;
   mkColumn "agent_id" Utf8 true;
   mkColumn "saved_microusd" Int64 true;
   mkColumn "parent_run_id" Utf8 true;
   mkColumn "on_behalf_of" Utf8 true;
   mkColumn "outcome" Utf8 true;
   mkColumn "key_id" Utf8 true;
   mkColumn "unit" Utf8 true;
   mkColumn "tool_calls" UInt32 true].

(** The columns of a batch; a column of plain values holds no null. *)
Definition numbers (t : DataType) (f : CallRecord → Z) (rs : list CallRecord) : Values :=
  Numbers t ((λ r, Some (f r)) <$> rs).
Definition texts (f : CallRecord → string) (rs : list CallRecord) : Values :=
  Texts ((λ r, Some (f r)) <$> rs).

(* @src gateway/sink.rs 272-345 ParquetSink::write_batch *)
Definition batch_columns (rs : list CallRecord) : list Values :=
  [numbers Int64 ts_millis rs;
   texts cr_run_id rs;
   texts cr_model rs;
   texts decision rs;
   numbers UInt64 cr_input_tokens rs;
   numbers UInt64 cr_output_tokens rs;
   numbers Int64 cost_microusd rs;
   numbers UInt32 cr_step rs;
   texts agent_id rs;
   numbers Int64 saved_microusd rs;
   texts parent_run_id rs;
   texts on_behalf_of rs;
   texts outcome rs;
   texts key_id rs;
   texts cr_unit rs;
   Numbers UInt32 (cr_tool_calls <$> rs)].

(** *** What Arrow demands of a batch *)

Definition no_nulls {A} (l : list (option A)) : Prop := Forall is_Some l.

(** The type of the column, its length and no null where none may be. *)
Definition conforms (rows : nat) (c : Column) (v : Values) : Prop :=
  match v with
  | Numbers t l => c_type c = t ∧ t ≠ Utf8 ∧ length l = rows ∧ (c_nullable c = false → no_nulls l)
  | Texts l => c_type c = Utf8 ∧ length l = rows ∧ (c_nullable c = false → no_nulls l)
  end.
Definition valid_batch (rows : nat) (s : list Column) (vs : list Values) : Prop :=
  Forall2 (conforms rows) s vs.

(** The number of columns of the versions: the first, and after each of the appended groups. *)
Definition versions : list nat := [8; 10; 12; 13; 14; 15; 16]%nat.

(** A file of version [n] as it is read: the missing columns hold nulls. *)
Definition null_column (rows : nat) (c : Column) : Values :=
  match c_type c with
  | Utf8 => Texts (replicate rows None)
  | t => Numbers t (replicate rows None)
  end.
Definition read_columns (n : nat) (rs : list CallRecord) : list Values :=
  take n (batch_columns rs) ++ (null_column (length rs) <$> drop n read_schema).

(** A row, with nulls read as the documented defaults ([COALESCE]); the count of tool calls has
    none. *)
Definition number_at (i : nat) (v : option Values) : option Z :=
  match v with Some (Numbers _ l) => mjoin (l !! i) | _ => None end.
Definition text_at (i : nat) (v : option Values) : option string :=
  match v with Some (Texts l) => mjoin (l !! i) | _ => None end.
Definition row (vs : list Values) (i : nat) : CallRecord :=
  let number c := default 0 (number_at i (vs !! c)) in
  let text c := default "" (text_at i (vs !! c)) in
  mkCallRecord (number 0%nat) (text 1%nat) (text 2%nat) (text 3%nat) (number 4%nat) (number 5%nat)
    (number 6%nat) (number 7%nat) (text 8%nat) (number 9%nat) (text 10%nat) (text 11%nat)
    (text 12%nat) (text 13%nat) (text 14%nat) (number_at i (vs !! 15%nat)).

(** What a version with [n] columns knew of a record. *)
Definition known_to (n : nat) (r : CallRecord) : CallRecord :=
  let text (c : nat) (s : string) := if (c <? n)%nat then s else "" in
  mkCallRecord (ts_millis r) (cr_run_id r) (cr_model r) (decision r) (cr_input_tokens r)
    (cr_output_tokens r) (cost_microusd r) (cr_step r) (text 8%nat (agent_id r))
    (if (9 <? n)%nat then saved_microusd r else 0) (text 10%nat (parent_run_id r))
    (text 11%nat (on_behalf_of r)) (text 12%nat (outcome r)) (text 13%nat (key_id r))
    (text 14%nat (cr_unit r)) (if (15 <? n)%nat then cr_tool_calls r else None).

(** *** Old and new files are read *)

Lemma plain_no_nulls {A B} (f : A → B) l : no_nulls ((λ r, Some (f r)) <$> l).
Proof. apply Forall_fmap, Forall_true. by eexists. Qed.

Lemma at_plain {A B} (f : A → B) (l : list A) i r :
  l !! i = Some r → mjoin (((λ r, Some (f r)) <$> l) !! i) = Some (f r).
Proof. intros H. by rewrite list_lookup_fmap, H. Qed.

Lemma at_null {A} n i : mjoin (replicate n (None (A := A)) !! i) = None.
Proof.
  destruct (replicate n None !! i) as [o|] eqn:E; [|done]. apply lookup_replicate in E as [-> _]. done.
Qed.

Lemma at_option {A B} (f : A → option B) (l : list A) i r :
  l !! i = Some r → mjoin ((f <$> l) !! i) = f r.
Proof. intros H. by rewrite list_lookup_fmap, H. Qed.

(** One goal for each version. *)
Ltac each_version Hn :=
  unfold versions in Hn;
  repeat (apply elem_of_cons in Hn as [->|Hn]); [..|by apply elem_of_nil in Hn].

(** The trace stays readable across its versions.  Whatever a version of the gateway wrote,
    today's or an older one with fewer columns, is a batch of its schema; filled up with nulls it
    is legal under the schema the directory is read with, which has the names and types of the
    one that is written; and every row is the record that was written, with defaults in
    the columns that version did not know. *)
Theorem trace_readable n rs :
  n ∈ versions →
  valid_batch (length rs) (take n schema) (take n (batch_columns rs)) ∧
  valid_batch (length rs) read_schema (read_columns n rs) ∧
  (λ c, (c_name c, c_type c)) <$> read_schema = (λ c, (c_name c, c_type c)) <$> schema ∧
  ∀ i r, rs !! i = Some r → row (read_columns n rs) i = known_to n r.
Proof.
  intros Hn. split_and!; [..|done|].
  - apply Forall2_take. repeat constructor; cbn; rewrite ?length_fmap;
      split_and?; try done; intros _; apply plain_no_nulls.
  - unfold read_columns, valid_batch. each_version Hn;
    cbn; repeat constructor; cbn; rewrite ?length_fmap, ?length_replicate;
      split_and?; try done; intros _; apply plain_no_nulls.
  - intros i r Hr. each_version Hn;
    unfold row, known_to, read_columns; cbn;
      by rewrite ?(at_plain _ _ _ _ Hr), ?(at_option _ _ _ _ Hr), ?at_null.
Qed.

End TraceFiles.
