(* ===== verification/Respond.v ===== *)
(** * What the request path answers

    The response builders of [crates/gateway/src/proxy.rs].  A body that is the printing of
    a JSON value is kept as the value; the members of an object are in [serde_json]'s
    (sorted) order.  [legal] is [HeaderValue::from_str]'s test on a header value. *)

From S2P Require Import Prelude Float Money Strings Json Policy Cache Breaker Identity Wardryx.

(* @src provider.rs ProviderError *)
Inductive ProviderError := Upstream (e : string).

Definition show_provider_error (e : ProviderError) : string :=
  match e with Upstream e => "upstream request failed: " +:+ e end.

(** The body is the sequence of chunks the stream yields; the usage slot is filled when
    the stream ends. *)
(* @src provider.rs ProviderResponse *)
Record ProviderResponse := mkProviderResponse {
  pr_status : Z;
  pr_content_type : option string;
  pr_body : list (result string ProviderError);
  pr_usage : option Usage
}.

Inductive Body :=
| JsonBody (v : Value)
| BytesBody (b : string)
| StreamBody (chunks : list (result string ProviderError)).

Record HttpResponse := mkHttp {
  status : Z;
  headers : list (string * string);
  body : Body
}.

(** [StatusCode::from_u16(s).unwrap_or(StatusCode::OK)] *)
Definition status_of (s : Z) : Z := if (100 <=? s) && (s <? 1000) then s else 200.

Definition error_object (members : list (string * Value)) : Value := Obj [("error", Obj members)].

(* @src proxy.rs mode_str *)
Definition mode_str (m : Mode) : string :=
  match m with Shadow => "shadow" | Warn => "warn" | Enforce => "enforce" end.

(* @src proxy.rs unauthorized *)
Definition unauthorized_response : HttpResponse :=
  mkHttp 401 [("content-type", "application/json"); ("x-fuse", "unauthorized")]
    (JsonBody (error_object
      [("reason", Str ("this gateway requires a client credential in the `" +:+ CLIENT_KEY_HEADER
                       +:+ "` header"));
       ("retryable", Bool false); ("type", Str "unauthorized")])).

Definition blocked_headers (run_id : string) : list (string * string) :=
  [("content-type", "application/json"); ("x-fuse", "blocked"); ("x-fuse-run-id", run_id)].

(* @src proxy.rs dlp_block *)
Definition dlp_block (run_id summary : string) : HttpResponse :=
  mkHttp 403 (blocked_headers run_id ++ [("x-fuse-dlp", "blocked: " +:+ summary)])
    (JsonBody (error_object [("reason", Str summary); ("retryable", Bool false);
                             ("run_id", Str run_id); ("type", Str "dlp_blocked")])).

(* @src proxy.rs firewall_block *)
Definition firewall_block (run_id reason : string) : HttpResponse :=
  mkHttp 403 (blocked_headers run_id ++ [("x-fuse-taint", "blocked: " +:+ reason)])
    (JsonBody (error_object [("reason", Str reason); ("retryable", Bool false);
                             ("run_id", Str run_id); ("type", Str "taint_blocked")])).

(* @src proxy.rs identity_block *)
Definition identity_block (run_id reason : string) : HttpResponse :=
  mkHttp 403 (blocked_headers run_id ++ [("x-fuse-identity", "blocked=" +:+ reason)])
    (JsonBody (to_error_json
      (mkVerdict true (Some IdentityMismatch) (Some reason) None None None false) run_id)).

Definition opt_str (o : option string) : Value := match o with Some s => Str s | None => Null end.

(* @src proxy.rs wardryx_deny_response *)
Definition wardryx_deny_response (run_id : string) (o : WardryxOutcome) : HttpResponse :=
  mkHttp 403 (blocked_headers run_id ++ [("x-fuse-wardryx", "deny")])
    (JsonBody (error_object
      [("policy_version", opt_str (policy_version o));
       ("reason", Str (default "denied by policy" (wx_reason o)));
       ("retryable", Bool false); ("run_id", Str run_id); ("type", Str "wardryx_denied")])).

(* @src proxy.rs wardryx_hold_response *)
Definition wardryx_hold_response (legal : string → bool) (run_id : string) (o : WardryxOutcome)
  : HttpResponse :=
  let id := default "" (approval_id o) in
  mkHttp 403
    (blocked_headers run_id ++ [("x-fuse-wardryx", "hold")]
     ++ (if legal id then [("x-fuse-approval-id", id)] else []))
    (JsonBody (error_object
      [("approval_id", Str id);
       ("approval_token_required", Bool (approval_token_required o));
       ("detail", Str "resubmit this request with header x-fuse-approval-token after approval");
       ("policy_version", opt_str (policy_version o));
       ("reason", Str (default "held pending approval" (wx_reason o)));
       ("retryable", Bool true); ("run_id", Str run_id); ("type", Str "wardryx_hold")])).

(* @src proxy.rs cached_response *)
Definition cached_response (run_id : string) (hit : Lookup) (m : Mode) : HttpResponse :=
  mkHttp 200
    [("content-type", content_type hit); ("x-fuse", "cached"); ("x-fuse-cache", "hit");
     ("x-fuse-run-id", run_id); ("x-fuse-mode", mode_str m);
     ("x-fuse-similarity", f64_fixed 3 (similarity hit)); ("x-fuse-cost-usd", "0.000000");
     ("x-fuse-saved-usd", f64_fixed 6 (f64_div (f64_of_Z (saved_microusd hit)) (f64_of_Z 1000000)))]
    (BytesBody (response hit)).

(* @src proxy.rs passthrough *)
Definition passthrough (resp : ProviderResponse) (managed : string) : HttpResponse :=
  mkHttp (status_of (pr_status resp))
    [("content-type", default "application/json" (pr_content_type resp)); ("x-fuse", managed)]
    (StreamBody (pr_body resp)).

(* @src proxy.rs collect *)
Fixpoint collect (chunks : list (result string ProviderError)) : result string ProviderError :=
  match chunks with
  | [] => Ok ""
  | Err e :: _ => Err e
  | Ok c :: rest => match collect rest with Ok acc => Ok (c +:+ acc) | Err e => Err e end
  end.

(* @src proxy.rs breaker_error_response *)
Definition breaker_error_response (run_id : string) (v : BreakerVerdict) : HttpResponse :=
  mkHttp (match http_status <$> reason v with
          | Some code => if (100 <=? code) && (code <? 1000) then code else 402
          | None => 402
          end) (blocked_headers run_id) (JsonBody (to_error_json v run_id)).

(* @src proxy.rs budget_verdict *)
Definition budget_verdict (r : BreakerReason) (budget spent : Microusd) (policy_id detail : string)
  : BreakerVerdict :=
  mkVerdict true (Some r) (Some detail) (Some (Microusd.as_usd budget))
            (Some (Microusd.as_usd spent)) (Some policy_id) false.

(* @src proxy.rs upstream_error *)
Definition upstream_error (e : ProviderError) : HttpResponse :=
  mkHttp 502 [("content-type", "application/json")]
    (JsonBody (error_object [("detail", Str (show_provider_error e)); ("type", Str "upstream_error")])).

(** A header that is only added when its value is legal, and one that is added if set. *)
(* @src proxy.rs set_header_checked *)
Definition set_header_checked (legal : string → bool) (name value : string)
  : list (string * string) :=
  if legal value then [(name, value)] else [].

Definition header_if (name : string) (value : option string) : list (string * string) :=
  match value with Some v => [(name, v)] | None => [] end.

(** The error type a response names, if it is an error response. *)
Definition error_type (r : HttpResponse) : option string :=
  match body r with JsonBody v => Json.get "error" v ≫= Json.get_str "type" | _ => None end.

Lemma breaker_response_reads run_id v r :
  reason v = Some r →
  error_type (breaker_error_response run_id v) = Some (as_wire_str r) ∧
  status (breaker_error_response run_id v) = http_status r.
Proof.
  intros Hr. unfold breaker_error_response, error_type, to_error_json. simpl. rewrite Hr. simpl.
  split; [|by destruct r]. unfold opt_field. by destruct (budget_usd v), (policy_id v), (spent_usd v).
Qed.

(** A budget-family block is a 402 that names its reason, the run, the figures and the
    policy; nothing of it depends on the caller's wording. *)
Lemma breaker_response_contract run_id r budget spent policy_id detail :
  let resp := breaker_error_response run_id (budget_verdict r budget spent policy_id detail) in
  status resp = http_status r ∧ error_type resp = Some (as_wire_str r) ∧
  ("x-fuse-run-id", run_id) ∈ headers resp.
Proof.
  split; [destruct r; reflexivity|]. split; [destruct r; reflexivity|].
  unfold breaker_error_response, blocked_headers. simpl. set_solver.
Qed.

Lemma collect_ok chunks b :
  collect chunks = Ok b ↔ ∃ l, chunks = Ok <$> l ∧ b = concat_str l.
Proof.
  split.
  - revert b. induction chunks as [|[c|e] chunks IH]; intros b; simpl; [|case_match|done].
    + intros [= <-]. by exists [].
    + intros [= <-]. destruct (IH _ eq_refl) as (l & -> & ->). by exists (c :: l).
    + done.
  - intros (l & -> & ->). induction l as [|c l IH]; [done|]. cbn [fmap list_fmap collect].
    by rewrite IH.
Qed.
