(* ===== verification/Gateway.v ===== *)
(** * The gateway's request path: state, effects and gates

    [messages] of [crates/gateway/src/proxy.rs], from the credential to the forwarded call.
    A request is a program over the gateway's shared state in a monad of its own: each
    access to the shared state is one critical section, and before every one of them the
    rest of the system (other requests, the operator, the clock) may do anything
    ([interfere]).  What the request itself does to the ledgers, the trace, the event
    stream and the provider is logged, so that theorems speak of one request's own
    actions under every interleaving.  Each gate of the handler is a definition; a gate
    either lets the call on or answers it. *)

From S2P Require Import Prelude Float Money Strings Text Json Ledger UnitLedger Loops Policy.
From S2P Require Import Taint Dlp Breaker Cache AgentEvent Router LedgerBackend Identity.
From S2P Require Import AppState Wardryx Request Respond.

(** The functions of libraries the path calls. *)
Record Lib := mkLib {
  to_str : string → option string;                      (* HeaderValue::to_str *)
  legal : string → bool;                                (* HeaderValue::from_str *)
  to_lowercase : string → string;
  from_slice : string → option Value;                   (* serde_json *)
  to_string : Value → string;
  parse_url : string → option (string * option string);
  find_iter : string → string → list (nat * nat);       (* regex *)
  call_hash : string → string → Z;                      (* DefaultHasher *)
  tools_hash : list string → option string → Z;
  partition_key : string → string → string → string → string → Z;
  embed : string → list f32;
  extract : string → gset string
}.

(** The parts of the state that are fixed when the gateway starts. *)
(* @src state.rs 28-88 AppState *)
Record Config := mkConfig {
  prices : PriceBook;
  policy : Policy;
  policy_name : string;
  cache_config : CacheConfig;
  firewall : FirewallConfig;
  dlp : DlpMode;
  dlp_pii : DlpMode;
  router : Router;
  wasm : option (Z → Z → Z → Z → Z → Z);
  client_keys : ClientKeys;
  identity : IdentityMap;
  identity_strict : StrictMode
}.

(** The shared mutable state. *)
Record Gw (T : Type) := mkGw {
  ledger : T;
  units : UnitLedger;
  keystats : KeyStats;
  app : AppState;
  cache : gmap Z (list Cache.Entry);
  wardryx : Wardryx;
  on_behalf_of_overcap : Z;
  outcome_overcap : Z;
  clock : Z;
  instant : Z
}.
Arguments mkGw {T}.
Arguments ledger {T}.
Arguments units {T}.
Arguments keystats {T}.
Arguments app {T}.
Arguments cache {T}.
Arguments wardryx {T}.
Arguments on_behalf_of_overcap {T}.
Arguments outcome_overcap {T}.
Arguments clock {T}.
Arguments instant {T}.

(** What a request does that can be seen outside its own task. *)
Inductive Act :=
| Sent (h : HeaderMap) (b : string)
| Opened (run : string) (budget : Microusd) (parent : option string)
| Reserved (r : Reservation)
| Refused (e : BudgetError)
| UnitReserved (r : UnitReservation)
| UnitRefused (e : UnitExceeded)
| Settled (r : Reservation) (actual : Microusd)
| UnitSettled (r : UnitReservation) (actual : Microusd)
| Recorded (rec : CallRecord)
| Emitted (t : EventType) (ts : Z) (agent run : option string) (chain : option (list string))
    (data : Value)
| Stored (partition : Z) (core : string) (body : string)
| Streaming (g : SettleGuard).

(** The rest of the world, as one request meets it. *)
Record Peers (T : Type) := mkPeers {
  interfere : nat → Gw T → Gw T;
  send : HeaderMap → string → result ProviderResponse ProviderError;
  pdp : DecideContext → Z * result DecideWireResponse WardryxError
}.
Arguments mkPeers {T}.
Arguments interfere {T}.
Arguments send {T}.
Arguments pdp {T}.

Record St (T : Type) := mkSt { world : Gw T; ops : nat; trace : list Act }.
Arguments mkSt {T}.
Arguments world {T}.
Arguments ops {T}.
Arguments trace {T}.

Inductive Step (A : Type) := Go (a : A) | Answer (r : HttpResponse).
Arguments Go {A}.
Arguments Answer {A}.

Definition M (T A : Type) : Type := St T → St T * Step A.
#[export] Instance M_ret {T} : MRet (M T) := λ A a s, (s, Go a).
#[export] Instance M_bind {T} : MBind (M T) := λ A B k m s,
  match m s with (s, Go a) => k a s | (s, Answer r) => (s, Answer r) end.

(** An early return of the handler. *)
Definition answer {T A} (r : HttpResponse) : M T A := λ s, (s, Answer r).

Section state.
Context {T : Type}.

Definition with_ledger (x : T) (w : Gw T) : Gw T :=
  mkGw x (units w) (keystats w) (app w) (cache w) (wardryx w) (on_behalf_of_overcap w)
       (outcome_overcap w) (clock w) (instant w).
Definition with_units (x : UnitLedger) (w : Gw T) : Gw T :=
  mkGw (ledger w) x (keystats w) (app w) (cache w) (wardryx w) (on_behalf_of_overcap w)
       (outcome_overcap w) (clock w) (instant w).
Definition with_keystats (x : KeyStats) (w : Gw T) : Gw T :=
  mkGw (ledger w) (units w) x (app w) (cache w) (wardryx w) (on_behalf_of_overcap w)
       (outcome_overcap w) (clock w) (instant w).
Definition with_app (x : AppState) (w : Gw T) : Gw T :=
  mkGw (ledger w) (units w) (keystats w) x (cache w) (wardryx w) (on_behalf_of_overcap w)
       (outcome_overcap w) (clock w) (instant w).
Definition with_cache (x : gmap Z (list Cache.Entry)) (w : Gw T) : Gw T :=
  mkGw (ledger w) (units w) (keystats w) (app w) x (wardryx w) (on_behalf_of_overcap w)
       (outcome_overcap w) (clock w) (instant w).
Definition with_wardryx (x : Wardryx) (w : Gw T) : Gw T :=
  mkGw (ledger w) (units w) (keystats w) (app w) (cache w) x (on_behalf_of_overcap w)
       (outcome_overcap w) (clock w) (instant w).
(* @src proxy.rs ON_BEHALF_OF_OVERCAP *)
Definition count_on_behalf_of (w : Gw T) : Gw T :=
  mkGw (ledger w) (units w) (keystats w) (app w) (cache w) (wardryx w)
       (u64_wrap (on_behalf_of_overcap w + 1)) (outcome_overcap w) (clock w) (instant w).
(* @src proxy.rs OUTCOME_OVERCAP *)
Definition count_outcome (w : Gw T) : Gw T :=
  mkGw (ledger w) (units w) (keystats w) (app w) (cache w) (wardryx w)
       (on_behalf_of_overcap w) (u64_wrap (outcome_overcap w + 1)) (clock w) (instant w).
End state.

(** The values of one managed request that every later step uses. *)
Record Req := mkReq {
  q_headers : HeaderMap;
  q_request : Value;
  q_run_id : string;
  q_budget : Microusd;
  q_agent_id : string;
  q_parent_run_id : string;
  q_on_behalf_of : string;
  q_chain : list string;
  q_outcome : string;
  q_key_id : string;
  q_unit : string
}.

(** The row of a blocked call. *)
Definition blocked_row (q : Req) (model decision : string) (cost step ts : Z) : CallRecord :=
  mkCallRecord ts (q_run_id q) model decision 0 0 cost step (q_agent_id q) 0 (q_parent_run_id q)
    (q_on_behalf_of q) (q_outcome q) (q_key_id q) (q_unit q) None.

Definition chain_arg (chain : list string) : option (list string) :=
  match chain with [] => None | _ => Some chain end.

Definition unit_member (unit : string) : Value :=
  if bool_decide (unit = "") then Null else Str unit.

(* @src proxy.rs DEFAULT_RUN_BUDGET *)
Definition DEFAULT_RUN_BUDGET : Microusd := 5000000.

(* @src proxy.rs CacheCtx *)
Record CacheCtx := mkCacheCtx { cc_partition : Z; cc_core : string }.

(* @src proxy.rs healthz *)
Definition healthz : string := "ok".

(* @src wasmpolicy.rs label_bit *)
Definition label_bit (label : string) : Z :=
  if bool_decide (label = "web") then 1
  else if bool_decide (label = "file") then 2
  else if bool_decide (label = "secrets") then 4
  else if bool_decide (label = "unclassified") then 8
  else if bool_decide (label = "email") then 16
  else 0.

(* @src proxy.rs 705-707 messages *)
Definition taint_bits (labels : Labels) : Z :=
  foldl (λ a l, Z.lor a (label_bit l)) 0 (sorted_elements labels).

Section gates.
Context {T : Type} `{LedgerBackend T}.
Context (lib : Lib) (cfg : Config) (peers : Peers T).

(** ** Effects *)

(** One critical section, and what it shows. *)
Definition op {A} (f : Gw T → Gw T * A) (log : A → list Act) : M T A := λ s,
  let '(w, a) := f (interfere peers (ops s) (world s)) in
  (mkSt w (S (ops s)) (trace s ++ log a), Go a).

Definition read {A} (f : Gw T → A) : M T A := op (λ w, (w, f w)) (λ _, []).
Definition modify (f : Gw T → Gw T) : M T unit := op (λ w, (f w, tt)) (λ _, []).
Definition show (a : Act) : M T unit := op (λ w, (w, tt)) (λ _, [a]).

(** [now_millis()] *)
Definition now : M T Z := read clock.

(** [st.ledger.snapshot(&run_id).await] *)
Definition snap (run_id : string) : M T (option RunSnapshot) :=
  read (λ w, snapshot (ledger w) run_id).

Definition next_step (s : option RunSnapshot) : Z := default 1 ((λ s, u32_wrap (steps s + 1)) <$> s).

(** [st.sink.record(CallRecord { ts_millis: now_millis(), .. })] *)
Definition record (row : Z → CallRecord) : M T unit := t ← now; show (Recorded (row t)).

Definition emit (q : Req) (ty : EventType) (data : Value) : M T unit :=
  t ← now;
  show (Emitted ty t (Some (q_agent_id q)) (Some (q_run_id q)) (chain_arg (q_chain q)) data).

Definition open_run_op (run_id : string) (b : Microusd) (parent : option string) : M T unit :=
  op (λ w, (with_ledger (open_run (ledger w) run_id b parent) w, tt))
     (λ _, [Opened run_id b parent]).

Definition reserve_op (run_id : string) (est : Microusd) : M T (result Reservation BudgetError) :=
  op (λ w, let '(l, r) := reserve (ledger w) run_id est in (with_ledger l w, r))
     (λ r, match r with Ok r => [Reserved r] | Err e => [Refused e] end).

Definition reserve_unchecked_op (run_id : string) (est : Microusd) : M T Reservation :=
  op (λ w, let '(l, r) := reserve_unchecked (ledger w) run_id est in (with_ledger l w, r))
     (λ r, [Reserved r]).

Definition settle_op (r : Reservation) (actual : Microusd) : M T unit :=
  op (λ w, (with_ledger (settle (ledger w) r actual) w, tt)) (λ _, [Settled r actual]).

(** [if let Some(ur) = &unit_reservation { st.units.settle(ur, actual, now_millis()) }] *)
Definition settle_unit_op (ur : option UnitReservation) (actual : Microusd) : M T unit :=
  match ur with
  | None => mret tt
  | Some ur =>
      t ← now;
      op (λ w, (with_units (UnitLedger.settle (units w) ur actual t) w, tt))
         (λ _, [UnitSettled ur actual])
  end.

Definition unit_log (ur : option UnitReservation) : list Act :=
  match ur with Some ur => [UnitReserved ur] | None => [] end.

(** [st.units.try_reserve(&unit, estimate, now_millis())]: the clock, the cap and the
    counters are read one after the other. *)
Definition try_reserve_unit_op (unit : string) (est : Microusd)
  : M T (result (option UnitReservation) UnitExceeded) :=
  t ← now;
  c ← read (λ w, UnitLedger.effective_cap (units w) unit);
  match c with
  | None => mret (Ok None)
  | Some cap =>
      op (λ w, let '(u, r) := UnitLedger.reserve_under (units w) unit est cap t in (with_units u w, r))
         (λ r, match r with Ok ur => unit_log ur | Err e => [UnitRefused e] end)
  end.

Definition reserve_unit_unchecked_op (unit : string) (est : Microusd)
  : M T (option UnitReservation) :=
  t ← now;
  c ← read (λ w, UnitLedger.effective_cap (units w) unit);
  match c with
  | None => mret None
  | Some _ =>
      op (λ w, let '(u, r) := UnitLedger.take_under (units w) unit est t in (with_units u w, Some r))
         unit_log
  end.

Definition accumulate_taint_op (run_id : string) (labels : Labels) : M T Labels :=
  op (λ w, let '(a, l) := AppState.accumulate_taint (app w) run_id labels in (with_app a w, l))
     (λ _, []).

Definition send_op (h : HeaderMap) (b : string) : M T (result ProviderResponse ProviderError) :=
  op (λ w, (w, send peers h b)) (λ _, [Sent h b]).

(* @src proxy.rs emit_breaker_event *)
Definition emit_breaker_event (q : Req) (v : BreakerVerdict) : M T unit :=
  emit q BreakerTripped
    (Obj [("budget_usd", match budget_usd v with Some x => json_f64 x | None => Null end);
          ("detail", opt_str (detail v)); ("policy_id", opt_str (policy_id v));
          ("reason", opt_str (Breaker.as_wire_str <$> reason v));
          ("spent_usd", match spent_usd v with Some x => json_f64 x | None => Null end);
          ("unit", unit_member (q_unit q))]).

(** A budget-family block: the row, the event, the 402. *)
Definition breaker_block {A} (q : Req) (row : Z → CallRecord) (v : BreakerVerdict) : M T A :=
  record row;;
  emit_breaker_event q v;;
  answer (breaker_error_response (q_run_id q) v).

(** ** The prologue *)

(* @src proxy.rs resolve_client_key *)
Definition resolve_client_key (h : HeaderMap) : option string :=
  if negb (ClientKeys.enabled (client_keys cfg)) then Some ""
  else ClientKeys.resolve (client_keys cfg)
         (trim (default "" (header_str (to_str lib) h CLIENT_KEY_HEADER))).

(* @src proxy.rs 182-189 messages *)
Definition authenticate (h : HeaderMap) : M T string :=
  match resolve_client_key h with
  | None =>
      modify (λ w, with_keystats (KeyStats.record_unauthorized (keystats w) (clock w)) w);;
      answer unauthorized_response
  | Some key_id =>
      modify (λ w, with_keystats (KeyStats.record_call (keystats w) key_id (clock w)) w);;
      mret key_id
  end.

(* @src proxy.rs 196-201 messages *)
Definition unmanaged {A} (h : HeaderMap) (body : string) : M T A :=
  r ← send_op h body;
  match r with
  | Ok resp => answer (passthrough resp "unmanaged")
  | Err e => answer (upstream_error e)
  end.

(* @src proxy.rs 203-215 messages *)
Definition open_managed (h : HeaderMap) (run_id : string) : M T Microusd :=
  managed ← read (λ w, AppState.cloud_budget (app w) run_id);
  let b := default DEFAULT_RUN_BUDGET
             (or_else managed
                (or_else (Microusd.from_usd <$> header_f64 (to_str lib) h "x-fuse-budget-usd")
                   (budget_per_run (policy cfg)))) in
  open_run_op run_id b (header_str (to_str lib) h "x-fuse-parent-run-id");;
  mret b.

(** A captured header, counting one that is over its cap. *)
Definition capture (c : option string * bool) (count : Gw T → Gw T) : M T (option string) :=
  (if c.2 then modify count else mret tt);; mret c.1.

(* @src proxy.rs 217-250 messages *)
Definition attribute (h : HeaderMap) (request : Value) (run_id : string) (b : Microusd)
    (key_id : string) : M T (Req * option Mismatch) :=
  let parent := default "" (header_str (to_str lib) h "x-fuse-parent-run-id") in
  let agent_id := default "" (header_str (to_str lib) h "x-fuse-agent-id") in
  captured ← capture (on_behalf_of_header (to_str lib) h) count_on_behalf_of;
  let chain := default [] (split_on_behalf_of <$> captured) in
  outcome_tag ← capture (outcome_header (to_str lib) h) count_outcome;
  let resolution := IdentityMap.resolve (identity cfg) key_id agent_id in
  mret (mkReq h request run_id b agent_id parent (default "" captured) chain
          (default "" outcome_tag) key_id (default "" (rs_unit resolution)),
        rs_mismatch resolution).

(** ** The gates, in order *)

(* @src proxy.rs 251-309 messages *)
Definition identity_gate (q : Req) (model : string) (m : option Mismatch) : M T (option string) :=
  match m with
  | None => mret None
  | Some mm =>
      let count := modify (λ w, with_keystats
                     (KeyStats.record_identity_mismatch (keystats w) (q_key_id q)) w) in
      match identity_strict cfg with
      | StrictOff => mret None
      | StrictWarn => count;; mret (Some ("would-block=" +:+ mm_reason mm))
      | StrictEnforce =>
          count;;
          s ← snap (q_run_id q);
          record (blocked_row q model "identity_mismatch" 0 (next_step s));;
          emit q AgentEvent.IdentityMismatch
            (Obj [("agent_id", Str (q_agent_id q)); ("key_id", Str (q_key_id q));
                  ("reason", Str (mm_reason mm)); ("unit", unit_member (q_unit q))]);;
          answer (identity_block (q_run_id q) (mm_reason mm))
      end
  end.

(** The request after the router: what is forwarded, the header, and the applied route. *)
Record Routed := mkRouted {
  r_parsed : ParsedRequest;
  r_body : string;
  r_header : option string;
  r_route : option (string * string)
}.

(* @src proxy.rs 311-356 messages *)
Definition route_request (q : Req) (parsed : ParsedRequest) (body : string) : Routed :=
  match Router.mode (router cfg) with
  | RouterOff => mkRouted parsed body None None
  | m =>
      let task := default "" (header_str (to_str lib) (q_headers q) "x-fuse-task-type") in
      let d := Router.route (router cfg) (p_model parsed) task (prices cfg)
                 (Z.of_nat (String.length body)) (p_max_tokens parsed) in
      let rewritten :=
        match m with
        | RouterOn => if RouteDecision.routed d
                      then rewrite_model_field (from_slice lib) (to_string lib) body (chosen_model d)
                      else None
        | _ => None
        end in
      match rewritten with
      | Some body' =>
          mkRouted (mkParsed (chosen_model d) (p_max_tokens parsed) (p_stream parsed)) body'
            (Some (RouteDecision.header_value d)) (Some (original_model d, chosen_model d))
      | None =>
          mkRouted parsed body
            (Some (match m with
                   | RouterShadow => if RouteDecision.routed d
                                     then "would-" +:+ RouteDecision.header_value d
                                     else p_model parsed +:+ "=kept"
                   | _ => p_model parsed +:+ "=kept"
                   end)) None
      end
  end.

(** [estimate_cost(..).unwrap_or(Microusd::ZERO)] *)
Definition estimate (parsed : ParsedRequest) (body : string) : Microusd :=
  default Microusd.ZERO
    (estimate_cost (prices cfg) (p_model parsed) (Z.of_nat (String.length body)) (p_max_tokens parsed)).

(* @src proxy.rs 358-403 messages *)
Definition kill_gate (q : Req) (parsed : ParsedRequest) (body : string) : M T unit :=
  killed ← read (λ w, AppState.is_killed (app w) (q_run_id q));
  if negb killed then mret tt
  else
    s ← snap (q_run_id q);
    breaker_block q
      (blocked_row q (p_model parsed) "killed" (estimate parsed body) (next_step s))
      (budget_verdict Killed (q_budget q) (default Microusd.ZERO (Ledger.spent <$> s))
         (policy_name cfg) "run killed by operator").

(** *** DLP *)

Definition add_note (existing : option string) (note : string) : option string :=
  Some (match existing with Some e => e +:+ "; " +:+ note | None => note end).

Definition dlp_on (m : DlpMode) : bool := match m with DlpOff => false | _ => true end.

(* @src proxy.rs 420-464 messages *)
Definition dlp_secrets (q : Req) (model : string) (findings : list Finding)
  : M T (list Finding * option string) :=
  match findings with
  | [] => mret ([], None)
  | _ =>
      let s := Dlp.summary findings in
      match dlp cfg with
      | Dlp.DlpBlock =>
          st ← snap (q_run_id q);
          record (blocked_row q model "dlp_blocked" 0 (next_step st));;
          emit q AgentEvent.DlpBlock (Obj [("summary", Str s)]);;
          answer (dlp_block (q_run_id q) s)
      | DlpMask => mret (findings, Some ("masked " +:+ s))
      | DlpShadow => mret ([], Some ("found " +:+ s))
      | DlpOff => mret ([], None)
      end
  end.

(* @src proxy.rs 466-505 messages *)
Definition dlp_pii_section (q : Req) (text : string) (findings to_redact : list Finding)
    (note : option string) : M T (list Finding * option string) :=
  if negb (dlp_on (dlp_pii cfg)) then mret (to_redact, note)
  else
    let pii := scan_pii (find_iter lib) text in
    match pii with
    | [] => mret (to_redact, note)
    | _ =>
        let s := pii_summary pii in
        match dlp_pii cfg with
        | Dlp.DlpBlock => answer (dlp_block (q_run_id q) s)
        | DlpMask =>
            mret (to_redact ++ filter (λ p, existsb (λ f, spans_overlap f p) findings = false) pii,
                  add_note note ("masked " +:+ s))
        | DlpShadow => mret (to_redact, add_note note ("found " +:+ s))
        | DlpOff => mret (to_redact, note)
        end
    end.

(* @src proxy.rs 405-510 messages *)
Definition dlp_gate (q : Req) (model body : string) : M T (string * option string) :=
  if negb (dlp_on (dlp cfg)) && negb (dlp_on (dlp_pii cfg)) then mret (body, None)
  else
    let text := from_utf8_lossy body in
    let findings := if dlp_on (dlp cfg) then scan (find_iter lib) text else [] in
    secrets ← dlp_secrets q model findings;
    all ← dlp_pii_section q text findings secrets.1 secrets.2;
    mret (match all.1 with [] => body | to_redact => redact text to_redact end, all.2).

(** *** The semantic cache *)

(* @src proxy.rs 512-581 messages *)
Definition cache_gate (q : Req) (parsed : ParsedRequest) : M T (option CacheCtx * option string) :=
  if p_stream parsed || bool_decide (Cache.mode (cache_config cfg) = CacheOff)
     || negb (cache_eligible (q_request q))
  then mret (None, None)
  else
    let core := semantic_core (q_request q) in
    let partition := partition_key lib (p_model parsed) (system_text (q_request q))
                       (tools_text (to_string lib) (q_request q))
                       (default "" (header_str (to_str lib) (q_headers q) "x-fuse-task-type"))
                       "default" in
    let ctx := Some (mkCacheCtx partition core) in
    t ← now;
    hit ← op (λ w, let '(c, h) := Cache.get (embed lib) (extract lib) (cache_config cfg) (cache w)
                                    partition core t in (with_cache c w, h)) (λ _, []);
    match hit with
    | None => mret (ctx, None)
    | Some hit =>
        match Cache.mode (cache_config cfg) with
        | CacheOn =>
            s ← snap (q_run_id q);
            record (λ t, mkCallRecord t (q_run_id q) (p_model parsed) "cache_hit" 0 0 0 (next_step s)
                           (q_agent_id q) (Cache.saved_microusd hit) (q_parent_run_id q)
                           (q_on_behalf_of q) (q_outcome q) (q_key_id q) (q_unit q) (Some 0));;
            answer (cached_response (q_run_id q) hit (Policy.mode (policy cfg)))
        | CacheShadow =>
            mret (ctx, Some ("would-hit; similarity=" +:+ f64_fixed 3 (similarity hit)
                     +:+ "; saved=$" +:+ f64_fixed 6 (f64_div (f64_of_Z (Cache.saved_microusd hit))
                                                              (f64_of_Z 1000000))))
        | CacheOff => mret (ctx, None)
        end
    end.

(** *** Estimate, policy and loops *)

Record Assessed := mkAssessed {
  a_estimate : Microusd;
  a_snapshot : RunSnapshot;
  a_eval : Evaluation;
  a_loop : option string
}.

(* @src proxy.rs 583-622 messages *)
Definition assess (q : Req) (parsed : ParsedRequest) (body : string) : M T Assessed :=
  let est := estimate parsed body in
  s ← snap (q_run_id q);
  let s := default (mkSnapshot (q_budget q) Microusd.ZERO Microusd.ZERO 0) s in
  let input_tokens := Z.of_nat (String.length body) / 4 in
  history ← op (λ w, let '(a, h) := AppState.record_input (app w) (q_run_id q) input_tokens in
                     (with_app a w, h)) (λ _, []);
  mret (mkAssessed est s (Policy.evaluate (policy cfg) s est)
          (if Loops.is_empty (anomalies (policy cfg)) then None
           else Loops.detect (tool_call_signatures (call_hash lib) (to_string lib) (q_request q))
                  history (anomalies (policy cfg)))).

Definition enforcing : bool := match Policy.mode (policy cfg) with Enforce => true | _ => false end.

Definition step_of (a : Assessed) : Z := u32_wrap (steps (a_snapshot a) + 1).

(* @src proxy.rs 624-700 messages *)
Definition policy_gate (q : Req) (parsed : ParsedRequest) (a : Assessed) : M T unit :=
  if negb enforcing then mret tt
  else if is_blocking (Policy.decision (a_eval a)) then
    breaker_block q
      (blocked_row q (p_model parsed) "policy_violation" (a_estimate a) (step_of a))
      (budget_verdict PolicyViolation (q_budget q) (Ledger.spent (a_snapshot a)) (policy_name cfg)
         (default "" (violated (a_eval a))))
  else match a_loop a with
       | Some why =>
           breaker_block q
             (blocked_row q (p_model parsed) "loop_detected" (a_estimate a) (step_of a))
             (budget_verdict LoopDetected (q_budget q) (Ledger.spent (a_snapshot a))
                (policy_name cfg) why)
       | None => mret tt
       end.

Definition firewall_on : bool := match fw_mode (firewall cfg) with FwOff => false | _ => true end.

(* @src proxy.rs 702-756 messages *)
Definition wasm_gate (q : Req) (parsed : ParsedRequest) (a : Assessed) : M T unit :=
  match wasm cfg with
  | None => mret tt
  | Some evaluate =>
      let bits := if firewall_on
                  then taint_bits (labels_for_tools (tool_names_in (q_request q))
                                     (sources (firewall cfg)))
                  else 0 in
      if evaluate (a_estimate a) (Ledger.spent (a_snapshot a)) (q_budget q)
           (steps (a_snapshot a)) bits =? 2 then
        breaker_block q
          (blocked_row q (p_model parsed) "wasm_policy" (a_estimate a) (step_of a))
          (budget_verdict WasmPolicy (q_budget q) (Ledger.spent (a_snapshot a)) (policy_name cfg)
             "blocked by custom wasm policy")
      else mret tt
  end.

(** *** Wardryx *)

(* @src proxy.rs 764-798 messages *)
Definition wardryx_context (q : Req) (parsed : ParsedRequest) (a : Assessed) : DecideContext :=
  mkDecideContext (q_agent_id q) (q_run_id q) (q_chain q)
    (sort_dedup (tool_names_in (q_request q) ++ declared_tool_names_in (q_request q)))
    (steps (a_snapshot a)) (referenced_domains (parse_url lib) (q_request q))
    (p_model parsed) (Microusd.as_usd (a_estimate a))
    (header_str (to_str lib) (q_headers q) "x-fuse-attestation-method")
    (header_str (to_str lib) (q_headers q) "x-fuse-approval-token").

(* @src proxy.rs 758-862 messages *)
Definition wardryx_gate (q : Req) (parsed : ParsedRequest) (a : Assessed) : M T (option string) :=
  m ← read (λ w, wx_mode (wardryx w));
  match m with
  | WxOff => mret None
  | _ =>
      let ctx := wardryx_context q parsed a in
      let '(latency, answered) := pdp peers ctx in
      hit ← read (λ w, Wardryx.get (wardryx w) (Wardryx.ctx_key (tools_hash lib) ctx) (instant w));
      o ← match hit with
          | Some o => mret o
          | None =>
              op (λ w, let '(x, o) := Wardryx.conclude (tools_hash lib) (wardryx w) ctx
                                        (instant w + latency) answered in (with_wardryx x w, o))
                 (λ _, [])
          end;
      match m, wx_decision o with
      | WxShadow, d => mret (Some ("would-" +:+ WardryxDecision.as_wire_str d))
      | _, WxAllow => mret (Some (WardryxDecision.as_wire_str WxAllow))
      | _, WxDeny =>
          record (blocked_row q (p_model parsed) "wardryx_deny" 0 (step_of a));;
          answer (wardryx_deny_response (q_run_id q) o)
      | _, WxHold =>
          record (blocked_row q (p_model parsed) "wardryx_hold" 0 (step_of a));;
          answer (wardryx_hold_response (legal lib) (q_run_id q) o)
      end
  end.

(** *** The budget gates *)

(* @src proxy.rs 867-920 messages *)
Definition unit_gate (q : Req) (parsed : ParsedRequest) (a : Assessed)
  : M T (option UnitReservation) :=
  if bool_decide (q_unit q = "") then mret None
  else if negb enforcing then reserve_unit_unchecked_op (q_unit q) (a_estimate a)
  else
    r ← try_reserve_unit_op (q_unit q) (a_estimate a);
    match r with
    | Ok ur => mret ur
    | Err e =>
        breaker_block q
          (blocked_row q (p_model parsed) "unit_budget_exceeded" (a_estimate a) (step_of a))
          (budget_verdict UnitBudgetExceeded (ue_budget e) (ue_spent e) (policy_name cfg)
             ("unit '" +:+ ue_unit e +:+ "' monthly budget exceeded"))
    end.

(** The figures and the reason of a refused reserve. *)
(* @src proxy.rs 927-1020 messages *)
Definition refusal_verdict (q : Req) (e : BudgetError) : BreakerVerdict :=
  match e with
  | Exceeded hit_run b s _ =>
      budget_verdict BudgetExceeded b s (policy_name cfg)
        (if bool_decide (hit_run = q_run_id q) then "per-run budget exceeded"
         else "parent run '" +:+ hit_run +:+ "' budget exceeded")
  | UnknownRun _ =>
      budget_verdict BudgetExceeded Microusd.ZERO Microusd.ZERO (policy_name cfg)
        ("run '" +:+ q_run_id q
         +:+ "' has no ledger reservation; denying instead of bypassing the budget check")
  end.

(* @src proxy.rs 922-1034 messages *)
Definition budget_gate (q : Req) (parsed : ParsedRequest) (a : Assessed)
    (ur : option UnitReservation) : M T Reservation :=
  if negb enforcing then reserve_unchecked_op (q_run_id q) (a_estimate a)
  else
    r ← reserve_op (q_run_id q) (a_estimate a);
    match r with
    | Ok r => mret r
    | Err e =>
        settle_unit_op ur Microusd.ZERO;;
        breaker_block q
          (blocked_row q (p_model parsed) "budget_exceeded" (a_estimate a) (step_of a))
          (refusal_verdict q e)
    end.

(** ** Forwarding *)

(* @src proxy.rs 1036-1048 messages *)
Definition taint_request (q : Req) : M T Labels :=
  if firewall_on
  then accumulate_taint_op (q_run_id q)
         (taint_header_labels (to_str lib) (to_lowercase lib) (q_headers q)
          ∪ labels_for_tools (tool_names_in (q_request q)) (sources (firewall cfg)))
  else mret ∅.

(** A failed call costs nothing: the reservations are released. *)
(* @src proxy.rs 1050-1060 messages *)
Definition release {A} (r : Reservation) (ur : option UnitReservation) (e : ProviderError) : M T A :=
  settle_op r Microusd.ZERO;;
  settle_unit_op ur Microusd.ZERO;;
  answer (upstream_error e).

(** What the gates left for the response: notes that become headers. *)
Record Notes := mkNotes {
  n_would_block : option string;
  n_dlp : option string;
  n_identity : option string;
  n_router : option string;
  n_wardryx : option string
}.

(** The headers the two managed responses end with. *)
(* @src proxy.rs 1214-1225 stream_managed *)
Definition trailing_headers (n : Notes) : list (string * string) :=
  header_if "x-fuse-dlp" (n_dlp n)
  ++ match n_router n with
     | Some rh => set_header_checked (legal lib) "x-fuse-router" rh
     | None => []
     end
  ++ header_if "x-fuse-wardryx" (n_wardryx n) ++ header_if "x-fuse-identity" (n_identity n).

(** The guard owns both reservations and settles them when the stream ends or is
    dropped, see [LedgerBackend.SettleGuard]. *)
(* @src proxy.rs stream_managed *)
Definition stream_managed (q : Req) (resp : ProviderResponse) (r : Reservation) (model : string)
    (ur : option UnitReservation) (n : Notes) : M T HttpResponse :=
  let guard := SettleGuard.new (prices cfg) model (amount r) r
                 (mkAttribution (q_agent_id q) (q_parent_run_id q) (q_on_behalf_of q)
                    (q_outcome q) (q_key_id q) (q_unit q)) ur in
  show (Streaming guard);;
  mret (mkHttp (status_of (pr_status resp))
    ([("content-type", default "text/event-stream" (pr_content_type resp));
      ("x-fuse", "managed"); ("x-fuse-stream", "passthrough"); ("x-fuse-run-id", run_id r);
      ("x-fuse-step", pretty (Ledger.step r)); ("x-fuse-mode", mode_str (Policy.mode (policy cfg)))]
     ++ header_if "x-fuse-would-block" (n_would_block n) ++ trailing_headers n)
    (StreamBody (pr_body resp))).

(** What the router saved: the requested model's price of the usage less the chosen one's. *)
(* @src proxy.rs 1302-1313 buffered_managed *)
Definition router_saved (route : option (string * string)) (u : option Usage) : Microusd :=
  match route, u with
  | Some (original, chosen), Some u =>
      match PriceBook.cost (prices cfg) original u, PriceBook.cost (prices cfg) chosen u with
      | Some would, Some did => Microusd.saturating_sub would did
      | _, _ => Microusd.ZERO
      end
  | _, _ => Microusd.ZERO
  end.

(** The row of the settled call. *)
(* @src proxy.rs 1315-1336 buffered_managed *)
Definition allow_row (q : Req) (r : Reservation) (model : string) (u : Usage) (actual : Microusd)
    (saved : Microusd) (ts : Z) : CallRecord :=
  mkCallRecord ts (run_id r) model "allow" (input_tokens u) (output_tokens u) actual
    (Ledger.step r) (q_agent_id q) saved (q_parent_run_id q) (q_on_behalf_of q) (q_outcome q)
    (q_key_id q) (q_unit q) (tool_calls u).

(** The firewall's judgement of the response; the note of a shadow verdict. *)
(* @src proxy.rs 1338-1391 buffered_managed *)
Definition firewall_gate (q : Req) (r : Reservation) (model bytes : string) (labels : Labels)
  : M T (option string) :=
  if negb firewall_on then mret None
  else
    let json := default Null (from_slice lib bytes) in
    let tools := tool_names_in json in
    let requested := capabilities_for_tools tools (capabilities (firewall cfg)) in
    let taint_tools := accumulate_taint_op (run_id r) (labels_for_tools tools (sources (firewall cfg))) in
    match Taint.evaluate labels requested (fw_rules (firewall cfg)) with
    | None => taint_tools;; mret None
    | Some why =>
        match fw_mode (firewall cfg) with
        | FwEnforce =>
            record (λ t, mkCallRecord t (run_id r) model "taint_blocked" 0 0 0 (Ledger.step r)
                           (q_agent_id q) 0 (q_parent_run_id q) (q_on_behalf_of q) (q_outcome q)
                           (q_key_id q) (q_unit q) None);;
            emit q TaintBlock (Obj [("reason", Str why)]);;
            answer (firewall_block (run_id r) why)
        | _ => taint_tools;; mret (Some why)
        end
    end.

(* @src proxy.rs buffered_managed *)
Definition buffered_managed (q : Req) (resp : ProviderResponse) (r : Reservation) (model : string)
    (ctx : option CacheCtx) (cache_note : option string) (labels : Labels)
    (ur : option UnitReservation) (route : option (string * string)) (n : Notes)
  : M T HttpResponse :=
  let st := status_of (pr_status resp) in
  let ctype := default "application/json" (pr_content_type resp) in
  match collect (pr_body resp) with
  | Err e => release r ur e
  | Ok bytes =>
      let u := pr_usage resp in
      let actual := default (amount r) (u ≫= PriceBook.cost (prices cfg) model) in
      settle_op r actual;;
      settle_unit_op ur actual;;
      s ← snap (run_id r);
      let total := default actual (Ledger.spent <$> s) in
      record (allow_row q r model (default default_usage u) actual (router_saved route u));;
      note ← firewall_gate q r model bytes labels;
      match ctx with
      | Some c =>
          if st =? 200 then
            t ← now;
            op (λ w, (with_cache (Cache.put (embed lib) (extract lib) (cache_config cfg) (cache w)
                        (cc_partition c) (cc_core c) bytes ctype actual t) w, tt))
               (λ _, [Stored (cc_partition c) (cc_core c) bytes])
          else mret tt
      | None => mret tt
      end;;
      mret (mkHttp st
        ([("content-type", ctype); ("x-fuse", "managed"); ("x-fuse-run-id", run_id r);
          ("x-fuse-step", pretty (Ledger.step r)); ("x-fuse-mode", mode_str (Policy.mode (policy cfg)));
          ("x-fuse-cost-usd", f64_fixed 6 (Microusd.as_usd actual));
          ("x-fuse-spent-usd", f64_fixed 6 (Microusd.as_usd total));
          ("x-fuse-price", if PriceBook.is_known (prices cfg) model then "known" else "fallback")]
         ++ header_if "x-fuse-would-block" (n_would_block n)
         ++ header_if "x-fuse-cache" cache_note
         ++ header_if "x-fuse-taint" ((λ why, "would-block: " +:+ why) <$> note)
         ++ trailing_headers n)
        (BytesBody bytes))
  end.

(** ** The handler *)

(** Everything after a managed run is opened and the call attributed. *)
(* @src proxy.rs 251-1105 messages *)
Definition managed (q : Req) (parsed : ParsedRequest) (body : string) (m : option Mismatch)
  : M T HttpResponse :=
  id_header ← identity_gate q (p_model parsed) m;
  let routed := route_request q parsed body in
  let parsed := r_parsed routed in
  kill_gate q parsed (r_body routed);;
  clean ← dlp_gate q (p_model parsed) (r_body routed);
  let body := clean.1 in
  cached ← cache_gate q parsed;
  a ← assess q parsed body;
  policy_gate q parsed a;;
  wasm_gate q parsed a;;
  wx_header ← wardryx_gate q parsed a;
  let would_block := or_else (violated (a_eval a)) (a_loop a) in
  ur ← unit_gate q parsed a;
  r ← budget_gate q parsed a ur;
  labels ← taint_request q;
  sent ← send_op (q_headers q) body;
  match sent with
  | Err e => release r ur e
  | Ok resp =>
      let n := mkNotes would_block clean.2 id_header (r_header routed) wx_header in
      if p_stream parsed then stream_managed q resp r (p_model parsed) ur n
      else buffered_managed q resp r (p_model parsed) cached.1 cached.2 labels ur (r_route routed) n
  end.

(* @src proxy.rs messages *)
Definition messages (h : HeaderMap) (body : string) : M T HttpResponse :=
  key_id ← authenticate h;
  let request := default Null (from_slice lib body) in
  let parsed := parse_request request in
  match header_str (to_str lib) h "x-fuse-run-id" with
  | None => unmanaged h body
  | Some run_id =>
      b ← open_managed h run_id;
      attributed ← attribute h request run_id b key_id;
      managed attributed.1 parsed body attributed.2
  end.

(** The handler's answer, whether it returned early or not, and its log. *)
Definition respond (h : HeaderMap) (body : string) (w : Gw T) : list Act * HttpResponse * Gw T :=
  match messages h body (mkSt w 0 []) with
  | (s, Go r) => (trace s, r, world s)
  | (s, Answer r) => (trace s, r, world s)
  end.

(** What a request has done when its handler is dropped: axum drops the future when the
    client disconnects, at whichever await it is pending (the provider's answer, the
    collection of its body, the policy service, a replicated ledger), and nothing after
    that await runs.  The first [n] actions, for some [n], of what it would have done. *)
Definition respond_dropped (h : HeaderMap) (body : string) (w : Gw T) (n : nat) : list Act :=
  take n (respond h body w).1.1.
End gates.
