(* ===== verification/Telemetry.v ===== *)
(** * Watching the gateway

    The spans exported per call ([crates/gateway/src/otel.rs]), the operator's listing and
    kill endpoints ([obs.rs]), the gateway's routes ([lib.rs]) and the live view that polls
    them ([tui.rs]).  [DefaultHasher], the terminal and the HTTP exchanges are parameters. *)

From S2P Require Import Prelude Float Money Strings Json Ledger LedgerBackend AppState.

(** ** Spans *)

(* @src otel.rs OtelSink *)
Record OtelSink := mkOtel { otel_url : string; service : string }.

Definition slash (c : ascii) : bool := bool_decide (c = "/"%char).

(* @src otel.rs OtelSink::new *)
Definition otel_new (endpoint : string) : OtelSink :=
  let base := trim_end_chars slash endpoint in
  mkOtel (if bool_decide (is_Some (strip_suffix "/v1/traces" base)) then base
          else base +:+ "/v1/traces") "tokenfuse".

(* @src otel.rs gen_ai_system *)
Definition gen_ai_system (model : string) : option string :=
  let m := to_ascii_lowercase model in
  if starts_with "claude" m then Some "anthropic"
  else if starts_with "gpt" m || starts_with "o1" m || starts_with "o3" m || starts_with "o4" m
  then Some "openai"
  else if starts_with "gemini" m then Some "gcp.gemini"
  else if starts_with "command" m || starts_with "cohere" m then Some "cohere"
  else if starts_with "mistral" m || starts_with "codestral" m then Some "mistral_ai"
  else if starts_with "deepseek" m then Some "deepseek"
  else if starts_with "groq" m then Some "groq"
  else None.

(** [{z:0wx}] of a number of at most [w] digits. *)
Fixpoint hex_padded (w : nat) (z : Z) : string :=
  match w with
  | O => ""
  | S w => hex_padded w (z / 16) +:+ String (hex_digit (Z.to_nat (z mod 16))) ""
  end.

Section spans.
(** [DefaultHasher] over the parts, a [u64]. *)
Context (hasher : list string → Z).

(* @src otel.rs hash64 *)
Definition hash64 (parts : list string) : Z := let v := hasher parts in if v =? 0 then 1 else v.

Definition attr_s (k v : string) : Value := Obj [("key", Str k); ("value", Obj [("stringValue", Str v)])].
Definition attr_i (k : string) (v : Z) : Value :=
  Obj [("key", Str k); ("value", Obj [("intValue", Str (pretty v))])].
Definition attr_d (k : string) (v : f64) : Value :=
  Obj [("key", Str k); ("value", Obj [("doubleValue", Number (FloatNum v))])].

(* @src otel.rs 88-92 otlp_json *)
Definition trace_id (rec : CallRecord) : string :=
  hex_padded 16 (hash64 [cr_run_id rec]) +:+ hex_padded 16 (hash64 ["trace"; cr_run_id rec]).
(* @src otel.rs 93 otlp_json *)
Definition span_id (rec : CallRecord) : string :=
  hex_padded 16 (hash64 [cr_run_id rec; pretty (cr_step rec)]).

(* @src otel.rs 104-124 otlp_json *)
Definition span_attributes (rec : CallRecord) : list Value :=
  [attr_s "gen_ai.operation.name" "chat";
   attr_s "gen_ai.request.model" (cr_model rec);
   attr_s "gen_ai.response.model" (cr_model rec);
   attr_i "gen_ai.usage.input_tokens" (i64_wrap (cr_input_tokens rec));
   attr_i "gen_ai.usage.output_tokens" (i64_wrap (cr_output_tokens rec))]
  ++ option_list (attr_s "gen_ai.system" <$> gen_ai_system (cr_model rec))
  ++ [attr_s "tokenfuse.run_id" (cr_run_id rec);
      attr_i "tokenfuse.step" (cr_step rec);
      attr_s "tokenfuse.decision" (decision rec);
      attr_d "tokenfuse.cost_usd" (f64_div (f64_of_Z (cost_microusd rec)) (f64_of_Z 1000000))].

(* @src otel.rs otlp_json *)
Definition otlp_json (rec : CallRecord) (service : string) : Value :=
  let start_nanos := pretty (Z.max (ts_millis rec) 0 * 1000000) in
  Obj [("resourceSpans", Arr [Obj [
    ("resource", Obj [("attributes", Arr [attr_s "service.name" service])]);
    ("scopeSpans", Arr [Obj [
      ("scope", Obj [("name", Str "tokenfuse")]);
      ("spans", Arr [Obj [
        ("attributes", Arr (span_attributes rec));
        ("endTimeUnixNano", Str start_nanos);
        ("kind", Number (PosInt 3));
        ("name", Str "llm.call");
        ("spanId", Str (span_id rec));
        ("startTimeUnixNano", Str start_nanos);
        ("traceId", Str (trace_id rec))]])]])]])].

(** The request a record causes: the URL and its body. *)
(* @src otel.rs 145-163 record *)
Definition otel_record (print : Value → string) (s : OtelSink) (rec : CallRecord) : string * string :=
  (otel_url s, print (otlp_json rec (service s))).
End spans.

(** ** The operator's endpoints *)

(* @src obs.rs RunView *)
Record RunView := mkRunView {
  v_run_id : string;
  v_budget_usd : f64;
  v_spent_usd : f64;
  v_reserved_usd : f64;
  v_remaining_usd : f64;
  v_steps : Z;
  v_pct_used : f64;
  v_killed : bool
}.

(* @src obs.rs 31-48 list_runs *)
Definition run_view (st : AppState) (p : string * RunSnapshot) : RunView :=
  let '(run_id, s) := p in
  let budget := Microusd.as_usd (budget s) in
  mkRunView run_id budget (Microusd.as_usd (spent s)) (Microusd.as_usd (reserved s))
    (Microusd.as_usd (RunSnapshot.remaining s)) (steps s)
    (if f64_ltb (f64_of_Z 0) budget
     then f64_mul (f64_div (Microusd.as_usd (RunSnapshot.in_flight s)) budget) (f64_of_Z 100)
     else f64_of_Z 0)
    (AppState.is_killed st run_id).

(** [a] is not after [b] when [b] has not spent more; amounts that do not compare are equal. *)
(* @src obs.rs 50-54 list_runs *)
Definition spent_geb (a b : RunView) : bool := negb (f64_ltb (v_spent_usd a) (v_spent_usd b)).

(* @src obs.rs list_runs *)
Definition list_runs_view (st : AppState) (runs : list (string * RunSnapshot)) : list RunView :=
  sort_by spent_geb (run_view st <$> runs).

(* @src obs.rs kill_run *)
Definition kill_run (st : AppState) (id : string) : AppState * Value :=
  (AppState.kill st id, Obj [("killed", Str id)]).

(** ** The routes *)

Inductive Endpoint := Healthz | Messages | ListRuns | KillRun (id : string) | ListKeys.

(** The method and the endpoint of a path, cut at its slashes. *)
(* @src gateway/lib.rs 57-62 app *)
Definition route (segments : list string) : option (string * Endpoint) :=
  match segments with
  | ["healthz"] => Some ("GET", Healthz)
  | ["v1"; "messages"] => Some ("POST", Messages)
  | ["v1"; "runs"] => Some ("GET", ListRuns)
  | ["v1"; "runs"; id; "kill"] => Some ("POST", KillRun id)
  | ["v1"; "keys"] => Some ("GET", ListKeys)
  | _ => None
  end.

(* @src gateway/lib.rs DEFAULT_MAX_BODY_BYTES *)
Definition DEFAULT_MAX_BODY_BYTES : Z := 16 * 1024 * 1024.

(** The body limit, from the environment. *)
(* @src gateway/lib.rs 53-56 app *)
Definition max_body (v : option string) : Z :=
  default DEFAULT_MAX_BODY_BYTES (v ≫= parse_unsigned u64_max).

(** Where a request goes, or the status it is refused with. *)
(* @src gateway/lib.rs app *)
Definition dispatch (limit : option string) (meth : string) (segments : list string) (body : string)
  : result Endpoint Z :=
  match route segments with
  | None => Err 404
  | Some (m, e) =>
      if negb (bool_decide (m = meth)) then Err 405
      else match e with
           | Messages => if max_body limit <? Z.of_nat (String.length body) then Err 413 else Ok e
           | _ => Ok e
           end
  end.

(** ** The live view *)

(* @src tui.rs RunRow *)
Record RunRow := mkRunRow {
  w_run_id : string; w_budget_usd : f64; w_spent_usd : f64; w_reserved_usd : f64;
  w_steps : Z; w_pct_used : f64; w_killed : bool
}.

(* @src tui.rs fmt_usd *)
Definition fmt_usd (v : f64) : string :=
  "$" +:+ f64_fixed (if f64_geb v (f64_of_Z 100) then 0
                     else if f64_geb v (f64_of_Z 1) then 2 else 4)%nat v.

(** [x.clamp(lo, hi)] and [x as usize]. *)
Definition f64_clamp (lo hi x : f64) : f64 :=
  let x := if f64_ltb x lo then lo else x in if f64_ltb hi x then hi else x.
Definition f64_to_usize (x : f64) : Z := Z.max 0 (f64_to_i64 x).

(** The cells of the bar that are filled. *)
(* @src tui.rs 41-43 bar *)
Definition filled (pct : f64) (width : nat) : nat :=
  let clamped := f64_div (f64_clamp (f64_of_Z 0) (f64_of_Z 100) pct) (f64_of_Z 100) in
  Nat.min (Z.to_nat (f64_to_usize (f64_round (f64_mul clamped (f64_of_Z (Z.of_nat width)))))) width.
(* @src tui.rs bar *)
Definition bar (pct : f64) (width : nat) : string :=
  concat_str ((λ i, if (i <? filled pct width)%nat then "█" else "░") <$> seq 0 width).

Inductive Color := DarkGray | Red | Yellow | Green.
(* @src tui.rs pct_color *)
Definition pct_color (pct : f64) (killed : bool) : Color :=
  if killed then DarkGray
  else if f64_geb pct (f64_of_Z 100) then Red
  else if f64_geb pct (f64_of_Z 85) then Yellow
  else Green.

(** A row of the table: its cells and the colour of the bar. *)
(* @src tui.rs 189-203 draw *)
Definition row_cells (r : RunRow) : list string * Color :=
  ([w_run_id r; fmt_usd (w_spent_usd r) +:+ " / " +:+ fmt_usd (w_budget_usd r);
    bar (w_pct_used r) 16; f64_fixed 0 (w_pct_used r) +:+ "%"; pretty (w_steps r);
    if w_killed r then "KILLED" else ""], pct_color (w_pct_used r) (w_killed r)).

(** A sum of floats starts at minus zero.  A frame: the title, the rows, the highlighted one, and the help line. *)
Record Frame := mkFrame {
  fr_title : string; fr_rows : list (list string * Color); fr_selected : option nat;
  fr_help : string
}.

(* @src tui.rs draw *)
Definition draw (runs : list RunRow) (selected : option nat) (conn : string)
    (action : option string) : Frame :=
  mkFrame
    (" tokenfuse top — " +:+ pretty (length runs) +:+ " run(s) · total spend "
     +:+ fmt_usd (foldl (SFadd 53 1024) (S754_zero true) (w_spent_usd <$> runs)) +:+ " ")
    (row_cells <$> runs) selected
    (" " +:+ conn +:+ match action with Some a => " · " +:+ a | None => "" end
     +:+ "   │   ↑/↓ select · k/Enter kill · r refresh · q quit ").

(** What the terminal reports within half a second. *)
Inductive KeyCode := Char (c : ascii) | Esc | Enter | Up | Down | OtherKey.
Inductive Input := NoInput | PollError (e : string) | NoKey | NotPress | Press (k : KeyCode).

(** What the view does: draw a frame of these runs, or post a kill of a run. *)
Inductive Effect := Drawn (runs : list RunRow) (f : Frame) | KillPosted (url run_id : string).

Record Tui := mkTui { selected : option nat; action : option string }.

(* @src tui.rs 102-108 run *)
Definition keep_in_range (runs : list RunRow) (sel : option nat) : option nat :=
  match runs with
  | [] => None
  | _ => Some (Nat.min (default O sel) (length runs - 1))
  end.

(** The effect of a key on the state, and the run it kills. *)
(* @src tui.rs 123-151 run *)
Definition on_key (runs : list RunRow) (k : KeyCode) (t : Tui) : option (Tui * option string) :=
  match k with
  | Char "q" | Esc => None
  | Down | Char "j" =>
      Some (match runs with
            | [] => t
            | _ => mkTui (Some (match selected t with
                                | Some i => (i + 1) mod length runs
                                | None => O end)%nat) (action t)
            end, None)
  | Up =>
      Some (match runs with
            | [] => t
            | _ => mkTui (Some (match selected t with
                                | Some i => (i + length runs - 1) mod length runs
                                | None => O end)%nat) (action t)
            end, None)
  | Char "k" | Enter =>
      match selected t ≫= λ i, runs !! i with
      | Some r => Some (mkTui (selected t) (Some ("killed " +:+ w_run_id r)), Some (w_run_id r))
      | None => Some (t, None)
      end
  | _ => Some (t, None)
  end.

Section tui.
Context (base : string).

(* @src tui.rs kill *)
Definition kill_url (run_id : string) : string := base +:+ "/v1/runs/" +:+ run_id +:+ "/kill".

(** The rows of a poll, and the connection line. *)
(* @src tui.rs 91-100 run *)
Definition connection (fetched : result (list RunRow) string) : list RunRow * string :=
  match fetched with
  | Ok r => (r, "connected · " +:+ pretty (length r) +:+ " run(s)")
  | Err e => ([], "gateway unreachable at " +:+ base +:+ ": " +:+ e)
  end.

(** A turn per poll of the gateway and of the keyboard; the result is that of the command
    once the view is left, and [None] while it runs. *)
(* @src tui.rs run *)
Fixpoint tui_run (turns : list (result (list RunRow) string * option string * Input)) (t : Tui)
  : list Effect * option (result unit string) :=
  match turns with
  | [] => ([], None)
  | (fetched, draw_error, input) :: turns =>
      let '(runs, conn) := connection fetched in
      let t := mkTui (keep_in_range runs (selected t)) (action t) in
      let go effects t := let '(es, r) := tui_run turns t in (effects ++ es, r) in
      match draw_error with
      | Some e => ([], Some (Err e))
      | None =>
          let frame := Drawn runs (draw runs (selected t) conn (action t)) in
          match input with
          | PollError e => ([frame], Some (Err e))
          | NoInput | NoKey | NotPress => go [frame] t
          | Press k =>
              match on_key runs k t with
              | None => ([frame], Some (Ok tt))
              | Some (t, None) => go [frame] t
              | Some (t, Some id) => go [frame; KillPosted (kill_url id) id] t
              end
          end
      end
  end.
End tui.

(** ** Correctness *)

Lemma hex_padded_length w z : String.length (hex_padded w z) = w.
Proof. revert z. induction w as [|w IH]; intros z; simpl; [done|]. rewrite append_length, IH. simpl. lia. Qed.

Lemma hex_digit_inj a b : (a < 16)%nat → (b < 16)%nat → hex_digit a = hex_digit b → a = b.
Proof.
  intros Ha Hb. do 16 (destruct a as [|a]; [do 16 (destruct b as [|b]; [done|]); lia|]). lia.
Qed.

Lemma hex_padded_inj w z1 z2 :
  0 <= z1 < 16 ^ Z.of_nat w → 0 <= z2 < 16 ^ Z.of_nat w → hex_padded w z1 = hex_padded w z2 → z1 = z2.
Proof.
  revert z1 z2. induction w as [|w IH]; intros z1 z2 H1 H2; simpl; [intros _; simpl in *; lia|].
  rewrite Nat2Z.inj_succ, Z.pow_succ_r in H1, H2 by lia.
  intros [Hq Hr]%append_inj_len; [|by rewrite !hex_padded_length].
  assert (z1 / 16 = z2 / 16) as Hdiv.
  { apply IH; [| |done]; (split; [apply Z.div_pos; lia|apply Z.div_lt_upper_bound; lia]). }
  injection Hr as Hr. apply hex_digit_inj in Hr; [|Z.to_euclidean_division_equations; lia..].
  Z.to_euclidean_division_equations; lia.
Qed.

(** Identifiers a span collector accepts: of the right length and not all zeros. *)
Definition valid_id (w : nat) (s : string) : Prop :=
  String.length s = w ∧ s ≠ hex_padded w 0.

(** Calls of one run share one trace, each call's trace and span identifiers are valid, and two
    runs, or two steps of a run, are told apart as long as their hashes are. *)
Theorem spans_group_by_run (hasher : list string → Z) r1 r2 :
  (∀ l, in_u64 (hasher l)) →
  valid_id 32 (trace_id hasher r1) ∧ valid_id 16 (span_id hasher r1) ∧
  (cr_run_id r1 = cr_run_id r2 → trace_id hasher r1 = trace_id hasher r2) ∧
  (trace_id hasher r1 = trace_id hasher r2 → hash64 hasher [cr_run_id r1] = hash64 hasher [cr_run_id r2]) ∧
  (span_id hasher r1 = span_id hasher r2 →
   hash64 hasher [cr_run_id r1; pretty (cr_step r1)] = hash64 hasher [cr_run_id r2; pretty (cr_step r2)]).
Proof.
  intros Hh. assert (∀ l, 0 < hash64 hasher l < 16 ^ Z.of_nat 16) as Hr.
  { intros l. unfold hash64. specialize (Hh l). unfold in_u64, u64_max in Hh.
    change (16 ^ Z.of_nat 16) with 18446744073709551616. case_match; lia. }
  assert (∀ l, hex_padded 16 (hash64 hasher l) ≠ hex_padded 16 0) as Hnz.
  { intros l Heq. specialize (Hr l). apply hex_padded_inj in Heq; [|lia..]. lia. }
  unfold valid_id, trace_id, span_id. split_and!.
  - by rewrite append_length, !hex_padded_length.
  - change (hex_padded 32 0) with (hex_padded 16 0 +:+ hex_padded 16 0).
    intros [H _]%append_inj_len; [|by rewrite !hex_padded_length]. by apply (Hnz [cr_run_id r1]).
  - apply hex_padded_length.
  - apply Hnz.
  - by intros ->.
  - intros [H _]%append_inj_len; [|by rewrite !hex_padded_length].
    pose proof (Hr [cr_run_id r1]). pose proof (Hr [cr_run_id r2]).
    apply hex_padded_inj in H; lia.
  - pose proof (Hr [cr_run_id r1; pretty (cr_step r1)]). pose proof (Hr [cr_run_id r2; pretty (cr_step r2)]).
    intros H1. apply hex_padded_inj in H1; lia.
Qed.

(** Insertion sort orders neighbours even where the comparison is not transitive. *)
Lemma insert_by_locally_sorted {A} (le : A → A → bool) x l :
  (∀ a b, le a b = false → le b a = true) →
  Sorted (λ a b, le a b = true) l → Sorted (λ a b, le a b = true) (insert_by le x l).
Proof.
  intros Hle. induction 1 as [|y l Hl IH Hy]; simpl; [by repeat constructor|].
  destruct (le x y) eqn:E; [by repeat constructor|]. constructor; [done|].
  destruct Hy as [|z l Hyz]; simpl; [constructor; auto|]. destruct (le x z); constructor; auto.
Qed.

Lemma f64_ltb_asym x y : f64_ltb x y = true → f64_ltb y x = false.
Proof.
  unfold f64_ltb, SFltb. intros H. assert (SFcompare y x = CompOpp <$> SFcompare x y) as ->.
  { clear H. destruct x as [[]|[]| |[] m e], y as [[]|[]| |[] n k]; try done; cbn -[Z.compare Pos.compare].
    all: rewrite (Z.compare_antisym e k); destruct (Z.compare e k); cbn -[Pos.compare]; try done.
    all: pose proof (Pos.compare_cont_antisym m n Eq) as Hc; cbn in Hc; by rewrite <- Hc. }
  by destruct (SFcompare x y) as [[]|].
Qed.

(** The listing holds every run of the ledger once, with the amounts the ledger has and whether
    it is killed, and no run is listed before one that has spent more. *)
Theorem runs_listed_most_spent_first st runs :
  list_runs_view st runs ≡ₚ (run_view st <$> runs) ∧
  Sorted (λ a b, f64_ltb (v_spent_usd a) (v_spent_usd b) = false) (list_runs_view st runs).
Proof.
  split; [apply sort_by_perm|].
  assert (Sorted (λ a b, spent_geb a b = true) (list_runs_view st runs)) as Hs.
  { unfold list_runs_view. induction (run_view st <$> runs) as [|v l IH]; [constructor|].
    simpl. apply insert_by_locally_sorted; [|done]. unfold spent_geb. intros a b Hab.
    apply negb_false_iff in Hab. by rewrite f64_ltb_asym. }
  revert Hs. induction 1 as [|a l Hl IH Ha]; constructor; [done|].
  destruct Ha; constructor. by apply negb_true_iff.
Qed.

(** A kill through the endpoint is the state's kill: the next call of the run finds it. *)
Lemma kill_run_kills st id : AppState.is_killed (kill_run st id).1 id = true.
Proof. unfold kill_run, AppState.is_killed, AppState.kill. cbn. apply bool_decide_true. set_solver. Qed.

Lemma char_count_cell b s : char_count ((if b : bool then "█" else "░") +:+ s) = S (char_count s).
Proof. by destruct b. Qed.

Lemma bar_cells pct width : char_count (bar pct width) = width ∧ (filled pct width <= width)%nat.
Proof.
  split; [|apply Nat.le_min_r]. unfold bar. generalize (filled pct width) as f. intros f.
  assert (∀ n k, char_count (concat_str ((λ i, if (i <? f)%nat then "█" else "░") <$> seq k n)) = n) as H.
  { induction n as [|n IH]; intros k; [done|]. rewrite <- cons_seq, fmap_cons. cbn [concat_str].
    rewrite char_count_cell. f_equal. apply IH. }
  apply H.
Qed.

Section tui_correct.
Context (base : string).

Definition frame_ok (e : Effect) : Prop :=
  match e with
  | Drawn runs f => match fr_selected f with
                    | Some i => (i < length runs)%nat
                    | None => runs = []
                    end
  | KillPosted _ _ => True
  end.

Lemma keep_in_range_ok runs sel :
  match keep_in_range runs sel with Some i => (i < length runs)%nat | None => runs = [] end.
Proof. destruct runs as [|r runs]; simpl; [done|]. lia. Qed.

Lemma on_key_kills runs k t u id :
  on_key runs k t = Some (u, Some id) →
  ∃ i r, selected t = Some i ∧ runs !! i = Some r ∧ id = w_run_id r.
Proof.
  intros H.
  assert (∃ r, selected t ≫= (λ i, runs !! i) = Some r ∧ id = w_run_id r) as (r & Hsel & ->).
  { destruct k as [c| | | | |]; unfold on_key in H; repeat (case_match; simplify_eq); eauto; discriminate. }
  apply bind_Some in Hsel as (i & Hi & Hr). eauto.
Qed.

(** The run a kill names is the one highlighted in the frame before it. *)
Inductive kills_highlighted : list Effect → Prop :=
| kh_nil : kills_highlighted []
| kh_frame runs f es : kills_highlighted es → kills_highlighted (Drawn runs f :: es)
| kh_kill runs f i r es :
    fr_selected f = Some i → runs !! i = Some r → kills_highlighted es →
    kills_highlighted (Drawn runs f :: KillPosted (kill_url base (w_run_id r)) (w_run_id r) :: es).

Theorem tui_kills_highlighted turns t :
  kills_highlighted (tui_run base turns t).1 ∧ Forall frame_ok (tui_run base turns t).1.
Proof.
  revert t. induction turns as [|[[fetched draw_error] input] turns IH]; intros t; simpl;
    [repeat constructor|].
  destruct (connection base fetched) as [runs conn].
  pose proof (keep_in_range_ok runs (selected t)) as Hin.
  set (t' := mkTui (keep_in_range runs (selected t)) (action t)).
  destruct draw_error; [repeat constructor|].
  assert (∀ u, kills_highlighted (Drawn runs (draw runs (keep_in_range runs (selected t)) conn (action t))
              :: (tui_run base turns u).1) ∧
            Forall frame_ok (Drawn runs (draw runs (keep_in_range runs (selected t)) conn (action t))
              :: (tui_run base turns u).1)) as Hgo.
  { intros u. destruct (IH u). split; by constructor. }
  destruct input as [|e| | |k];
    [specialize (Hgo t')|split; by repeat constructor|specialize (Hgo t')|specialize (Hgo t')|];
    [by destruct (tui_run base turns t')..|].
  destruct (on_key runs k t') as [[u killed]|] eqn:Hkey; [|split; by repeat constructor].
  destruct killed as [id|]; [|specialize (Hgo u); by destruct (tui_run base turns u)].
  destruct (on_key_kills _ _ _ _ _ Hkey) as (i & r & Hi & Hr & ->).
  destruct (IH u) as [Hk Hf]. destruct (tui_run base turns u) as [es res]. split.
  - by eapply kh_kill.
  - repeat constructor; done.
Qed.
End tui_correct.

(** The kill of a run reaches the endpoint that kills it, as long as its id has no slash; with
    one, the gateway has no such route, and the view says it killed the run all the same. *)
Lemma kill_reaches_endpoint id :
  free_of "/" id →
  route (tail (split_char "/" ("/v1/runs/" +:+ id +:+ "/kill"))) = Some ("POST", KillRun id).
Proof.
  intros Hid. change ("/v1/runs/" +:+ id +:+ "/kill")
    with (String "/" ("v1" +:+ String "/" ("runs" +:+ String "/" (id +:+ String "/" "kill")))).
  change (String "/" ("v1" +:+ String "/" ("runs" +:+ String "/" (id +:+ String "/" "kill"))))
    with ("" +:+ String "/" ("v1" +:+ String "/" ("runs" +:+ String "/" (id +:+ String "/" "kill")))).
  rewrite !split_char_cons by (try done). by rewrite (split_char_free "/" "kill").
Qed.

Example slash_kill_lost :
  route (tail (split_char "/" (kill_url "" "a/b"))) = None ∧
  (on_key [mkRunRow "a/b" (f64_of_Z 0) (f64_of_Z 0) (f64_of_Z 0) 0 (f64_of_Z 0) false] Enter
          (mkTui (Some O) None)) = Some (mkTui (Some O) (Some "killed a/b"), Some "a/b").
Proof. by vm_compute. Qed.

(** With no runs, the title shows a negative zero. *)
Example empty_title_negative :
  fr_title (draw [] None "" None) = " tokenfuse top — 0 run(s) · total spend $-0.0000 ".
Proof. by vm_compute. Qed.

Example otel_url_once :
  otel_url (otel_new "http://h:4318/") = "http://h:4318/v1/traces" ∧
  otel_url (otel_new "http://h:4318/v1/traces") = "http://h:4318/v1/traces".
Proof. by vm_compute. Qed.
