(* ===== verification/Startup.v ===== *)
(** * What the environment configures

    [serve], [mcp_broker] and [cluster_ledger] of [crates/gateway/src/main.rs], with the
    [from_env] constructors of [wardryx.rs] and [router.rs] and the builders of [state.rs]: the
    settings a process starts with, or the exit code it refuses to start with.  The
    environment and the files are inputs; loading a policy module, parsing JSON, opening the
    trace directory and starting a raft node belong to libraries and are parameters. *)

From S2P Require Import Prelude Float Money Strings Ledger UnitLedger Loops Policy.
From S2P Require Import Taint Dlp Cache Router LedgerBackend Identity AppState Wardryx Gateway Sinks.
From S2P Require SecretBroker Mcp McpBroker Telemetry.

(** [std::env::var(name).ok()] *)
Definition Env : Type := string → option string.

(** [.ok().filter(|s| !s.is_empty())] *)
Definition not_empty (v : option string) : option string :=
  v ≫= λ s, if bool_decide (s = "") then None else Some s.

(** A number of the environment, or the default. *)
Definition env_u64 (v : option string) (dflt : Z) : Z := default dflt (v ≫= parse_unsigned u64_max).

(** ** Settings of the parts *)

(* @src wardryx.rs DEFAULT_TIMEOUT_MS *)
Definition DEFAULT_TIMEOUT_MS : Z := 50.

(** The policy decision point's client: where it posts, with which key and deadline. *)
(* @src wardryx.rs WardryxClient *)
Record WardryxClient := mkWardryxClient { wc_url : string; wc_key : option string; wc_timeout : Z }.

(* @src wardryx.rs 432-436 Wardryx::from_env *)
Definition wardryx_mode (v : option string) : WardryxMode :=
  if bool_decide (v = Some "shadow") then WxShadow
  else if bool_decide (v = Some "enforce") then WxEnforce else WxOff.

(* @src wardryx.rs Wardryx::from_env *)
Definition wardryx_from_env (env : Env) : Wardryx * option WardryxClient :=
  match not_empty (env "TOKENFUSE_WARDRYX_URL") with
  | None => (Wardryx.disabled, None)
  | Some url =>
      let failmode := if bool_decide (env "TOKENFUSE_WARDRYX_FAILMODE" = Some "closed")
                      then FailClosed else FailOpen in
      (Wardryx.new (wardryx_mode (env "TOKENFUSE_WARDRYX_MODE")) failmode
         (env_u64 (env "TOKENFUSE_WARDRYX_CACHE_TTL_MS") DEFAULT_CACHE_TTL_MS),
       Some (mkWardryxClient url (not_empty (env "TOKENFUSE_WARDRYX_KEY"))
               (env_u64 (env "TOKENFUSE_WARDRYX_TIMEOUT_MS") DEFAULT_TIMEOUT_MS)))
  end.

(** The functions of libraries a start calls; [rule_values] is the iteration order of a map. *)
Record StartLib := mkStartLib {
  st_debug : string → string;
  st_show_f64 : f64 → string;
  st_to_lowercase : string → string;
  st_wire_map : string → result WireMap string;          (* serde_json *)
  st_rules : string → result RouterRules string;
  st_lock : string → option Mcp.Lock;
  st_rule_values : RouterRules → list ClassRule;
  st_read : string → result string string;               (* fs::read_to_string *)
  st_wasm : string → result (Z → Z → Z → Z → Z → Z) string;
  st_parquet : string → option string                    (* the error of ParquetSink::new *)
}.

Section start.
Context (lib : StartLib) (env : Env).

(* @src router.rs load_rules_file *)
Definition load_rules_file (path : string) : result RouterRules string :=
  match st_read lib path with
  | Err e => Err e
  | Ok text => st_rules lib text
  end.

(* @src router.rs Router::from_env *)
Definition router_from_env : Router :=
  let mode := if bool_decide (env "TOKENFUSE_ROUTER" = Some "shadow") then RouterShadow
              else if bool_decide (env "TOKENFUSE_ROUTER" = Some "on") then RouterOn else RouterOff in
  let rules := match not_empty (env "TOKENFUSE_ROUTER_RULES") with
               | Some path => match load_rules_file path with
                              | Ok rules => rules
                              | Err _ => default_rules
                              end
               | None => default_rules
               end in
  Router.new mode rules (st_rule_values lib rules).

(* @src gateway/main.rs 389-393 serve *)
Definition policy_mode (v : option string) : Policy.Mode :=
  if bool_decide (v = Some "enforce") then Enforce
  else if bool_decide (v = Some "warn") then Warn else Shadow.

(* @src gateway/main.rs 395-412 serve *)
Definition serve_policy (v : option string) : Policy :=
  let d := default_policy in
  mkPolicy (policy_mode v) (budget_per_run d) (budget_per_step d) (max_steps d)
    (mkAnomalyConfig (Some (mkWindow 10 3)) (Some (mkWindow 8 2)) (Some (mkGrowth (f64_lit 15 10) 3))).

(* @src gateway/main.rs 518-522 serve *)
Definition cache_mode (v : option string) : CacheMode :=
  if bool_decide (v = Some "on") then CacheOn
  else if bool_decide (v = Some "off") then CacheOff else CacheShadow.

(** [off] unless one of the three words. *)
(* @src gateway/main.rs 538-543 serve *)
Definition dlp_mode (v : option string) : DlpMode :=
  if bool_decide (v = Some "shadow") then DlpShadow
  else if bool_decide (v = Some "mask") then DlpMask
  else if bool_decide (v = Some "block") then DlpBlock else DlpOff.

(** ** Identity *)

(* @src clientkeys.rs 71-79 fmt *)
Definition empty_spec_text : string :=
  "TOKENFUSE_CLIENT_KEYS is set but contains no usable `secret:key_id` entry "
  +:+ "(expected e.g. `sk-live-abc:billing-agent,sk-live-def:research-agent`); "
  +:+ "refusing to start rather than run with client authentication silently off".

(* @src identitymap.rs 232-253 fmt *)
Definition load_error_text (e : LoadError) : string :=
  match e with
  | Io path e => "TOKENFUSE_IDENTITY_MAP names " +:+ path +:+ " but it could not be read: " +:+ e
      +:+ "; refusing to start rather than run with the identity map silently off"
  | Identity.Parse e => "TOKENFUSE_IDENTITY_MAP is set but is not valid JSON: " +:+ e
      +:+ "; refusing to start rather than run with the identity map silently off"
  | Invalid msg => "TOKENFUSE_IDENTITY_MAP is set but invalid: " +:+ msg
      +:+ "; refusing to start rather than run with the identity map silently off"
  end.

(** A message on stderr and the exit with code 2. *)
Inductive Refusal := refusal (message : string).

(* @src gateway/main.rs 443-456 serve *)
Definition identity_from_env : result IdentityMap Refusal :=
  match env "TOKENFUSE_IDENTITY_MAP" with
  | None => Ok (mkIdentityMap ∅ ∅ [])
  | Some path =>
      if bool_decide (trim path = "") then Ok (mkIdentityMap ∅ ∅ [])
      else match IdentityMap.from_path (st_debug lib) (st_show_f64 lib) (st_wire_map lib) (trim path)
                   (st_read lib (trim path)) with
           | Ok map => Ok map
           | Err e => Err (refusal ("tokenfuse: TOKENFUSE_IDENTITY_MAP: " +:+ load_error_text e))
           end
  end.

(* @src gateway/main.rs 460-476 serve *)
Definition strict_from_env : result StrictMode Refusal :=
  let trimmed := trim (default "" (env "TOKENFUSE_IDENTITY_STRICT")) in
  if bool_decide (trimmed = "") then Ok StrictOff
  else match StrictMode.from_str (st_to_lowercase lib) trimmed with
       | Ok mode => Ok mode
       | Err _ => Err (refusal ("tokenfuse: TOKENFUSE_IDENTITY_STRICT must be off|warn|enforce, got `"
                                +:+ trimmed +:+ "`"))
       end.

(* @src gateway/main.rs 422-430 serve *)
Definition keys_from_env : result ClientKeys Refusal :=
  match ClientKeys.from_spec (default "" (env "TOKENFUSE_CLIENT_KEYS")) with
  | Ok keys => Ok keys
  | Err _ => Err (refusal ("tokenfuse: " +:+ empty_spec_text))
  end.

(** ** The state *)

(** The sinks a record is sent to, by where they write. *)
Inductive SinkTree :=
| ToNull | ToParquet (dir : string) (batch : nat) | ToOtel (s : Telemetry.OtelSink)
| ToCloud (base key : string) | ToTee (first second : SinkTree).

(** What the builders set: the configuration of the request path, and the parts it calls. *)
Record State := mkState {
  s_config : Config;
  s_units : UnitLedger;
  s_wardryx : Wardryx;
  s_sink : SinkTree;
  s_upstream : option string        (* none is the stub provider *)
}.

(* @src state.rs AppState::new *)
Definition state_new (prices : PriceBook) (policy : Policy) (provider : option string)
    (policy_id : string) : State :=
  mkState (mkConfig prices policy policy_id Cache.default_config FirewallConfig.disabled DlpOff DlpOff
             (Router.new RouterOff default_rules (st_rule_values lib default_rules)) None
             (mkClientKeys ∅) (mkIdentityMap ∅ ∅ []) StrictOff)
          (UnitLedger.new ∅) Wardryx.disabled ToNull provider.

Definition with_config (f : Config → Config) (s : State) : State :=
  mkState (f (s_config s)) (s_units s) (s_wardryx s) (s_sink s) (s_upstream s).

(* @src state.rs AppState::with_client_keys *)
Definition with_client_keys (keys : ClientKeys) : State → State := with_config (λ c,
  mkConfig (prices c) (policy c) (policy_name c) (cache_config c) (firewall c) (dlp c) (dlp_pii c)
    (router c) (wasm c) keys (identity c) (identity_strict c)).
(* @src state.rs AppState::with_identity *)
Definition with_identity (map : IdentityMap) (strict : StrictMode) (units : UnitLedger) (s : State)
  : State :=
  let c := s_config s in
  mkState (mkConfig (prices c) (policy c) (policy_name c) (cache_config c) (firewall c) (dlp c)
             (dlp_pii c) (router c) (wasm c) (client_keys c) map strict)
          units (s_wardryx s) (s_sink s) (s_upstream s).
(* @src state.rs AppState::with_cache *)
Definition with_cache (cfg : CacheConfig) : State → State := with_config (λ c,
  mkConfig (prices c) (policy c) (policy_name c) cfg (firewall c) (dlp c) (dlp_pii c)
    (router c) (wasm c) (client_keys c) (identity c) (identity_strict c)).
(* @src state.rs AppState::with_firewall *)
Definition with_firewall (fw : FirewallConfig) : State → State := with_config (λ c,
  mkConfig (prices c) (policy c) (policy_name c) (cache_config c) fw (dlp c) (dlp_pii c)
    (router c) (wasm c) (client_keys c) (identity c) (identity_strict c)).
(* @src state.rs AppState::with_dlp *)
Definition with_dlp (m : DlpMode) : State → State := with_config (λ c,
  mkConfig (prices c) (policy c) (policy_name c) (cache_config c) (firewall c) m (dlp_pii c)
    (router c) (wasm c) (client_keys c) (identity c) (identity_strict c)).
(* @src state.rs AppState::with_dlp_pii *)
Definition with_dlp_pii (m : DlpMode) : State → State := with_config (λ c,
  mkConfig (prices c) (policy c) (policy_name c) (cache_config c) (firewall c) (dlp c) m
    (router c) (wasm c) (client_keys c) (identity c) (identity_strict c)).
(* @src state.rs AppState::with_router *)
Definition with_router (r : Router) : State → State := with_config (λ c,
  mkConfig (prices c) (policy c) (policy_name c) (cache_config c) (firewall c) (dlp c) (dlp_pii c)
    r (wasm c) (client_keys c) (identity c) (identity_strict c)).
(* @src state.rs AppState::with_wasm *)
Definition with_wasm (w : Z → Z → Z → Z → Z → Z) : State → State := with_config (λ c,
  mkConfig (prices c) (policy c) (policy_name c) (cache_config c) (firewall c) (dlp c) (dlp_pii c)
    (router c) (Some w) (client_keys c) (identity c) (identity_strict c)).
(* @src state.rs AppState::with_wardryx *)
Definition with_wardryx (w : Wardryx) (s : State) : State :=
  mkState (s_config s) (s_units s) w (s_sink s) (s_upstream s).
(* @src state.rs AppState::with_sink *)
Definition with_sink (k : SinkTree) (s : State) : State :=
  mkState (s_config s) (s_units s) (s_wardryx s) k (s_upstream s).

(* @src gateway/main.rs 596-680 serve *)
Definition sinks_from_env : SinkTree :=
  let sink := match not_empty (env "TOKENFUSE_DATA_DIR") with
              | Some dir => match st_parquet lib dir with
                            | None => ToParquet dir 256
                            | Some _ => ToNull
                            end
              | None => ToNull
              end in
  let sink := match not_empty (env "TOKENFUSE_OTLP_ENDPOINT") with
              | Some endpoint => ToTee sink (ToOtel (Telemetry.otel_new endpoint))
              | None => sink
              end in
  match not_empty (env "TOKENFUSE_CLOUD_URL"), not_empty (env "TOKENFUSE_CLOUD_KEY") with
  | Some base, Some key => ToTee sink (ToCloud base key)
  | _, _ => sink
  end.

(** The policy module, in a build with the feature; a module that does not load is skipped. *)
(* @src gateway/main.rs 571-582 serve *)
Definition load_wasm (feature : bool) (s : State) : State :=
  if feature then
    match not_empty (env "TOKENFUSE_WASM_POLICY") with
    | Some path => match st_wasm lib path with
                   | Ok w => with_wasm w s
                   | Err _ => s
                   end
    | None => s
    end
  else s.

(** What the start prints about who may call. *)
(* @src gateway/main.rs 431-504 serve *)
Definition identity_notes (keys : ClientKeys) (map : IdentityMap) (strict : StrictMode)
  : list string * list string :=
  let strict_name := match strict with StrictOff => "Off" | StrictWarn => "Warn" | StrictEnforce => "Enforce" end in
  ((if ClientKeys.enabled keys
    then ["client auth: ON (" +:+ pretty (ClientKeys.len keys)
          +:+ " key(s)); metered calls must send the `" +:+ CLIENT_KEY_HEADER +:+ "` header"] else [])
   ++ (if IdentityMap.enabled map
       then ["identity map: ON (" +:+ pretty (IdentityMap.unit_count map) +:+ " unit(s), "
             +:+ pretty (IdentityMap.key_count map) +:+ " key binding(s)); strict=" +:+ strict_name]
       else []),
   if IdentityMap.enabled map then
     ((λ id, "tokenfuse: identity map key_id `" +:+ id +:+ "` has no matching TOKENFUSE_CLIENT_KEYS entry; its binding cannot match live traffic")
        <$> filter (λ id, id ∉ ClientKeys.key_ids keys) (IdentityMap.key_ids map))
     ++ (if negb (match strict with StrictOff => true | _ => false end) && negb (ClientKeys.enabled keys)
         then ["tokenfuse: TOKENFUSE_IDENTITY_STRICT is set but TOKENFUSE_CLIENT_KEYS is not; nothing is authenticated to check, so binding checks stay idle and only prefix attribution applies"]
         else [])
   else []).

(** Up to the listener: a state to serve with and what was printed, or the refusal. *)
(* @src gateway/main.rs 363-685 serve *)
Definition serve_state (wasm_feature : bool) : result (State * (list string * list string)) Refusal :=
  match keys_from_env with
  | Err e => Err e
  | Ok keys =>
      match identity_from_env with
      | Err e => Err e
      | Ok map =>
          match strict_from_env with
          | Err e => Err e
          | Ok strict =>
              let cache := Cache.default_config in
              let s := state_new default_price_book (serve_policy (env "TOKENFUSE_MODE"))
                         (not_empty (env "TOKENFUSE_UPSTREAM")) "default" in
              let s := with_client_keys keys s in
              let s := with_identity map strict (UnitLedger.new (IdentityMap.unit_budgets map)) s in
              let s := with_cache (Cache.mkConfig (cache_mode (env "TOKENFUSE_CACHE"))
                         (Cache.threshold cache) (ttl_millis cache) (max_per_partition cache)
                         (entity_guard cache) (length_ratio_max cache)) s in
              let s := with_firewall (FirewallConfig.from_env (env "TOKENFUSE_FIREWALL")) s in
              let s := with_dlp (dlp_mode (env "TOKENFUSE_DLP")) s in
              let s := with_dlp_pii (dlp_mode (env "TOKENFUSE_DLP_PII")) s in
              let s := with_router router_from_env s in
              let s := load_wasm wasm_feature s in
              let s := with_wardryx (wardryx_from_env env).1 s in
              let s := with_sink sinks_from_env s in
              Ok (s, identity_notes keys map strict)
          end
      end
  end.
End start.

(** ** The replicated ledger *)

(* @src gateway/main.rs 717-743 cluster_ledger *)
Record ClusterConfig := mkCluster {
  cl_id : Z;                  (* u64 *)
  cl_addr : string;
  cl_peers : gmap Z string;
  cl_bootstrap : bool;
  cl_data_dir : option string;
  cl_token : option string
}.

(** Which ledger the gateway serves with: the one of its own process, a replica, or none,
    because the process exits. *)
Inductive LedgerChoice := InProcess | Replicated (c : ClusterConfig) | Fatal (code : Z) (message : string).

Section cluster.
(** [SocketAddr::from_str] and the start of a node. *)
Context (socket : string → bool) (start : ClusterConfig → result unit string) (env : Env).

(* @src gateway/main.rs 721-728 cluster_ledger *)
Definition add_peer (m : gmap Z string) (pair : string) : gmap Z string :=
  if bool_decide (pair = "") then m
  else match split_once "=" pair with
       | Some (pid, url) => match parse_unsigned u64_max (trim pid) with
                            | Some pid => <[pid := trim url]> m
                            | None => m
                            end
       | None => m
       end.

(* @src gateway/main.rs cluster_ledger *)
Definition cluster_ledger : LedgerChoice :=
  match env "TOKENFUSE_CLUSTER_ID" ≫= parse_unsigned u64_max with
  | None => InProcess
  | Some id =>
      let addr := default ("127.0.0.1:" +:+ pretty (u64_wrap (5000 + id))) (env "TOKENFUSE_CLUSTER_ADDR") in
      let peers := foldl add_peer ∅ (split_char "," (default "" (env "TOKENFUSE_CLUSTER_PEERS"))) in
      let peers := if bool_decide (peers = ∅) then {[id := "http://" +:+ addr]} else peers in
      let cfg := mkCluster id addr peers (bool_decide (is_Some (env "TOKENFUSE_CLUSTER_BOOTSTRAP")))
                   (env "TOKENFUSE_CLUSTER_DATA_DIR") (not_empty (env "TOKENFUSE_CLUSTER_TOKEN")) in
      if negb (socket addr) then InProcess
      else match start cfg with
           | Ok _ => Replicated cfg
           | Err e => Fatal 1 ("fatal: TOKENFUSE_CLUSTER_* set but the cluster ledger failed to start: "
                               +:+ e)
           end
  end.
End cluster.

(** ** The MCP broker *)

(* @src gateway/main.rs 263-277 mcp_broker *)
Definition add_upstream (debug : string → string) (s : gmap string string * list string) (entry : string)
  : gmap string string * list string :=
  let '(m, warnings) := s in
  let entry := trim entry in
  if bool_decide (entry = "") then s
  else match split_once "=" entry with
       | Some (name, url) =>
           if bool_decide (trim name ≠ "") && bool_decide (trim url ≠ "")
           then (<[trim name := trim url]> m, warnings)
           else (m, warnings ++ ["TOKENFUSE_MCP_UPSTREAMS: ignoring malformed entry "
                                 +:+ debug entry +:+ " (want name=url)"])
       | None => (m, warnings ++ ["TOKENFUSE_MCP_UPSTREAMS: ignoring malformed entry "
                                  +:+ debug entry +:+ " (want name=url)"])
       end.

(** The broker's state, its hook and transport, or nothing to run; and the warnings. *)
(* @src gateway/main.rs mcp_broker *)
Definition mcp_broker (lib : StartLib) (env : Env) (args : list string)
  : option (McpBroker.BrokerState * Wardryx * bool) * list string :=
  let stdio := bool_decide ("--stdio" ∈ args) || bool_decide (is_Some (env "TOKENFUSE_MCP_STDIO")) in
  let upstream := default "" (env "TOKENFUSE_MCP_UPSTREAM") in
  let '(named, warnings) := foldl (add_upstream (st_debug lib)) (∅, [])
                              (split_char "," (default "" (env "TOKENFUSE_MCP_UPSTREAMS"))) in
  if bool_decide (upstream = "") && bool_decide (named = ∅)
  then (None, warnings ++ ["set TOKENFUSE_MCP_UPSTREAM=<real MCP server url> (and/or TOKENFUSE_MCP_UPSTREAMS=name=url,... for named upstreams)"])
  else
    let upstream := if bool_decide (upstream = "") then default "" (snd <$> head (btree_list named))
                    else upstream in
    let scan := if bool_decide (env "TOKENFUSE_MCP_SCAN" = Some "off") then McpBroker.ScanOff
                else if bool_decide (env "TOKENFUSE_MCP_SCAN" = Some "block") then McpBroker.ScanBlock
                else McpBroker.ScanWarn in
    let dlp := if bool_decide (env "TOKENFUSE_MCP_DLP" = Some "block") then DlpBlock
               else if bool_decide (env "TOKENFUSE_MCP_DLP" = Some "off") then DlpOff else DlpShadow in
    let lock := env "TOKENFUSE_MCP_LOCK" ≫= λ p,
                  match st_read lib p with Ok s => st_lock lib s | Err _ => None end in
    (Some (McpBroker.mkBroker upstream named
             (SecretBroker.SecretVault.from_pairs (default "" (env "TOKENFUSE_MCP_SECRETS")))
             scan dlp (dlp_mode (env "TOKENFUSE_MCP_DLP_PII")) lock,
           (wardryx_from_env env).1, stdio), warnings).

(** ** Which command runs *)

Inductive Command :=
| Top (base : string) | Sql (query dir : string) | Backtest (dir : string) (args : list string)
| SavingsCmd (dir : string) | ComplianceCmd (dir : string) (args : list string)
| McpScanCmd (args : list string) | FocusExportCmd (args : list string)
| OutcomesCmd (args : list string) | McpBrokerCmd | Serve | Usage (message : string).

(** [args] leaves out the program's name. *)
(* @src gateway/main.rs 20-75 main *)
Definition command (env : Env) (args : list string) : Command :=
  let dir := default "./data" (env "TOKENFUSE_DATA_DIR") in
  match args with
  | "top" :: _ =>
      let addr := default "127.0.0.1:4100" (env "TOKENFUSE_ADDR") in
      Top (default ("http://" +:+ addr) (env "TOKENFUSE_URL"))
  | "sql" :: rest =>
      let query := join " " rest in
      if bool_decide (trim query = "")
      then Usage ("usage: tokenfuse sql " +:+ DQ +:+ "select ... from calls" +:+ DQ)
      else Sql query dir
  | "backtest" :: rest => Backtest dir rest
  | "savings" :: _ => SavingsCmd dir
  | "compliance" :: rest => ComplianceCmd dir rest
  | "mcp-scan" :: rest => McpScanCmd rest
  | "focus-export" :: rest => FocusExportCmd rest
  | "outcomes" :: rest => OutcomesCmd rest
  | "mcp-broker" :: _ => McpBrokerCmd
  | _ => Serve
  end.
