(* ===== verification/Adapters.v ===== *)
(** * The gateway's adapters

    Between the request path and the libraries behind it: the policy module
    ([crates/gateway/src/wasmpolicy.rs]) over the WebAssembly runtime, the providers
    ([provider.rs]) over the HTTP client, the embedder ([embedder.rs]) over the model, and the
    event exporter of the environment ([events.rs]) over the file.  The libraries are
    parameters. *)

From S2P Require Import Prelude Float Money Strings Policy Cache AgentEvent LedgerBackend Respond Gateway Startup.
From S2P Require Json Provider Identity.

(** [x as i32] *)
Definition i32_wrap (z : Z) : Z := (z + 2147483648) mod 4294967296 - 2147483648.

(** ** Policy modules *)

(** The runtime: an engine that counts fuel, compiled modules, instances in a store of their own
    with the fuel that is left, and their exported functions of the policy's type. *)
Record Wasmtime := mkWasmtime {
  Engine : Type; Module_ : Type; Instance_ : Type; EvalFn : Type;
  engine_new : result Engine string;
  module_from_file : Engine → string → result Module_ string;
  module_new : Engine → string → result Module_ string;
  instance_new : Engine → Module_ → Z → result Instance_ string;
  set_fuel : Z → result unit string;
  get_evaluate : Instance_ → result EvalFn string;
  call : EvalFn → Z * Z * Z * Z * Z → result Z string
}.

Section wasm.
Context (rt : Wasmtime).

(* @src wasmpolicy.rs WasmPolicy *)
Record WasmPolicy := mkWasmPolicy { wp_engine : Engine rt; wp_module : Module_ rt }.

(** [from_file] instantiates the module once, with one unit of fuel, to look for the export. *)
(* @src wasmpolicy.rs WasmPolicy::from_file *)
Definition from_file (path : string) : result WasmPolicy string :=
  match engine_new rt with
  | Err e => Err e
  | Ok engine =>
      match module_from_file rt engine path with
      | Err e => Err e
      | Ok module =>
          match instance_new rt engine module (match set_fuel rt 1 with Ok _ => 1 | Err _ => 0 end) with
          | Err e => Err e
          | Ok instance =>
              match get_evaluate rt instance with
              | Err e => Err ("policy must export evaluate(i64,i64,i64,i32,i32)->i32: " +:+ e)
              | Ok _ => Ok (mkWasmPolicy engine module)
              end
          end
      end
  end.

(* @src wasmpolicy.rs WasmPolicy::from_bytes *)
Definition from_bytes (bytes : string) : result WasmPolicy string :=
  match engine_new rt with
  | Err e => Err e
  | Ok engine =>
      match module_new rt engine bytes with
      | Err e => Err e
      | Ok module => Ok (mkWasmPolicy engine module)
      end
  end.

Definition FUEL : Z := 10000000.

(* @src wasmpolicy.rs WasmPolicy::run *)
Definition run (p : WasmPolicy) (args : Z * Z * Z * Z * Z) : result Z string :=
  match set_fuel rt FUEL with
  | Err e => Err e
  | Ok _ =>
      match instance_new rt (wp_engine p) (wp_module p) FUEL with
      | Err e => Err e
      | Ok instance =>
          match get_evaluate rt instance with Err e => Err e | Ok f => call rt f args end
      end
  end.

(* @src wasmpolicy.rs WasmPolicy::evaluate *)
Definition evaluate (p : WasmPolicy) (estimate spent budget step bits : Z) : Z :=
  match run p (estimate, spent, budget, i32_wrap step, i32_wrap bits) with Ok d => d | Err _ => 0 end.

(** What the gateway starts with for a path ([st_wasm] of [Startup]). *)
Definition load (path : string) : result (Z → Z → Z → Z → Z → Z) string :=
  match from_file path with Ok p => Ok (evaluate p) | Err e => Err e end.

(** A module that fails, traps, runs out of fuel or answers anything but 2 stops no call. *)
Lemma wasm_gate_open `{LedgerBackend T} (cfg : Config) (peers : Peers T) p q parsed a :
  wasm cfg = Some (evaluate p) →
  (∀ estimate spent budget step bits, run p (estimate, spent, budget, step, bits) ≠ Ok 2) →
  wasm_gate cfg peers q parsed a = mret tt.
Proof.
  intros Hw Hr. unfold wasm_gate. rewrite Hw. case_match eqn:E; [|done].
  apply Z.eqb_eq in E. unfold evaluate in E. case_match eqn:Er; [|done]. subst. by apply Hr in Er.
Qed.

(** A module whose instantiation alone takes more than one unit of fuel, as one with a start
    function does, is refused, although it has [FUEL] when it runs. *)
Lemma start_function_refused path e engine module :
  engine_new rt = Ok engine → module_from_file rt engine path = Ok module →
  (∀ fuel, fuel ≤ 1 → instance_new rt engine module fuel = Err e) → load path = Err e.
Proof.
  intros He Hm Hi. unfold load, from_file. rewrite He, Hm, Hi; [done|]. by destruct (set_fuel rt 1).
Qed.
End wasm.

(** ** The embedder of the cache *)

Section embedder.
Context (to_lowercase : string → string) (hash_token : string → Z).
Context {Model : Type} (try_new : result Model string).
Context (model_embed : Model → list string → option (list (list f32))).

(* @src embedder.rs 54-73 OnnxEmbedder::embed *)
Definition onnx_embed (m : Model) (text : string) : list f32 :=
  let v := default [] (model_embed m [text] ≫= last) in
  let norm := f32_sqrt (f32_sum ((λ x, f32_mul x x) <$> v)) in
  if SFltb (S754_zero false) norm then (λ x, f32_div x norm) <$> v else v.

(** The model when it is compiled in, asked for and can be made; the hashes otherwise. *)
(* @src embedder.rs build *)
Definition build (onnx_feature : bool) (env : Env) : string → list f32 :=
  let hashes := hash_embed to_lowercase hash_token (hash_embedder 256) in
  if onnx_feature && bool_decide (env "TOKENFUSE_CACHE_EMBEDDER" = Some "onnx") then
    match try_new with Ok m => onnx_embed m | Err _ => hashes end
  else hashes.

Lemma build_default onnx_feature env :
  onnx_feature = false ∨ env "TOKENFUSE_CACHE_EMBEDDER" ≠ Some "onnx" ∨ (∃ e, try_new = Err e) →
  build onnx_feature env = hash_embed to_lowercase hash_token 256.
Proof.
  unfold build. intros [->|[Hn|[e He]]]; [done| |].
  - rewrite bool_decide_false by done. by rewrite andb_false_r.
  - rewrite He. by destruct (_ && _).
Qed.

(** A text the model fails on is close to nothing: it is never answered from the cache with a
    positive threshold, and an entry stored for it never answers another. *)
Lemma failed_embedding_far m text v :
  model_embed m [text] = None →
  cosine (onnx_embed m text) v = S754_zero false ∧ cosine v (onnx_embed m text) = S754_zero false.
Proof.
  intros He. assert (onnx_embed m text = []) as -> by by unfold onnx_embed; rewrite He.
  unfold cosine. destruct v as [|x v]; [|done]. by vm_compute.
Qed.
End embedder.

(** ** Providers *)

Section provider.
Context (to_str : string → option string)            (* HeaderValue::to_str *)
        (from_str : string → option Json.Value).       (* serde_json *)

(** The answer of the upstream: the body arrives in chunks until it ends or breaks. *)
Record Upstream := mkUpstream {
  up_status : Z;
  up_content_type : option string;
  up_chunks : list (result string string)
}.

(** A request to the upstream: the URL, the headers and the body. *)
Record Post := mkPost { po_url : string; po_headers : list (string * string); po_body : string }.

(* @src provider.rs HttpProvider *)
Record HttpProvider := mkHttpProvider { hp_connect_timeout : Z; hp_endpoint : string }.

(* @src provider.rs HttpProvider::new *)
Definition http_provider (env : Env) (endpoint : string) : HttpProvider :=
  mkHttpProvider (default 10 (env "TOKENFUSE_UPSTREAM_CONNECT_TIMEOUT_SECS" ≫= parse_unsigned u64_max))
    endpoint.

(** The body as it is handed on, and the usage slot when it has ended. *)
Definition relayed (chunks : list (result string string)) : list (result string ProviderError) * option Money.Usage :=
  let '(body, usage) := Provider.relay from_str "" chunks in
  ((λ c, match c with Ok b => Ok b | Err e => Err (Respond.Upstream e) end) <$> take (length body) chunks,
   usage).

(** [perform] is the exchange itself, within the connection deadline. *)
(* @src provider.rs 314-360 HttpProvider::send *)
Definition http_send (perform : Z → Post → result Upstream string) (p : HttpProvider)
    (headers : list (string * string)) (body : string) : result ProviderResponse ProviderError :=
  match perform (hp_connect_timeout p)
          (mkPost (hp_endpoint p) (Provider.forwarded_headers headers) body) with
  | Err e => Err (Respond.Upstream e)
  | Ok resp =>
      let '(chunks, usage) := relayed (up_chunks resp) in
      Ok (mkProviderResponse (up_status resp) (up_content_type resp ≫= to_str) chunks usage)
  end.

(* @src provider.rs 394-452 StubProvider::send *)
Definition stub_send (p : Provider.StubProvider) (headers : list (string * string)) (body : string)
  : result ProviderResponse ProviderError :=
  let '(content_type, chunks) := Provider.stub_chunks p in
  Ok (mkProviderResponse 200 (Some content_type) (Ok <$> chunks) (Some (Provider.stub_usage from_str p))).

(** The chunks handed on are the upstream's, up to the one it broke with. *)
Lemma relayed_spec chunks :
  (λ c, match c with Ok b => Ok b | Err e => Err (show_provider_error e) end) <$> (relayed chunks).1
  = (Provider.relay from_str "" chunks).1.
Proof.
  unfold relayed. generalize "". induction chunks as [|[b|e] l IH]; intros buf; [done| |done].
  cbn [Provider.relay]. specialize (IH (Provider.feed buf b)).
  destruct (Provider.relay from_str (Provider.feed buf b) l) as [body u]. cbn in *. by rewrite IH.
Qed.

(** What the caller sends to the gateway for the gateway stays there: of the headers of a
    request only those of the list reach the provider, each with the caller's first value. *)
Lemma only_listed_headers headers name value :
  (name, value) ∈ Provider.forwarded_headers headers ↔
  name ∈ Provider.FORWARD_HEADERS ∧ Json.assoc name headers = Some value.
Proof.
  unfold Provider.forwarded_headers. rewrite list_elem_of_omap. split.
  - intros (n & Hn & Hv). destruct (Json.assoc n headers) as [v|] eqn:E; [|done].
    by injection Hv as -> ->.
  - intros [Hn Hv]. exists name. by rewrite Hv.
Qed.

Lemma client_key_stays headers value :
  (Identity.CLIENT_KEY_HEADER, value) ∉ Provider.forwarded_headers headers.
Proof. rewrite only_listed_headers. intros [Hn _]. by vm_compute in Hn; set_solver. Qed.
End provider.

(** ** The event exporter *)

(** What the start prints about it. *)
Inductive ExporterNote := ResumedFrom (path head : string) | FreshChain (path : string)
| CannotOpen (path e : string).

Section events.
Context (sha256 json_string : string → string) (ryu : f64 → string)
        (from_slice : string → option Json.Value) (env : Env) (open_file : string → result string string).

(* @src gateway/events.rs from_env *)
Definition events_from_env : Exporter * option ExporterNote :=
  match not_empty (env "TOKENFUSE_EVENTS_PATH") with
  | None => (disabled, None)
  | Some path =>
      match open_file path with
      | Err e => (disabled, Some (CannotOpen path e))
      | Ok content =>
          let exp := AgentEvent.open sha256 json_string ryu from_slice content in
          (exp, Some (match exporter_resumed_from exp with
                      | Some h => ResumedFrom path (str_take 19 h)
                      | None => FreshChain path
                      end))
      end
  end.
End events.

(** The warning an outcome leaves in the log: the event and what happened. *)
(* @src gateway/events.rs log_outcome *)
Definition log_outcome (t : EventType) (o : EmitOutcome) : option (string * Z * string) :=
  match o with
  | Disabled | Written => None
  | SkippedNoAgentId n => Some (as_wire_str t, n, "agent-event skipped: no agent_id on the request")
  | WriteError n message => Some (as_wire_str t, n, "agent-event NDJSON write failed: " +:+ message)
  end.
