(* ===== verification/Commands.v ===== *)
(** * The program

    [main] of [crates/gateway/src/main.rs]: each command with the error it prints and the
    exit code it leaves, over the world of [Console].  The gateway and the broker are servers
    and are described by [Startup]; the live view by [Telemetry]. *)

From S2P Require Import Prelude Float Strings Console.
From S2P Require TraceCli FocusExport McpScan McpClient Startup Backtest Outcomes Compliance McpReport Mcp.

(** The functions of libraries the commands call. *)
Record CommandLib := mkCommandLib {
  k_engine : TraceCli.Engine;
  k_rows : string → string → result (list FocusExport.QueryRow) string;
  k_pretty : list TraceCli.Batch → result string string;
  k_outcomes_json : list Outcomes.OutcomeRow → string;
  k_report_json : Compliance.ComplianceReport → string;
  k_scan_report : string → result McpReport.ScanReport string;
  k_scan : McpScan.ScanLib
}.

Section commands.
Context {W : Type} (serve : W → McpClient.Post → W * result McpClient.Response string)
        (lib : CommandLib) (env : Startup.Env).

(** [if let Err(e) = .. { eprintln!("{name} error: {e}"); .. }] *)
Definition reported (name : string) (code : Z) (m : M (W := W) unit) (w : World W) : World W * Z :=
  match m w with
  | (w, Ok _) => (w, 0)
  | (w, Err e) => ((eprintln (name +:+ " error: " +:+ e) w).1, code)
  end.

(* @src focusexport.rs run *)
Definition focus_run (args : FocusExport.Args) : M (W := W) unit :=
  match FocusExport.to_export (k_rows lib) args with
  | Err e => fail e
  | Ok (out_path, records) =>
      match McpScan.s_unwritable (k_scan lib) out_path with
      | Some e => fail ("could not write '" +:+ out_path +:+ "': " +:+ e)
      | None =>
          write (McpScan.s_unwritable (k_scan lib)) out_path (FocusExport.render_csv records);;
          println ("tokenfuse focus-export: wrote " +:+ pretty (length records) +:+ " row(s) to "
                   +:+ out_path)
      end
  end.

(** The world a command leaves and its exit code; a server runs on. *)
(* @src gateway/main.rs main *)
Definition main (args : list string) (w : World W) : option (World W * Z) :=
  match Startup.command env args with
  | Startup.Sql query dir => Some (reported "sql" 0 (TraceCli.sql_run (k_engine lib) (k_pretty lib) query dir) w)
  | Startup.Backtest dir args =>
      Some (reported "backtest" 0 (TraceCli.backtest_run (k_engine lib) dir (TraceCli.parse_policy args)) w)
  | Startup.SavingsCmd dir => Some (reported "savings" 0 (TraceCli.savings_run (k_engine lib) dir) w)
  | Startup.ComplianceCmd dir args =>
      Some (reported "compliance" 0
              (TraceCli.compliance_run (k_engine lib) (McpScan.s_io_error (k_scan lib)) (k_scan_report lib)
                 (k_report_json lib) dir (TraceCli.parse_compliance_args args)) w)
  | Startup.McpScanCmd args => Some (McpScan.mcp_scan serve (k_scan lib) args w)
  | Startup.FocusExportCmd args =>
      Some (reported "focus-export" 1 (focus_run (FocusExport.parse_args args)) w)
  | Startup.OutcomesCmd args =>
      Some (reported "outcomes" 1
              (TraceCli.outcomes_run (k_engine lib) (k_outcomes_json lib)
                 (TraceCli.parse_outcome_args args)) w)
  | Startup.Usage message => Some ((eprintln message w).1, 0)
  | Startup.Top _ | Startup.McpBrokerCmd | Startup.Serve => None
  end.
End commands.
