(* ===== verification/GatewaySpec.v ===== *)
(** * What one request may do

    The contract of [Gateway.messages], as the transcripts a request may leave: which
    actions, in which order, with which answer, and what justifies each refusal.  The
    theorems hold for every behaviour of the rest of the system between the handler's
    critical sections. *)

From S2P Require Import Prelude Float Money Strings Json Ledger UnitLedger Loops Policy Taint.
From S2P Require Import Dlp Breaker Cache AgentEvent Router LedgerBackend Identity AppState.
From S2P Require Import Wardryx Request Respond Gateway.

Section spec.
Context {T : Type} `{LedgerBackend T} `{!TicketLaws T}.
Context (lib : Lib) (cfg : Config) (peers : Peers T).

(** An invariant of what a request only reads: the kill set and the hook's mode. *)
Context (J : gset string → WardryxMode → Prop).

Definition inv (w : Gw T) : Prop := J (killed (app w)) (wx_mode (wardryx w)).

Hypothesis interfere_inv : ∀ n w, inv w → inv (interfere peers n w).

(** ** Programs and their logs *)

(** Whatever happens in between, [m] extends the log by some [tr] and ends in some [x]
    with [Q tr x]. *)
Definition yields {A} (m : M T A) (Q : list Act → Step A → Prop) : Prop :=
  ∀ s, inv (world s) →
    ∃ tr, trace (m s).1 = trace s ++ tr ∧ inv (world (m s).1) ∧ Q tr (m s).2.

Lemma y_mono {A} (m : M T A) (P Q : list Act → Step A → Prop) :
  yields m P → (∀ tr x, P tr x → Q tr x) → yields m Q.
Proof. intros Hm HPQ s Hs. destruct (Hm s Hs) as (tr & ? & ? & ?). eauto. Qed.

Lemma y_ret {A} (a : A) (Q : list Act → Step A → Prop) : Q [] (Go a) → yields (mret a) Q.
Proof. intros HQ s Hs. exists []. by rewrite app_nil_r. Qed.

Lemma y_answer {A} r (Q : list Act → Step A → Prop) : Q [] (Answer r) → yields (answer r) Q.
Proof. intros HQ s Hs. exists []. by rewrite app_nil_r. Qed.

Lemma y_bind {A B} (m : M T A) (k : A → M T B) (Q : list Act → Step B → Prop) :
  yields m (λ tr x, match x with
                    | Go a => yields (k a) (λ tr' y, Q (tr ++ tr') y)
                    | Answer r => Q tr (Answer r)
                    end) →
  yields (m ≫= k) Q.
Proof.
  intros Hm s Hs. destruct (Hm s Hs) as (tr & Htr & Hi & Hx).
  unfold mbind, M_bind. destruct (m s) as [s' [a|r]]; cbn [fst snd] in *.
  - destruct (Hx s' Hi) as (tr' & Htr' & Hi' & Hx'). exists (tr ++ tr').
    by rewrite Htr', Htr, <-app_assoc.
  - by exists tr.
Qed.

Lemma y_op {A} (f : Gw T → Gw T * A) log (Q : list Act → Step A → Prop) :
  (∀ w, inv w → inv (f w).1 ∧ Q (log (f w).2) (Go (f w).2)) → yields (op peers f log) Q.
Proof.
  intros Hf s Hs. unfold op.
  destruct (Hf _ (interfere_inv (ops s) _ Hs)) as [H1 H2].
  destruct (f (interfere peers (ops s) (world s))) as [w a]. simpl in *. by exists (log a).
Qed.

Lemma y_read {A} (f : Gw T → A) (Q : list Act → Step A → Prop) :
  (∀ w, inv w → Q [] (Go (f w))) → yields (read peers f) Q.
Proof. intros HQ. apply y_op. intros w Hw. split; [done|]. by apply HQ. Qed.

Lemma y_modify f (Q : list Act → Step unit → Prop) :
  (∀ w, inv w → inv (f w)) → Q [] (Go tt) → yields (modify peers f) Q.
Proof. intros Hf HQ. apply y_op. intros w Hw. split; [by apply Hf|done]. Qed.

Lemma y_show a (Q : list Act → Step unit → Prop) : Q [a] (Go tt) → yields (show peers a) Q.
Proof. intros HQ. by apply y_op. Qed.

Lemma y_record row (Q : list Act → Step unit → Prop) :
  (∀ ts, Q [Recorded (row ts)] (Go tt)) → yields (record peers row) Q.
Proof. intros HQ. apply y_bind, y_read. intros w _. apply y_show, HQ. Qed.

(** The event of a request. *)
Definition event (q : Req) (ty : EventType) (ts : Z) (data : Value) : Act :=
  Emitted ty ts (Some (q_agent_id q)) (Some (q_run_id q)) (chain_arg (q_chain q)) data.

Lemma y_emit q ty data (Q : list Act → Step unit → Prop) :
  (∀ ts, Q [event q ty ts data] (Go tt)) → yields (emit peers q ty data) Q.
Proof. intros HQ. apply y_bind, y_read. intros w _. apply y_show, HQ. Qed.

#[local] Opaque yields.

(** ** The contract *)

(** What a settled unit reservation leaves in the log. *)
Definition unit_settled (ur : option UnitReservation) (actual : Microusd) : list Act :=
  match ur with Some ur => [UnitSettled ur actual] | None => [] end.

(** The run was not killed when that was looked at. *)
Definition alive (q : Req) : Prop := ∃ K m, J K m ∧ q_run_id q ∉ K.

(** What justifies a budget-family block. *)
Definition cause (q : Req) (r : BreakerReason) : Prop :=
  match r with
  | Killed => ∃ K m, J K m ∧ q_run_id q ∈ K
  | PolicyViolation | LoopDetected | UnitBudgetExceeded | BudgetExceeded =>
      alive q ∧ Policy.mode (policy cfg) = Enforce
  | WasmPolicy => alive q ∧ is_Some (wasm cfg)
  | _ => False
  end.

(** A budget-family block: one row and one event of that reason, and its 402. *)
Inductive Tripped (q : Req) (r : BreakerReason) : list Act → HttpResponse → Prop :=
| tripped model cost step ts ts' v data :
    cause q r → reason v = Some r →
    Tripped q r
      [Recorded (blocked_row q model (Breaker.as_wire_str r) cost step ts);
       event q BreakerTripped ts' data]
      (breaker_error_response (q_run_id q) v).

(** A refusal by one of the other gates before anything is reserved. *)
Inductive Stopped (q : Req) : list Act → HttpResponse → Prop :=
| stopped_tripped r tr resp :
    r ∈ [Killed; PolicyViolation; LoopDetected; WasmPolicy] → Tripped q r tr resp →
    Stopped q tr resp
| stopped_identity model step ts ts' data why :
    identity_strict cfg = StrictEnforce →
    Stopped q [Recorded (blocked_row q model "identity_mismatch" 0 step ts);
               event q AgentEvent.IdentityMismatch ts' data] (identity_block (q_run_id q) why)
| stopped_secret model step ts ts' data s :
    alive q → dlp cfg = Dlp.DlpBlock →
    Stopped q [Recorded (blocked_row q model "dlp_blocked" 0 step ts);
               event q AgentEvent.DlpBlock ts' data] (dlp_block (q_run_id q) s)
| stopped_pii s :
    alive q → dlp_pii cfg = Dlp.DlpBlock → Stopped q [] (dlp_block (q_run_id q) s)
| stopped_cached rec hit :
    alive q → Cache.mode (cache_config cfg) = CacheOn → LedgerBackend.decision rec = "cache_hit" →
    LedgerBackend.cost_microusd rec = 0 → cr_run_id rec = q_run_id q →
    LedgerBackend.key_id rec = q_key_id q → cr_unit rec = q_unit q →
    Stopped q [Recorded rec] (cached_response (q_run_id q) hit (Policy.mode (policy cfg)))
| stopped_wardryx K model d step ts resp :
    alive q → J K WxEnforce → d ∈ ["wardryx_deny"; "wardryx_hold"] → status resp = 403 →
    Stopped q [Recorded (blocked_row q model d 0 step ts)] resp.

(** The call was let through: what is sent is the caller's body unless masking or
    routing is on. *)
Definition admitted (q : Req) (body sent : string) : Prop :=
  alive q ∧
  (dlp cfg ≠ DlpMask → dlp_pii cfg ≠ DlpMask → Router.mode (router cfg) ≠ RouterOn → sent = body).

(** The firewall's judgement of an answer: the response's capabilities in a context that
    has at least the request's own labels. *)
Definition request_labels (h : HeaderMap) (request : Value) : Labels :=
  taint_header_labels (to_str lib) (to_lowercase lib) h
  ∪ labels_for_tools (tool_names_in request) (sources (firewall cfg)).

Definition requested (bytes : string) : gset string :=
  capabilities_for_tools (tool_names_in (default Null (from_slice lib bytes)))
    (capabilities (firewall cfg)).

Definition judged (q : Req) (bytes : string) (denied : Prop) : Prop :=
  fw_mode (firewall cfg) = FwEnforce →
  ∃ labels, request_labels (q_headers q) (q_request q) ⊆ labels ∧
    (denied ↔ is_Some (Taint.evaluate labels (requested bytes) (fw_rules (firewall cfg)))).

(** The row of a settled call agrees with what was settled. *)
Definition allow_record (q : Req) (r : Reservation) (cost : Microusd) (rec : CallRecord) : Prop :=
  LedgerBackend.decision rec = "allow" ∧ LedgerBackend.cost_microusd rec = cost ∧ cr_run_id rec = run_id r ∧
  cr_step rec = Ledger.step r ∧ LedgerBackend.key_id rec = q_key_id q ∧ cr_unit rec = q_unit q.

(** What was reserved and sent, before [tail]. *)
Definition forwarded (q : Req) (ur : option UnitReservation) (r : Reservation) (sent : string)
    (tail : list Act) : list Act :=
  unit_log ur ++ Reserved r :: Sent (q_headers q) sent :: tail.

(** What an answered call is settled with: the price of its usage, or the reserved amount
    where no usage was reported or the model has no price. *)
Definition settled_cost (r : Reservation) (resp : ProviderResponse) (model : string) : Microusd :=
  default (amount r) (pr_usage resp ≫= PriceBook.cost (prices cfg) model).

(** Settling an answered call: both reservations with one cost, its row, and [tail]. *)
Definition settled (ur : option UnitReservation) (r : Reservation) (cost : Microusd)
    (rec : CallRecord) (tail : list Act) : list Act :=
  Settled r cost :: unit_settled ur cost ++ Recorded rec :: tail.

Inductive Managed (q : Req) (body : string) : list Act → HttpResponse → Prop :=
| m_stopped tr resp : Stopped q tr resp → Managed q body tr resp
| m_unit_refused e tr resp :
    Tripped q UnitBudgetExceeded tr resp → Managed q body (UnitRefused e :: tr) resp
| m_refused ur e tr resp :
    Tripped q BudgetExceeded tr resp →
    Managed q body (unit_log ur ++ Refused e :: unit_settled ur 0 ++ tr) resp
| m_failed ur r sent e :
    run_id r = q_run_id q → admitted q body sent →
    (send peers (q_headers q) sent = Err e ∨
     ∃ presp, send peers (q_headers q) sent = Ok presp ∧ collect (pr_body presp) = Err e) →
    Managed q body (forwarded q ur r sent (Settled r 0 :: unit_settled ur 0)) (upstream_error e)
| m_streamed ur r sent g presp resp :
    run_id r = q_run_id q → admitted q body sent → p_stream (parse_request (q_request q)) = true →
    send peers (q_headers q) sent = Ok presp → status resp = status_of (pr_status presp) →
    Respond.body resp = StreamBody (pr_body presp) →
    reservation g = Some r → unit_reservation g = ur → g_fallback g = amount r →
    Managed q body (forwarded q ur r sent [Streaming g]) resp
| m_served ur r sent presp bytes cost rec tail resp :
    run_id r = q_run_id q → admitted q body sent → p_stream (parse_request (q_request q)) = false →
    send peers (q_headers q) sent = Ok presp → collect (pr_body presp) = Ok bytes →
    cost = settled_cost r presp (LedgerBackend.cr_model rec) → allow_record q r cost rec →
    (tail = [] ∨ ∃ p c, tail = [Stored p c bytes]) →
    judged q bytes False →
    status resp = status_of (pr_status presp) → Respond.body resp = BytesBody bytes →
    Managed q body (forwarded q ur r sent (settled ur r cost rec tail)) resp
| m_withheld ur r sent presp bytes cost rec rec' ts data why :
    run_id r = q_run_id q → admitted q body sent → p_stream (parse_request (q_request q)) = false →
    send peers (q_headers q) sent = Ok presp → collect (pr_body presp) = Ok bytes →
    cost = settled_cost r presp (LedgerBackend.cr_model rec) → allow_record q r cost rec →
    fw_mode (firewall cfg) = FwEnforce → judged q bytes True →
    LedgerBackend.decision rec' = "taint_blocked" → LedgerBackend.cost_microusd rec' = 0 →
    LedgerBackend.key_id rec' = q_key_id q → cr_unit rec' = q_unit q →
    Managed q body
      (forwarded q ur r sent (settled ur r cost rec [Recorded rec'; event q TaintBlock ts data]))
      (firewall_block (run_id r) why).

Inductive Transcript (h : HeaderMap) (body : string) : list Act → HttpResponse → Prop :=
| t_unauthorized :
    resolve_client_key lib cfg h = None → Transcript h body [] unauthorized_response
| t_unmanaged key :
    resolve_client_key lib cfg h = Some key → header_str (to_str lib) h "x-fuse-run-id" = None →
    Transcript h body [Sent h body]
      (match send peers h body with
       | Ok resp => passthrough resp "unmanaged"
       | Err e => upstream_error e
       end)
| t_managed key q parent tr resp :
    resolve_client_key lib cfg h = Some key →
    header_str (to_str lib) h "x-fuse-run-id" = Some (q_run_id q) →
    q_headers q = h → q_request q = default Null (from_slice lib body) → q_key_id q = key →
    Managed q body tr resp →
    Transcript h body (Opened (q_run_id q) (q_budget q) parent :: tr) resp.

(** ** The gates meet it *)

Ltac ystep :=
  match goal with
  | |- yields (mret _) _ => apply y_ret
  | |- yields (answer _) _ => apply y_answer
  | |- yields (_ ≫= _) _ => apply y_bind
  | |- yields (snap _ _) _ => apply y_read; intros ? ?
  | |- yields (now _) _ => apply y_read; intros ? ?
  | |- yields (read _ _) _ => apply y_read; intros ? ?
  | |- yields (modify _ _) _ => apply y_modify; [done|]
  | |- yields (record _ _) _ => apply y_record; intros ?
  | |- yields (emit _ _ _ _) _ => apply y_emit; intros ?
  | |- yields (show _ _) _ => apply y_show
  end.
Ltac ysteps := repeat (ystep; cbn beta iota).

(** A gate that lets the call on leaves nothing in the log. *)
Definition gate {A} (ok : A → Prop) (stop : list Act → HttpResponse → Prop) (tr : list Act)
    (x : Step A) : Prop :=
  match x with Go a => tr = [] ∧ ok a | Answer r => stop tr r end.

(** Sequencing after a gate. *)
Lemma y_gate {A B} (m : M T A) (k : A → M T B) ok stop (Q : list Act → Step B → Prop) :
  yields m (gate ok stop) →
  (∀ a, ok a → yields (k a) Q) → (∀ tr r, stop tr r → Q tr (Answer r)) →
  yields (m ≫= k) Q.
Proof.
  intros Hm Hk Hs. apply y_bind. eapply y_mono; [exact Hm|].
  intros tr [a|r]; simpl; [|apply Hs]. intros [-> Ha]. by apply Hk.
Qed.

Lemma breaker_block_y {A} q r model d cost step v (Q : list Act → Step A → Prop) :
  reason v = Some r → d = Breaker.as_wire_str r → cause q r →
  (∀ tr resp, Tripped q r tr resp → Q tr (Answer resp)) →
  yields (breaker_block peers q (blocked_row q model d cost step) v) Q.
Proof.
  intros Hv -> Hc HQ. unfold breaker_block, emit_breaker_event. ysteps. apply HQ.
  by apply tripped.
Qed.

Lemma identity_gate_y q model m :
  yields (identity_gate cfg peers q model m) (gate (λ _, True) (Stopped q)).
Proof.
  unfold identity_gate. destruct m as [mm|]; [|ysteps; done].
  destruct (identity_strict cfg) eqn:E; ysteps; [done..|].
  by apply stopped_identity.
Qed.

Lemma kill_gate_y q parsed body :
  yields (kill_gate cfg peers q parsed body)
    (gate (λ _, alive q) (Stopped q)).
Proof.
  unfold kill_gate. ysteps. unfold AppState.is_killed. case_bool_decide as E; simpl.
  - ysteps. eapply breaker_block_y; [done|done|by simpl; eauto|].
    intros tr resp Ht. simpl. eapply stopped_tripped; [|exact Ht]. set_solver.
  - ysteps. split; [done|]. by eexists _, _.
Qed.

Lemma dlp_gate_y q model body :
  alive q →
  yields (dlp_gate lib cfg peers q model body)
    (gate (λ p, dlp cfg ≠ DlpMask → dlp_pii cfg ≠ DlpMask → p.1 = body) (Stopped q)).
Proof.
  intros Hal. unfold dlp_gate. destruct (negb _ && negb _); [by ysteps|]. cbv zeta.
  set (text := Text.from_utf8_lossy body). set (findings := if dlp_on (dlp cfg) then _ else _).
  eapply (y_gate _ _ (λ p, dlp cfg ≠ DlpMask → p.1 = []) (Stopped q)); [| |done].
  - unfold dlp_secrets. destruct findings; [by ysteps|].
    destruct (dlp cfg) eqn:E; ysteps; try done. by apply stopped_secret.
  - intros [red note] Hred. simpl in Hred.
    eapply (y_gate _ _ (λ p, dlp cfg ≠ DlpMask → dlp_pii cfg ≠ DlpMask → p.1 = []) (Stopped q));
      [| |done].
    + unfold dlp_pii_section. destruct (negb (dlp_on (dlp_pii cfg))); [ysteps; by split; auto|].
      destruct (scan_pii _ _); [ysteps; by split; auto|].
      destruct (dlp_pii cfg) eqn:E; ysteps; simpl; try (split; [done|]; intros; by auto).
      by apply stopped_pii.
    + intros [red' note'] Hred'. ysteps. split; [done|]. simpl in *. intros H1 H2.
      by rewrite Hred'.
Qed.

Lemma cache_gate_y q parsed :
  alive q →
  yields (cache_gate lib cfg peers q parsed) (gate (λ _, True) (Stopped q)).
Proof.
  intros Hal. unfold cache_gate. destruct (_ || _); [by ysteps|]. ysteps.
  apply y_op. intros w' Hw. destruct (Cache.get _ _ _ _ _ _ _) as [c hit]. simpl.
  split; [exact Hw|]. destruct hit as [hit|]; [|by ysteps].
  destruct (Cache.mode (cache_config cfg)) eqn:E; ysteps; try done.
  by apply stopped_cached.
Qed.

Lemma assess_y q parsed body :
  yields (assess lib cfg peers q parsed body) (gate (λ _, True) (Stopped q)).
Proof.
  unfold assess. ysteps. apply y_op. intros w' Hw.
  destruct (AppState.record_input _ _ _) as [a h] eqn:E. simpl. split.
  - unfold AppState.record_input in E. by injection E as <- <-.
  - by ysteps.
Qed.

Lemma enforcing_iff : enforcing cfg = true ↔ Policy.mode (policy cfg) = Enforce.
Proof. unfold enforcing. by destruct (Policy.mode (policy cfg)). Qed.

Lemma policy_gate_y q parsed a :
  alive q →
  yields (policy_gate cfg peers q parsed a) (gate (λ _, True) (Stopped q)).
Proof.
  intros Hal. unfold policy_gate. destruct (enforcing cfg) eqn:E; simpl; [|by ysteps].
  apply enforcing_iff in E.
  destruct (is_blocking _); [|destruct (a_loop a); [|by ysteps]];
    (eapply breaker_block_y; [done..|]); intros tr resp Ht;
    (eapply stopped_tripped; [|exact Ht]); set_solver.
Qed.

Lemma wasm_gate_y q parsed a :
  alive q →
  yields (wasm_gate cfg peers q parsed a) (gate (λ _, True) (Stopped q)).
Proof.
  intros Hal. unfold wasm_gate. destruct (wasm cfg) as [ev|] eqn:E; [|by ysteps].
  destruct (_ =? 2); [|by ysteps]. eapply breaker_block_y; [done|done|by simpl; rewrite E; eauto|].
  intros tr resp Ht. eapply stopped_tripped; [|exact Ht]. set_solver.
Qed.

Lemma wardryx_gate_y q parsed a :
  alive q →
  yields (wardryx_gate lib peers q parsed a) (gate (λ _, True) (Stopped q)).
Proof.
  intros Hal. unfold wardryx_gate. ysteps. destruct (wx_mode _) eqn:E; [by ysteps|..];
    destruct (pdp peers _) as [lat ans]; apply y_bind, y_read; intros w1 Hw1; apply y_bind;
    (apply (y_mono _ (λ tr x, tr = [] ∧ ∃ o, x = Go o));
     [destruct (Wardryx.get _ _ _) as [o|]; [ysteps; eauto|]; apply y_op; intros w' Hw';
      pose proof (Wardryx.conclude_config (tools_hash lib) (wardryx w')
        (wardryx_context lib q parsed a) (instant w' + lat) ans) as (_ & _ & _ & Hm);
      destruct (Wardryx.conclude _ _ _ _ _) as [x o]; simpl in *;
      split; [unfold inv in *; simpl; by rewrite Hm|eauto]
     |intros tr ? [-> [o ->]]]).
  - by ysteps.
  - destruct (wx_decision o); ysteps; [done|..];
      (eapply stopped_wardryx; [done|by rewrite <-E|set_solver|done]).
Qed.

Lemma settle_unit_y ur actual (Q : list Act → Step unit → Prop) :
  Q (unit_settled ur actual) (Go tt) → yields (settle_unit_op peers ur actual) Q.
Proof.
  intros HQ. unfold settle_unit_op. destruct ur as [ur|]; [|by ysteps].
  ysteps. by apply y_op.
Qed.

Lemma unit_gate_y q parsed a :
  alive q →
  yields (unit_gate cfg peers q parsed a)
    (λ tr x, match x with
             | Go ur => tr = unit_log ur
             | Answer resp => ∃ e tr', tr = UnitRefused e :: tr' ∧
                                       Tripped q UnitBudgetExceeded tr' resp
             end).
Proof.
  intros Hal. unfold unit_gate. case_bool_decide; [by ysteps|].
  destruct (enforcing cfg) eqn:E; simpl.
  - apply enforcing_iff in E. unfold try_reserve_unit_op. ysteps.
    destruct (UnitLedger.effective_cap _ _) as [cap|]; [|by ysteps]. apply y_op. intros w' Hw.
    destruct (UnitLedger.reserve_under _ _ _ _ _) as [u [ur|e]]; simpl;
      (split; [exact Hw|]).
    + ysteps. by rewrite app_nil_r.
    + eapply breaker_block_y; [done|done|done|]. intros tr resp Ht. by exists e, tr.
  - unfold reserve_unit_unchecked_op. ysteps.
    destruct (UnitLedger.effective_cap _ _) as [cap|]; [|by ysteps]. apply y_op. intros w' Hw.
    by destruct (UnitLedger.take_under _ _ _ _) as [u ur].
Qed.

Lemma budget_gate_y q parsed a ur :
  alive q →
  yields (budget_gate cfg peers q parsed a ur)
    (λ tr x, match x with
             | Go r => tr = [Reserved r] ∧ run_id r = q_run_id q
             | Answer resp => ∃ e tr', tr = Refused e :: unit_settled ur 0 ++ tr' ∧
                                       Tripped q BudgetExceeded tr' resp
             end).
Proof.
  intros Hal. unfold budget_gate. destruct (enforcing cfg) eqn:E; simpl.
  - apply enforcing_iff in E. unfold reserve_op. apply y_bind, y_op. intros w Hw.
    destruct (reserve _ _ _) as [l [r|e]] eqn:Er; simpl; (split; [exact Hw|]).
    + ysteps. split; [done|]. by apply reserve_ticket in Er as [-> _].
    + apply y_bind, settle_unit_y. eapply (breaker_block_y q BudgetExceeded); [|done|done|].
      { by destruct e. }
      intros tr resp Ht. by exists e, tr.
  - unfold reserve_unchecked_op. apply y_op. intros w Hw.
    destruct (reserve_unchecked _ _ _) as [l r] eqn:Er. simpl. split; [exact Hw|].
    split; [done|]. by apply unchecked_ticket in Er as [-> _].
Qed.

Lemma firewall_on_iff : firewall_on cfg = false ↔ fw_mode (firewall cfg) = FwOff.
Proof. unfold firewall_on. by destruct (fw_mode (firewall cfg)). Qed.

Lemma accumulate_taint_y run_id labels (Q : list Act → Step Labels → Prop) :
  (∀ all, labels ⊆ all → Q [] (Go all)) → yields (accumulate_taint_op peers run_id labels) Q.
Proof.
  intros HQ. apply y_op. intros w Hw. destruct (AppState.accumulate_taint _ _ _) as [a l] eqn:E.
  unfold AppState.accumulate_taint in E. injection E as <- <-. split; [exact Hw|].
  apply HQ. set_solver.
Qed.

Lemma taint_request_y q :
  yields (taint_request lib cfg peers q)
    (gate (λ labels, fw_mode (firewall cfg) = FwEnforce → request_labels (q_headers q) (q_request q) ⊆ labels)
       (λ _ _, False)).
Proof.
  unfold taint_request. destruct (firewall_on cfg) eqn:E.
  - apply accumulate_taint_y. intros all Hall. by split.
  - apply firewall_on_iff in E. ysteps. split; [done|]. congruence.
Qed.

Lemma release_y {A} r ur e (Q : list Act → Step A → Prop) :
  Q (Settled r 0 :: unit_settled ur 0) (Answer (upstream_error e)) →
  yields (release peers r ur e) Q.
Proof.
  intros HQ. unfold release. apply y_bind, y_op. intros w Hw. split; [exact Hw|].
  apply y_bind, settle_unit_y. ysteps. by rewrite app_nil_r.
Qed.

(** After the answered call is settled and recorded: served or withheld. *)
Lemma firewall_gate_y q r model bytes labels :
  (fw_mode (firewall cfg) = FwEnforce → request_labels (q_headers q) (q_request q) ⊆ labels) →
  yields (firewall_gate lib cfg peers q r model bytes labels)
    (gate (λ _, judged q bytes False)
       (λ tr resp, fw_mode (firewall cfg) = FwEnforce ∧ judged q bytes True ∧
          ∃ rec ts data why, tr = [Recorded rec; event q TaintBlock ts data] ∧
            LedgerBackend.decision rec = "taint_blocked" ∧ LedgerBackend.cost_microusd rec = 0 ∧
            LedgerBackend.key_id rec = q_key_id q ∧ cr_unit rec = q_unit q ∧
            resp = firewall_block (run_id r) why)).
Proof.
  intros Hl. unfold firewall_gate. destruct (firewall_on cfg) eqn:E; simpl.
  - destruct (Taint.evaluate labels (capabilities_for_tools _ _) _) as [why|] eqn:Ev.
    + destruct (fw_mode (firewall cfg)) eqn:Em.
      * apply y_bind, accumulate_taint_y. intros all _. ysteps. split; [done|].
        intros Hf. congruence.
      * apply y_bind, accumulate_taint_y. intros all _. ysteps. split; [done|].
        intros Hf. congruence.
      * ysteps. simpl. split; [done|]. split; [|by eexists _, _, _, _].
        intros _. exists labels. split; [auto|]. unfold requested. by rewrite Ev.
    + apply y_bind, accumulate_taint_y. intros all _. ysteps. split; [done|].
      intros Hf. exists labels. split; [auto|]. unfold requested. rewrite Ev.
      split; [done|]. by intros [? ?].
  - apply firewall_on_iff in E. ysteps. split; [done|]. intros Hf. congruence.
Qed.

Definition finish (Q : list Act → HttpResponse → Prop) (tr : list Act) (x : Step HttpResponse) : Prop :=
  match x with Go r | Answer r => Q tr r end.

Lemma buffered_managed_y q body sent ur r presp parsed ctx note labels route n :
  run_id r = q_run_id q →
  admitted q body sent → p_stream (parse_request (q_request q)) = false →
  send peers (q_headers q) sent = Ok presp →
  (fw_mode (firewall cfg) = FwEnforce → request_labels (q_headers q) (q_request q) ⊆ labels) →
  yields (buffered_managed lib cfg peers q presp r (p_model parsed) ctx note labels ur route n)
    (λ tr, finish (Managed q body) (forwarded q ur r sent tr)).
Proof.
  intros Hr Ha Hst Hsend Hl. unfold buffered_managed.
  destruct (collect (pr_body presp)) as [bytes|e] eqn:Hc; [|apply release_y; apply m_failed; eauto].
  set (cost := default (amount r) _).
  assert (cost = settled_cost r presp (p_model parsed)) as Hcost by done.
  cbv zeta. apply y_bind, y_op. intros w Hw. split; [exact Hw|].
  apply y_bind, settle_unit_y. ysteps.
  eapply y_mono; [by apply firewall_gate_y|]. intros tr [why|resp]; cbn [gate].
  - intros [-> Hj]. destruct ctx as [c|]; [destruct (_ =? 200)|]; ysteps;
      [apply y_op; intros w' Hw'; split; [exact Hw'|]; ysteps|..]; cbn [finish];
      cbn [Datatypes.app]; (eapply (m_served q body ur r sent presp bytes cost); eauto; done).
  - intros (Hf & Hj & rec & t & data & why & -> & Hd & Hz & Hk & Hu & ->). cbn [finish].
    eapply (m_withheld q body ur r sent presp bytes cost _ rec t data why); eauto; done.
Qed.

Lemma route_request_spec q parsed body :
  p_stream (r_parsed (route_request lib cfg q parsed body)) = p_stream parsed ∧
  (Router.mode (router cfg) ≠ RouterOn → r_body (route_request lib cfg q parsed body) = body).
Proof.
  unfold route_request. cbv zeta. destruct (Router.mode (router cfg)); [done|done|].
  split; [|done]. by destruct (if RouteDecision.routed _ then _ else _).
Qed.

Lemma managed_y q parsed body m :
  p_stream parsed = p_stream (parse_request (q_request q)) →
  yields (managed lib cfg peers q parsed body m) (finish (Managed q body)).
Proof.
  intros Hps. unfold managed.
  eapply y_gate; [apply identity_gate_y| |apply m_stopped]. intros idh _. cbv zeta.
  destruct (route_request_spec q parsed body) as [Hst Hbody].
  set (routed := route_request lib cfg q parsed body) in *. rewrite Hps in Hst.
  eapply y_gate; [apply kill_gate_y| |apply m_stopped]. intros [] Hk.
  eapply y_gate; [by apply dlp_gate_y| |apply m_stopped]. intros clean Hclean.
  eapply y_gate; [by apply cache_gate_y| |apply m_stopped]. intros cached _.
  eapply y_gate; [apply assess_y| |apply m_stopped]. intros a _.
  eapply y_gate; [by apply policy_gate_y| |apply m_stopped]. intros [] ?.
  eapply y_gate; [by apply wasm_gate_y| |apply m_stopped]. intros [] ?.
  eapply y_gate; [by apply wardryx_gate_y| |apply m_stopped]. intros wxh _.
  assert (admitted q body clean.1) as Hadm.
  { split; [done|]. intros Hd1 Hd2 Hrt. by rewrite Hclean, Hbody. }
  apply y_bind. eapply y_mono; [by apply unit_gate_y|]. intros tr1 [ur|r1];
    [intros ->|intros (e & tr' & -> & Ht); by apply m_unit_refused].
  apply y_bind. eapply y_mono; [by apply budget_gate_y|]. intros tr2 [r|r2];
    [intros [-> Hr]|intros (e & tr' & -> & Ht); by apply m_refused].
  eapply y_gate; [apply taint_request_y| |done]. intros labels Hl.
  apply y_bind, y_op. intros w Hw. split; [exact Hw|]. cbn [snd].
  destruct (send peers (q_headers q) clean.1) as [presp|e] eqn:Hsend;
    [|apply release_y; apply m_failed; eauto].
  rewrite Hst. destruct (p_stream (parse_request (q_request q))) eqn:Hp.
  - unfold stream_managed. ysteps. by eapply m_streamed.
  - by eapply y_mono; [by apply buffered_managed_y|].
Qed.

Lemma messages_y h body :
  yields (messages lib cfg peers h body) (finish (Transcript h body)).
Proof.
  unfold messages, authenticate.
  destruct (resolve_client_key lib cfg h) as [key|] eqn:Hkey; ysteps; [|by apply t_unauthorized].
  destruct (header_str (to_str lib) h "x-fuse-run-id") as [run|] eqn:Hrun.
  - unfold open_managed. ysteps. apply y_op. intros w' Hw'. split; [exact Hw'|]. ysteps.
    unfold attribute, capture.
    assert (∀ (b : bool) f (Q : list Act → Step unit → Prop), (∀ w, inv w → inv (f w)) → Q [] (Go tt) →
              yields (if b then modify peers f else mret tt) Q) as Hcap.
    { intros [] f Q Hf HQ; [by apply y_modify|by apply y_ret]. }
    ysteps. apply Hcap; [done|]. ysteps. apply Hcap; [done|]. ysteps.
    eapply y_mono; [by apply managed_y|]. intros tr x Hx. cbn [Datatypes.app].
    destruct x as [r|r]; cbn [finish fst] in Hx;
      match type of Hx with Managed ?q _ _ _ =>
        exact (t_managed h body key q (header_str (to_str lib) h "x-fuse-parent-run-id") tr r
                 Hkey Hrun eq_refl eq_refl eq_refl Hx)
      end.
  - unfold unmanaged. ysteps. apply y_op. intros w' Hw'. split; [exact Hw'|]. cbn [snd].
    pose proof (t_unmanaged h body key Hkey Hrun) as Ht.
    destruct (send peers h body); by ysteps.
Qed.

(** Every handled request leaves one of the transcripts. *)
Lemma respond_transcript h body w :
  inv w → let '(tr, resp, w') := respond lib cfg peers h body w in Transcript h body tr resp ∧ inv w'.
Proof.
  intros Hw. unfold respond. destruct (messages_y h body (mkSt w 0 []) Hw) as (tr & Htr & Hi & Hx).
  destruct (messages _ _ _ _ _ _) as [s [r|r]]; cbn [fst snd] in *; rewrite Htr; by split.
Qed.

End spec.
