(* ===== verification/GatewayProps.v ===== *)
(** * Safety and liveness of the request path

    Consequences of the transcripts of [GatewaySpec], for every backend, configuration,
    request and behaviour of the rest of the system; a kill is final, shadow mode is
    transparent, and a tainted answer is withheld.  [GatewayLedger] runs them on a
    gateway with the in-process ledger and a stub provider. *)

From S2P Require Import Prelude Float Money Strings Json Ledger LedgerInv UnitLedger Loops.
From S2P Require Import Policy Taint Dlp Breaker Cache AgentEvent Router LedgerBackend Identity.
From S2P Require Import AppState Wardryx Request Respond Gateway GatewaySpec.

(** ** What a log says *)

Definition granted (tr : list Act) : list Reservation :=
  omap (λ a, match a with Reserved r => Some r | _ => None end) tr.

(** Settled by the request itself, or handed to the guard of the stream. *)
Definition released (tr : list Act) : list Reservation :=
  omap (λ a, match a with Settled r _ => Some r | Streaming g => reservation g | _ => None end) tr.

Definition unit_granted (tr : list Act) : list UnitReservation :=
  omap (λ a, match a with UnitReserved r => Some r | _ => None end) tr.

Definition unit_released (tr : list Act) : list UnitReservation :=
  omap (λ a, match a with
             | UnitSettled r _ => Some r | Streaming g => unit_reservation g | _ => None
             end) tr.

(** The costs booked, on the run and on the unit. *)
Definition booked_costs (tr : list Act) : list Microusd :=
  omap (λ a, match a with Settled _ c | UnitSettled _ c => Some c | _ => None end) tr.

Definition sent (tr : list Act) : list (HeaderMap * string) :=
  omap (λ a, match a with Sent h b => Some (h, b) | _ => None end) tr.

Definition rows (tr : list Act) : list CallRecord :=
  omap (λ a, match a with Recorded rec => Some rec | _ => None end) tr.

Definition decisions (tr : list Act) : list string := LedgerBackend.decision <$> rows tr.

Definition settled_costs (tr : list Act) : list Microusd :=
  omap (λ a, match a with Settled _ c => Some c | _ => None end) tr.

Definition allowed_costs (tr : list Act) : list Microusd :=
  LedgerBackend.cost_microusd <$> filter (λ rec, LedgerBackend.decision rec = "allow") (rows tr).

(** Take a transcript apart down to its actions. *)
Ltac take_apart :=
  repeat match goal with
  | H : Transcript _ _ _ _ _ _ _ _ |- _ => invert H
  | H : Managed _ _ _ _ _ _ _ _ |- _ => invert H
  | H : Stopped _ _ _ _ _ |- _ => invert H
  | H : Tripped _ _ _ _ _ _ |- _ => invert H
  end;
  try match goal with H : _ = [] ∨ _ |- _ => destruct H as [->|(? & ? & ->)] end;
  try match goal with ur : option UnitReservation |- _ => destruct ur end;
  try match goal with g : SettleGuard |- _ => destruct (unit_reservation g) eqn:? end;
  unfold forwarded, settled, unit_log, unit_settled in *; cbn [Datatypes.app] in *.

(** The guard owns what was granted. *)
Ltac owner :=
  repeat match goal with
  | H : reservation ?g = _ |- context [reservation ?g] => rewrite H
  | H : unit_reservation ?g = _ |- context [unit_reservation ?g] => rewrite H
  end.

Ltac no_member :=
  match goal with H : _ ∈ _ |- _ =>
    repeat (apply elem_of_cons in H as [H|H]; [discriminate H|]); by apply elem_of_nil in H
  end.

(** Every point a concrete log can be cut at. *)
Ltac dropped n :=
  do 12 (try destruct n as [|n]); cbn; owner;
  repeat split; solve [lia | apply prefix_nil | done].

(** What a provider's answer becomes when the response is not withheld. *)
Definition relayed (answer : result ProviderResponse ProviderError) (resp : HttpResponse) : Prop :=
  match answer with
  | Err e => resp = upstream_error e
  | Ok p =>
      status resp = status_of (pr_status p) ∧
      (Respond.body resp = StreamBody (pr_body p) ∨
       ∃ bytes, collect (pr_body p) = Ok bytes ∧ Respond.body resp = BytesBody bytes) ∨
      ∃ e, collect (pr_body p) = Err e ∧ resp = upstream_error e
  end.

Section props.
Context {T : Type} `{LedgerBackend T} `{!TicketLaws T}.
Context (lib : Lib) (cfg : Config) (peers : Peers T).

Lemma respond_under (J : gset string → WardryxMode → Prop) h body w :
  (∀ n w, J (killed (app w)) (wx_mode (wardryx w)) →
          J (killed (app (interfere peers n w))) (wx_mode (wardryx (interfere peers n w)))) →
  J (killed (app w)) (wx_mode (wardryx w)) →
  let '(tr, resp, w') := respond lib cfg peers h body w in
  Transcript lib cfg peers J h body tr resp ∧ J (killed (app w')) (wx_mode (wardryx w')).
Proof. intros HJ Hw. exact (respond_transcript lib cfg peers J HJ h body w Hw). Qed.

Lemma everywhere h body w :
  let '(tr, resp, _) := respond lib cfg peers h body w in
  Transcript lib cfg peers (λ _ _, True) h body tr resp.
Proof.
  pose proof (respond_under (λ _ _, True) h body w (λ _ _ _, I) I) as Hr.
  destruct (respond lib cfg peers h body w) as [[tr resp] w']. apply Hr.
Qed.

(** C5: no reservation of a request that is served leaks.  Whatever the request, the
    configuration, the backend and whatever runs in between, when the handler runs to its
    end every reservation the request is granted, on its run and on its unit, is released
    exactly once: settled by the request itself, or owned by the guard of the stream it
    returns; and a request that was not forwarded books nothing.  When the handler is
    dropped at an await because the client disconnected, nothing is released twice or
    without having been granted, but what was granted and not yet released stays held
    ([disconnect_holds_reservation]). *)
Theorem no_reservation_leaks h body w :
  (let '(tr, _, _) := respond lib cfg peers h body w in
   granted tr = released tr ∧ unit_granted tr = unit_released tr ∧
   (length (granted tr) ≤ 1)%nat ∧ (length (unit_granted tr) ≤ 1)%nat ∧
   (sent tr = [] → Forall (λ c, c = 0) (booked_costs tr))) ∧
  (∀ n, let tr := respond_dropped lib cfg peers h body w n in
   released tr `prefix_of` granted tr ∧ unit_released tr `prefix_of` unit_granted tr ∧
   (length (granted tr) ≤ 1)%nat ∧ (length (unit_granted tr) ≤ 1)%nat).
Proof.
  pose proof (everywhere h body w) as Ht. unfold respond_dropped.
  destruct (respond lib cfg peers h body w) as [[tr resp] w']. cbn [fst].
  split; [take_apart; cbn; owner; repeat split; try done; try lia; by repeat constructor|].
  intros n. cbv zeta. take_apart; by dropped n.
Qed.

(** C6: the provider is called at most once, with the caller's own headers, and for a
    managed run only right after its reservation was granted: a call that was refused
    anything, by its run or by its unit, is never sent.  Without a run id the call passes
    through untouched, and without a valid credential nothing happens at all. *)
Theorem forwarded_only_when_reserved h body w :
  let '(tr, _, _) := respond lib cfg peers h body w in
  match resolve_client_key lib cfg h, header_str (to_str lib) h "x-fuse-run-id" with
  | None, _ => tr = []
  | Some _, None => tr = [Sent h body]
  | Some _, Some run =>
      (∃ b p tr', tr = (Opened run b p :: tr')) ∧
      (sent tr = [] ∨
       ∃ pre r b post, tr = (pre ++ Reserved r :: Sent h b :: post) ∧ sent pre = [] ∧
         sent post = [] ∧ ∀ e u, (Refused e ∉ tr) ∧ (UnitRefused u ∉ tr))
  end.
Proof.
  pose proof (everywhere h body w) as Ht.
  destruct (respond lib cfg peers h body w) as [[tr resp] w'].
  invert Ht; repeat match goal with Hx : _ = Some _ |- _ => rewrite Hx
                               | Hx : _ = None |- _ => rewrite Hx end; try done.
  split; [by eexists _, _, _|].
  take_apart; try (by left); right;
    match goal with
    | |- context [?o :: UnitReserved ?u :: Reserved ?r :: Sent ?h ?b :: ?post] =>
        exists [o; UnitReserved u], r, b, post
    | |- context [?o :: Reserved ?r :: Sent ?h ?b :: ?post] => exists [o], r, b, post
    end; (split; [done|]; split; [done|]; split; [done|]);
    intros ? ?; rewrite !not_elem_of_cons; repeat split; try done; apply not_elem_of_nil.
Qed.

(** C11: the trace is attributable and agrees with the money.  Every row carries the key
    the credential resolved to.  A row with a budget-family reason is the only row of a
    call that was not sent and holds no reservation, and the answer is that reason's 402.
    The rows of allowed calls state exactly what was settled on the run, unless the
    upstream failed, which settles zero and leaves no row, or the answer is a stream. *)
Theorem rows_agree_with_outcome h body w :
  let '(tr, resp, _) := respond lib cfg peers h body w in
  Forall (λ rec, resolve_client_key lib cfg h = Some (LedgerBackend.key_id rec)) (rows tr) ∧
  (length (rows tr) ≤ 2)%nat ∧
  (∀ r, http_status r = 402 → Breaker.as_wire_str r ∈ decisions tr →
        decisions tr = [Breaker.as_wire_str r] ∧ sent tr = [] ∧ granted tr = [] ∧
        status resp = 402 ∧ error_type resp = Some (Breaker.as_wire_str r)) ∧
  (allowed_costs tr = settled_costs tr ∨
   allowed_costs tr = [] ∧ settled_costs tr = [0] ∧ status resp = 502).
Proof.
  pose proof (everywhere h body w) as Ht.
  destruct (respond lib cfg peers h body w) as [[tr resp] w'].
  take_apart; unfold allow_record, decisions, allowed_costs in *; destruct_and?;
    repeat match goal with
    | Hd : ?d ∈ [_; _] |- _ => 
        apply elem_of_cons in Hd as [->|Hd]; [|apply list_elem_of_singleton in Hd as ->]
    | r : BreakerReason |- _ => destruct r
    end; unfold rows, settled_costs, sent, granted; cbn -[error_type status];
    repeat match goal with
    | Hd : LedgerBackend.decision ?rec = _ |- context [LedgerBackend.decision ?rec] => rewrite Hd
    | Hr : reason _ = Some _ |- _ =>
        apply (breaker_response_reads (q_run_id q)) in Hr as [Herr Hstat]
    end.
  all: split; [rewrite ?Forall_cons, ?Forall_nil; cbn; intuition congruence|].
  all: split; [lia|].
  all: split; [|first [by left | by right | left; repeat case_decide; cbn; congruence]].
  all: intros br Hbr Hin; destruct br; try discriminate Hbr; first [no_member | done].
Qed.

(** C7: an operator's kill is final, in every rollout mode.  Once a run is in the kill set,
    and whatever else happens as long as it stays there, no call of the run is ever sent
    or holds a reservation, and the caller is told: the credential, the identity map and
    the kill itself are the only answers. *)
Theorem killed_is_final h body w run :
  (∀ n v, run ∈ killed (app v) → run ∈ killed (app (interfere peers n v))) →
  run ∈ killed (app w) → header_str (to_str lib) h "x-fuse-run-id" = Some run →
  let '(tr, resp, w') := respond lib cfg peers h body w in
  sent tr = [] ∧ granted tr = [] ∧ unit_granted tr = [] ∧ run ∈ killed (app w') ∧
  (resp = unauthorized_response ∨ (∃ why, resp = identity_block run why) ∨
   status resp = 402 ∧ error_type resp = Some "killed" ∧ decisions tr = ["killed"]).
Proof.
  intros Hi Hw Hrun.
  pose proof (respond_under (λ K _, run ∈ K) h body w Hi Hw) as Ht.
  destruct (respond lib cfg peers h body w) as [[tr resp] w']. destruct Ht as [Ht Hw'].
  take_apart; try congruence; unfold admitted, cause, alive in *;
    try match goal with r : BreakerReason |- _ => destruct r end;
    destruct_and?; simplify_eq;
    try match goal with Hk : ∃ K m, _ ∈ K ∧ _ |- _ => destruct Hk as (? & ? & ? & ?) end;
    simplify_eq; try done;
    unfold sent, granted, unit_granted, decisions, rows; cbn -[error_type status];
    repeat (split; [done|]).
  - by left.
  - match goal with Hr : reason _ = Some _ |- _ =>
      apply (breaker_response_reads (q_run_id q)) in Hr as [-> ->] end. auto.
  - right. left. eauto.
Qed.

Lemma shadow_relays h body w run :
  (∀ n v, run ∉ killed (app v) → run ∉ killed (app (interfere peers n v))) →
  (∀ n v, wx_mode (wardryx v) ≠ WxEnforce → wx_mode (wardryx (interfere peers n v)) ≠ WxEnforce) →
  run ∉ killed (app w) → wx_mode (wardryx w) ≠ WxEnforce →
  Policy.mode (policy cfg) ≠ Enforce → identity_strict cfg ≠ StrictEnforce →
  dlp cfg ≠ Dlp.DlpBlock → dlp_pii cfg ≠ Dlp.DlpBlock →
  Cache.mode (cache_config cfg) ≠ CacheOn → wasm cfg = None →
  fw_mode (firewall cfg) ≠ FwEnforce →
  is_Some (resolve_client_key lib cfg h) →
  header_str (to_str lib) h "x-fuse-run-id" = Some run →
  let '(tr, resp, _) := respond lib cfg peers h body w in
  ∃ b, sent tr = [(h, b)] ∧ relayed (send peers h b) resp ∧
    (dlp cfg ≠ DlpMask → dlp_pii cfg ≠ DlpMask → Router.mode (router cfg) ≠ RouterOn → b = body).
Proof.
  intros Hi1 Hi2 Hw1 Hw2 Hpol Hid Hdlp Hpii Hcache Hwasm Hfw [key Hkey] Hrun.
  pose proof (respond_under (λ K m, (run ∉ K) ∧ m ≠ WxEnforce) h body w
    (λ n v Hj, conj (Hi1 n v (proj1 Hj)) (Hi2 n v (proj2 Hj))) (conj Hw1 Hw2)) as Ht.
  destruct (respond lib cfg peers h body w) as [[tr resp] w']. destruct Ht as [Ht _].
  take_apart; try congruence; unfold admitted, cause in *; destruct_and?;
    try match goal with r : BreakerReason |- _ => destruct r end; destruct_and?; try done;
    try match goal with Hk : ∃ K m, (_ ∧ _) ∧ _ ∈ K |- _ => destruct Hk as (? & ? & [? ?] & ?) end;
    simplify_eq; try done;
    try match goal with Hk : wasm _ = _, Hs : is_Some (wasm _) |- _ => rewrite Hk in Hs; by destruct Hs end;
    (eexists; split; [reflexivity|]; split; [|done]); unfold relayed;
    repeat match goal with
    | Hs : _ ∨ _ |- _ => destruct Hs as [Hs|(? & ? & ?)]
    | Hs : send _ _ _ = _ |- _ => rewrite Hs; clear Hs
    end; eauto 8.
Qed.

(** C9: shadow mode is transparent.  With every gate in a mode that only observes, an
    authenticated call of a run that is not killed is forwarded exactly once and the
    provider's answer, or its failure, is relayed; the body is forwarded untouched unless
    masking or routing is on. *)
Theorem shadow_is_transparent h body w run :
  (∀ n v, run ∉ killed (app v) → run ∉ killed (app (interfere peers n v))) →
  (∀ n v, wx_mode (wardryx v) ≠ WxEnforce → wx_mode (wardryx (interfere peers n v)) ≠ WxEnforce) →
  run ∉ killed (app w) → wx_mode (wardryx w) ≠ WxEnforce →
  Policy.mode (policy cfg) ≠ Enforce → identity_strict cfg ≠ StrictEnforce →
  dlp cfg ≠ Dlp.DlpBlock → dlp_pii cfg ≠ Dlp.DlpBlock →
  Cache.mode (cache_config cfg) ≠ CacheOn → wasm cfg = None →
  fw_mode (firewall cfg) ≠ FwEnforce →
  is_Some (resolve_client_key lib cfg h) →
  header_str (to_str lib) h "x-fuse-run-id" = Some run →
  let '(tr, resp, _) := respond lib cfg peers h body w in
  ∃ b, sent tr = [(h, b)] ∧ relayed (send peers h b) resp ∧
    (dlp cfg ≠ DlpMask → dlp_pii cfg ≠ DlpMask → Router.mode (router cfg) ≠ RouterOn → b = body).
Proof. exact (shadow_relays h body w run). Qed.

Lemma evaluate_mono labels labels' req rules :
  labels ⊆ labels' → is_Some (Taint.evaluate labels req rules) → is_Some (Taint.evaluate labels' req rules).
Proof.
  intros Hl. rewrite !evaluate_iff. intros Hx. eapply Exists_impl; [exact Hx|].
  intros r. by apply fires_mono.
Qed.

(** C10: a tainted answer is withheld, and paid for.  With the firewall enforcing, if the
    provider's buffered answer asks for a capability that a rule denies in the context of
    the labels the request itself declares or its own tool history carries, the caller gets
    the 403 instead of the answer, whatever other requests do to the run's taint.  The call
    is settled, on its run and on its unit if it has one, with the price of the usage the
    provider reported, or with the reserved amount where there is no usage or no price; and
    two rows are written: the allowed call with that cost, and the block. *)
Theorem tainted_answer_withheld h body w run :
  fw_mode (firewall cfg) = FwEnforce →
  header_str (to_str lib) h "x-fuse-run-id" = Some run →
  let request := default Null (from_slice lib body) in
  p_stream (parse_request request) = false →
  let '(tr, resp, _) := respond lib cfg peers h body w in
  ∀ b p bytes, sent tr = [(h, b)] → send peers h b = Ok p → collect (pr_body p) = Ok bytes →
    is_Some (Taint.evaluate (request_labels lib cfg h request) (requested lib cfg bytes)
               (fw_rules (firewall cfg))) →
    status resp = 403 ∧ error_type resp = Some "taint_blocked" ∧
    decisions tr = ["allow"; "taint_blocked"] ∧ granted tr = released tr ∧
    unit_granted tr = unit_released tr ∧
    ∃ r rec rec', granted tr = [r] ∧ run_id r = run ∧ rows tr = [rec; rec'] ∧
      let cost := settled_cost cfg r p (LedgerBackend.cr_model rec) in
      settled_costs tr = [cost] ∧ Forall (λ c, c = cost) (booked_costs tr) ∧
      LedgerBackend.cost_microusd rec = cost ∧ cr_run_id rec = run ∧
      LedgerBackend.cost_microusd rec' = 0.
Proof.
  intros Hf Hrun. cbv zeta. intros Hst. pose proof (everywhere h body w) as Ht.
  destruct (respond lib cfg peers h body w) as [[tr resp] w'].
  intros b p bytes Hsent Hsend Hc Hev.
  take_apart; try done; cbn in Hsent; simplify_eq; try done;
    try (match goal with Hx : _ ∨ ∃ _, _ |- _ => destruct Hx as [Hx|(? & Hx & ?)] end; congruence).
  all: repeat match goal with
       | H1 : q_request _ = _ |- _ => rewrite <-H1 in Hst, Hev; clear H1
       | H1 : send _ _ _ = Ok ?x, H2 : send _ _ _ = Ok ?y |- _ =>
           tryif constr_eq x y then fail else (rewrite H1 in H2; injection H2 as <-)
       | H1 : collect _ = Ok ?x, H2 : collect _ = Ok ?y |- _ =>
           tryif constr_eq x y then fail else (rewrite H1 in H2; injection H2 as <-)
       end.
  all: try congruence; unfold judged, allow_record in *; destruct_and?.
  all: try (match goal with Hj : _ → ∃ _, _ ∧ (False ↔ _) |- _ =>
              destruct (Hj Hf) as (labels & Hl & Hd) end;
            exfalso; apply Hd; by eapply evaluate_mono).
  all: unfold decisions, rows; cbn; split; [done|]; split; [done|]; split; [congruence|].
  all: split; [done|]; split; [done|]; eexists _, _, _; split_and!;
    first [done | congruence | by repeat constructor].
Qed.
End props.
