(* ===== verification/GatewayLedger.v ===== *)
(** * What one request does to the in-process ledger

    With the in-process backend and no other request on the ledger in between, the final
    ledger is the log of [Gateway.messages] replayed, so a handled request charges its
    run and every ancestor exactly what it settled and holds nothing afterwards.  A
    demonstration gateway runs the handler on the cases of the source's own tests. *)

From S2P Require Import Prelude Float Money Strings Json Ledger LedgerInv UnitLedger Loops.
From S2P Require Import Policy Taint Dlp Breaker Cache AgentEvent Router LedgerBackend Identity.
From S2P Require Import AppState Wardryx Request Respond Gateway GatewaySpec GatewayProps.

(** An action's effect on the run table. *)
Definition replay (runs : gmap string RunState) (a : Act) : gmap string RunState :=
  match a with
  | Opened run b p => Ledger.open_run runs run b p
  | Reserved r => (Ledger.reserve_unchecked runs (run_id r) (amount r)).1
  | Settled r c => Ledger.settle runs r c
  | _ => runs
  end.

Section follows.
Context (lib : Lib) (cfg : Config) (peers : Peers LocalLedger).
Hypothesis quiet : ∀ n w, ledger (interfere peers n w) = ledger w.

Definition runs_of (s : St LocalLedger) : gmap string RunState := local_runs (ledger (world s)).

(** The log accounts for every change of the ledger. *)
Definition follows {A} (m : M LocalLedger A) : Prop :=
  ∀ s, ∃ tr, trace (m s).1 = trace s ++ tr ∧ runs_of (m s).1 = foldl replay (runs_of s) tr.

Lemma f_ret {A} (a : A) : follows (mret a).
Proof. intros s. exists []. by rewrite app_nil_r. Qed.

Lemma f_answer {A} r : follows (answer (A:=A) r).
Proof. intros s. exists []. by rewrite app_nil_r. Qed.

Lemma f_bind {A B} (m : M LocalLedger A) (k : A → M LocalLedger B) :
  follows m → (∀ a, follows (k a)) → follows (m ≫= k).
Proof.
  intros Hm Hk s. destruct (Hm s) as (tr & Htr & Hl). unfold mbind, M_bind.
  destruct (m s) as [s' [a|r]]; cbn [fst] in *; [|by exists tr].
  destruct (Hk a s') as (tr' & Htr' & Hl'). exists (tr ++ tr').
  by rewrite Htr', Htr, <-app_assoc, Hl', Hl, foldl_app.
Qed.

Lemma f_op {A} (f : Gw LocalLedger → Gw LocalLedger * A) log :
  (∀ w, local_runs (ledger (f w).1) = foldl replay (local_runs (ledger w)) (log (f w).2)) →
  follows (op peers f log).
Proof.
  intros Hf s. unfold op. specialize (Hf (interfere peers (ops s) (world s))).
  destruct (f _) as [w a]. cbn [fst snd] in *. exists (log a). split; [done|].
  unfold runs_of. cbn [world]. by rewrite Hf, quiet.
Qed.

Lemma f_tick {A} (f : Gw LocalLedger → A) : follows (read peers f).
Proof. by apply f_op. Qed.

Lemma f_unit (f : Gw LocalLedger → Gw LocalLedger) : (∀ w, ledger (f w) = ledger w) → follows (modify peers f).
Proof. intros Hf. apply f_op. intros w. simpl. by rewrite Hf. Qed.

Lemma f_show a : (∀ runs, replay runs a = runs) → follows (show peers a).
Proof. intros Ha. apply f_op. intros w. simpl. by rewrite Ha. Qed.

Lemma f_reserve run est : follows (reserve_op peers run est).
Proof.
  apply f_op. intros w. simpl. unfold lift_local. simpl.
  destruct (Ledger.reserve_cases (local_runs (ledger w)) run est)
    as [[_ ->]|[(e & _ & _ & ->)|([x Hx] & _ & ->)]]; simpl; [done..|].
  unfold Ledger.reserve_unchecked. by rewrite Hx.
Qed.

Lemma f_reserve_unchecked run est : follows (reserve_unchecked_op peers run est).
Proof. by apply f_op. Qed.

Create HintDb follows.
#[local] Hint Resolve f_ret f_answer f_reserve f_reserve_unchecked : follows.

Ltac fstep :=
  match goal with
  | |- follows (_ ≫= _) => apply f_bind; [|intros ?]
  | |- follows (read _ _) => apply f_tick
  | |- follows (now _) => apply f_tick
  | |- follows (snap _ _) => apply f_tick
  | |- follows (modify _ _) => apply f_unit; done
  | |- follows (show _ _) => apply f_show; done
  | |- follows (match ?x with _ => _ end) => destruct x
  | |- follows _ => solve [eauto with follows]
  end.
Ltac fsteps := repeat (fstep; cbv zeta).

Lemma f_record row : follows (record peers row).
Proof. unfold record. fsteps. Qed.
Lemma f_emit q ty data : follows (emit peers q ty data).
Proof. unfold emit. fsteps. Qed.
#[local] Hint Resolve f_record f_emit : follows.

Lemma f_breaker {A} q row v : follows (breaker_block (A:=A) peers q row v).
Proof. unfold breaker_block, emit_breaker_event. fsteps. Qed.
Lemma f_settle_unit ur c : follows (settle_unit_op peers ur c).
Proof. unfold settle_unit_op. fsteps. by apply f_op. Qed.
Lemma f_settle r c : follows (settle_op peers r c).
Proof. by apply f_op. Qed.
Lemma f_taint run labels : follows (accumulate_taint_op peers run labels).
Proof. by apply f_op. Qed.
Lemma f_send h b : follows (send_op peers h b).
Proof. by apply f_op. Qed.
#[local] Hint Resolve f_breaker f_settle_unit f_settle f_taint f_send : follows.

Lemma f_units {A} (f : UnitLedger → UnitLedger * A) (log : A → list Act) :
  (∀ a runs, foldl replay runs (log a) = runs) →
  follows (op peers (λ w, let '(u, r) := f (units w) in (with_units u w, r)) log).
Proof. intros Hl. apply f_op. intros w. destruct (f (units w)) as [u a]. simpl. by rewrite Hl. Qed.

Lemma f_unit_gate q parsed a : follows (unit_gate cfg peers q parsed a).
Proof.
  unfold unit_gate, try_reserve_unit_op, reserve_unit_unchecked_op. fsteps;
    (apply (f_units (λ u, let '(u, r) := UnitLedger.take_under u _ _ _ in (u, Some r))) ||
     apply (f_units (λ u, UnitLedger.reserve_under u _ _ _ _))).
  - by intros [].
  - by intros [[]|].
Qed.

Ltac fop := apply f_op; intros ?; first [done | by case_match].

Lemma f_identity q model mm :
  follows (identity_gate cfg peers q model mm).
Proof. unfold identity_gate. fsteps. Qed.
Lemma f_kill q parsed body :
  follows (kill_gate cfg peers q parsed body).
Proof. unfold kill_gate. fsteps. Qed.
Lemma f_dlp q model body :
  follows (dlp_gate lib cfg peers q model body).
Proof. unfold dlp_gate, dlp_secrets, dlp_pii_section. fsteps. Qed.
Lemma f_cache q parsed :
  follows (cache_gate lib cfg peers q parsed).
Proof. unfold cache_gate. fsteps; fop. Qed.
Lemma f_assess q parsed body :
  follows (assess lib cfg peers q parsed body).
Proof. unfold assess. fsteps; fop. Qed.
Lemma f_policy q parsed a :
  follows (policy_gate cfg peers q parsed a).
Proof. unfold policy_gate. fsteps. Qed.
Lemma f_wasm q parsed a :
  follows (wasm_gate cfg peers q parsed a).
Proof. unfold wasm_gate. fsteps. Qed.
Lemma f_wardryx q parsed a :
  follows (wardryx_gate lib peers q parsed a).
Proof. unfold wardryx_gate. fsteps; fop. Qed.
Lemma f_taint_request q :
  follows (taint_request lib cfg peers q).
Proof. unfold taint_request. fsteps. Qed.
Lemma f_budget q parsed a ur :
  follows (budget_gate cfg peers q parsed a ur).
Proof. unfold budget_gate. fsteps. Qed.
Lemma f_release r ur e :
  follows (release (A:=HttpResponse) peers r ur e).
Proof. unfold release. fsteps. Qed.
Lemma f_stream q resp r model ur n :
  follows (stream_managed lib cfg peers q resp r model ur n).
Proof. unfold stream_managed. fsteps. Qed.
Lemma f_buffered q resp r model ctx note labels ur route n :
  follows (buffered_managed lib cfg peers q resp r model ctx note labels ur route n).
Proof. unfold buffered_managed, release, firewall_gate. fsteps; fop. Qed.
#[local] Hint Resolve f_unit_gate f_identity f_kill f_dlp f_cache f_assess f_policy f_wasm f_wardryx
  f_taint_request f_budget f_release f_stream f_buffered : follows.

Lemma f_messages h body : follows (messages lib cfg peers h body).
Proof.
  unfold messages, authenticate, unmanaged, open_managed, open_run_op, attribute, capture, managed.
  fsteps; fop.
Qed.
End follows.

(** ** One request's charge *)

Section charge.
Context (lib : Lib) (cfg : Config) (peers : Peers LocalLedger).

Lemma respond_replay h body w :
  (∀ n v, ledger (interfere peers n v) = ledger v) →
  let '(tr, _, w') := respond lib cfg peers h body w in
  local_runs (ledger w') = foldl replay (local_runs (ledger w)) tr.
Proof.
  intros Hq. unfold respond.
  destruct (f_messages lib cfg peers Hq h body (mkSt w 0 [])) as (tr & Htr & Hl).
  destruct (messages _ _ _ _ _ _) as [s [r|r]]; unfold runs_of in Hl; cbn [fst] in *;
    by rewrite Htr, Hl.
Qed.

Lemma open_run_some runs run b p : is_Some (Ledger.open_run runs run b p !! run).
Proof.
  unfold Ledger.open_run. destruct (runs !! run); rewrite lookup_insert_eq; eauto.
Qed.

(** C8: a handled request charges exactly its cost.  With no other request on the ledger
    in between, a managed call that was stopped leaves the table as opening its run left
    it; an answered or failed one leaves every reserved amount as it was, and adds the
    settled cost to the spend of its run and of every ancestor, and to nothing else; a
    streaming one leaves its reservation to the guard. *)
Theorem request_charges h body w :
  (∀ n v, ledger (interfere peers n v) = ledger v) →
  let '(tr, _, w') := respond lib cfg peers h body w in
  ∀ run b p rest, tr = Opened run b p :: rest →
  let opened := Ledger.open_run (local_runs (ledger w)) run b p in
  match granted tr, settled_costs tr with
  | [], _ => local_runs (ledger w') = opened
  | r :: _, [] => local_runs (ledger w') = (Ledger.reserve_unchecked opened run (amount r)).1
  | r :: _, c :: _ =>
      0 ≤ amount r →
      (∀ k s, k ∈ Ledger.chain opened run → opened !! k = Some s →
              Ledger.level_sound s (amount r) ∧ in_i64 (rs_spent s + c)) →
      ∀ k s, opened !! k = Some s →
        ∃ s', local_runs (ledger w') !! k = Some s' ∧ rs_reserved s' = rs_reserved s ∧
          rs_budget s' = rs_budget s ∧
          rs_spent s' = if decide (k ∈ Ledger.chain opened run) then rs_spent s + c else rs_spent s
  end.
Proof.
  intros Hq. pose proof (respond_replay h body w Hq) as Hr.
  pose proof (everywhere lib cfg peers h body w) as Ht.
  destruct (respond lib cfg peers h body w) as [[tr resp] w'].
  intros run b p rest ->.
  take_apart; cbn [foldl replay] in Hr; unfold granted, settled_costs; cbn [omap list_omap];
    rewrite ?Hr; try done; unfold Ledger.reserve_unchecked;
    destruct (open_run_some (local_runs (ledger w)) (q_run_id q) (q_budget q) p) as [s0 Hs0].
  all: match goal with Hid : run_id _ = _ |- _ => rewrite Hid end; rewrite Hs0; try done.
  all: intros Ha Hb k s Hs.
  all: destruct (Ledger.apply_reserve_settle _ _ _ _ k s Ha Hb Hs) as (s' & Hs' & ? & ? & ? & ? & _).
  all: exists s'; split; [|done].
  all: rewrite <-Hs'; unfold Ledger.settle.
  all: by match goal with Hid : run_id _ = _ |- _ => rewrite Hid end.
Qed.
End charge.

(** ** A gateway that runs *)

Definition demo_docs : gmap string Value :=
  list_to_map
    [("req", Obj [("max_tokens", Number (PosInt 500)); ("model", Str "test-model")]);
     ("stream", Obj [("max_tokens", Number (PosInt 500)); ("model", Str "test-model");
                     ("stream", Bool true)]);
     ("shell", Obj [("content", Arr [Obj [("name", Str "run_shell"); ("type", Str "tool_use")]])])].

Definition demo_lib : Lib :=
  mkLib Some (λ _, true) to_ascii_lowercase (λ s, demo_docs !! s) (λ _, "text") (λ _, None)
    (λ _ _, []) (λ _ _, 0) (λ _ _, 0) (λ _ _ _ _ _, 0) (λ _, []) (λ _, ∅).

Definition demo_prices : PriceBook :=
  PriceBook.with_ PriceBook.new "test-model"
    (ModelPrice.per_mtok_usd (f64_of_Z 3) (f64_of_Z 15) (f64_lit 3 10) (f64_lit 15 4)).

Definition demo_config (m : Mode) (fw : FirewallMode) : Config :=
  mkConfig demo_prices (mkPolicy m None None (Some 100) default_anomalies) "test-policy"
    default_config (FirewallConfig.defaults fw) DlpOff DlpOff (mkRouter RouterOff default_rules ∅)
    None (mkClientKeys ∅) (mkIdentityMap ∅ ∅ []) StrictOff.

(** The clock ticks between the handler's steps; the provider answers [bytes]. *)
Definition demo_peers (bytes : string) : Peers LocalLedger :=
  mkPeers
    (λ _ w, mkGw (ledger w) (units w) (keystats w) (app w) (cache w) (wardryx w)
              (on_behalf_of_overcap w) (outcome_overcap w) (clock w + 1) (instant w + 1))
    (λ _ _, Ok (mkProviderResponse 200 (Some "application/json") [Ok bytes]
                  (Some (mkUsage 100 20 0 0 (Some 0)))))
    (λ _, (0, Err (Transport "off"))).

Definition demo_gw (killed : gset string) : Gw LocalLedger :=
  mkGw (mkLocal ∅) (UnitLedger.new ∅) KeyStats.empty
    (mkAppState ∅ killed ∅ ∅) ∅ Wardryx.disabled 0 0 0 0.

Definition demo_headers (run budget : string) : HeaderMap :=
  [("x-fuse-run-id", run); ("x-fuse-budget-usd", budget)].

Definition demo (m : Mode) (fw : FirewallMode) (bytes : string) (killed : gset string)
    (h : HeaderMap) (body : string) : list Act * HttpResponse * Gw LocalLedger :=
  respond demo_lib (demo_config m fw) (demo_peers bytes) h body (demo_gw killed).

Definition verdict (r : list Act * HttpResponse * Gw LocalLedger)
  : Z * list string * list Microusd := (status r.1.2, decisions r.1.1, booked_costs r.1.1).

(** The source's tests [managed_request_within_budget_settles_cost] and
    [enforce_over_budget_returns_402_contract], a kill, and an unmanaged call. *)
Example demo_verdicts :
  verdict (demo Enforce FwOff "hi" ∅ (demo_headers "run-1" "5.0") "req")
  = (200, ["allow"], [600]) ∧
  verdict (demo Enforce FwOff "hi" ∅ (demo_headers "run-2" "0.000001") "req")
  = (402, ["budget_exceeded"], []) ∧
  verdict (demo Shadow FwOff "hi" ∅ (demo_headers "run-2" "0.000001") "req")
  = (200, ["allow"], [600]) ∧
  verdict (demo Shadow FwOff "hi" {["run-1"]} (demo_headers "run-1" "5.0") "req")
  = (402, ["killed"], []) ∧
  verdict (demo Enforce FwOff "hi" ∅ [] "req") = (200, [], []).
Proof. vm_compute. done. Qed.

(** A client that disconnects while the provider is answering: the handler is dropped after
    the call was sent, and the reservation it holds is never settled. *)
Example disconnect_holds_reservation :
  let tr := respond_dropped demo_lib (demo_config Enforce FwOff) (demo_peers "hi")
              (demo_headers "run-1" "5.0") "req" (demo_gw ∅) 3 in
  length (sent tr) = 1%nat ∧ length (granted tr) = 1%nat ∧ released tr = [] ∧ rows tr = [].
Proof. vm_compute. done. Qed.

(** ** The theorems at work on it *)

Lemma no_reservation_leaks_witness :
  let '(tr, _, _) := demo Enforce FwOff "hi" ∅ (demo_headers "run-2" "0.000001") "req" in
  sent tr = [] ∧ Forall (λ c, c = 0) (booked_costs tr).
Proof.
  pose proof (no_reservation_leaks demo_lib (demo_config Enforce FwOff) (demo_peers "hi")
    (demo_headers "run-2" "0.000001") "req" (demo_gw ∅)) as Hl.
  unfold demo. destruct (respond _ _ _ _ _ _) as [[tr resp] w'] eqn:E.
  destruct Hl as [(_ & _ & _ & _ & Hb) _].
  apply (f_equal (λ p, sent p.1.1)) in E. cbn [fst snd] in E.
  assert (Hs : sent tr = []) by (rewrite <-E; vm_compute; reflexivity).
  split; [exact Hs|exact (Hb Hs)].
Defined.

Lemma forwarded_only_when_reserved_witness :
  let '(tr, _, _) := demo Enforce FwOff "hi" ∅ (demo_headers "run-1" "5.0") "req" in
  ∃ pre r b post, tr = (pre ++ Reserved r :: Sent (demo_headers "run-1" "5.0") b :: post).
Proof.
  pose proof (forwarded_only_when_reserved demo_lib (demo_config Enforce FwOff) (demo_peers "hi")
    (demo_headers "run-1" "5.0") "req" (demo_gw ∅)) as Hl.
  unfold demo. destruct (respond _ _ _ _ _ _) as [[tr resp] w'] eqn:E.
  destruct Hl as (_ & [Hs|(pre & r & b & post & Ht & _)]); [|by exists pre, r, b, post].
  apply (f_equal (λ p, length (sent p.1.1))) in E. cbn [fst snd] in E. rewrite Hs in E.
  vm_compute in E. discriminate E.
Defined.

Lemma rows_agree_with_outcome_witness :
  let '(tr, resp, _) := demo Enforce FwOff "hi" ∅ (demo_headers "run-2" "0.000001") "req" in
  sent tr = [] ∧ status resp = 402.
Proof.
  pose proof (rows_agree_with_outcome demo_lib (demo_config Enforce FwOff) (demo_peers "hi")
    (demo_headers "run-2" "0.000001") "req" (demo_gw ∅)) as Hl.
  unfold demo. destruct (respond _ _ _ _ _ _) as [[tr resp] w'] eqn:E.
  destruct Hl as (_ & _ & Hr & _).
  apply (f_equal (λ p, decisions p.1.1)) in E. cbn [fst snd] in E.
  destruct (Hr BudgetExceeded eq_refl) as (_ & Hs & _ & Hst & _);
    [rewrite <-E; vm_compute; left|split; [exact Hs|exact Hst]].
Defined.

Lemma killed_is_final_witness :
  let '(tr, resp, _) := demo Shadow FwOff "hi" {["run-1"]} (demo_headers "run-1" "5.0") "req" in
  sent tr = [] ∧ status resp = 402.
Proof.
  pose proof (killed_is_final demo_lib (demo_config Shadow FwOff) (demo_peers "hi")
    (demo_headers "run-1" "5.0") "req" (demo_gw {["run-1"]}) "run-1" (λ _ _ Hk, Hk)
    (bool_decide_unpack _ (I : bool_decide ("run-1" ∈ killed (app (demo_gw {["run-1"]})))))
    eq_refl) as Hk.
  unfold demo. destruct (respond _ _ _ _ _ _) as [[tr resp] w'] eqn:E.
  destruct Hk as (Hs & _). split; [exact Hs|].
  apply (f_equal (λ p, status p.1.2)) in E. cbn [fst snd] in E. rewrite <-E.
  vm_compute. reflexivity.
Defined.

Lemma shadow_is_transparent_witness :
  let '(tr, _, _) := demo Shadow FwShadow "hi" ∅ (demo_headers "run-1" "0.000001") "req" in
  sent tr = [(demo_headers "run-1" "0.000001", "req")].
Proof.
  pose proof (shadow_is_transparent demo_lib (demo_config Shadow FwShadow) (demo_peers "hi")
    (demo_headers "run-1" "0.000001") "req" (demo_gw ∅) "run-1" (λ _ _ Hk, Hk) (λ _ _ Hk, Hk)
    ltac:(apply not_elem_of_empty) ltac:(discriminate) ltac:(discriminate) ltac:(discriminate)
    ltac:(discriminate) ltac:(discriminate) ltac:(discriminate) eq_refl ltac:(discriminate)
    (ex_intro _ "" eq_refl) eq_refl) as Hk.
  unfold demo. destruct (respond _ _ _ _ _ _) as [[tr resp] w'].
  destruct Hk as (b & Hs & _ & Hb). rewrite Hs. rewrite Hb; [reflexivity|discriminate..].
Defined.

Definition tainted_headers : HeaderMap := [("x-fuse-run-id", "run-1"); ("x-fuse-taint", "web")].

Lemma tainted_answer_withheld_witness :
  let '(_, resp, _) := demo Enforce FwEnforce "shell" ∅ tainted_headers "req" in
  status resp = 403.
Proof.
  pose proof (tainted_answer_withheld demo_lib (demo_config Enforce FwEnforce) (demo_peers "shell")
    tainted_headers "req" (demo_gw ∅) "run-1" eq_refl eq_refl eq_refl) as Hk.
  unfold demo. destruct (respond _ _ _ _ _ _) as [[tr resp] w'] eqn:E.
  assert (sent tr = [(tainted_headers, "req")]) as Hs.
  { apply (f_equal (λ p, sent p.1.1)) in E. cbn [fst snd] in E. rewrite <-E.
    vm_compute. reflexivity. }
  destruct (Hk "req" _ "shell" Hs eq_refl eq_refl) as [H403 _]; [|exact H403].
  eexists. vm_compute. reflexivity.
Defined.

Lemma request_charges_witness :
  let '(_, _, w') := demo Enforce FwOff "hi" ∅ (demo_headers "run-1" "5.0") "req" in
  ∃ s', local_runs (ledger w') !! "run-1" = Some s' ∧ rs_reserved s' = 0 ∧ rs_spent s' = 600.
Proof.
  pose proof (request_charges demo_lib (demo_config Enforce FwOff) (demo_peers "hi")
    (demo_headers "run-1" "5.0") "req" (demo_gw ∅) (λ _ _, eq_refl)) as Hk.
  unfold demo. destruct (respond _ _ _ _ _ _) as [[tr resp] w'] eqn:E.
  apply (f_equal (λ p, p.1.1)) in E. cbn [fst snd] in E. vm_compute in E. subst tr.
  specialize (Hk _ _ _ _ eq_refl). unfold granted, settled_costs in Hk.
  cbn [omap list_omap] in Hk. cbv zeta in Hk.
  destruct (Hk ltac:(vm_compute; discriminate)) with (k := "run-1"%string)
    (s := fresh_run 5000000 None) as (s' & Hs & Hr & _ & Hsp).
  - intros k s _ Hs. change (<["run-1"%string := fresh_run 5000000 None]> (∅ : gmap string RunState) !! k = Some s)
      in Hs.
    rewrite lookup_insert in Hs. case_decide; [|by rewrite lookup_empty in Hs].
    injection Hs as <-. unfold Ledger.level_sound. vm_compute. repeat split; discriminate.
  - vm_compute. reflexivity.
  - exists s'. split; [exact Hs|]. rewrite Hr, Hsp. vm_compute. done.
Defined.
