(* ===== verification/StartupProps.v ===== *)
(** * What a started gateway enforces

    The configuration [Startup] builds, against the environment it was built from: what is
    configured is on or the process does not start, and what is not configured changes
    nothing about the traffic. *)

From S2P Require Import Prelude Float Money Strings Ledger UnitLedger Loops Policy.
From S2P Require Import Taint Dlp Cache AgentEvent Router LedgerBackend Identity AppState Wardryx Request.
From S2P Require Import Respond Gateway Sinks GatewaySpec GatewayProps GatewayLedger Startup.
From S2P Require Console Commands.

(** ** Fail closed *)






(** ** Drop in *)

(** Every gate of the configuration is in a mode that lets the call through untouched. *)
Record observes_only (c : Config) : Prop := {
  oo_policy : Policy.mode (policy c) ≠ Enforce;
  oo_strict : identity_strict c ≠ StrictEnforce;
  oo_dlp : dlp c = Dlp.DlpOff;
  oo_pii : dlp_pii c = Dlp.DlpOff;
  oo_cache : Cache.mode (cache_config c) ≠ CacheOn;
  oo_wasm : wasm c = None;
  oo_firewall : fw_mode (firewall c) ≠ FwEnforce;
  oo_router : Router.mode (router c) ≠ RouterOn;
  oo_keys : ClientKeys.enabled (client_keys c) = false
}.

Lemma default_observes slib feature s notes :
  serve_state slib (λ _, None) feature = Ok (s, notes) →
  observes_only (s_config s) ∧ wx_mode (s_wardryx s) = WxOff.
Proof.
  assert (load_wasm slib (λ _, None) feature = id) as Hwasm by (unfold load_wasm; by destruct feature).
  unfold serve_state. rewrite Hwasm. intros [= <- _]. by repeat split.
Qed.

Section drop_in.
Context {T : Type} `{LedgerBackend T} `{!TicketLaws T}.

(** A gateway started with nothing configured is a transparent proxy.  Whatever the call's
    headers and body, whoever sends it, and whatever other requests do meanwhile, a call of a
    run the operator has not killed is forwarded exactly once with its body untouched, and the
    provider's answer or its failure is what the caller gets. *)
Theorem default_start_is_drop_in (slib : StartLib) feature s notes (lib : Lib) (peers : Peers T)
    h body w run :
  serve_state slib (λ _, None) feature = Ok (s, notes) →
  wardryx w = s_wardryx s →
  (∀ n v, run ∉ killed (app v) → run ∉ killed (app (interfere peers n v))) →
  (∀ n v, wx_mode (wardryx (interfere peers n v)) = wx_mode (wardryx v)) →
  run ∉ killed (app w) →
  header_str (to_str lib) h "x-fuse-run-id" = Some run →
  let '(tr, resp, _) := respond lib (s_config s) peers h body w in
  sent tr = [(h, body)] ∧ relayed (send peers h body) resp.
Proof.
  intros Hs Hw Hi1 Hi2 Hk Hrun. destruct (default_observes _ _ _ _ Hs) as [[] Hwx].
  assert (wx_mode (wardryx w) ≠ WxEnforce) as Hwe by (rewrite Hw, Hwx; done).
  assert (is_Some (resolve_client_key lib (s_config s) h)) as Hkey
    by (unfold resolve_client_key; rewrite oo_keys0; by eexists).
  pose proof (shadow_relays lib (s_config s) peers h body w run Hi1
    (λ n v Hv, eq_ind_r (λ m, m ≠ WxEnforce) Hv (Hi2 n v)) Hk Hwe oo_policy0 oo_strict0
    ltac:(congruence) ltac:(congruence) oo_cache0 oo_wasm0 oo_firewall0 Hkey Hrun) as Hsh.
  destruct (respond _ _ _ _ _ _) as [[tr resp] w']. destruct Hsh as (b & Hsent & Hrel & Hb).
  rewrite Hb in Hsent, Hrel by congruence. auto.
Qed.
End drop_in.

(** ** Where a setting is lost *)

Section lost.
Context (socket : string → bool) (start : ClusterConfig → result unit string).

(** A node id that is no number, or an address that is no socket address, leaves the gateway
    on a ledger of its own, although the operator asked for the replicated one. *)
Theorem cluster_request_ignored env spec :
  env "TOKENFUSE_CLUSTER_ID" = Some spec →
  parse_unsigned u64_max spec = None ∨
  (∃ addr, env "TOKENFUSE_CLUSTER_ADDR" = Some addr ∧ socket addr = false) →
  cluster_ledger socket start env = InProcess.
Proof.
  intros Hid [Hp|(addr & Ha & Hs)]; unfold cluster_ledger; rewrite Hid; cbn; [by rewrite Hp|].
  destruct (parse_unsigned u64_max spec) as [id|]; [|done]. rewrite Ha. cbn. by rewrite Hs.
Qed.

(** A replica that could not start ends the process. *)
Lemma cluster_start_fatal env id e cfg :
  env "TOKENFUSE_CLUSTER_ID" ≫= parse_unsigned u64_max = Some id →
  cluster_ledger socket start env = Replicated cfg → start cfg ≠ Err e.
Proof.
  intros Hid. unfold cluster_ledger. rewrite Hid. destruct (negb _); [done|].
  destruct (start _) eqn:E; [|done]. intros [= <-]. congruence.
Qed.
End lost.

Definition demo_start : StartLib :=
  mkStartLib (λ s, s) (λ _, "") (λ s, s) (λ _, Err "no json") (λ _, Err "no json") (λ _, None)
    (λ _, []) (λ p, if bool_decide (p = "blank.json") then Ok " " else Err "not found")
    (λ _, Err "no module") (λ _, None).


(** A lock that cannot be read leaves the broker without one, also in block mode. *)
Example unreadable_lock_ignored :
  (λ s, McpBroker.lock s.1.1) <$>
    (mcp_broker demo_start
       (λ n, if bool_decide (n = "TOKENFUSE_MCP_UPSTREAM") then Some "http://u/"
             else if bool_decide (n = "TOKENFUSE_MCP_SCAN") then Some "block"
             else if bool_decide (n = "TOKENFUSE_MCP_LOCK") then Some "lock.json" else None) []).1
  = Some None.
Proof. vm_compute. reflexivity. Qed.

(** With named upstreams only, the default is the first by name, not the first written. *)
Example default_upstream_by_name :
  (λ s, McpBroker.upstream s.1.1) <$>
    (mcp_broker demo_start
       (λ n, if bool_decide (n = "TOKENFUSE_MCP_UPSTREAMS") then Some "main=http://m/,alt=http://a/"
             else None) []).1
  = Some "http://a/".
Proof. vm_compute. reflexivity. Qed.

(** ** Commands that read *)

#[local] Existing Instance Console.M_bind.
#[local] Existing Instance Console.M_ret.

(** The commands that only report: they leave every file and every server as they were. *)
Definition reads_only (c : Command) : bool :=
  match c with
  | Sql _ _ | Backtest _ _ | SavingsCmd _ | ComplianceCmd _ _ | OutcomesCmd _ | Usage _ => true
  | _ => false
  end.

Definition quiet {W A} (m : Console.M (W := W) A) : Prop :=
  ∀ w, Console.files (m w).1 = Console.files w ∧ Console.net (m w).1 = Console.net w.

Lemma quiet_bind {W A B} (m : Console.M (W := W) A) (k : A → Console.M B) :
  quiet m → (∀ a, quiet (k a)) → quiet (m ≫= k).
Proof.
  intros Hm Hk w. unfold mbind, Console.M_bind. specialize (Hm w).
  destruct (m w) as [w1 [a|e]]; [|done]. specialize (Hk a w1). cbn in *. destruct Hm, Hk. split; congruence.
Qed.
Lemma quiet_ret {W A} (a : A) : quiet (W := W) (mret a).
Proof. by intros w. Qed.
Lemma quiet_fail {W A} e : quiet (W := W) (A := A) (Console.fail e).
Proof. by intros w. Qed.
Lemma quiet_println {W} l : quiet (W := W) (Console.println l).
Proof. by intros w. Qed.
Lemma quiet_eprintln {W} l : quiet (W := W) (Console.eprintln l).
Proof. by intros w. Qed.
Lemma quiet_print_all {W} l : quiet (W := W) (Console.print_all l).
Proof. by intros w. Qed.
Lemma quiet_read {W} f p : quiet (W := W) (Console.read_to_string f p).
Proof. intros w. unfold Console.read_to_string. by destruct (Console.files w !! p). Qed.

Create HintDb quiet.
#[export] Hint Resolve quiet_bind quiet_ret quiet_fail quiet_println quiet_eprintln quiet_print_all
  quiet_read : quiet.

Ltac quiet := repeat (case_match || apply quiet_bind || intros); auto with quiet.

Theorem reports_change_nothing {W} serve lib env args (w w' : Console.World W) code :
  reads_only (command env args) = true → Commands.main serve lib env args w = Some (w', code) →
  Console.files w' = Console.files w ∧ Console.net w' = Console.net w.
Proof.
  unfold Commands.main.
  assert (∀ name c (m : Console.M (W := W) unit), quiet m → Commands.reported name c m w = (w', code) →
    Console.files w' = Console.files w ∧ Console.net w' = Console.net w) as Hrep.
  { intros name c m Hm. unfold Commands.reported. specialize (Hm w).
    destruct (m w) as [w1 [[]|e]]; intros [= <- _]; exact Hm. }
  destruct (command env args) eqn:Hc; try done; intros _ Hr%(inj Some).
  - eapply Hrep; [|exact Hr]. unfold TraceCli.sql_run. quiet.
  - eapply Hrep; [|exact Hr]. unfold TraceCli.backtest_run. quiet.
  - eapply Hrep; [|exact Hr]. unfold TraceCli.savings_run. quiet.
  - eapply Hrep; [|exact Hr]. unfold TraceCli.compliance_run, TraceCli.load_findings. quiet.
  - eapply Hrep; [|exact Hr]. unfold TraceCli.outcomes_run. quiet.
  - by injection Hr as <- _.
Qed.

(** ** Concrete starts *)


Lemma default_start_is_drop_in_witness :
  ∃ s notes, serve_state demo_start (λ _, None) false = Ok (s, notes) ∧
    let '(tr, _, _) := respond demo_lib (s_config s) (demo_peers "hi")
                         (demo_headers "run-1" "0.000001") "req" (demo_gw ∅) in
    sent tr = [(demo_headers "run-1" "0.000001", "req")].
Proof.
  eexists _, _. split; [reflexivity|].
  pose proof (default_start_is_drop_in demo_start false _ _ demo_lib (demo_peers "hi")
    (demo_headers "run-1" "0.000001") "req" (demo_gw ∅) "run-1" eq_refl eq_refl
    (λ _ _ Hk, Hk) (λ _ _, eq_refl) ltac:(apply not_elem_of_empty) eq_refl) as Hk.
  destruct (respond _ _ _ _ _ _) as [[tr resp] w']. destruct Hk as [Hs _]. rewrite Hs. reflexivity.
Defined.
