(* ===== verification/CloudTypes.v ===== *)
(** * The data of the control plane

    The records of [crates/cloud/src/store.rs] and the pairing types of [devices.rs]:
    what a gateway pushes, what is aggregated per organization, and the state behind
    the store's lock.  [HashMap]s and [HashSet]s are finite maps and sets; a [VecDeque]
    is a list, its front first. *)

From S2P Require Import Prelude Strings McpReport AuditChain UnitLedger Recency.

(* @src cloud/store.rs NONCE_CAP *)
Definition NONCE_CAP : Z := 4096.
(* @src cloud/store.rs SERIES_CAP *)
Definition SERIES_CAP : Z := 100000.
(* @src cloud/store.rs MAX_SERIES_BUCKETS *)
Definition MAX_SERIES_BUCKETS : Z := 10000.
(* @src cloud/store.rs SPIKE_WINDOW_MS *)
Definition SPIKE_WINDOW_MS : Z := 60000.
(* @src cloud/store.rs INCIDENT_TRACKER_CAP *)
Definition INCIDENT_TRACKER_CAP : Z := 256.
(* @src cloud/store.rs MAX_RUNS_PER_ORG *)
Definition MAX_RUNS_PER_ORG : Z := 50000.
(* @src cloud/store.rs MAX_TRACKER_KEYS *)
Definition MAX_TRACKER_KEYS : Z := 20000.
(* @src cloud/store.rs MAX_INCIDENTS_PER_ORG *)
Definition MAX_INCIDENTS_PER_ORG : Z := 10000.
(* @src cloud/store.rs MAX_BREAK_KEYS *)
Definition MAX_BREAK_KEYS : Z := 10000.
(* @src cloud/store.rs MAX_UNIT_MONTH_KEYS *)
Definition MAX_UNIT_MONTH_KEYS : Z := 4096.

(* @src cloud/store.rs is_blocked *)
Definition is_blocked (decision : string) : bool :=
  negb (bool_decide (decision ∈ ["allow"; "cache_hit"])).

(* @src cloud/store.rs is_known_decision *)
Definition is_known_decision (decision : string) : bool :=
  bool_decide (decision ∈ ["allow"; "cache_hit"; "budget_exceeded"; "policy_violation";
                           "loop_detected"; "killed"; "wasm_policy"; "taint_blocked";
                           "dlp_blocked"]).

(** Verbatim the gateway's function of the same name, as the source says. *)
(* @src cloud/store.rs month_key *)
Definition month_key (ts_millis : Z) : string := UnitLedger.month_key ts_millis.

(* @src cloud/store.rs CallRecord *)
Record CallRecord := mkRecord {
  r_ts : Z;                 (* i64 *)
  r_run_id : string;
  r_model : string;
  r_decision : string;
  r_input_tokens : Z;
  r_output_tokens : Z;
  r_cost : Z;               (* i64 *)
  r_step : Z;               (* u32 *)
  r_agent_id : string;
  r_saved : Z;              (* i64 *)
  r_parent_run_id : string;
  r_on_behalf_of : string;
  r_outcome : string;
  r_unit : string;
  r_tool_calls : option Z   (* u32 *)
}.

(* @src cloud/store.rs RunAgg *)
Record RunAgg := mkRunAgg {
  ra_run_id : string;
  ra_model : string;
  ra_agent_id : string;
  ra_unit : string;
  ra_spent : Z;             (* i64 *)
  ra_calls : Z;             (* u64 *)
  ra_cache_hits : Z;
  ra_steps : Z;             (* u32 *)
  ra_last_seen : Z;         (* i64 *)
  ra_killed : bool;
  ra_tool_calls : Z         (* u64 *)
}.

(* @src cloud/store.rs Summary *)
Record Summary := mkSummary { sm_runs : Z; sm_calls : Z; sm_spent : Z; sm_tool_calls : Z }.

(* @src cloud/store.rs AgentAgg *)
Record AgentAgg := mkAgentAgg {
  aa_agent_id : string; aa_spent : Z; aa_calls : Z; aa_runs : Z; aa_last_seen : Z;
  aa_tool_calls : Z
}.

(* @src cloud/store.rs UnitAgg *)
Record UnitAgg := mkUnitAgg {
  ua_unit : string; ua_spent : Z; ua_calls : Z; ua_runs : Z; ua_last_seen : Z;
  ua_tool_calls : Z; ua_month : string; ua_month_spent : Z; ua_month_calls : Z
}.

(* @src cloud/store.rs UnitMonthAcc *)
Record UnitMonthAcc := mkMonth { um_window : string; um_spent : Z; um_calls : Z }.

(* @src cloud/store.rs SavingsSummary *)
Record SavingsSummary := mkSavingsSummary {
  ss_blocked : Z; ss_cache : Z; ss_router : Z; ss_budget_breaks : Z; ss_total : Z
}.

(* @src cloud/store.rs SavingsAcc *)
Record SavingsAcc := mkSavingsAcc {
  sa_blocked : Z; sa_cache : Z; sa_router : Z; sa_breaks : gset string; sa_budget_breaks : Z
}.

(* @src cloud/store.rs OrgTotals *)
Record OrgTotals := mkTotals { ot_calls : Z; ot_spent : Z; ot_tool_calls : Z }.

(* @src cloud/store.rs Alert *)
Record Alert := mkAlert {
  al_run_id : string; al_spent : Z; al_budget : Z; al_fraction : Float.f64; al_killed : bool
}.

(* @src cloud/store.rs SeriesBucket *)
Record SeriesBucket := mkBucket {
  sb_t : Z; sb_cost : Z; sb_calls : Z; sb_blocked : Z; sb_tool_calls : Z
}.

(* @src cloud/store.rs Incident *)
Record Incident := mkIncident {
  in_id : string;
  in_org : string;
  in_run_id : option string;
  in_agent_id : option string;
  in_kind : string;
  in_severity : Severity;
  in_first_seen : Z;
  in_last_seen : Z;
  in_occurrences : Z;
  in_acknowledged : bool;
  in_last_notified : Z;
  in_source : option string;
  in_summary : option string
}.

(* @src cloud/store.rs IncidentConfig *)
Record IncidentConfig := mkIncidentConfig {
  budget_blocks : Z; loop_repeats : Z; loop_window_ms : Z; spend_per_min_micros : Z;
  fanout_runs : Z; fanout_window_ms : Z
}.

(* @src cloud/store.rs 490-501 IncidentConfig::default *)
Definition default_incident_config : IncidentConfig :=
  mkIncidentConfig 3 3 600000 5000000 20 600000.

(* @src cloud/store.rs Sample *)
Record Sample := mkSample {
  s_ts : Z; s_run_id : string; s_cost : Z; s_blocked : bool; s_tool_calls : Z
}.

(* @src devices.rs Device *)
Record Device := mkDevice {
  dv_device_id : string; dv_org : string; dv_role : string; dv_name : string;
  dv_platform : string; dv_pubkey : string; dv_apns_token : option string
}.

(* @src devices.rs Pairing *)
Record Pairing := mkPairing { pg_org : string; pg_role : string; pg_expires : Z }.

(* @src cloud/store.rs StreamEvent *)
Inductive StreamEvent :=
| RunUpdate (org : string) (run : RunAgg)
| KillEvent (org run : string)
| BudgetEvent (org run : string) (budget_micros : Z)
| IncidentEvent (inc : Incident).

(* @src cloud/store.rs StreamEvent::org *)
Definition event_org (e : StreamEvent) : string :=
  match e with
  | RunUpdate org _ | KillEvent org _ | BudgetEvent org _ _ => org
  | IncidentEvent inc => in_org inc
  end.

(* @src cloud/store.rs StreamEvent::event_name *)
Definition event_name (e : StreamEvent) : string :=
  match e with
  | RunUpdate _ _ => "run_update"
  | KillEvent _ _ => "kill"
  | BudgetEvent _ _ _ => "budget"
  | IncidentEvent _ => "incident"
  end.

(* @src cloud/store.rs Inner *)
Record Inner := mkInner {
  orgs : gmap string (gmap string RunAgg);
  killed : gmap string (gmap string bool);
  budgets : gmap string (gmap string Z);
  unit_budgets : gmap string (gmap string Z);
  series : gmap string (list Sample);
  savings : gmap string SavingsAcc;
  unit_months : gmap string (gmap string UnitMonthAcc);
  decision_counts : gmap string (gmap string Z);
  incidents : gmap string (gmap string Incident);
  audit : gmap string (list AuditEntry);
  incident_tracker : gmap (string * string) (list Z);
  fanout_tracker : gmap (string * string) (list (string * Z));
  org_totals : gmap string OrgTotals;
  run_recency : gmap string (RecencyIndex string);
  tracker_recency : RecencyIndex (string * string);
  fanout_recency : RecencyIndex (string * string);
  break_recency : gmap string (RecencyIndex string);
  devices : gmap string Device;
  pairings : gmap string Pairing;
  nonces : gmap string (list string);
  activities : gmap string (gmap string (list string));
  dirty : bool
}.

Definition empty_inner : Inner :=
  mkInner ∅ ∅ ∅ ∅ ∅ ∅ ∅ ∅ ∅ ∅ ∅ ∅ ∅ ∅ empty_index empty_index ∅ ∅ ∅ ∅ ∅ false.

Definition eta (i : Inner) : Inner :=
  mkInner (orgs i) (killed i) (budgets i) (unit_budgets i) (series i) (savings i)
    (unit_months i) (decision_counts i) (incidents i) (audit i) (incident_tracker i)
    (fanout_tracker i) (org_totals i) (run_recency i) (tracker_recency i) (fanout_recency i)
    (break_recency i) (devices i) (pairings i) (nonces i) (activities i) (dirty i).

Definition set_orgs : (_ → _) → Inner → Inner := ltac:(setter eta orgs).
Definition set_killed : (_ → _) → Inner → Inner := ltac:(setter eta killed).
Definition set_budgets : (_ → _) → Inner → Inner := ltac:(setter eta budgets).
Definition set_unit_budgets : (_ → _) → Inner → Inner := ltac:(setter eta unit_budgets).
Definition set_series : (_ → _) → Inner → Inner := ltac:(setter eta series).
Definition set_savings : (_ → _) → Inner → Inner := ltac:(setter eta savings).
Definition set_unit_months : (_ → _) → Inner → Inner := ltac:(setter eta unit_months).
Definition set_decision_counts : (_ → _) → Inner → Inner := ltac:(setter eta decision_counts).
Definition set_incidents : (_ → _) → Inner → Inner := ltac:(setter eta incidents).
Definition set_audit : (_ → _) → Inner → Inner := ltac:(setter eta audit).
Definition set_incident_tracker : (_ → _) → Inner → Inner := ltac:(setter eta incident_tracker).
Definition set_fanout_tracker : (_ → _) → Inner → Inner := ltac:(setter eta fanout_tracker).
Definition set_org_totals : (_ → _) → Inner → Inner := ltac:(setter eta org_totals).
Definition set_run_recency : (_ → _) → Inner → Inner := ltac:(setter eta run_recency).
Definition set_tracker_recency : (_ → _) → Inner → Inner := ltac:(setter eta tracker_recency).
Definition set_fanout_recency : (_ → _) → Inner → Inner := ltac:(setter eta fanout_recency).
Definition set_break_recency : (_ → _) → Inner → Inner := ltac:(setter eta break_recency).
Definition set_devices : (_ → _) → Inner → Inner := ltac:(setter eta devices).
Definition set_pairings : (_ → _) → Inner → Inner := ltac:(setter eta pairings).
Definition set_nonces : (_ → _) → Inner → Inner := ltac:(setter eta nonces).
Definition set_activities : (_ → _) → Inner → Inner := ltac:(setter eta activities).
Definition set_dirty : (_ → _) → Inner → Inner := ltac:(setter eta dirty).

Example set_orgs_example f i : orgs (set_orgs f i) = f (orgs i) ∧ dirty (set_orgs f i) = dirty i.
Proof. done. Qed.

(** [outer.entry(org).or_default().insert(k, v)] *)
Definition insert_in {A} (org k : string) (v : A) (m : gmap string (gmap string A))
  : gmap string (gmap string A) := <[org := <[k := v]> (default ∅ (m !! org))]> m.

(** [outer.get(org).and_then(|m| m.get(k))] *)
Definition get_in {A} (org k : string) (m : gmap string (gmap string A)) : option A :=
  m !! org ≫= lookup k.

Lemma get_in_insert {A} org k (v : A) m org' k' :
  get_in org' k' (insert_in org k v m) =
  if decide (org' = org ∧ k' = k) then Some v else get_in org' k' m.
Proof.
  unfold get_in, insert_in. rewrite lookup_insert. repeat case_decide; destruct_and?; simplify_eq/=;
    rewrite ?lookup_insert_eq; try done; try tauto.
  rewrite lookup_insert_ne by naive_solver. by destruct (m !! org').
Qed.
