(* ===== verification/CloudIngest.v ===== *)
(** * Ingesting telemetry

    [Store::ingest_at] of [crates/cloud/src/store.rs]: one critical section that folds
    a batch of call records into an organization's aggregates, its burn-rate series and
    its incident detectors.  Any holder of a key of the organization may push a batch,
    so every field of a record is untrusted.

    The clock is an argument, and what the method broadcasts is its result. *)

From S2P Require Import Prelude Float Strings McpReport AuditChain AgentEvent UnitLedger.
From S2P Require Import Recency CloudTypes.
From S2P Require Savings.

(* @src cloud/store.rs incident_id *)
Definition incident_id (kind scope : string) : string := kind +:+ ":" +:+ scope.

(** The aggregates of one organization that the loop over the records borrows. *)
(* @src cloud/store.rs 1011-1019 Store::ingest_at *)
Record View := mkView {
  v_runs : gmap string RunAgg;
  v_sav : SavingsAcc;
  v_dc : gmap string Z;
  v_totals : OrgTotals;
  v_recency : RecencyIndex string;
  v_break_recency : RecencyIndex string;
  v_months : gmap string UnitMonthAcc
}.

Definition no_savings : SavingsAcc := mkSavingsAcc 0 0 0 ∅ 0.
Definition no_totals : OrgTotals := mkTotals 0 0 0.
Definition no_month : UnitMonthAcc := mkMonth "" 0 0.
Definition new_run (run_id : string) : RunAgg := mkRunAgg run_id "" "" "" 0 0 0 0 0 false 0.

(** [r.cost_microusd.max(0)] and its siblings: what the loop reads of a record. *)
(* @src cloud/store.rs 1031-1035 Store::ingest_at *)
Definition cost_of (r : CallRecord) : Z := Z.max (r_cost r) 0.
Definition saved_of (r : CallRecord) : Z := Z.max (r_saved r) 0.
Definition tool_calls_of (r : CallRecord) : Z := default 0 (r_tool_calls r).

(** The last non-empty value wins. *)
Definition non_empty_or (new old : string) : string := if is_empty_str new then old else new.

(** [unwrap the unit, or the visible bucket of unmapped spend] *)
Definition unit_key (unit : string) : string := if is_empty_str unit then "unassigned" else unit.

Section ingest.
Context `{HashOrder}.
(** [Store::alert_pct] and [Store::incident_cfg] *)
Context (alert_pct : f64) (incident_cfg : IncidentConfig).

(** ** The runs of the organization *)

(* @src cloud/store.rs 1053-1062 Store::ingest_at *)
Definition is_alerting (budgets : option (gmap string Z)) (runs : gmap string RunAgg)
    (run_id : string) : bool :=
  match budgets ≫= lookup run_id with
  | None => false
  | Some budget =>
      if budget <=? 0 then false
      else f64_geb (f64_div (f64_of_Z (default 0 (ra_spent <$> runs !! run_id)))
                            (f64_of_Z budget)) alert_pct
  end.

(* @src cloud/store.rs 1052-1072 Store::ingest_at *)
Definition evict_run (budgets : option (gmap string Z)) (runs : gmap string RunAgg)
    (recency : RecencyIndex string) (run_id : string)
  : gmap string RunAgg * RecencyIndex string :=
  if bool_decide (runs !! run_id = None) && (MAX_RUNS_PER_ORG <=? len runs) then
    match evict_oldest_unprotected (is_alerting budgets runs) recency with
    | (recency, Some evict_id) => (delete evict_id runs, recency)
    | (recency, None) =>
        match iter runs with
        | (any_id, _) :: _ => (delete any_id runs, recency)
        | [] => (runs, recency)
        end
    end
  else (runs, recency).

(* @src cloud/store.rs 1101-1130 Store::ingest_at *)
Definition update_run (r : CallRecord) (a : RunAgg) : RunAgg :=
  let real := negb (is_blocked (r_decision r)) in
  mkRunAgg (ra_run_id a)
    (non_empty_or (r_model r) (ra_model a))
    (non_empty_or (r_agent_id r) (ra_agent_id a))
    (non_empty_or (r_unit r) (ra_unit a))
    (if real then i64_sat (ra_spent a + cost_of r) else ra_spent a)
    (u64_wrap (ra_calls a + 1))
    (if bool_decide (r_decision r = "cache_hit") then u64_wrap (ra_cache_hits a + 1)
     else ra_cache_hits a)
    (if ra_steps a <? r_step r then r_step r else ra_steps a)
    (if ra_last_seen a <? r_ts r then r_ts r else ra_last_seen a)
    (ra_killed a)
    (if real then u64_sat (ra_tool_calls a + tool_calls_of r) else ra_tool_calls a).

(* @src cloud/store.rs 1101-1108 Store::ingest_at *)
Definition update_totals (r : CallRecord) (t : OrgTotals) : OrgTotals :=
  if negb (is_blocked (r_decision r))
  then mkTotals (u64_wrap (ot_calls t + 1)) (i64_sat (ot_spent t + cost_of r))
                (u64_sat (ot_tool_calls t + tool_calls_of r))
  else mkTotals (u64_wrap (ot_calls t + 1)) (ot_spent t) (ot_tool_calls t).

(* @src cloud/store.rs 1084-1086 Store::ingest_at *)
Definition count_decision (r : CallRecord) (dc : gmap string Z) : gmap string Z :=
  if is_known_decision (r_decision r)
  then <[r_decision r := u64_wrap (default 0 (dc !! r_decision r) + 1)]> dc
  else dc.

(** ** Month-to-date spend per unit *)

(* @src cloud/store.rs 1140-1154 Store::ingest_at *)
Definition month_bucket (r : CallRecord) (months : gmap string UnitMonthAcc) : string :=
  let ukey := unit_key (r_unit r) in
  if bool_decide (is_Some (months !! ukey)) || (len months <? MAX_UNIT_MONTH_KEYS)
  then ukey else "unassigned".

(* @src cloud/store.rs 1156-1163 Store::ingest_at *)
Definition roll_month (month_now : string) (acc : UnitMonthAcc) : UnitMonthAcc :=
  if bool_decide (um_window acc ≠ month_now) then mkMonth month_now 0 0 else acc.

(* @src cloud/store.rs 1139-1170 Store::ingest_at *)
Definition fold_month (month_now : string) (r : CallRecord) (months : gmap string UnitMonthAcc)
  : gmap string UnitMonthAcc :=
  let ukey := month_bucket r months in
  let acc := roll_month month_now (default no_month (months !! ukey)) in
  <[ukey := mkMonth (um_window acc)
              (if negb (is_blocked (r_decision r)) then i64_sat (um_spent acc + cost_of r)
               else um_spent acc)
              (u64_wrap (um_calls acc + 1))]> months.

(** ** Savings *)

(** Make room for one more run in the memory of stopped runs. *)
(* @src cloud/store.rs 1186-1196 Store::ingest_at *)
Definition evict_break (breaks : gset string) (recency : RecencyIndex string)
  : gset string * RecencyIndex string :=
  match evict_oldest recency with
  | (recency, Some evict_id) => (breaks ∖ {[evict_id]}, recency)
  | (recency, None) =>
      match iter (set_to_map (λ k, (k, tt)) breaks) with
      | (any_id, _) :: _ => (breaks ∖ {[any_id]}, recency)
      | [] => (breaks, recency)
      end
  end.

(** The bounded memory of runs already counted as stopped. *)
(* @src cloud/store.rs 1184-1201 Store::ingest_at *)
Definition note_break (run_id : string) (sav : SavingsAcc) (recency : RecencyIndex string)
  : SavingsAcc * RecencyIndex string :=
  if bool_decide (run_id ∈ sa_breaks sav) then (sav, touch recency run_id)
  else
    let '(breaks, recency) :=
      if MAX_BREAK_KEYS <=? Z.of_nat (size (sa_breaks sav)) then
        evict_break (sa_breaks sav) recency
      else (sa_breaks sav, recency) in
    (mkSavingsAcc (sa_blocked sav) (sa_cache sav) (sa_router sav) ({[run_id]} ∪ breaks)
                  (u64_sat (sa_budget_breaks sav + 1)),
     touch recency run_id).

(* @src cloud/store.rs 1175-1202 Store::ingest_at *)
Definition fold_blocked (r : CallRecord) (sav : SavingsAcc) (recency : RecencyIndex string)
  : SavingsAcc * RecencyIndex string :=
  if Savings.is_budget_protection (r_decision r) then
    note_break (r_run_id r)
      (mkSavingsAcc (i64_sat (sa_blocked sav + cost_of r)) (sa_cache sav) (sa_router sav)
                    (sa_breaks sav) (sa_budget_breaks sav)) recency
  else (sav, recency).

(* @src cloud/store.rs 1215-1225 Store::ingest_at *)
Definition fold_saved (r : CallRecord) (sav : SavingsAcc) : SavingsAcc :=
  if bool_decide (r_decision r = "cache_hit") then
    mkSavingsAcc (sa_blocked sav) (i64_sat (sa_cache sav + saved_of r)) (sa_router sav)
                 (sa_breaks sav) (sa_budget_breaks sav)
  else if bool_decide (r_decision r = "allow") then
    mkSavingsAcc (sa_blocked sav) (sa_cache sav) (i64_sat (sa_router sav + saved_of r))
                 (sa_breaks sav) (sa_budget_breaks sav)
  else sav.

(** One turn of the loop over the records. *)
(* @src cloud/store.rs 1025-1226 Store::ingest_at *)
Definition fold_record (budgets : option (gmap string Z)) (month_now : string) (v : View)
    (r : CallRecord) : View :=
  let '(runs, recency) := evict_run budgets (v_runs v) (v_recency v) (r_run_id r) in
  let agg := default (new_run (r_run_id r)) (runs !! r_run_id r) in
  let '(sav, break_recency) := fold_blocked r (v_sav v) (v_break_recency v) in
  mkView (<[r_run_id r := update_run r agg]> runs)
         (fold_saved r sav)
         (count_decision r (v_dc v))
         (update_totals r (v_totals v))
         (touch recency (r_run_id r))
         break_recency
         (fold_month month_now r (v_months v)).

(** The entries borrowed, and written back. *)
Definition view (org : string) (i : Inner) : View :=
  mkView (default ∅ (orgs i !! org)) (default no_savings (savings i !! org))
    (default ∅ (decision_counts i !! org)) (default no_totals (org_totals i !! org))
    (default empty_index (run_recency i !! org)) (default empty_index (break_recency i !! org))
    (default ∅ (unit_months i !! org)).

Definition put_view (org : string) (v : View) (i : Inner) : Inner :=
  set_orgs <[org := v_runs v]> (set_savings <[org := v_sav v]>
  (set_decision_counts <[org := v_dc v]> (set_org_totals <[org := v_totals v]>
  (set_run_recency <[org := v_recency v]> (set_break_recency <[org := v_break_recency v]>
  (set_unit_months <[org := v_months v]> i)))))).

(* @src cloud/store.rs 1006-1227 Store::ingest_at *)
Definition fold_records (org : string) (records : list CallRecord) (now_ms : Z) (i : Inner)
  : Inner :=
  let month_now := month_key now_ms in
  put_view org (foldl (fold_record (budgets i !! org) month_now) (view org i) records)
           (set_dirty (λ _, true) i).

(** ** The burn-rate series *)

(* @src cloud/store.rs 1231-1242 Store::ingest_at *)
Definition sample_of (r : CallRecord) : Sample :=
  mkSample (r_ts r) (r_run_id r) (cost_of r) (is_blocked (r_decision r)) (tool_calls_of r).

(* @src cloud/store.rs 1228-1247 Store::ingest_at *)
Definition push_samples (org : string) (records : list CallRecord) (i : Inner) : Inner :=
  set_series (λ m, <[org := trim_front SERIES_CAP
                              (default [] (m !! org) ++ (sample_of <$> records))]> m) i.

(* @src cloud/store.rs 1248-1258 Store::ingest_at *)
Definition updated_runs (org : string) (records : list CallRecord) (i : Inner) : list RunAgg :=
  match orgs i !! org with
  | None => []
  | Some runs =>
      (foldl (λ '(seen, out) r,
                if bool_decide (r_run_id r ∈ seen) then (seen, out)
                else ({[r_run_id r]} ∪ seen,
                      match runs !! r_run_id r with Some a => out ++ [a] | None => out end))
             ((∅ : gset string), []) records).2
  end.

(** ** Incident detection *)

(** [while dq.front().is_some_and(|&t| t < cutoff) { dq.pop_front(); }] *)
Fixpoint drop_before (cutoff : Z) (dq : list Z) : list Z :=
  match dq with
  | t :: dq' => if t <? cutoff then drop_before cutoff dq' else dq
  | [] => []
  end.

(** The cardinality bound both trackers share. *)
Definition bound_tracker {A} (key : string * string) (tracker : gmap (string * string) A)
    (recency : RecencyIndex (string * string))
  : gmap (string * string) A * RecencyIndex (string * string) :=
  let '(tracker, recency) :=
    if bool_decide (tracker !! key = None) && (MAX_TRACKER_KEYS <=? Z.of_nat (size tracker)) then
      match evict_oldest recency with
      | (recency, Some evict_key) => (delete evict_key tracker, recency)
      | (recency, None) => (tracker, recency)
      end
    else (tracker, recency) in
  (tracker, touch recency key).

(* @src cloud/store.rs bump_tracker *)
Definition bump_tracker (org kind scope : string) (ts : Z) (window : option (Z * Z)) (i : Inner)
  : Inner * Z :=
  let key := (org, incident_id kind scope) in
  let '(tracker, recency) := bound_tracker key (incident_tracker i) (tracker_recency i) in
  let dq := trim_front INCIDENT_TRACKER_CAP (default [] (tracker !! key) ++ [ts]) in
  let dq := match window with
            | Some (now, window_ms) => drop_before (i64_wrap (now - window_ms)) dq
            | None => dq
            end in
  (set_incident_tracker (λ _, <[key := dq]> tracker) (set_tracker_recency (λ _, recency) i),
   Z.of_nat (length dq)).

(* @src cloud/store.rs bump_fanout_tracker *)
Definition bump_fanout_tracker (org agent run_id : string) (ts now window_ms : Z) (i : Inner)
  : Inner * Z :=
  let key := (org, agent) in
  let '(tracker, recency) := bound_tracker key (fanout_tracker i) (fanout_recency i) in
  let dq := filter (λ p, p.1 ≠ run_id) (default [] (tracker !! key)) ++ [(run_id, ts)] in
  let dq := trim_front INCIDENT_TRACKER_CAP dq in
  let dq := filter (λ p, i64_wrap (now - window_ms) ≤ p.2) dq in
  (set_fanout_tracker (λ _, <[key := dq]> tracker) (set_fanout_recency (λ _, recency) i),
   Z.of_nat (length dq)).

(** [min_by_key]: the first of the least. *)
Fixpoint oldest (l : list (string * Incident)) : option (string * Incident) :=
  match l with
  | [] => None
  | p :: l =>
      match oldest l with
      | Some q => if in_last_seen q.2 <? in_last_seen p.2 then Some q else Some p
      | None => Some p
      end
  end.

(* @src cloud/store.rs 2495-2503 upsert_incident *)
Definition evict_incident (id : string) (per_org : gmap string Incident) : gmap string Incident :=
  if bool_decide (per_org !! id = None) && (MAX_INCIDENTS_PER_ORG <=? len per_org) then
    match oldest (iter per_org) with
    | Some (evict_id, _) => delete evict_id per_org
    | None => per_org
    end
  else per_org.

(* @src cloud/store.rs 2504-2518 upsert_incident *)
Definition open_incident (org kind : string) (severity : Severity) (scope : string)
    (run_id agent_id : option string) (ts : Z) : Incident :=
  mkIncident (incident_id kind scope) org run_id agent_id kind severity ts ts 0 false 0 None None.

(* @src cloud/store.rs 2519-2528 upsert_incident *)
Definition trip (agent_id : option string) (ts : Z) (inc : Incident) : Incident :=
  mkIncident (in_id inc) (in_org inc) (in_run_id inc)
    (match in_agent_id inc with None => agent_id | a => a end)
    (in_kind inc) (in_severity inc) (in_first_seen inc)
    (if in_last_seen inc <? ts then ts else in_last_seen inc)
    (u64_wrap (in_occurrences inc + 1)) (in_acknowledged inc) (in_last_notified inc)
    (in_source inc) (in_summary inc).

(* @src cloud/store.rs upsert_incident *)
Definition upsert_incident (org kind : string) (severity : Severity) (scope : string)
    (run_id agent_id : option string) (ts : Z) (i : Inner) : Inner * Incident :=
  let id := incident_id kind scope in
  let per_org := evict_incident id (default ∅ (incidents i !! org)) in
  let inc := default (open_incident org kind severity scope run_id agent_id ts) (per_org !! id) in
  let inc := trip agent_id ts inc in
  (set_incidents <[org := <[id := inc]> per_org]> i, inc).

Abbreviation Fired := (gmap string Incident).

(** [if n >= threshold { let inc = upsert_incident(..); fired.insert(inc.id, inc); }] *)
Definition fire (over : bool) (org kind : string) (severity : Severity) (scope : string)
    (run_id agent_id : option string) (ts : Z) (s : Inner * Fired) : Inner * Fired :=
  if over then
    let '(i, inc) := upsert_incident org kind severity scope run_id agent_id ts s.1 in
    (i, <[in_id inc := inc]> s.2)
  else s.

(* @src cloud/store.rs 1273-1298 Store::ingest_at *)
Definition detect_budget (org : string) (r : CallRecord) (ts : Z) (agent : option string)
    (s : Inner * Fired) : Inner * Fired :=
  if is_known_decision (r_decision r) && Savings.is_budget_protection (r_decision r) then
    let '(i, n) := bump_tracker org "budget_exhausted" (r_run_id r) ts None s.1 in
    fire (budget_blocks incident_cfg <=? n) org "budget_exhausted" High (r_run_id r)
         (Some (r_run_id r)) agent ts (i, s.2)
  else s.

(* @src cloud/store.rs 1303-1326 Store::ingest_at *)
Definition detect_loop (org : string) (r : CallRecord) (ts : Z) (agent : option string)
    (now_ms : Z) (s : Inner * Fired) : Inner * Fired :=
  if is_known_decision (r_decision r) && bool_decide (r_decision r = "loop_detected") then
    let '(i, n) := bump_tracker org "sustained_loop" (r_run_id r) ts
                     (Some (now_ms, loop_window_ms incident_cfg)) s.1 in
    fire (loop_repeats incident_cfg <=? n) org "sustained_loop" Medium (r_run_id r)
         (Some (r_run_id r)) agent ts (i, s.2)
  else s.

(* @src cloud/store.rs 1331-1355 Store::ingest_at *)
Definition detect_fanout (org : string) (r : CallRecord) (ts : Z) (agent : option string)
    (now_ms : Z) (s : Inner * Fired) : Inner * Fired :=
  match agent with
  | None => s
  | Some a =>
      let '(i, n) := bump_fanout_tracker org a (r_run_id r) ts now_ms
                       (fanout_window_ms incident_cfg) s.1 in
      fire (fanout_runs incident_cfg <=? n) org "fanout_explosion" High a None (Some a) ts (i, s.2)
  end.

(* @src cloud/store.rs 1262-1356 Store::ingest_at *)
Definition detect_record (org : string) (now_ms : Z) (s : Inner * Fired) (r : CallRecord)
  : Inner * Fired :=
  let ts := if 0 <? r_ts r then r_ts r else now_ms in
  let agent := if is_empty_str (r_agent_id r) then None else Some (r_agent_id r) in
  detect_fanout org r ts agent now_ms
    (detect_loop org r ts agent now_ms (detect_budget org r ts agent s)).

(* @src cloud/store.rs burn_since *)
Definition burn_since (log : list Sample) (start now : Z) : Z :=
  foldl (λ acc s, i64_sat (acc + s_cost s)) 0 (filter (λ s, start ≤ s_ts s ≤ now) log).

(* @src cloud/store.rs 1358-1377 Store::ingest_at *)
Definition detect_spike (org : string) (now_ms : Z) (s : Inner * Fired) : Inner * Fired :=
  let burn := default 0 ((λ log, burn_since log (i64_wrap (now_ms - SPIKE_WINDOW_MS)) now_ms)
                           <$> series s.1 !! org) in
  fire (spend_per_min_micros incident_cfg <=? burn) org "spend_spike" High "" None None now_ms s.

(** The critical section: the new state, the updated runs, the fired incidents. *)
(* @src cloud/store.rs 1002-1378 Store::ingest_at *)
Definition ingest_locked (org : string) (records : list CallRecord) (now_ms : Z) (i : Inner)
  : Inner * list RunAgg * Fired :=
  let i := push_samples org records (fold_records org records now_ms i) in
  let updated := updated_runs org records i in
  let '(i, fired) := detect_spike org now_ms (foldl (detect_record org now_ms) (i, ∅) records) in
  (i, updated, fired).

(** What is broadcast after the lock is released. *)
(* @src cloud/store.rs 1379-1384 Store::ingest_at *)
Definition ingest_events (org : string) (updated : list RunAgg) (fired : Fired)
  : list StreamEvent :=
  (RunUpdate org <$> updated) ++ (IncidentEvent <$> values fired).

(* @src cloud/store.rs agent_event_type_for_incident_kind *)
Definition agent_event_type_for_incident_kind (kind : string) : option EventType :=
  if bool_decide (kind = "budget_exhausted") then Some BudgetExhausted
  else if bool_decide (kind = "sustained_loop") then Some SustainedLoop
  else if bool_decide (kind = "spend_spike") then Some SpendSpike
  else if bool_decide (kind = "fanout_explosion") then Some FanoutExplosion
  else None.

(** The calls of [Exporter::emit], in the order of the map of fired incidents. *)
(* @src cloud/store.rs 1385-1409 Store::ingest_at *)
Definition exported (io : string → WriteResult) (fired : Fired) : list Call :=
  omap (λ inc,
    (λ t, mkCall t (in_last_seen inc) (in_agent_id inc) (in_run_id inc) None
            (Json.Obj [("occurrences", Json.Number (Json.PosInt (in_occurrences inc)));
                       ("org", Json.Str (in_org inc))]) (io (in_id inc)))
    <$> agent_event_type_for_incident_kind (in_kind inc)) (values fired).

End ingest.
