(* ===== verification/CloudStore.v ===== *)
(** * The control plane's store

    The methods of [Store] in [crates/cloud/src/store.rs] other than [ingest]: reads of
    the fleet view, operator mutations with their audit entries, pairing and replay
    defence, and the snapshot.  A method that takes the write lock is a function on the
    state; what it broadcasts is in its result; clocks, codes and tokens are arguments. *)

From S2P Require Import Prelude Float Strings McpReport AuditChain UnitLedger.
From S2P Require Import Recency CloudTypes CloudIngest.

(** [if x > y { y = x }] *)
Definition latest (x y : Z) : Z := if y <? x then x else y.

Module Store.
Section store.
Context `{HashOrder}.
(** [Sha256::digest] *)
Context (sha256 : string → string).

(** ** Reads *)

(* @src cloud/store.rs 1429-1437 Store::series *)
Definition empty_buckets (start step : Z) (n : nat) : list SeriesBucket :=
  (λ i, mkBucket (i64_wrap (start + i64_wrap (Z.of_nat i * step))) 0 0 0 0) <$> List.seq 0 n.

(* @src cloud/store.rs 1448-1457 Store::series *)
Definition add_sample (s : Sample) (b : SeriesBucket) : SeriesBucket :=
  mkBucket (sb_t b) (i64_sat (sb_cost b + s_cost s)) (u64_wrap (sb_calls b + 1))
           (if s_blocked s then u64_wrap (sb_blocked b + 1) else sb_blocked b)
           (u64_sat (sb_tool_calls b + s_tool_calls s)).

(** The samples the loop does not skip. *)
(* @src cloud/store.rs 1441-1446 Store::series *)
Definition in_scope (run : option string) (start now_ms : Z) (s : Sample) : bool :=
  negb ((s_ts s <? start) || (now_ms <? s_ts s)) &&
  match run with Some rid => bool_decide (s_run_id s = rid) | None => true end.

(* @src cloud/store.rs 1447 Store::series *)
Definition bucket_index (start step : Z) (n : nat) (s : Sample) : nat :=
  Nat.min (Z.to_nat (u64_wrap (Z.quot (i64_wrap (s_ts s - start)) step))) (n - 1).

(* @src cloud/store.rs Store::series *)
Definition series (i : Inner) (org : string) (run : option string) (window_ms step_ms now_ms : Z)
  : list SeriesBucket :=
  let step := Z.max step_ms 1 in
  let window := Z.max window_ms step in
  let start := i64_wrap (now_ms - window) in
  let n := Z.to_nat (Z.min (Z.max (Z.quot window step) 1) MAX_SERIES_BUCKETS) in
  foldl (λ buckets s,
           if in_scope run start now_ms s
           then alter (add_sample s) (bucket_index start step n s) buckets else buckets)
        (empty_buckets start step n) (default [] (CloudTypes.series i !! org)).

(* @src cloud/store.rs Store::runs *)
Definition runs (i : Inner) (org : string) : list RunAgg :=
  (λ a, mkRunAgg (ra_run_id a) (ra_model a) (ra_agent_id a) (ra_unit a) (ra_spent a) (ra_calls a)
          (ra_cache_hits a) (ra_steps a) (ra_last_seen a)
          (default false (get_in org (ra_run_id a) (killed i))) (ra_tool_calls a))
  <$> values (default ∅ (orgs i !! org)).

(* @src cloud/store.rs Store::run_belongs_to_org *)
Definition run_belongs_to_org (i : Inner) (org run : string) : bool :=
  match orgs i !! org with Some runs => bool_decide (is_Some (runs !! run)) | None => false end.

(* @src cloud/store.rs Store::summary *)
Definition summary (i : Inner) (org : string) : Summary :=
  let t := default no_totals (org_totals i !! org) in
  mkSummary (match orgs i !! org with Some runs => len runs | None => 0 end)
            (ot_calls t) (ot_spent t) (ot_tool_calls t).

(* @src cloud/store.rs 1528-1548 Store::agents *)
Definition fold_agent (by_agent : gmap string AgentAgg) (agg : RunAgg) : gmap string AgentAgg :=
  let a := default (mkAgentAgg (ra_agent_id agg) 0 0 0 0 0) (by_agent !! ra_agent_id agg) in
  <[ra_agent_id agg :=
      mkAgentAgg (aa_agent_id a) (i64_sat (aa_spent a + ra_spent agg))
        (u64_wrap (aa_calls a + ra_calls agg)) (u64_wrap (aa_runs a + 1))
        (latest (ra_last_seen agg) (aa_last_seen a))
        (u64_sat (aa_tool_calls a + ra_tool_calls agg))]> by_agent.

(* @src cloud/store.rs Store::agents *)
Definition agents (i : Inner) (org : string) : list AgentAgg :=
  sort_by (λ a b, aa_spent b <=? aa_spent a)
    (values (foldl fold_agent ∅ (values (default ∅ (orgs i !! org))))).

Definition new_unit (unit : string) : UnitAgg := mkUnitAgg unit 0 0 0 0 0 "" 0 0.

(* @src cloud/store.rs 1574-1598 Store::units_at *)
Definition fold_unit (by_unit : gmap string UnitAgg) (agg : RunAgg) : gmap string UnitAgg :=
  let key := unit_key (ra_unit agg) in
  let u := default (new_unit key) (by_unit !! key) in
  <[key := mkUnitAgg (ua_unit u) (i64_sat (ua_spent u + ra_spent agg))
             (u64_wrap (ua_calls u + ra_calls agg)) (u64_wrap (ua_runs u + 1))
             (latest (ra_last_seen agg) (ua_last_seen u))
             (u64_sat (ua_tool_calls u + ra_tool_calls agg))
             (ua_month u) (ua_month_spent u) (ua_month_calls u)]> by_unit.

(* @src cloud/store.rs 1605-1619 Store::units_at *)
Definition join_month (month_now : string) (by_unit : gmap string UnitAgg)
    (p : string * UnitMonthAcc) : gmap string UnitAgg :=
  let '(unit, acc) := p in
  let u := default (new_unit unit) (by_unit !! unit) in
  <[unit := if bool_decide (um_window acc = month_now)
            then mkUnitAgg (ua_unit u) (ua_spent u) (ua_calls u) (ua_runs u) (ua_last_seen u)
                   (ua_tool_calls u) (ua_month u) (um_spent acc) (um_calls acc)
            else u]> by_unit.

Definition stamp_month (month_now : string) (u : UnitAgg) : UnitAgg :=
  mkUnitAgg (ua_unit u) (ua_spent u) (ua_calls u) (ua_runs u) (ua_last_seen u) (ua_tool_calls u)
    month_now (ua_month_spent u) (ua_month_calls u).

(** [sort_by_key(|u| Reverse((u.month_spent_microusd, u.spent_microusd)))] *)
Definition unit_geb (a b : UnitAgg) : bool :=
  (ua_month_spent b <? ua_month_spent a) ||
  ((ua_month_spent b =? ua_month_spent a) && (ua_spent b <=? ua_spent a)).

(* @src cloud/store.rs Store::units_at *)
Definition units_at (i : Inner) (org : string) (now_ms : Z) : list UnitAgg :=
  let month_now := month_key now_ms in
  let by_unit := foldl fold_unit ∅ (values (default ∅ (orgs i !! org))) in
  let by_unit := foldl (join_month month_now) by_unit (iter (default ∅ (unit_months i !! org))) in
  sort_by unit_geb (values (stamp_month month_now <$> by_unit)).

(* @src cloud/store.rs Store::savings *)
Definition savings (i : Inner) (org : string) : SavingsSummary :=
  let acc := default no_savings (CloudTypes.savings i !! org) in
  mkSavingsSummary (sa_blocked acc) (sa_cache acc) (sa_router acc) (sa_budget_breaks acc)
    (i64_sat (i64_sat (sa_blocked acc + sa_cache acc) + sa_router acc)).

(* @src cloud/store.rs Store::decision_counts *)
Definition decision_counts (i : Inner) (org : string) : gmap string Z :=
  default ∅ (CloudTypes.decision_counts i !! org).

(* @src cloud/store.rs Store::incident_kind_counts *)
Definition incident_kind_counts (i : Inner) (org : string) : gmap string Z :=
  foldl (λ out inc, <[in_kind inc := u64_wrap (default 0 (out !! in_kind inc) + 1)]> out) ∅
    (values (default ∅ (CloudTypes.incidents i !! org))).

(* @src cloud/store.rs Store::incidents *)
Definition incidents (i : Inner) (org : string) : list Incident :=
  sort_by (λ a b, in_last_seen b <=? in_last_seen a)
    (values (default ∅ (CloudTypes.incidents i !! org))).

(* @src cloud/store.rs Store::kills *)
Definition kills (i : Inner) (org : string) : list string :=
  fst <$> filter (λ p, p.2 = true) (iter (default ∅ (killed i !! org))).

(* @src cloud/store.rs Store::budgets *)
Definition budgets (i : Inner) (org : string) : gmap string Z :=
  default ∅ (CloudTypes.budgets i !! org).
(* @src cloud/store.rs Store::unit_budgets *)
Definition unit_budgets (i : Inner) (org : string) : gmap string Z :=
  default ∅ (CloudTypes.unit_budgets i !! org).

(* @src cloud/store.rs Store::alerts *)
Definition alerts (i : Inner) (org : string) (pct : f64) : list Alert :=
  omap (λ p, let '(run, budget) := p in
    if budget <=? 0 then None
    else
      let spent := default 0 (ra_spent <$> get_in org run (orgs i)) in
      let fraction := f64_div (f64_of_Z spent) (f64_of_Z budget) in
      if f64_geb fraction pct
      then Some (mkAlert run spent budget fraction (default false (get_in org run (killed i))))
      else None) (iter (budgets i org)).

(* @src cloud/store.rs Store::audit *)
Definition audit (i : Inner) (org : string) : list AuditEntry :=
  default [] (CloudTypes.audit i !! org).

(* @src cloud/store.rs Store::audit_verify *)
Definition audit_verify (i : Inner) (org : string) : result unit nat :=
  match CloudTypes.audit i !! org with
  | Some chain => verify_chain sha256 chain
  | None => Ok tt
  end.

(* @src cloud/store.rs Store::device_by_token *)
Definition device_by_token (i : Inner) (token : string) : option Device := devices i !! token.

(* @src cloud/store.rs Store::devices_for_org *)
Definition devices_for_org (i : Inner) (org : string) : list Device :=
  filter (λ d, dv_org d = org) (values (devices i)).

(* @src cloud/store.rs Store::activities_for_run *)
Definition activities_for_run (i : Inner) (org run : string) : list string :=
  default [] (get_in org run (activities i)).

(** ** The audit trail *)

(* @src cloud/store.rs append_audit_locked *)
Definition append_audit_locked (now : Z) (org actor action subject detail : string) (i : Inner)
  : Inner :=
  set_audit (λ m, let chain := default [] (m !! org) in
                  <[org := chain ++ [append sha256 (last chain) now actor action subject detail]]> m)
            i.

Definition touch_dirty (i : Inner) : Inner := set_dirty (λ _, true) i.

(* @src cloud/store.rs Store::audit_append *)
Definition audit_append (now : Z) (org actor action subject detail : string) (i : Inner) : Inner :=
  append_audit_locked now org actor action subject detail (touch_dirty i).

(** ** Operator mutations *)

(* @src cloud/store.rs Store::kill *)
Definition kill (org run : string) (i : Inner) : Inner * list StreamEvent :=
  (set_killed (insert_in org run true) (touch_dirty i), [KillEvent org run]).

(* @src cloud/store.rs Store::kill_audited *)
Definition kill_audited (now : Z) (org run actor : string) (i : Inner)
  : Inner * list StreamEvent :=
  (append_audit_locked now org actor "control.kill" run "mode=hard"
     (set_killed (insert_in org run true) (touch_dirty i)), [KillEvent org run]).

(* @src cloud/store.rs Store::set_budget *)
Definition set_budget (org run : string) (micros : Z) (i : Inner) : Inner * list StreamEvent :=
  (CloudTypes.set_budgets (insert_in org run micros) (touch_dirty i), [BudgetEvent org run micros]).

(* @src cloud/store.rs Store::set_budget_audited *)
Definition set_budget_audited (now : Z) (org run : string) (micros : Z) (actor : string) (i : Inner)
  : Inner * list StreamEvent :=
  (append_audit_locked now org actor "control.set_budget" run ("budget_micros=" +:+ pretty micros)
     (CloudTypes.set_budgets (insert_in org run micros) (touch_dirty i)),
   [BudgetEvent org run micros]).

(* @src cloud/store.rs Store::set_unit_budget *)
Definition set_unit_budget (org unit : string) (micros : Z) (i : Inner) : Inner :=
  CloudTypes.set_unit_budgets (insert_in org unit micros) (touch_dirty i).

(* @src cloud/store.rs Store::set_unit_budget_audited *)
Definition set_unit_budget_audited (now : Z) (org unit : string) (micros : Z) (actor : string)
    (i : Inner) : Inner :=
  append_audit_locked now org actor "control.unit_budget_set" unit
    ("budget_micros=" +:+ pretty micros)
    (CloudTypes.set_unit_budgets (insert_in org unit micros) (touch_dirty i)).

(** ** Incidents *)

Definition acknowledge (inc : Incident) : Incident :=
  mkIncident (in_id inc) (in_org inc) (in_run_id inc) (in_agent_id inc) (in_kind inc)
    (in_severity inc) (in_first_seen inc) (in_last_seen inc) (in_occurrences inc) true
    (in_last_notified inc) (in_source inc) (in_summary inc).

(* @src cloud/store.rs Store::ack_incident *)
Definition ack_incident (org id : string) (i : Inner) : Inner * bool :=
  match get_in org id (CloudTypes.incidents i) with
  | Some inc => (touch_dirty (set_incidents (insert_in org id (acknowledge inc)) i), true)
  | None => (i, false)
  end.

(* @src cloud/store.rs Store::ack_incident_audited *)
Definition ack_incident_audited (now : Z) (org id actor : string) (i : Inner) : Inner * bool :=
  match get_in org id (CloudTypes.incidents i) with
  | Some inc =>
      (append_audit_locked now org actor "control.incident_ack" id ""
         (touch_dirty (set_incidents (insert_in org id (acknowledge inc)) i)), true)
  | None => (i, false)
  end.

(* @src cloud/store.rs FindingInput *)
Record FindingInput := mkFindingInput {
  fi_source : string; fi_detector : string; fi_severity : Severity; fi_subject : string;
  fi_summary : string; fi_ts : Z
}.

(* @src cloud/store.rs 1769-1772 Store::record_external_finding *)
Definition attribute_source (f : FindingInput) (inc : Incident) : Incident :=
  mkIncident (in_id inc) (in_org inc) (in_run_id inc) (in_agent_id inc) (in_kind inc)
    (in_severity inc) (in_first_seen inc) (in_last_seen inc) (in_occurrences inc)
    (in_acknowledged inc) (in_last_notified inc) (Some (fi_source f))
    (if is_empty_str (fi_summary f) then in_summary inc else Some (fi_summary f)).

(* @src cloud/store.rs Store::record_external_finding *)
Definition record_external_finding (now : Z) (org reported_by : string) (f : FindingInput)
    (i : Inner) : Inner * Incident :=
  let agent_id := if starts_with "agent://" (fi_subject f) then Some (fi_subject f) else None in
  let '(i, inc) := upsert_incident org (fi_detector f) (fi_severity f) (fi_subject f) None
                     agent_id (fi_ts f) i in
  match get_in org (in_id inc) (CloudTypes.incidents i) with
  | Some stored =>
      let out := attribute_source f stored in
      (touch_dirty (append_audit_locked now org reported_by "control.finding_recorded" (in_id out)
         (fi_source f) (set_incidents (insert_in org (in_id inc) out) i)), out)
  | None => (touch_dirty i, inc)
  end.

(* @src cloud/store.rs Store::mark_incident_notified *)
Definition mark_incident_notified (org id : string) (now_ms window_ms : Z) (i : Inner)
  : Inner * bool :=
  match get_in org id (CloudTypes.incidents i) with
  | Some inc =>
      if window_ms <? i64_wrap (now_ms - in_last_notified inc) then
        let inc := mkIncident (in_id inc) (in_org inc) (in_run_id inc) (in_agent_id inc)
                     (in_kind inc) (in_severity inc) (in_first_seen inc) (in_last_seen inc)
                     (in_occurrences inc) (in_acknowledged inc) now_ms (in_source inc)
                     (in_summary inc) in
        (touch_dirty (set_incidents (insert_in org id inc) i), true)
      else (i, false)
  | None => (i, false)
  end.

(** ** Devices *)

(* @src cloud/store.rs Store::create_pairing *)
Definition create_pairing (code org role : string) (expires_unix : Z) (i : Inner) : Inner :=
  set_pairings <[code := mkPairing org role expires_unix]> i.

(* @src cloud/store.rs Store::redeem_pairing *)
Definition redeem_pairing (code : string) (now_unix : Z)
    (device_id token pubkey_b64 name platform : string) (i : Inner) : Inner * option Device :=
  match pairings i !! code with
  | None => (i, None)
  | Some pairing =>
      let i := set_pairings (delete code) i in
      if pg_expires pairing <? now_unix then (i, None)
      else
        let device := mkDevice device_id (pg_org pairing) (pg_role pairing) name platform
                        pubkey_b64 None in
        (set_devices <[token := device]> (touch_dirty i), Some device)
  end.

(* @src cloud/store.rs Store::redeem_pairing_audited *)
Definition redeem_pairing_audited (now : Z) (code : string) (now_unix : Z)
    (device_id token pubkey_b64 name platform : string) (i : Inner) : Inner * option Device :=
  match pairings i !! code with
  | None => (i, None)
  | Some pairing =>
      let i := set_pairings (delete code) i in
      if pg_expires pairing <? now_unix then (i, None)
      else
        let device := mkDevice device_id (pg_org pairing) (pg_role pairing) name platform
                        pubkey_b64 None in
        let i := set_devices <[token := device]> (touch_dirty i) in
        (append_audit_locked now (dv_org device) ("device:" +:+ dv_device_id device) "control.pair"
           (dv_device_id device)
           ("role=" +:+ dv_role device +:+ ";platform=" +:+ dv_platform device) i, Some device)
  end.

(* @src cloud/store.rs Store::check_and_record_nonce *)
Definition check_and_record_nonce (device_id nonce : string) (i : Inner) : Inner * bool :=
  let seen := default [] (nonces i !! device_id) in
  if existsb (λ n, bool_decide (n = nonce)) seen
  then (set_nonces <[device_id := seen]> i, false)
  else (set_nonces <[device_id := trim_front NONCE_CAP (seen ++ [nonce])]> i, true).

(* @src cloud/store.rs Store::set_apns_token *)
Definition set_apns_token (device_id token : string) (i : Inner) : Inner * bool :=
  match find (λ p : string * Device, bool_decide (dv_device_id p.2 = device_id)) (iter (devices i)) with
  | Some (k, d) =>
      (touch_dirty (set_devices <[k := mkDevice (dv_device_id d) (dv_org d) (dv_role d) (dv_name d)
         (dv_platform d) (dv_pubkey d) (Some token)]> i), true)
  | None => (i, false)
  end.

(* @src cloud/store.rs Store::register_activity *)
Definition register_activity (org run activity_token : string) (i : Inner) : Inner :=
  set_activities (λ m, insert_in org run (default [] (get_in org run m) ++ [activity_token]) m) i.

(* @src cloud/store.rs Store::take_dirty *)
Definition take_dirty (i : Inner) : Inner * bool := (set_dirty (λ _, false) i, dirty i).

(** ** The snapshot *)

(* @src cloud/store.rs SnapshotOwned *)
Record Snapshot := mkSnapshot {
  sn_orgs : gmap string (gmap string RunAgg);
  sn_killed : gmap string (gmap string bool);
  sn_budgets : gmap string (gmap string Z);
  sn_unit_budgets : gmap string (gmap string Z);
  sn_devices : gmap string Device;
  sn_savings : gmap string SavingsAcc;
  sn_unit_months : gmap string (gmap string UnitMonthAcc);
  sn_decision_counts : gmap string (gmap string Z);
  sn_incidents : gmap string (gmap string Incident);
  sn_audit : gmap string (list AuditEntry);
  sn_org_totals : gmap string OrgTotals
}.

(* @src cloud/store.rs 2051-2065 Store::save *)
Definition snapshot (i : Inner) : Snapshot :=
  mkSnapshot (orgs i) (killed i) (CloudTypes.budgets i) (CloudTypes.unit_budgets i) (devices i)
    (CloudTypes.savings i) (unit_months i) (CloudTypes.decision_counts i)
    (CloudTypes.incidents i) (CloudTypes.audit i) (org_totals i).

(* @src cloud/store.rs 2104-2109 Store::load *)
Definition backfill_breaks (acc : SavingsAcc) : SavingsAcc :=
  let observed := Z.of_nat (size (sa_breaks acc)) in
  if sa_budget_breaks acc <? observed
  then mkSavingsAcc (sa_blocked acc) (sa_cache acc) (sa_router acc) (sa_breaks acc) observed
  else acc.

(* @src cloud/store.rs 2120-2126 Store::load *)
Definition totals_of (runs : gmap string RunAgg) : OrgTotals :=
  foldl (λ t agg, mkTotals (u64_wrap (ot_calls t + ra_calls agg))
                           (i64_sat (ot_spent t + ra_spent agg)) (ot_tool_calls t))
        no_totals (values runs).

(* @src cloud/store.rs 2153-2164 Store::load *)
Definition seed_order (runs : gmap string RunAgg) : list string :=
  fst <$> sort_by (λ p q, p.2 <=? q.2) ((λ a, (ra_run_id a, ra_last_seen a)) <$> values runs).

(* @src cloud/store.rs 2084-2171 Store::load *)
Definition restore (s : Snapshot) (i : Inner) : Inner :=
  mkInner (sn_orgs s) (sn_killed s) (sn_budgets s) (sn_unit_budgets s) (CloudTypes.series i)
    (backfill_breaks <$> sn_savings s) (sn_unit_months s) (sn_decision_counts s) (sn_incidents s)
    (sn_audit s) (incident_tracker i) (fanout_tracker i)
    (sn_org_totals s ∪ (totals_of <$> sn_orgs s))
    ((λ runs, foldl touch empty_index (seed_order runs)) <$> sn_orgs s)
    (tracker_recency i) (fanout_recency i) (break_recency i)
    (sn_devices s) (pairings i) (nonces i) (activities i) (dirty i).

(** The organizations whose chain fails verification on load, with the first broken index. *)
(* @src cloud/store.rs 2136-2144 Store::load *)
Definition load_warnings (s : Snapshot) : list (string * nat) :=
  omap (λ p, match verify_chain sha256 p.2 with Err n => Some (p.1, n) | Ok _ => None end)
       (iter (sn_audit s)).

(** [serde_json] on the snapshot, and what reading the file yields. *)
Context (to_vec : Snapshot → string) (from_slice : string → option Snapshot).
Inductive ReadFile := FileData (data : string) | NotFound | ReadError (e : string).
Inductive LoadError := IoError (e : string) | InvalidData.

(** The bytes [save] writes; writing them is left to the file system. *)
(* @src cloud/store.rs 2050-2068 Store::save *)
Definition save (i : Inner) : string := to_vec (snapshot i).

(* @src cloud/store.rs Store::load *)
Definition load (file : ReadFile) (i : Inner) : result Inner LoadError :=
  match file with
  | NotFound => Ok i
  | ReadError e => Err (IoError e)
  | FileData data =>
      match from_slice data with
      | None => Err InvalidData
      | Some s => Ok (restore s i)
      end
  end.

End store.
End Store.
