(* ===== verification/CloudJson.v ===== *)
(** * The control plane's documents

    The records gateways push to the control plane, as the gateway's [CallRecord] writes them
    ([crates/gateway/src/sink.rs]) and the store's reads them ([crates/cloud/src/store.rs]),
    and the snapshot of the store: the derived readers and writers of its types.  The text is
    [serde_json]'s, whose printer and parser are parameters. *)

From S2P Require Import Prelude Float Strings Json Serde McpReport AuditChain.
From S2P Require Import Recency CloudTypes CloudIngest CloudStore.
From S2P Require LedgerBackend.

(** Reads the fields of an object one by one. *)
Ltac read_field :=
  first
  [erewrite field_found;
   [cbn [mbind option_bind]
   |reflexivity
   |cbn [f_read required defaulted optional optional_defaulted];
    first [apply (from_to (c := c_option _)) | apply nullable_to | apply from_to];
    try apply total; try eassumption]
  |erewrite field_absent by reflexivity; cbn [mbind option_bind]].
Ltac read_fields := cbn [from_value to_value struct]; repeat read_field; try reflexivity.
(** ** Call records *)

(* @src gateway/sink.rs CallRecord *)
Definition call_record_value (r : LedgerBackend.CallRecord) : Value :=
  Obj [("ts_millis", to_value c_i64 (LedgerBackend.ts_millis r));
       ("run_id", to_value c_string (LedgerBackend.cr_run_id r));
       ("model", to_value c_string (LedgerBackend.cr_model r));
       ("decision", to_value c_string (LedgerBackend.decision r));
       ("input_tokens", to_value c_u64 (LedgerBackend.cr_input_tokens r));
       ("output_tokens", to_value c_u64 (LedgerBackend.cr_output_tokens r));
       ("cost_microusd", to_value c_i64 (LedgerBackend.cost_microusd r));
       ("step", to_value c_u32 (LedgerBackend.cr_step r));
       ("agent_id", to_value c_string (LedgerBackend.agent_id r));
       ("saved_microusd", to_value c_i64 (LedgerBackend.saved_microusd r));
       ("parent_run_id", to_value c_string (LedgerBackend.parent_run_id r));
       ("on_behalf_of", to_value c_string (LedgerBackend.on_behalf_of r));
       ("outcome", to_value c_string (LedgerBackend.outcome r));
       ("key_id", to_value c_string (LedgerBackend.key_id r));
       ("unit", to_value c_string (LedgerBackend.cr_unit r));
       ("tool_calls", to_value (c_option c_u32) (LedgerBackend.cr_tool_calls r))].

(* @src cloudsink.rs Batch *)
Definition batch_value (records : list LedgerBackend.CallRecord) : Value :=
  Obj [("records", Arr (call_record_value <$> records))].

(* @src cloud/store.rs CallRecord *)
Definition read_call_record : Value → option CallRecord :=
  struct (λ s,
    '(ts, s) ← field (defaulted "ts_millis" (from_value c_i64) 0) s;
    '(run_id, s) ← field (required "run_id" (from_value c_string)) s;
    '(model, s) ← field (defaulted "model" (from_value c_string) "") s;
    '(decision, s) ← field (defaulted "decision" (from_value c_string) "") s;
    '(input, s) ← field (defaulted "input_tokens" (from_value c_u64) 0) s;
    '(output, s) ← field (defaulted "output_tokens" (from_value c_u64) 0) s;
    '(cost, s) ← field (defaulted "cost_microusd" (from_value c_i64) 0) s;
    '(step, s) ← field (defaulted "step" (from_value c_u32) 0) s;
    '(agent_id, s) ← field (defaulted "agent_id" (from_value c_string) "") s;
    '(saved, s) ← field (defaulted "saved_microusd" (from_value c_i64) 0) s;
    '(parent, s) ← field (defaulted "parent_run_id" (from_value c_string) "") s;
    '(behalf, s) ← field (defaulted "on_behalf_of" (from_value c_string) "") s;
    '(outcome, s) ← field (defaulted "outcome" (from_value c_string) "") s;
    '(unit_, s) ← field (defaulted "unit" (from_value c_string) "") s;
    '(tools, s) ← field (optional_defaulted "tool_calls" (from_value c_u32)) s;
    Some (mkRecord ts run_id model decision input output cost step agent_id saved parent behalf
            outcome unit_ tools, s)).

(* @src cloud/http.rs IngestBody *)
Definition read_ingest_body : Value → option (list CallRecord) :=
  struct (λ s, field (defaulted "records"
    (λ v, match v with Arr l => mapM read_call_record l | _ => None end) []) s).

(** The gateway's record as the control plane keeps it: without the key. *)
Definition received (r : LedgerBackend.CallRecord) : CallRecord :=
  mkRecord (LedgerBackend.ts_millis r) (LedgerBackend.cr_run_id r) (LedgerBackend.cr_model r)
    (LedgerBackend.decision r) (LedgerBackend.cr_input_tokens r)
    (LedgerBackend.cr_output_tokens r) (LedgerBackend.cost_microusd r) (LedgerBackend.cr_step r)
    (LedgerBackend.agent_id r) (LedgerBackend.saved_microusd r) (LedgerBackend.parent_run_id r)
    (LedgerBackend.on_behalf_of r) (LedgerBackend.outcome r) (LedgerBackend.cr_unit r)
    (LedgerBackend.cr_tool_calls r).

(** The fields of a gateway's record in the ranges of their types. *)
Record typed_call (r : LedgerBackend.CallRecord) : Prop := mkTypedCall {
  tc_ts : in_i64 (LedgerBackend.ts_millis r);
  tc_input : in_u64 (LedgerBackend.cr_input_tokens r);
  tc_output : in_u64 (LedgerBackend.cr_output_tokens r);
  tc_cost : in_i64 (LedgerBackend.cost_microusd r);
  tc_step : in_u32 (LedgerBackend.cr_step r);
  tc_saved : in_i64 (LedgerBackend.saved_microusd r);
  tc_tools : from_option in_u32 True (LedgerBackend.cr_tool_calls r)
}.

Lemma read_call_record_value r :
  typed_call r → read_call_record (call_record_value r) = Some (received r).
Proof.
  intros [H1 H2 H3 H4 H5 H6 H7]. unfold read_call_record, call_record_value. read_fields.
Qed.

(** C37: What a gateway reports is what the control plane folds.  The body the gateway's sink
    posts is read by the control plane's ingest route, and every record arrives with every
    field it has there: only the client key stays behind. *)
Theorem records_cross_the_wire rs :
  Forall typed_call rs → read_ingest_body (batch_value rs) = Some (received <$> rs).
Proof.
  intros Hr. unfold read_ingest_body, batch_value. cbn [struct].
  rewrite (field_found _ _ (Arr (call_record_value <$> rs)) (received <$> rs)); [done..|].
  cbn [f_read defaulted]. induction Hr as [|r rs Hr _ IH]; [done|].
  rewrite !fmap_cons. cbn [mapM]. by rewrite read_call_record_value, IH.
Qed.

Definition demo_wire : list LedgerBackend.CallRecord :=
  [LedgerBackend.mkCallRecord 1700000000000 "r1" "gpt-4o" "allow" 120 40 900 1 "planner" 0 "" "ada"
     "" "k1" "team-a" (Some 2);
   LedgerBackend.mkCallRecord 1700000001000 "r1" "gpt-4o" "budget_exceeded" 0 0 0 2 "planner" 0 "r0"
     "ada" "failed" "k1" "team-a" None].

Lemma records_cross_the_wire_witness :
  read_ingest_body (batch_value demo_wire) =
    Some [mkRecord 1700000000000 "r1" "gpt-4o" "allow" 120 40 900 1 "planner" 0 "" "ada" "" "team-a"
            (Some 2);
          mkRecord 1700000001000 "r1" "gpt-4o" "budget_exceeded" 0 0 0 2 "planner" 0 "r0" "ada"
            "failed" "team-a" None].
Proof.
  apply (records_cross_the_wire demo_wire).
  repeat constructor; vm_compute; intros H; discriminate H.
Defined.

(** ** The types of the store *)

(** A member that is left out when there is nothing to write. *)
Definition skip_none (name : string) (s : option string) : list (string * Value) :=
  match s with Some s => [(name, to_value c_string s)] | None => [] end.

(** The law of the codec [c] of a record. *)
Ltac lawful c :=
  let a := fresh "a" in
  intros a Ha; unfold c in *; cbn [domain] in Ha;
  repeat match goal with H : _ ∧ _ |- _ => destruct H end;
  cbn [from_value to_value struct skip_none app]; repeat read_field; by destruct a.

(* @src cloud/store.rs RunAgg *)
Definition c_run : Codec RunAgg :=
  mkCodec
    (λ a, Obj [("run_id", to_value c_string (ra_run_id a));
               ("model", to_value c_string (ra_model a));
               ("agent_id", to_value c_string (ra_agent_id a));
               ("unit", to_value c_string (ra_unit a));
               ("spent_microusd", to_value c_i64 (ra_spent a));
               ("calls", to_value c_u64 (ra_calls a));
               ("cache_hits", to_value c_u64 (ra_cache_hits a));
               ("steps", to_value c_u32 (ra_steps a));
               ("last_seen_millis", to_value c_i64 (ra_last_seen a));
               ("killed", to_value c_bool (ra_killed a));
               ("tool_calls", to_value c_u64 (ra_tool_calls a))])
    (struct (λ s,
       '(run_id, s) ← field (required "run_id" (from_value c_string)) s;
       '(model, s) ← field (required "model" (from_value c_string)) s;
       '(agent_id, s) ← field (defaulted "agent_id" (from_value c_string) "") s;
       '(unit_, s) ← field (defaulted "unit" (from_value c_string) "") s;
       '(spent, s) ← field (required "spent_microusd" (from_value c_i64)) s;
       '(calls, s) ← field (required "calls" (from_value c_u64)) s;
       '(hits, s) ← field (required "cache_hits" (from_value c_u64)) s;
       '(steps, s) ← field (required "steps" (from_value c_u32)) s;
       '(seen, s) ← field (required "last_seen_millis" (from_value c_i64)) s;
       '(killed, s) ← field (required "killed" (from_value c_bool)) s;
       '(tools, s) ← field (defaulted "tool_calls" (from_value c_u64) 0) s;
       Some (mkRunAgg run_id model agent_id unit_ spent calls hits steps seen killed tools, s)))
    (λ a, in_i64 (ra_spent a) ∧ in_u64 (ra_calls a) ∧ in_u64 (ra_cache_hits a) ∧
          in_u32 (ra_steps a) ∧ in_i64 (ra_last_seen a) ∧ in_u64 (ra_tool_calls a)).

(* @src cloud/store.rs UnitMonthAcc *)
Definition c_month : Codec UnitMonthAcc :=
  mkCodec
    (λ a, Obj [("window", to_value c_string (um_window a));
               ("spent_microusd", to_value c_i64 (um_spent a));
               ("calls", to_value c_u64 (um_calls a))])
    (struct (λ s,
       '(window, s) ← field (required "window" (from_value c_string)) s;
       '(spent, s) ← field (required "spent_microusd" (from_value c_i64)) s;
       '(calls, s) ← field (required "calls" (from_value c_u64)) s;
       Some (mkMonth window spent calls, s)))
    (λ a, in_i64 (um_spent a) ∧ in_u64 (um_calls a)).

(* @src cloud/store.rs OrgTotals *)
Definition c_totals : Codec OrgTotals :=
  mkCodec
    (λ a, Obj [("calls", to_value c_u64 (ot_calls a));
               ("spent_microusd", to_value c_i64 (ot_spent a));
               ("tool_calls", to_value c_u64 (ot_tool_calls a))])
    (struct (λ s,
       '(calls, s) ← field (required "calls" (from_value c_u64)) s;
       '(spent, s) ← field (required "spent_microusd" (from_value c_i64)) s;
       '(tools, s) ← field (defaulted "tool_calls" (from_value c_u64) 0) s;
       Some (mkTotals calls spent tools, s)))
    (λ a, in_u64 (ot_calls a) ∧ in_i64 (ot_spent a) ∧ in_u64 (ot_tool_calls a)).

(* @src cloud/devices.rs Device *)
Definition c_device : Codec Device :=
  mkCodec
    (λ d, Obj [("device_id", to_value c_string (dv_device_id d));
               ("org", to_value c_string (dv_org d));
               ("role", to_value c_string (dv_role d));
               ("name", to_value c_string (dv_name d));
               ("platform", to_value c_string (dv_platform d));
               ("pubkey_b64", to_value c_string (dv_pubkey d));
               ("apns_token", to_value (c_option c_string) (dv_apns_token d))])
    (struct (λ s,
       '(id, s) ← field (required "device_id" (from_value c_string)) s;
       '(org, s) ← field (required "org" (from_value c_string)) s;
       '(role, s) ← field (required "role" (from_value c_string)) s;
       '(name, s) ← field (defaulted "name" (from_value c_string) "") s;
       '(platform, s) ← field (defaulted "platform" (from_value c_string) "") s;
       '(pubkey, s) ← field (required "pubkey_b64" (from_value c_string)) s;
       '(apns, s) ← field (optional_defaulted "apns_token" (from_value c_string)) s;
       Some (mkDevice id org role name platform pubkey apns, s)))
    (λ _, True).

(* @src core/audit.rs AuditEntry *)
Definition c_entry : Codec AuditEntry :=
  mkCodec
    (λ e, Obj [("seq", to_value c_u64 (seq e));
               ("ts_millis", to_value c_i64 (ts_millis e));
               ("actor", to_value c_string (actor e));
               ("action", to_value c_string (action e));
               ("subject", to_value c_string (subject e));
               ("detail", to_value c_string (detail e));
               ("prev_hash", to_value c_string (prev_hash e));
               ("entry_hash", to_value c_string (entry_hash e))])
    (struct (λ s,
       '(n, s) ← field (required "seq" (from_value c_u64)) s;
       '(ts, s) ← field (required "ts_millis" (from_value c_i64)) s;
       '(actor, s) ← field (required "actor" (from_value c_string)) s;
       '(action, s) ← field (required "action" (from_value c_string)) s;
       '(subject, s) ← field (required "subject" (from_value c_string)) s;
       '(detail, s) ← field (required "detail" (from_value c_string)) s;
       '(prev, s) ← field (required "prev_hash" (from_value c_string)) s;
       '(hash, s) ← field (required "entry_hash" (from_value c_string)) s;
       Some (mkEntry n ts actor action subject detail prev hash, s)))
    (λ e, in_u64 (seq e) ∧ in_i64 (ts_millis e)).

(* @src core/mcpreport.rs Severity *)
Definition c_severity : Codec Severity :=
  mkCodec (λ s, Str (as_str s))
    (λ v, match v with
          | Str s => find (λ x, bool_decide (as_str x = s)) [Info; Low; Medium; High; Critical]
          | _ => None
          end)
    (λ _, True).

(* @src cloud/store.rs Incident *)
Definition c_incident : Codec Incident :=
  mkCodec
    (λ a, Obj ([("id", to_value c_string (in_id a));
                ("org", to_value c_string (in_org a));
                ("run_id", to_value (c_option c_string) (in_run_id a));
                ("agent_id", to_value (c_option c_string) (in_agent_id a));
                ("kind", to_value c_string (in_kind a));
                ("severity", to_value c_severity (in_severity a));
                ("first_seen_millis", to_value c_i64 (in_first_seen a));
                ("last_seen_millis", to_value c_i64 (in_last_seen a));
                ("occurrences", to_value c_u64 (in_occurrences a));
                ("acknowledged", to_value c_bool (in_acknowledged a));
                ("last_notified_millis", to_value c_i64 (in_last_notified a))]
               ++ skip_none "source" (in_source a) ++ skip_none "summary" (in_summary a)))
    (struct (λ s,
       '(id, s) ← field (required "id" (from_value c_string)) s;
       '(org, s) ← field (required "org" (from_value c_string)) s;
       '(run, s) ← field (optional "run_id" (from_value c_string)) s;
       '(agent, s) ← field (optional "agent_id" (from_value c_string)) s;
       '(kind, s) ← field (required "kind" (from_value c_string)) s;
       '(severity, s) ← field (required "severity" (from_value c_severity)) s;
       '(first, s) ← field (required "first_seen_millis" (from_value c_i64)) s;
       '(last, s) ← field (required "last_seen_millis" (from_value c_i64)) s;
       '(occurrences, s) ← field (required "occurrences" (from_value c_u64)) s;
       '(acked, s) ← field (required "acknowledged" (from_value c_bool)) s;
       '(notified, s) ← field (required "last_notified_millis" (from_value c_i64)) s;
       '(source, s) ← field (optional_defaulted "source" (from_value c_string)) s;
       '(summary, s) ← field (optional_defaulted "summary" (from_value c_string)) s;
       Some (mkIncident id org run agent kind severity first last occurrences acked notified
               source summary, s)))
    (λ a, in_i64 (in_first_seen a) ∧ in_i64 (in_last_seen a) ∧ in_u64 (in_occurrences a) ∧
          in_i64 (in_last_notified a)).

#[export] Instance c_run_lawful : Lawful c_run.
Proof. lawful c_run. Qed.
#[export] Instance c_month_lawful : Lawful c_month.
Proof. lawful c_month. Qed.
#[export] Instance c_totals_lawful : Lawful c_totals.
Proof. lawful c_totals. Qed.
#[export] Instance c_device_lawful : Lawful c_device.
Proof. lawful c_device. Qed.
#[export] Instance c_entry_lawful : Lawful c_entry.
Proof. lawful c_entry. Qed.
#[export] Instance c_severity_lawful : Lawful c_severity.
Proof. by intros []. Qed.
#[export] Instance c_severity_not_null : NotNull c_severity.
Proof. done. Qed.
#[export] Instance c_incident_lawful : Lawful c_incident.
Proof.
  intros a (?&?&?&?). destruct (in_source a) eqn:Es, (in_summary a) eqn:Em.
  all: unfold c_incident; cbn [from_value to_value struct]; rewrite Es, Em;
    cbn [skip_none app]; repeat read_field; destruct a; by simplify_eq/=.
Qed.

(** ** The snapshot *)

(** [HashMap<String, HashMap<String, _>>] *)
Abbreviation by_org c := (c_map (c_map c)).

Section snapshot.
Context `{HashOrder}.

(* @src cloud/store.rs SavingsAcc *)
Definition c_savings : Codec SavingsAcc :=
  mkCodec
    (λ a, Obj [("blocked_spend_microusd", to_value c_i64 (sa_blocked a));
               ("cache_saved_microusd", to_value c_i64 (sa_cache a));
               ("router_saved_microusd", to_value c_i64 (sa_router a));
               ("breaks", to_value c_set (sa_breaks a));
               ("budget_breaks", to_value c_u64 (sa_budget_breaks a))])
    (struct (λ s,
       '(blocked, s) ← field (required "blocked_spend_microusd" (from_value c_i64)) s;
       '(cache, s) ← field (required "cache_saved_microusd" (from_value c_i64)) s;
       '(router, s) ← field (defaulted "router_saved_microusd" (from_value c_i64) 0) s;
       '(breaks, s) ← field (defaulted "breaks" (from_value c_set) ∅) s;
       '(n, s) ← field (defaulted "budget_breaks" (from_value c_u64) 0) s;
       Some (mkSavingsAcc blocked cache router breaks n, s)))
    (λ a, in_i64 (sa_blocked a) ∧ in_i64 (sa_cache a) ∧ in_i64 (sa_router a) ∧
          in_u64 (sa_budget_breaks a)).

#[export] Instance c_set_total : Total c_set.
Proof. done. Qed.
#[export] Instance c_savings_lawful : Lawful c_savings.
Proof. lawful c_savings. Qed.

(* @src cloud/store.rs SnapshotRef *)
Definition snapshot_members (s : Store.Snapshot) : list (string * Value) :=
  [("orgs", to_value (by_org c_run) (Store.sn_orgs s));
   ("killed", to_value (by_org c_bool) (Store.sn_killed s));
   ("budgets", to_value (by_org c_i64) (Store.sn_budgets s));
   ("unit_budgets", to_value (by_org c_i64) (Store.sn_unit_budgets s));
   ("devices", to_value (c_map c_device) (Store.sn_devices s));
   ("savings", to_value (c_map c_savings) (Store.sn_savings s));
   ("unit_months", to_value (by_org c_month) (Store.sn_unit_months s));
   ("decision_counts", to_value (by_org c_u64) (Store.sn_decision_counts s));
   ("incidents", to_value (by_org c_incident) (Store.sn_incidents s));
   ("audit", to_value (c_map (c_list c_entry)) (Store.sn_audit s));
   ("org_totals", to_value (c_map c_totals) (Store.sn_org_totals s))].

(* @src cloud/store.rs SnapshotOwned *)
Definition read_snapshot : Value → option Store.Snapshot :=
  struct (λ s,
    '(orgs, s) ← field (defaulted "orgs" (from_value (by_org c_run)) ∅) s;
    '(killed, s) ← field (defaulted "killed" (from_value (by_org c_bool)) ∅) s;
    '(budgets, s) ← field (defaulted "budgets" (from_value (by_org c_i64)) ∅) s;
    '(units, s) ← field (defaulted "unit_budgets" (from_value (by_org c_i64)) ∅) s;
    '(devices, s) ← field (defaulted "devices" (from_value (c_map c_device)) ∅) s;
    '(savings, s) ← field (defaulted "savings" (from_value (c_map c_savings)) ∅) s;
    '(months, s) ← field (defaulted "unit_months" (from_value (by_org c_month)) ∅) s;
    '(counts, s) ← field (defaulted "decision_counts" (from_value (by_org c_u64)) ∅) s;
    '(incidents, s) ← field (defaulted "incidents" (from_value (by_org c_incident)) ∅) s;
    '(audit, s) ← field (defaulted "audit" (from_value (c_map (c_list c_entry))) ∅) s;
    '(totals, s) ← field (defaulted "org_totals" (from_value (c_map c_totals)) ∅) s;
    Some (Store.mkSnapshot orgs killed budgets units devices savings months counts incidents
            audit totals, s)).

Definition c_snapshot : Codec Store.Snapshot :=
  mkCodec (Obj ∘ snapshot_members) read_snapshot
    (λ s, domain (by_org c_run) (Store.sn_orgs s) ∧ domain (by_org c_i64) (Store.sn_budgets s) ∧
          domain (by_org c_i64) (Store.sn_unit_budgets s) ∧
          domain (c_map c_savings) (Store.sn_savings s) ∧
          domain (by_org c_month) (Store.sn_unit_months s) ∧
          domain (by_org c_u64) (Store.sn_decision_counts s) ∧
          domain (by_org c_incident) (Store.sn_incidents s) ∧
          domain (c_map (c_list c_entry)) (Store.sn_audit s) ∧
          domain (c_map c_totals) (Store.sn_org_totals s)).

(** The snapshot an older version would have written: without some of the members. *)
Definition drop_members (ks : gset string) (s : Store.Snapshot) : Store.Snapshot :=
  let keep {A} k (m : gmap string A) := if bool_decide (k ∈ ks) then ∅ else m in
  Store.mkSnapshot (keep "orgs" (Store.sn_orgs s)) (keep "killed" (Store.sn_killed s))
    (keep "budgets" (Store.sn_budgets s)) (keep "unit_budgets" (Store.sn_unit_budgets s))
    (keep "devices" (Store.sn_devices s)) (keep "savings" (Store.sn_savings s))
    (keep "unit_months" (Store.sn_unit_months s))
    (keep "decision_counts" (Store.sn_decision_counts s)) (keep "incidents" (Store.sn_incidents s))
    (keep "audit" (Store.sn_audit s)) (keep "org_totals" (Store.sn_org_totals s)).

(** A defaulted member that may have been left out. *)
Lemma field_kept {A} (c : Codec A) `{!Lawful c} name a d ks m :
  members name m = [to_value c a] → domain c a →
  field (defaulted name (from_value c) d) (Members (without ks m)) =
    Some (if bool_decide (name ∈ ks) then d else a, Members (without ks m)).
Proof.
  intros Hm Ha. unfold field. cbn [defaulted f_name f_read f_absent]. rewrite members_without, Hm.
  case_bool_decide; [done|]. by rewrite from_to.
Qed.

#[export] Instance c_map_total {A} (c : Codec A) `{!Total c} : Total (c_map c).
Proof. intros m k a _. apply (total (c := c)). Qed.
#[export] Instance c_device_total : Total c_device.
Proof. done. Qed.

Lemma read_snapshot_without ks s :
  domain c_snapshot s →
  read_snapshot (Obj (without ks (snapshot_members s))) = Some (drop_members ks s).
Proof.
  intros (?&?&?&?&?&?&?&?&?). unfold read_snapshot. cbn [struct].
  repeat (erewrite field_kept by (first [tc_solve | reflexivity | eassumption | apply total]);
          cbn [mbind option_bind]).
  reflexivity.
Qed.

End snapshot.
