(* ===== verification/CloudInv.v ===== *)
(** * Invariants of the control plane's store

    The operations of the store as one type, their effect on the state, and what every
    sequence of them keeps: the caps of the tables that have one, the typing of the stored
    numbers, the audit chains; and the process around the store, which saves from time to
    time and, when it is restarted, goes on from the last save that succeeded. *)

From S2P Require Import Prelude Float Strings McpReport AuditChain UnitLedger.
From S2P Require Import Recency CloudTypes CloudIngest CloudStore.
From S2P Require Savings.

Section ops.
Context `{HashOrder} (sha256 : string → string) (alert_pct : f64) (cfg : IncidentConfig).

(** Every method that takes the write lock, and a restart from a snapshot of the present
    state.  (What a restart loses when the file is older than that is in [Reboot] below.) *)
Inductive Op :=
| Ingest (org : string) (records : list CallRecord) (now : Z)
| Kill (org run : string)
| KillAudited (now : Z) (org run actor : string)
| SetBudget (org run : string) (micros : Z)
| SetBudgetAudited (now : Z) (org run : string) (micros : Z) (actor : string)
| SetUnitBudget (org unit : string) (micros : Z)
| SetUnitBudgetAudited (now : Z) (org unit : string) (micros : Z) (actor : string)
| Ack (org id : string)
| AckAudited (now : Z) (org id actor : string)
| Finding (now : Z) (org reported_by : string) (f : Store.FindingInput)
| Notified (org id : string) (now window : Z)
| AuditAppend (now : Z) (org actor action subject detail : string)
| CreatePairing (code org role : string) (expires : Z)
| Redeem (code : string) (now_unix : Z) (id token pubkey name platform : string)
| RedeemAudited (now : Z) (code : string) (now_unix : Z) (id token pubkey name platform : string)
| Nonce (device nonce : string)
| Apns (device token : string)
| Activity (org run token : string)
| TakeDirty
| Restart.

Definition apply_op (i : Inner) (op : Op) : Inner :=
  match op with
  | Ingest org records now => (ingest_locked alert_pct cfg org records now i).1.1
  | Kill org run => (Store.kill org run i).1
  | KillAudited now org run actor => (Store.kill_audited sha256 now org run actor i).1
  | SetBudget org run m => (Store.set_budget org run m i).1
  | SetBudgetAudited now org run m actor =>
      (Store.set_budget_audited sha256 now org run m actor i).1
  | SetUnitBudget org unit m => Store.set_unit_budget org unit m i
  | SetUnitBudgetAudited now org unit m actor =>
      Store.set_unit_budget_audited sha256 now org unit m actor i
  | Ack org id => (Store.ack_incident org id i).1
  | AckAudited now org id actor => (Store.ack_incident_audited sha256 now org id actor i).1
  | Finding now org by_ f => (Store.record_external_finding sha256 now org by_ f i).1
  | Notified org id now w => (Store.mark_incident_notified org id now w i).1
  | AuditAppend now org a b c d => Store.audit_append sha256 now org a b c d i
  | CreatePairing code org role e => Store.create_pairing code org role e i
  | Redeem code now_unix a b c d e => (Store.redeem_pairing code now_unix a b c d e i).1
  | RedeemAudited now code now_unix a b c d e =>
      (Store.redeem_pairing_audited sha256 now code now_unix a b c d e i).1
  | Nonce d n => (Store.check_and_record_nonce d n i).1
  | Apns d t => (Store.set_apns_token d t i).1
  | Activity org run t => Store.register_activity org run t i
  | TakeDirty => (Store.take_dirty i).1
  | Restart => Store.restore (Store.snapshot i) empty_inner
  end.

Definition run_ops (i : Inner) (ops : list Op) : Inner := foldl apply_op i ops.

(** ** The process and its file *)

(** The running store and the snapshot file. *)
Record Server := mkServer { live : Inner; file : option Store.Snapshot }.

(** A step of the server: an operation on the store; a tick of the autosave timer, where
    [before] is what happens between the test of the dirty flag and the snapshot, and [saved]
    whether writing and renaming the file succeeded (before the process stopped); or the end
    of the process, which saves nothing, and a new one that starts from the file. *)
Inductive Step := Operate (op : Op) | Tick (before : list Op) (saved : bool) | Reboot.

(* @src cloud/main.rs 110-132 main *)
Definition step (s : Server) (t : Step) : Server :=
  match t with
  | Operate op => mkServer (apply_op (live s) op) (file s)
  | Tick before saved =>
      let '(i, was_dirty) := Store.take_dirty (live s) in
      if was_dirty then
        let i := run_ops i before in
        mkServer i (if saved then Some (Store.snapshot i) else file s)
      else mkServer (run_ops i before) (file s)
  | Reboot =>
      mkServer match file s with
               | Some sn => Store.restore sn empty_inner
               | None => empty_inner
               end (file s)
  end.

Definition run_server (s : Server) (l : list Step) : Server := foldl step s l.

(** The first start. *)
Definition booted : Server := mkServer empty_inner None.

(** The operations whose effects the store has, and those whose effects the file has: a save
    that succeeds makes them the same, and a reboot forgets what was not saved. *)
Record Kept := mkKept { k_live : list Op; k_file : option (list Op) }.

Definition keep (s : Server) (k : Kept) (t : Step) : Kept :=
  match t with
  | Operate op => mkKept (k_live k ++ [op]) (k_file k)
  | Tick before saved =>
      let ops := k_live k ++ TakeDirty :: before in
      mkKept ops (if dirty (live s) && saved then Some ops else k_file k)
  | Reboot => mkKept (match k_file k with Some ops => ops ++ [Restart] | None => [] end) (k_file k)
  end.

Fixpoint kept_from (s : Server) (k : Kept) (l : list Step) : Kept :=
  match l with [] => k | t :: l => kept_from (step s t) (keep s k t) l end.

(** What of a history the store still has. *)
Definition survivors (l : list Step) : list Op := k_live (kept_from booted (mkKept [] None) l).

(** Everything that was done. *)
Definition performed (l : list Step) : list Op :=
  l ≫= λ t, match t with
            | Operate op => [op] | Tick before _ => TakeDirty :: before | Reboot => []
            end.

Definition kept_ok (s : Server) (k : Kept) : Prop :=
  live s = run_ops empty_inner (k_live k) ∧
  file s = Store.snapshot ∘ run_ops empty_inner <$> k_file k.

Lemma run_ops_app i ops ops' : run_ops i (ops ++ ops') = run_ops (run_ops i ops) ops'.
Proof. apply foldl_app. Qed.

Lemma keep_ok s k t : kept_ok s k → kept_ok (step s t) (keep s k t).
Proof.
  intros [Hl Hf]. destruct t as [op|before saved|]; unfold kept_ok, step, keep; cbn [k_live k_file].
  - split; [|done]. by rewrite run_ops_app, Hl.
  - unfold Store.take_dirty. assert (run_ops (apply_op (live s) TakeDirty) before
      = run_ops empty_inner (k_live k ++ TakeDirty :: before)) as Hr
      by (rewrite run_ops_app, Hl; done).
    cbn [apply_op Store.take_dirty fst] in Hr. destruct (dirty (live s)); cbn [andb live file].
    + rewrite Hr. split; [done|]. by destruct saved.
    + by rewrite Hr.
  - split; [|done]. rewrite Hf. destruct (k_file k) as [ops|]; cbn; [|done]. by rewrite run_ops_app.
Qed.

(** The store is what its surviving operations make of the empty one. *)
Lemma live_survivors l : live (run_server booted l) = run_ops empty_inner (survivors l).
Proof.
  unfold survivors. assert (kept_ok booted (mkKept [] None)) as Hk by done. revert Hk.
  generalize booted (mkKept [] None). induction l as [|t l IH]; intros s k Hk; [apply Hk|].
  cbn [run_server foldl kept_from]. by apply IH, keep_ok.
Qed.

(** Nothing is lost while the process runs. *)
Lemma survivors_performed l : Reboot ∉ l → survivors l = performed l.
Proof.
  unfold survivors. change (performed l) with (k_live (mkKept [] None) ++ performed l).
  generalize booted (mkKept [] None). induction l as [|t l IH]; intros s k Hl.
  { by rewrite app_nil_r. }
  apply not_elem_of_cons in Hl as [Ht Hl]. cbn [kept_from]. rewrite IH by done.
  unfold performed. cbn [mbind list_bind]. rewrite app_assoc. by destruct t.
Qed.

(** How many records an operation carries. *)
Definition volume (op : Op) : Z :=
  match op with Ingest _ records _ => Z.of_nat (length records) | _ => 0 end.

(** ** The aggregates of an organization *)

Record view_ok (n : Z) (v : View) : Prop := mkViewOk {
  vo_runs : len (v_runs v) ≤ MAX_RUNS_PER_ORG;
  vo_recency : tracks n (v_runs v) (v_recency v);
  vo_keyed : ∀ k a, v_runs v !! k = Some a → ra_run_id a = k;
  vo_breaks : Z.of_nat (size (sa_breaks (v_sav v))) ≤ MAX_BREAK_KEYS;
  vo_counted : Z.of_nat (size (sa_breaks (v_sav v))) ≤ sa_budget_breaks (v_sav v);
  vo_break_recency : sound (v_break_recency v) ∧ next_seq (v_break_recency v) ≤ n ∧
    ∀ k, is_Some (seq_of (v_break_recency v) !! k) → k ∈ sa_breaks (v_sav v);
  vo_months : len (v_months v) ≤ MAX_UNIT_MONTH_KEYS ∨
    is_Some (v_months v !! "unassigned") ∧ len (v_months v) ≤ MAX_UNIT_MONTH_KEYS + 1;
  vo_dc : ∀ d, is_Some (v_dc v !! d) → is_known_decision d = true
}.

Lemma view_ok_empty n org : 0 ≤ n → view_ok n (view org empty_inner).
Proof.
  intros Hn. unfold view. simpl. rewrite !lookup_empty. simpl. split; simpl.
  - unfold len. rewrite map_size_empty. unfold MAX_RUNS_PER_ORG. lia.
  - by apply tracks_empty.
  - intros k a. by rewrite lookup_empty.
  - by vm_compute.
  - by vm_compute.
  - split; [apply sound_empty|]. split; [done|]. intros k [? Hk]. by rewrite lookup_empty in Hk.
  - left. unfold len. rewrite map_size_empty. unfold MAX_UNIT_MONTH_KEYS. lia.
  - intros d [? Hd]. by rewrite lookup_empty in Hd.
Qed.

Lemma view_ok_mono n n' v : n ≤ n' → view_ok n v → view_ok n' v.
Proof.
  intros Hn []. split; try done; [by eapply tracks_mono|].
  destruct vo_break_recency0 as (? & ? & ?). split; [done|]. split; [lia|done].
Qed.

Lemma len_insert {A} k (x : A) (m : gmap string A) :
  len (<[k := x]> m) = match m !! k with Some _ => len m | None => len m + 1 end.
Proof. unfold len. rewrite map_size_insert. destruct (m !! k); simpl; lia. Qed.

Lemma len_delete {A} k (m : gmap string A) : is_Some (m !! k) → len (delete k m) = len m - 1.
Proof.
  intros [x Hx]. unfold len. rewrite map_size_delete, Hx.
  assert (size m ≠ O) by (intros He%map_size_empty_inv; subst; by rewrite lookup_empty in Hx). lia.
Qed.

Lemma len_pos {A} (m : gmap string A) : 0 < len m → m ≠ ∅.
Proof. intros Hl ->. unfold len in Hl. rewrite map_size_empty in Hl. lia. Qed.

Lemma evict_run_ok n budgets runs recency k :
  tracks n runs recency → len runs ≤ MAX_RUNS_PER_ORG →
  let '(runs', recency') := evict_run alert_pct budgets runs recency k in
  tracks n runs' recency' ∧ runs' ⊆ runs ∧ runs' !! k = runs !! k ∧
  (is_Some (runs !! k) ∨ len runs' < MAX_RUNS_PER_ORG) ∧
  (∀ k', is_Some (runs !! k') → runs' !! k' = None →
     is_alerting alert_pct budgets runs k' = false ∨
     ∀ k'', is_Some (runs !! k'') → is_alerting alert_pct budgets runs k'' = true).
Proof.
  intros Ht Hl. unfold evict_run. case_bool_decide as Hk; simpl.
  2:{ split; [done|]. split; [done|]. split; [done|]. split; [left; by apply not_eq_None_Some|].
      intros k' [? Hs] Hn. congruence. }
  destruct (MAX_RUNS_PER_ORG <=? len runs) eqn:E; breflect.
  2:{ split; [done|]. split; [done|]. split; [done|]. split; [by right|].
      intros k' [? Hs] Hn. congruence. }
  destruct (tracks_evict n runs recency (is_alerting alert_pct budgets runs) Ht)
    as (v & r' & -> & Hv & Ht' & Hp); [apply len_pos; unfold MAX_RUNS_PER_ORG in *; lia|].
  split; [done|]. split; [apply delete_subseteq|]. split; [|split].
  - rewrite lookup_delete. case_decide; subst; [|done]. by rewrite Hk.
  - right. rewrite len_delete by done. lia.
  - intros k' Hs. rewrite lookup_delete. case_decide; [subst; by intros|].
    intros Hn. rewrite Hn in Hs. by destruct Hs.
Qed.

(** The memory of stopped runs, with an index that may have started cold. *)
Record breaks_ok (n : Z) (sav : SavingsAcc) (r : RecencyIndex string) : Prop := mkBreaksOk {
  bo_size : Z.of_nat (size (sa_breaks sav)) ≤ MAX_BREAK_KEYS;
  bo_counted : Z.of_nat (size (sa_breaks sav)) ≤ sa_budget_breaks sav;
  bo_index : sound r ∧ next_seq r ≤ n ∧ ∀ k, is_Some (seq_of r !! k) → k ∈ sa_breaks sav
}.

Lemma touch_subset n (r : RecencyIndex string) k (X : gset string) :
  n < u64_max → sound r → next_seq r ≤ n → (∀ j, is_Some (seq_of r !! j) → j ∈ X) → k ∈ X →
  sound (touch r k) ∧ next_seq (touch r k) ≤ n + 1 ∧
  ∀ j, is_Some (seq_of (touch r k) !! j) → j ∈ X.
Proof.
  intros Hn Hs Hle HX Hk. destruct (touch_spec r k Hs ltac:(lia)) as (Hs' & _ & Hq & Hx).
  split; [done|]. split; [lia|]. intros j. rewrite Hq, lookup_insert. case_decide; subst; auto.
Qed.

Lemma size_remove (x : string) (X : gset string) :
  x ∈ X → Z.of_nat (size (X ∖ {[x]})) = Z.of_nat (size X) - 1.
Proof.
  intros Hx. rewrite size_difference by set_solver. rewrite size_singleton.
  assert (size X ≠ O) by (intros He%size_empty_inv; set_solver). lia.
Qed.

(** Making room: at the cap one member goes, and the index keeps following. *)
Lemma break_room n (X : gset string) (r : RecencyIndex string) :
  sound r → next_seq r ≤ n → (∀ k, is_Some (seq_of r !! k) → k ∈ X) →
  let '(X', r') := evict_break X r in
  sound r' ∧ next_seq r' ≤ n ∧ (∀ k, is_Some (seq_of r' !! k) → k ∈ X') ∧ X' ⊆ X ∧
  (X ≠ ∅ → Z.of_nat (size X') = Z.of_nat (size X) - 1).
Proof.
  intros Hs Hn HX. unfold evict_break. pose proof (evict_spec r Hs) as He.
  destruct (evict_oldest r) as [r' [k|]].
  - destruct He as (Hs' & Ho & Hx & Hq). unfold lru_evict in Ho.
    destruct (lru_victim _ (order r)) as [v|] eqn:Ev; [|done]. injection Ho as _ <-.
    assert (k ∈ X) as Hk.
    { apply HX. rewrite <-order_elem by done. unfold lru_victim in Ev.
      destruct (filter _ _) as [|w l] eqn:E; simplify_eq.
      - by apply head_Some_elem_of.
      - assert (k ∈ filter (λ _ : string, false = false) (order r)) as Hf
          by (rewrite E; set_solver). by apply list_elem_of_filter in Hf as [_ ?]. }
    split; [done|]. split; [lia|]. split; [|split; [set_solver|]].
    + intros j. rewrite Hq, lookup_delete. case_decide; [by intros [? [=]]|]. set_solver.
    + intros _. by apply size_remove.
  - destruct He as (Hs' & Ho & Hx & Hq).
    assert (∀ k, seq_of r' !! k = None) as Hnone.
    { intros k. apply eq_None_not_Some. rewrite <-order_elem by done. unfold lru_evict in Ho.
      destruct (lru_victim (λ _, false) (order r)) as [v|] eqn:Ev; [done|]. injection Ho as Ho.
      rewrite Ho. unfold lru_victim in Ev. rewrite filter_all_in in Ev by done.
      destruct (order r); [set_solver|done]. }
    destruct (iter _) as [|[k ?] l] eqn:E.
    + split; [done|]. split; [lia|]. split; [intros k [? Hk]; by rewrite Hnone in Hk|].
      split; [done|]. intros Hne. apply set_choose_L in Hne as [x Hx'].
      assert ((x, tt) ∈ iter (set_to_map (λ k, (k, tt)) X)) as Hin.
      { apply iter_elem. apply lookup_set_to_map; [done|]. eauto. }
      rewrite E in Hin. by apply elem_of_nil in Hin.
    + split; [done|]. split; [lia|]. split; [intros j [? Hj]; by rewrite Hnone in Hj|].
      split; [set_solver|]. intros _. apply size_remove.
      assert ((k, u) ∈ iter (set_to_map (λ k, (k, tt)) X)) as Hin by (rewrite E; set_solver).
      apply iter_elem, lookup_set_to_map in Hin as (? & ? & ?); [|done]. by simplify_eq.
Qed.

Lemma note_break_ok n run sav r :
  n < u64_max → breaks_ok n sav r →
  let '(sav', r') := note_break run sav r in
  breaks_ok (n + 1) sav' r'.
Proof.
  intros Hn [Hsize Hcount (Hs & Hle & HX)]. unfold note_break. case_bool_decide as Hrun.
  { split; [done|done|]. by apply touch_subset. }
  pose proof (break_room n (sa_breaks sav) r Hs Hle HX) as Hroom.
  set (p := if MAX_BREAK_KEYS <=? _ then _ else _).
  assert (let '(X', r') := p in sound r' ∧ next_seq r' ≤ n ∧
    (∀ k, is_Some (seq_of r' !! k) → k ∈ X') ∧ X' ⊆ sa_breaks sav ∧
    Z.of_nat (size X') < MAX_BREAK_KEYS ∧ Z.of_nat (size X') ≤ Z.of_nat (size (sa_breaks sav)))
    as Hp.
  { subst p. destruct (MAX_BREAK_KEYS <=? _) eqn:E; breflect; [|split_and!; (done || lia)].
    destruct (evict_break _ _) as [X' r']. destruct Hroom as (? & ? & ? & ? & Hsz).
    assert (sa_breaks sav ≠ ∅) as Hne.
    { intros He. rewrite He in E. by vm_compute in E. }
    specialize (Hsz Hne). split_and!; (done || lia). }
  clearbody p. destruct p as [X' r']. destruct Hp as (Hs' & Hle' & HX' & Hsub & Hlt & Hle2).
  assert (Z.of_nat (size ({[run]} ∪ X')) = Z.of_nat (size X') + 1) as Hsz.
  { rewrite size_union by set_solver. rewrite size_singleton. lia. }
  split; cbn [sa_breaks sa_budget_breaks]; [lia|unfold MAX_BREAK_KEYS in *; mach|].
  apply touch_subset; try done; [|set_solver]. intros j Hj%HX'. set_solver.
Qed.

Lemma month_bucket_ok r months :
  (len months ≤ MAX_UNIT_MONTH_KEYS ∨
   is_Some (months !! "unassigned") ∧ len months ≤ MAX_UNIT_MONTH_KEYS + 1) →
  ∀ x, let m := <[month_bucket r months := x]> months in
  len m ≤ MAX_UNIT_MONTH_KEYS ∨ is_Some (m !! "unassigned") ∧ len m ≤ MAX_UNIT_MONTH_KEYS + 1.
Proof.
  intros Hm x. cbv zeta. unfold month_bucket. case_bool_decide as Hk; simpl.
  - rewrite len_insert. destruct Hk as [y ->]. rewrite lookup_insert. case_decide; [|done].
    destruct Hm as [?|[??]]; [by left|right; eauto].
  - destruct (len months <? MAX_UNIT_MONTH_KEYS) eqn:E; breflect.
    + left. rewrite len_insert. case_match; lia.
    + right. rewrite lookup_insert_eq, len_insert. split; [eauto|].
      destruct Hm as [?|[[? ->] ?]]; [case_match; lia|done].
Qed.

Lemma fold_record_ok n budgets month_now v r :
  n < u64_max → view_ok n v → view_ok (n + 1) (fold_record alert_pct budgets month_now v r).
Proof.
  intros Hn [Hlen Hrec Hkey Hbs Hbc Hbr Hmon Hdc]. unfold fold_record.
  pose proof (evict_run_ok n budgets _ _ (r_run_id r) Hrec Hlen) as He.
  destruct (evict_run _ _ _ _ _) as [runs recency].
  destruct He as (Ht & Hsub & Hsame & Hroom & _).
  assert (let '(sav, br) := fold_blocked r (v_sav v) (v_break_recency v) in
          breaks_ok (n + 1) sav br) as Hb.
  { unfold fold_blocked. destruct (Savings.is_budget_protection _).
    - apply note_break_ok; [done|]. by split.
    - destruct Hbr as (? & ? & ?). split; [done|done|]. split; [done|]. split; [lia|done]. }
  destruct (fold_blocked _ _ _) as [sav br]. destruct Hb as [Hb1 Hb2 Hb3].
  assert (∀ r sav, sa_breaks (fold_saved r sav) = sa_breaks sav ∧
                   sa_budget_breaks (fold_saved r sav) = sa_budget_breaks sav) as Hfs.
  { intros r' sav'. unfold fold_saved. by repeat case_bool_decide. }
  destruct (Hfs r sav) as [Hf1 Hf2].
  split; cbn [v_runs v_sav v_dc v_totals v_recency v_break_recency v_months];
    rewrite ?Hf1, ?Hf2; try done.
  - rewrite len_insert, Hsame. assert (len runs ≤ len (v_runs v)).
    { unfold len. apply Nat2Z.inj_le, map_subseteq_size, Hsub. }
    destruct Hroom as [[? ->]|]; [lia|]. case_match; lia.
  - by apply tracks_touch.
  - intros k a. rewrite lookup_insert. case_decide; subst.
    + intros [= <-]. simpl. destruct (runs !! r_run_id r) as [a|] eqn:Ea; [|done]. simpl.
      apply Hkey. by eapply lookup_weaken.
    + intros Ha. apply Hkey. by eapply lookup_weaken.
  - by apply month_bucket_ok.
  - intros d. unfold count_decision. destruct (is_known_decision _) eqn:E; [|apply Hdc].
    rewrite lookup_insert. case_decide; subst; [done|apply Hdc].
Qed.

Lemma fold_records_ok n budgets month_now v rs :
  n + Z.of_nat (length rs) ≤ u64_max → view_ok n v →
  view_ok (n + Z.of_nat (length rs)) (foldl (fold_record alert_pct budgets month_now) v rs).
Proof.
  revert n v. induction rs as [|r rs IH]; intros n v Hn Hv; [by rewrite Z.add_0_r|].
  cbn [foldl length] in *. replace (n + Z.of_nat (S (length rs))) with (n + 1 + Z.of_nat (length rs)) by lia.
  apply IH; [lia|]. apply fold_record_ok; [lia|done].
Qed.

(** ** The detectors *)

Record tracker_ok {A} (n : Z) (m : gmap (string * string) (list A))
    (r : RecencyIndex (string * string)) : Prop := mkTrackerOk {
  tk_tracks : tracks n m r;
  tk_size : Z.of_nat (size m) ≤ MAX_TRACKER_KEYS;
  tk_cap : ∀ k q, m !! k = Some q → Z.of_nat (length q) ≤ INCIDENT_TRACKER_CAP
}.

Lemma tracker_ok_mono {A} n n' (m : gmap _ (list A)) r :
  n ≤ n' → tracker_ok n m r → tracker_ok n' m r.
Proof. intros ? []. split; [by eapply tracks_mono|done|done]. Qed.

Lemma tracker_ok_empty {A} n : 0 ≤ n → tracker_ok n (∅ : gmap _ (list A)) empty_index.
Proof.
  intros. split; [by apply tracks_empty|by vm_compute|]. intros k q. by rewrite lookup_empty.
Qed.

Lemma bound_tracker_ok {A} n key (m : gmap _ (list A)) r q :
  n < u64_max → tracker_ok n m r → Z.of_nat (length q) ≤ INCIDENT_TRACKER_CAP →
  let '(m', r') := bound_tracker key m r in tracker_ok (n + 1) (<[key := q]> m') r'.
Proof.
  intros Hn [Ht Hs Hc] Hq. unfold bound_tracker.
  set (p := if _ && _ then _ else _).
  assert (let '(m', r') := p in tracks n m' r' ∧ m' ⊆ m ∧
    (is_Some (m' !! key) ∨ Z.of_nat (size m') < MAX_TRACKER_KEYS) ∧
    Z.of_nat (size m') ≤ MAX_TRACKER_KEYS) as Hp.
  { subst p. case_bool_decide as Hk; simpl.
    2:{ split; [done|]. split; [done|]. split; [|done]. left. by apply not_eq_None_Some. }
    destruct (MAX_TRACKER_KEYS <=? _) eqn:E; breflect; [|by split_and!; [..|right|lia]].
    assert (m ≠ ∅) as Hne by (intros ->; by vm_compute in E).
    rewrite evict_oldest_eq.
    destruct (tracks_evict n m r (λ _, false) Ht Hne) as (v & r' & -> & [y Hv] & Ht' & _).
    split; [done|]. split; [apply delete_subseteq|].
    rewrite map_size_delete, Hv. assert (size m ≠ O) by (intros He%map_size_empty_inv; done).
    split; [right|]; lia. }
  clearbody p. destruct p as [m' r']. destruct Hp as (Ht' & Hsub & Hroom & Hsz).
  split; [by apply tracks_touch| |].
  - rewrite map_size_insert. destruct Hroom as [[? ->]|]; simpl; [lia|]. case_match; simpl; lia.
  - intros k q'. rewrite lookup_insert. case_decide; [congruence|]. intros Hq'.
    eapply Hc. by eapply lookup_weaken.
Qed.

Lemma drop_before_length c q : (length (drop_before c q) ≤ length q)%nat.
Proof. induction q as [|t q IH]; simpl; [done|]. destruct (t <? c); simpl; lia. Qed.

(** An organization's incidents are filed under their own ids, within the cap. *)
Definition incidents_ok (m : gmap string (gmap string Incident)) : Prop :=
  ∀ org per_org, m !! org = Some per_org →
    len per_org ≤ MAX_INCIDENTS_PER_ORG ∧
    ∀ id inc, per_org !! id = Some inc → in_id inc = id ∧ in_org inc = org.

Record det_ok (n : Z) (i : Inner) : Prop := mkDetOk {
  do_tracker : tracker_ok n (incident_tracker i) (tracker_recency i);
  do_fanout : tracker_ok n (fanout_tracker i) (fanout_recency i);
  do_incidents : incidents_ok (incidents i)
}.

Lemma det_ok_mono n n' i : n ≤ n' → det_ok n i → det_ok n' i.
Proof. intros ? []. split; [by eapply tracker_ok_mono..|done]. Qed.

Lemma bump_tracker_ok n org kind scope ts w i :
  n < u64_max → det_ok n i → det_ok (n + 1) (bump_tracker org kind scope ts w i).1.
Proof.
  intros Hn [Ht Hf Hi]. unfold bump_tracker.
  pose proof (λ q, bound_tracker_ok n (org, incident_id kind scope) _ _ q Hn Ht) as Hb.
  destruct (bound_tracker _ _ _) as [m' r']. split; cbn -[INCIDENT_TRACKER_CAP]; [|by eapply tracker_ok_mono; [|done]; lia|done].
  apply Hb. set (q := trim_front _ _). assert (Z.of_nat (length q) ≤ INCIDENT_TRACKER_CAP).
  { subst q. rewrite trim_front_length; unfold INCIDENT_TRACKER_CAP; lia. }
  destruct w as [[now win]|]; [|done]. pose proof (drop_before_length (i64_wrap (now - win)) q). lia.
Qed.

Lemma bump_fanout_ok n org a run ts now w i :
  n < u64_max → det_ok n i → det_ok (n + 1) (bump_fanout_tracker org a run ts now w i).1.
Proof.
  intros Hn [Ht Hf Hi]. unfold bump_fanout_tracker.
  pose proof (λ q, bound_tracker_ok n (org, a) _ _ q Hn Hf) as Hb.
  destruct (bound_tracker _ _ _) as [m' r']. split; cbn -[INCIDENT_TRACKER_CAP]; [by eapply tracker_ok_mono; [|done]; lia| |done].
  apply Hb. set (q := trim_front _ _). assert (Z.of_nat (length q) ≤ INCIDENT_TRACKER_CAP).
  { subst q. rewrite trim_front_length; unfold INCIDENT_TRACKER_CAP; lia. }
  pose proof (length_filter (λ p : string * Z, i64_wrap (now - w) ≤ p.2) q). lia.
Qed.

Lemma oldest_elem l p : oldest l = Some p → p ∈ l.
Proof.
  revert p. induction l as [|q l IH]; intros p; simpl; [done|].
  destruct (oldest l) as [q'|]; [destruct (_ <? _)|]; intros [= <-]; set_solver.
Qed.

Lemma oldest_none l : oldest l = None → l = [].
Proof. destruct l; simpl; [done|]. by destruct (oldest l) as [|]; [destruct (_ <? _)|]. Qed.

Lemma evict_incident_ok id m :
  len m ≤ MAX_INCIDENTS_PER_ORG →
  evict_incident id m ⊆ m ∧ evict_incident id m !! id = m !! id ∧
  (is_Some (m !! id) ∨ len (evict_incident id m) < MAX_INCIDENTS_PER_ORG).
Proof.
  intros Hl. unfold evict_incident. case_bool_decide as Hk; simpl.
  2:{ split; [done|]. split; [done|]. left. by apply not_eq_None_Some. }
  destruct (MAX_INCIDENTS_PER_ORG <=? len m) eqn:E; breflect; [|by split_and!; [..|right]].
  assert (m ≠ ∅) as Hne by (apply len_pos; unfold MAX_INCIDENTS_PER_ORG in *; lia).
  destruct (oldest (iter m)) as [[v inc]|] eqn:Eo.
  - apply oldest_elem, iter_elem in Eo. split; [apply delete_subseteq|]. split.
    + rewrite lookup_delete. case_decide; congruence.
    + right. rewrite len_delete by eauto. lia.
  - apply oldest_none in Eo. exfalso. apply Hne, map_eq. intros k.
    rewrite lookup_empty. apply eq_None_not_Some. intros [x Hx%iter_elem].
    rewrite Eo in Hx. by apply elem_of_nil in Hx.
Qed.

Lemma upsert_ok org kind sev scope run agent ts i :
  incidents_ok (incidents i) →
  incidents_ok (incidents (upsert_incident org kind sev scope run agent ts i).1).
Proof.
  intros Hi. unfold upsert_incident. cbn [fst].
  assert (len (default ∅ (incidents i !! org)) ≤ MAX_INCIDENTS_PER_ORG ∧
    ∀ id inc, default ∅ (incidents i !! org) !! id = Some inc → in_id inc = id ∧ in_org inc = org)
    as [Hl Hk].
  { destruct (incidents i !! org) as [m|] eqn:E; [by apply Hi|]. simpl.
    split; [by vm_compute|]. intros id inc. by rewrite lookup_empty. }
  set (id := incident_id kind scope).
  destruct (evict_incident_ok id _ Hl) as (Hsub & Hsame & Hroom).
  intros org' m. unfold set_incidents. cbn [incidents]. rewrite lookup_insert.
  case_decide; [|apply Hi]. subst. intros [= <-]. split.
  - rewrite len_insert, Hsame. assert (len (evict_incident id (default ∅ (incidents i !! org'))) ≤
      len (default ∅ (incidents i !! org'))).
    { unfold len. apply Nat2Z.inj_le, map_subseteq_size, Hsub. }
    destruct Hroom as [[? ->]|]; [lia|]. case_match; lia.
  - intros id' inc. rewrite lookup_insert. case_decide; subst.
    + intros [= <-]. rewrite Hsame. simpl. destruct (default ∅ _ !! id) as [x|] eqn:Ex; [|done].
      simpl. by apply Hk.
    + intros Hx. eapply Hk, lookup_weaken; done.
Qed.

(** The finding that was just upserted is found again. *)
Lemma upsert_found org kind sev scope run agent ts i :
  let p := upsert_incident org kind sev scope run agent ts i in
  incidents_ok (incidents i) →
  in_id p.2 = incident_id kind scope ∧ get_in org (in_id p.2) (incidents p.1) = Some p.2.
Proof.
  cbv zeta. intros Hi. unfold upsert_incident. cbn [fst snd].
  assert (∀ inc, default ∅ (incidents i !! org) !! incident_id kind scope = Some inc →
                 in_id inc = incident_id kind scope) as Hk.
  { destruct (incidents i !! org) as [m|] eqn:E; simpl; [|intros ?; by rewrite lookup_empty].
    intros inc Hinc. by apply (Hi _ _ E). }
  set (inc := default _ _). assert (in_id inc = incident_id kind scope) as Hid.
  { subst inc. unfold evict_incident. destruct (_ && _) eqn:Eb; breflect; simpl in *.
    - rewrite H0 in Hk. destruct (oldest _) as [[v x]|]; [|by rewrite H0].
      rewrite lookup_delete. case_decide; [done|by rewrite H0].
    - destruct (default ∅ _ !! _) eqn:E'; [by apply Hk|done]. }
  simpl. split; [done|]. rewrite Hid. unfold get_in, set_incidents. cbn [incidents].
  by rewrite lookup_insert_eq; simpl; rewrite lookup_insert_eq.
Qed.

Lemma fire_ok n over org kind sev scope run agent ts s :
  det_ok n s.1 → det_ok n (fire over org kind sev scope run agent ts s).1.
Proof.
  intros Hd. unfold fire. destruct over; [|done].
  pose proof (upsert_ok org kind sev scope run agent ts s.1 (do_incidents _ _ Hd)) as Hu.
  destruct Hd as [Ht Hf _]. by split.
Qed.

Lemma detect_record_ok n org now s r :
  n + 2 < u64_max → det_ok n s.1 → det_ok (n + 3) (detect_record cfg org now s r).1.
Proof.
  intros Hn Hd. unfold detect_record. set (ts := if 0 <? r_ts r then _ else _).
  set (agent := if is_empty_str _ then _ else _).
  assert (det_ok (n + 1) (detect_budget cfg org r ts agent s).1) as H1.
  { unfold detect_budget. case_match; [|by eapply det_ok_mono; [|done]; lia].
    pose proof (bump_tracker_ok n org "budget_exhausted" (r_run_id r) ts None s.1 ltac:(lia) Hd) as Hb.
    destruct (bump_tracker _ _ _ _ _ _) as [i m]. by apply fire_ok. }
  revert H1. generalize (detect_budget cfg org r ts agent s). clear s Hd. intros s H1.
  assert (det_ok (n + 2) (detect_loop cfg org r ts agent now s).1) as H2.
  { unfold detect_loop. case_match; [|by eapply det_ok_mono; [|done]; lia].
    pose proof (bump_tracker_ok (n + 1) org "sustained_loop" (r_run_id r) ts
      (Some (now, loop_window_ms cfg)) s.1 ltac:(lia) H1) as Hb.
    destruct (bump_tracker _ _ _ _ _ _) as [i m]. replace (n + 2) with (n + 1 + 1) by lia.
    by apply fire_ok. }
  revert H2. generalize (detect_loop cfg org r ts agent now s). clear s H1. intros s H2.
  unfold detect_fanout. destruct agent as [a|]; [|by eapply det_ok_mono; [|done]; lia].
  pose proof (bump_fanout_ok (n + 2) org a (r_run_id r) ts now (fanout_window_ms cfg) s.1
    ltac:(lia) H2) as Hb.
  destruct (bump_fanout_tracker _ _ _ _ _ _ _) as [i m]. replace (n + 3) with (n + 2 + 1) by lia.
  by apply fire_ok.
Qed.

Lemma detect_records_ok n org now s rs :
  n + 3 * Z.of_nat (length rs) ≤ u64_max → det_ok n s.1 →
  det_ok (n + 3 * Z.of_nat (length rs)) (foldl (detect_record cfg org now) s rs).1.
Proof.
  revert n s. induction rs as [|r rs IH]; intros n s Hn Hd; [by rewrite Z.add_0_r|].
  cbn [foldl length] in *.
  replace (n + 3 * Z.of_nat (S (length rs))) with (n + 3 + 3 * Z.of_nat (length rs)) by lia.
  apply IH; [lia|]. apply detect_record_ok; [lia|done].
Qed.

(** ** The whole state *)

(** Detection changes the trackers and the incidents, and nothing else. *)
Definition det_step (i j : Inner) : Prop :=
  ∃ t tr f fr inc,
    j = set_incident_tracker (λ _, t) (set_tracker_recency (λ _, tr)
          (set_fanout_tracker (λ _, f) (set_fanout_recency (λ _, fr) (set_incidents (λ _, inc) i)))).

Lemma det_step_intro i j :
  j = set_incident_tracker (λ _, incident_tracker j) (set_tracker_recency (λ _, tracker_recency j)
        (set_fanout_tracker (λ _, fanout_tracker j) (set_fanout_recency (λ _, fanout_recency j)
        (set_incidents (λ _, incidents j) i)))) → det_step i j.
Proof. intros. by do 5 eexists. Qed.

#[local] Instance det_step_preorder : PreOrder det_step.
Proof.
  split.
  - intros i. apply det_step_intro. by destruct i.
  - intros i j k (t & tr & f & fr & inc & ->) (t' & tr' & f' & fr' & inc' & ->).
    by exists t', tr', f', fr', inc'.
Qed.

Lemma upsert_step org kind sev scope run agent ts i :
  det_step i (upsert_incident org kind sev scope run agent ts i).1.
Proof. apply det_step_intro. by destruct i. Qed.

Lemma fire_step over org kind sev scope run agent ts s :
  det_step s.1 (fire over org kind sev scope run agent ts s).1.
Proof. unfold fire. destruct over; [|done]. apply (upsert_step _ _ _ _ _ _ _ s.1). Qed.

Lemma bump_step org kind scope ts w i : det_step i (bump_tracker org kind scope ts w i).1.
Proof.
  unfold bump_tracker. destruct (bound_tracker _ _ _). apply det_step_intro. by destruct i.
Qed.

Lemma bump_fanout_step org a run ts now w i :
  det_step i (bump_fanout_tracker org a run ts now w i).1.
Proof.
  unfold bump_fanout_tracker. destruct (bound_tracker _ _ _). apply det_step_intro. by destruct i.
Qed.

Lemma detect_record_step org now s r : det_step s.1 (detect_record cfg org now s r).1.
Proof.
  unfold detect_record. set (ts := if 0 <? r_ts r then _ else _).
  set (agent := if is_empty_str _ then _ else _).
  transitivity (detect_budget cfg org r ts agent s).1;
    [|transitivity (detect_loop cfg org r ts agent now (detect_budget cfg org r ts agent s)).1].
  - unfold detect_budget. case_match; [|done].
    pose proof (bump_step org "budget_exhausted" (r_run_id r) ts None s.1) as Hb.
    destruct (bump_tracker _ _ _ _ _ _) as [i m].
    etransitivity; [exact Hb|]. apply (fire_step _ _ _ _ _ _ _ _ (i, s.2)).
  - generalize (detect_budget cfg org r ts agent s). clear s. intros s.
    unfold detect_loop. case_match; [|done].
    pose proof (bump_step org "sustained_loop" (r_run_id r) ts
      (Some (now, loop_window_ms cfg)) s.1) as Hb.
    destruct (bump_tracker _ _ _ _ _ _) as [i m].
    etransitivity; [exact Hb|]. apply (fire_step _ _ _ _ _ _ _ _ (i, s.2)).
  - generalize (detect_loop cfg org r ts agent now (detect_budget cfg org r ts agent s)).
    clear s. intros s. unfold detect_fanout. destruct agent as [a|]; [|done].
    pose proof (bump_fanout_step org a (r_run_id r) ts now (fanout_window_ms cfg) s.1) as Hb.
    destruct (bump_fanout_tracker _ _ _ _ _ _ _) as [i m].
    etransitivity; [exact Hb|]. apply (fire_step _ _ _ _ _ _ _ _ (i, s.2)).
Qed.

(** The state an ingest leaves is the folded and sampled one, up to detection. *)
Lemma ingest_step org rs now i :
  det_step (push_samples org rs (fold_records alert_pct org rs now i))
           (ingest_locked alert_pct cfg org rs now i).1.1.
Proof.
  unfold ingest_locked. set (j := push_samples _ _ _).
  assert (det_step j (foldl (detect_record cfg org now) (j, ∅) rs).1) as Hd.
  { generalize (∅ : gmap string Incident). clearbody j. revert j. induction rs as [|r rs IH]; intros j f; [done|].
    cbn [foldl]. pose proof (detect_record_step org now (j, f) r) as Hr.
    destruct (detect_record cfg org now (j, f) r) as [j' f']. etransitivity; [exact Hr|apply IH]. }
  revert Hd. generalize (foldl (detect_record cfg org now) (j, ∅) rs). intros s Hd.
  pose proof (fire_step (spend_per_min_micros cfg <=?
     default 0 ((λ log, burn_since log (i64_wrap (now - SPIKE_WINDOW_MS)) now) <$> series s.1 !! org))
     org "spend_spike" High "" None None now s) as Hs.
  unfold detect_spike. destruct (fire _ _ _ _ _ _ _ _ _) as [k f]. cbn [fst snd] in *.
  by etransitivity.
Qed.

Lemma det_step_view i j org : det_step i j → view org j = view org i.
Proof. by intros (? & ? & ? & ? & ? & ->). Qed.

Lemma view_put org org' v i :
  view org' (put_view org v i) = if decide (org' = org) then v else view org' i.
Proof.
  unfold view, put_view. cbn. rewrite !lookup_insert. case_decide as Hd.
  - subst. rewrite decide_True by done. by destruct v.
  - rewrite decide_False by done. done.
Qed.

Lemma view_push org org' rs i : view org' (push_samples org rs i) = view org' i.
Proof. done. Qed.

(** What a batch does to the aggregates, seen from any organization. *)
Lemma ingest_view org rs now i org' :
  view org' (ingest_locked alert_pct cfg org rs now i).1.1 =
  if decide (org' = org)
  then foldl (fold_record alert_pct (budgets i !! org) (month_key now)) (view org i) rs
  else view org' i.
Proof.
  rewrite (det_step_view _ _ org' (ingest_step org rs now i)).
  unfold fold_records. rewrite view_push, view_put. by case_decide.
Qed.

Record bounded (n : Z) (i : Inner) : Prop := mkBounded {
  b_view : ∀ org, view_ok n (view org i);
  b_det : det_ok n i;
  b_series : ∀ org q, series i !! org = Some q → Z.of_nat (length q) ≤ SERIES_CAP;
  b_nonces : ∀ d q, nonces i !! d = Some q → Z.of_nat (length q) ≤ NONCE_CAP
}.

Lemma bounded_empty n : 0 ≤ n → bounded n empty_inner.
Proof.
  intros Hn. split; [by intros; apply view_ok_empty| |..]; simpl.
  - split; simpl; [by apply tracker_ok_empty..|]. intros org m. by rewrite lookup_empty.
  - intros org q. by rewrite lookup_empty.
  - intros d q. by rewrite lookup_empty.
Qed.

Lemma ingest_bounded n org rs now i :
  n + 3 * Z.of_nat (length rs) ≤ u64_max → bounded n i →
  bounded (n + 3 * Z.of_nat (length rs)) (ingest_locked alert_pct cfg org rs now i).1.1.
Proof.
  intros Hn [Hv Hd Hs Hk]. pose proof (ingest_step org rs now i) as Hstep. split.
  - intros org'. rewrite ingest_view. eapply view_ok_mono with (n := n + Z.of_nat (length rs)); [lia|].
    case_decide; [apply fold_records_ok; [lia|done]|]. eapply view_ok_mono; [|apply Hv]. lia.
  - unfold ingest_locked. set (j := push_samples _ _ _).
    assert (det_ok n j) as Hj by (destruct Hd; by split).
    pose proof (detect_records_ok n org now (j, ∅) rs Hn Hj) as Hr.
    revert Hr. generalize (foldl (detect_record cfg org now) (j, ∅) rs). intros s Hr.
    unfold detect_spike.
    pose proof (λ over, fire_ok (n + 3 * Z.of_nat (length rs)) over org "spend_spike" High ""
                  None None now s Hr) as Hf.
    match goal with |- context [fire ?o] => specialize (Hf o) end.
    by destruct (fire _ _ _ _ _ _ _ _ _).
  - destruct Hstep as (? & ? & ? & ? & ? & ->). intros org' q. cbn. rewrite lookup_insert.
    case_decide; [|apply Hs]. intros [= <-]. rewrite trim_front_length; unfold SERIES_CAP; lia.
  - destruct Hstep as (? & ? & ? & ? & ? & ->). apply Hk.
Qed.

(** The fields the invariant is about, incidents and nonces aside. *)
Definition core (i : Inner) :=
  (orgs i, savings i, decision_counts i, org_totals i, run_recency i, break_recency i,
   unit_months i, incident_tracker i, tracker_recency i, fanout_tracker i, fanout_recency i,
   series i).

Lemma bounded_frame n i j :
  core j = core i → incidents_ok (incidents j) →
  (∀ d q, nonces j !! d = Some q → Z.of_nat (length q) ≤ NONCE_CAP) → bounded n i → bounded n j.
Proof.
  intros Hc Hi Hn [Hv [Hd1 Hd2 _] Hs _]. injection Hc as E1 E2 E3 E4 E5 E6 E7 E8 E9 E10 E11 E12.
  split; [|split|..]; try done.
  - intros org. unfold view. rewrite E1, E2, E3, E4, E5, E6, E7. apply Hv.
  - by rewrite E8, E9.
  - by rewrite E10, E11.
  - by rewrite E12.
Qed.

Lemma incidents_update org id inc inc' m :
  get_in org id m = Some inc → in_id inc' = in_id inc → in_org inc' = in_org inc →
  incidents_ok m → incidents_ok (insert_in org id inc' m).
Proof.
  intros Hg Hid Horg Hm org' per_org. unfold insert_in. rewrite lookup_insert.
  case_decide; [subst|apply Hm]. intros [= <-]. unfold get_in in Hg.
  destruct (m !! org') as [p|] eqn:E; [|done]. simpl in *. destruct (Hm _ _ E) as [Hl Hk].
  split; [by rewrite len_insert, Hg|]. intros id' x. rewrite lookup_insert.
  case_decide; [|apply Hk]. intros [= <-]. subst. rewrite Hid, Horg. by apply Hk.
Qed.

Lemma seed_order_elem (runs : gmap string RunAgg) k :
  (∀ k a, runs !! k = Some a → ra_run_id a = k) →
  k ∈ Store.seed_order runs ↔ is_Some (runs !! k).
Proof.
  intros Hk. unfold Store.seed_order. rewrite list_elem_of_fmap. setoid_rewrite sort_by_elem.
  setoid_rewrite list_elem_of_fmap. split.
  - intros (p & -> & a & -> & [k' Ha]%hash_values_elem). simpl. rewrite (Hk _ _ Ha). eauto.
  - intros [a Ha]. exists (ra_run_id a, ra_last_seen a). simpl. rewrite (Hk _ _ Ha).
    split; [done|]. exists a. rewrite (Hk _ _ Ha). split; [done|]. apply hash_values_elem. eauto.
Qed.

Lemma seed_order_length (runs : gmap string RunAgg) :
  Z.of_nat (length (Store.seed_order runs)) = len runs.
Proof.
  unfold Store.seed_order, len. rewrite length_fmap, sort_by_length, length_fmap. unfold values.
  rewrite length_fmap, iter_perm. by rewrite length_map_to_list.
Qed.

Lemma seed_touch l (r : RecencyIndex string) :
  sound r → next_seq r + Z.of_nat (length l) ≤ u64_max →
  sound (foldl touch r l) ∧ next_seq (foldl touch r l) = next_seq r + Z.of_nat (length l) ∧
  ∀ k, is_Some (seq_of (foldl touch r l) !! k) ↔ k ∈ l ∨ is_Some (seq_of r !! k).
Proof.
  revert r. induction l as [|x l IH]; intros r Hs Hn; cbn [foldl length] in *.
  { split; [done|]. split; [lia|]. intros k. rewrite elem_of_nil. tauto. }
  destruct (touch_spec r x Hs ltac:(lia)) as (Hs' & _ & Hq & Hx).
  destruct (IH (touch r x) Hs' ltac:(lia)) as (Hs2 & Hn2 & Hk).
  split; [done|]. split; [lia|]. intros k. rewrite Hk, Hq, lookup_insert, elem_of_cons.
  case_decide; subst; [|naive_solver]. split; eauto.
Qed.

(** The index a restart builds follows the restored runs. *)
Lemma seed_tracks n (runs : gmap string RunAgg) :
  len runs ≤ n → n ≤ u64_max → (∀ k a, runs !! k = Some a → ra_run_id a = k) →
  tracks n runs (foldl touch empty_index (Store.seed_order runs)).
Proof.
  intros Hl Hn Hk. destruct (seed_touch (Store.seed_order runs) empty_index sound_empty)
    as (Hs & Hx & Hq); rewrite seed_order_length in *; [simpl; lia|].
  split; [done|simpl in *; lia|]. intros k. rewrite Hq, seed_order_elem by done. simpl.
  rewrite lookup_empty. split; [by left|]. intros [?|[? [=]]]. done.
Qed.

Lemma backfill_id sav :
  Z.of_nat (size (sa_breaks sav)) ≤ sa_budget_breaks sav → Store.backfill_breaks sav = sav.
Proof. intros Hc. unfold Store.backfill_breaks. by destruct (_ <? _) eqn:E; breflect; [lia|]. Qed.

Lemma restart_view n i org :
  MAX_RUNS_PER_ORG ≤ n → n ≤ u64_max → view_ok n (view org i) →
  view_ok n (view org (Store.restore (Store.snapshot i) empty_inner)).
Proof.
  intros H0 Hn [Hlen _ Hkey Hbs Hbc _ Hmon Hdc]. unfold view in *. cbn in Hlen, Hkey, Hbs, Hbc, Hmon, Hdc |- *.
  rewrite !lookup_fmap, lookup_empty. split; cbn; try done.
  - destruct (orgs i !! org) as [runs|]; simpl; [|apply tracks_empty; unfold MAX_RUNS_PER_ORG in *; lia].
    apply seed_tracks; [simpl in *; lia|done|done].
  - destruct (savings i !! org) as [sav|]; simpl in *; [|done]. by rewrite backfill_id.
  - destruct (savings i !! org) as [sav|]; simpl in *; [|done]. by rewrite backfill_id.
  - split; [apply sound_empty|]. split; [unfold MAX_RUNS_PER_ORG in *; simpl; lia|].
    intros k [? Hk]. by rewrite lookup_empty in Hk.
Qed.

Lemma finding_bounded n now org by_ f i :
  bounded n i → bounded n (Store.record_external_finding sha256 now org by_ f i).1.
Proof.
  intros Hb. unfold Store.record_external_finding.
  set (agent := if starts_with _ _ then _ else _). clearbody agent.
  pose proof (upsert_ok org (Store.fi_detector f) (Store.fi_severity f) (Store.fi_subject f) None
                agent (Store.fi_ts f) i (do_incidents _ _ (b_det _ _ Hb))) as Hu.
  pose proof (upsert_step org (Store.fi_detector f) (Store.fi_severity f) (Store.fi_subject f) None
                agent (Store.fi_ts f) i) as Hst.
  assert (core (upsert_incident org (Store.fi_detector f) (Store.fi_severity f)
    (Store.fi_subject f) None agent (Store.fi_ts f) i).1 = core i) as Hc by done.
  revert Hu Hst Hc. generalize (upsert_incident org (Store.fi_detector f) (Store.fi_severity f)
    (Store.fi_subject f) None agent (Store.fi_ts f) i). intros [j inc] Hu Hst Hc. cbn [fst] in *.
  assert (bounded n j) as Hj.
  { eapply bounded_frame; [exact Hc|exact Hu| |exact Hb].
    destruct Hst as (? & ? & ? & ? & ? & ->). apply Hb. }
  destruct (get_in _ _ _) as [stored|] eqn:E; cbn [fst].
  - eapply bounded_frame; [| | |exact Hj]; [reflexivity| |apply Hj].
    by eapply incidents_update; [exact E|..].
  - eapply bounded_frame; [| | |exact Hj]; [reflexivity|exact Hu|apply Hj].
Qed.

Lemma apply_op_bounded n i op :
  MAX_RUNS_PER_ORG ≤ n → n + 3 * volume op ≤ u64_max → bounded n i →
  bounded (n + 3 * volume op) (apply_op i op).
Proof.
  intros H0 Hn Hb. destruct op; cbn [volume] in *; rewrite ?Z.mul_0_r, ?Z.add_0_r in *;
    try (eapply bounded_frame; [| | |exact Hb]; [reflexivity|apply Hb|apply Hb]).
  - by apply ingest_bounded.
  - cbn. unfold Store.ack_incident. destruct (get_in _ _ _) as [inc|] eqn:E; [|done].
    eapply bounded_frame; [| | |exact Hb]; [reflexivity| |apply Hb].
    by eapply incidents_update; [exact E|..]; [| |apply Hb].
  - cbn. unfold Store.ack_incident_audited. destruct (get_in _ _ _) as [inc|] eqn:E; [|done].
    eapply bounded_frame; [| | |exact Hb]; [reflexivity| |apply Hb].
    by eapply incidents_update; [exact E|..]; [| |apply Hb].
  - by apply finding_bounded.
  - cbn. unfold Store.mark_incident_notified. destruct (get_in _ _ _) as [inc|] eqn:E; [|done].
    destruct (_ <? _); [|done].
    eapply bounded_frame; [| | |exact Hb]; [reflexivity| |apply Hb].
    by eapply incidents_update; [exact E|..]; [| |apply Hb].
  - cbn. unfold Store.redeem_pairing. destruct (pairings i !! code); [|done].
    by destruct (_ <? _); (eapply bounded_frame; [| | |exact Hb]; [reflexivity|apply Hb|apply Hb]).
  - cbn. unfold Store.redeem_pairing_audited. destruct (pairings i !! code); [|done].
    by destruct (_ <? _); (eapply bounded_frame; [| | |exact Hb]; [reflexivity|apply Hb|apply Hb]).
  - cbn. unfold Store.check_and_record_nonce.
    assert (Z.of_nat (length (default [] (nonces i !! device))) ≤ NONCE_CAP) as Hl.
    { destruct (nonces i !! device) eqn:E; simpl; [by eapply b_nonces|done]. }
    destruct (existsb _ _); (eapply bounded_frame; [| | |exact Hb]; [reflexivity|apply Hb|]); cbn;
      intros d q; rewrite lookup_insert; (case_decide; [intros [= <-]|apply Hb]); [done|].
    rewrite trim_front_length; unfold NONCE_CAP; lia.
  - cbn. unfold Store.set_apns_token. destruct (find _ _) as [[k d]|]; [|done].
    eapply bounded_frame; [| | |exact Hb]; [reflexivity|apply Hb|apply Hb].
  - destruct Hb as [Hv Hd Hs Hk]. split; [intros; by apply restart_view| |..].
    + assert (0 ≤ n) by (unfold MAX_RUNS_PER_ORG in *; lia).
      split; [by apply tracker_ok_empty..|apply Hd].
    + intros org q. cbn. by rewrite lookup_empty.
    + intros d q. cbn. by rewrite lookup_empty.
Qed.

Definition total_volume (ops : list Op) : Z := zsum (volume <$> ops).

Lemma volume_nonneg op : 0 ≤ volume op.
Proof. destruct op; simpl; lia. Qed.

Lemma run_ops_bounded n i ops :
  MAX_RUNS_PER_ORG ≤ n → n + 3 * total_volume ops ≤ u64_max → bounded n i →
  bounded (n + 3 * total_volume ops) (run_ops i ops).
Proof.
  unfold total_volume. revert n i. induction ops as [|op ops IH]; intros n i H0 Hn Hb.
  { cbn. by rewrite Z.add_0_r. }
  rewrite zsum_fmap_cons in *. pose proof (volume_nonneg op).
  assert (0 ≤ zsum (volume <$> ops)).
  { apply zsum_nonneg, Forall_fmap, Forall_forall. intros; apply volume_nonneg. }
  replace (n + 3 * (volume op + zsum (volume <$> ops)))
    with (n + 3 * volume op + 3 * zsum (volume <$> ops)) by lia.
  apply (IH _ (apply_op i op)); [lia|lia|]. apply apply_op_bounded; [done|lia|done].
Qed.

End ops.
