(* ===== verification/CloudProps.v ===== *)
(** * What the control plane's store guarantees

    The caps, the exactness of the totals, the audit trail, restarts, replay defence and
    the incident evidence, for every sequence of operations. *)

From S2P Require Import Prelude Float Strings McpReport AuditChain UnitLedger.
From S2P Require Import Recency CloudTypes CloudIngest CloudStore CloudInv.
From S2P Require Savings.

(** Less than a third of 2^64 records: no 64-bit counter of touches wraps. *)
Definition fits (ops : list Op) : Prop := MAX_RUNS_PER_ORG + 3 * total_volume ops ≤ u64_max.

Section props.
Context `{HashOrder} (sha256 : string → string) (alert_pct : f64) (cfg : IncidentConfig).
Abbreviation apply := (apply_op sha256 alert_pct cfg).
Abbreviation run := (run_ops sha256 alert_pct cfg empty_inner).
Abbreviation server := (run_server sha256 alert_pct cfg).
Abbreviation survivors := (survivors sha256 alert_pct cfg).

Lemma run_bounded ops :
  fits ops → bounded (MAX_RUNS_PER_ORG + 3 * total_volume ops) (run ops).
Proof.
  intros Hf. apply run_ops_bounded; [done|done|]. by apply bounded_empty.
Qed.

(** ** Bounds *)

Lemma dc_bound (m : gmap string Z) :
  (∀ d, is_Some (m !! d) → is_known_decision d = true) → len m ≤ 9.
Proof.
  intros Hm. unfold len. rewrite <-size_dom.
  assert (dom m ⊆@{gset string} list_to_set ["allow"; "cache_hit"; "budget_exceeded";
    "policy_violation"; "loop_detected"; "killed"; "wasm_policy"; "taint_blocked"; "dlp_blocked"])
    as Hsub.
  { intros d Hd%elem_of_dom%Hm. unfold is_known_decision in Hd. breflect.
    by apply elem_of_list_to_set. }
  apply subseteq_size in Hsub. etransitivity; [apply Nat2Z.inj_le, Hsub|]. by vm_compute.
Qed.

(** C13: an untrusted batch cannot grow these tables of the control plane.  Whatever is
    ingested, by whomever, in whatever order with the operators' actions, saves and restarts,
    each organization's runs, samples, dedup memory of stopped runs, unit-month buckets,
    decision counters and incidents, the two detector trackers and each of their queues, and
    each device's nonces stay within their caps, as long as fewer than a third of 2^64 records
    were ingested ([fits]).  The number of organizations, the audit chains, the kills, the
    budgets, the devices, the pairings and the live activities have no cap. *)
Theorem memory_bounded (l : list Step) :
  fits (survivors l) →
  let i := live (server booted l) in
  (∀ org m, orgs i !! org = Some m → len m ≤ MAX_RUNS_PER_ORG) ∧
  (∀ org q, series i !! org = Some q → Z.of_nat (length q) ≤ SERIES_CAP) ∧
  (∀ org s, savings i !! org = Some s → Z.of_nat (size (sa_breaks s)) ≤ MAX_BREAK_KEYS) ∧
  (∀ org m, unit_months i !! org = Some m → len m ≤ MAX_UNIT_MONTH_KEYS + 1) ∧
  (∀ org m, decision_counts i !! org = Some m → len m ≤ 9) ∧
  (∀ org m, incidents i !! org = Some m → len m ≤ MAX_INCIDENTS_PER_ORG) ∧
  Z.of_nat (size (incident_tracker i)) ≤ MAX_TRACKER_KEYS ∧
  Z.of_nat (size (fanout_tracker i)) ≤ MAX_TRACKER_KEYS ∧
  (∀ k q, incident_tracker i !! k = Some q → Z.of_nat (length q) ≤ INCIDENT_TRACKER_CAP) ∧
  (∀ k q, fanout_tracker i !! k = Some q → Z.of_nat (length q) ≤ INCIDENT_TRACKER_CAP) ∧
  (∀ d q, nonces i !! d = Some q → Z.of_nat (length q) ≤ NONCE_CAP).
Proof.
  intros Hf. destruct (run_bounded (survivors l) Hf) as [Hv [[_ Ht Htc] [_ Hfa Hfc] Hi] Hs Hn].
  cbv zeta. rewrite live_survivors. set (i := run (survivors l)) in *. clearbody i.
  split_and!; try done.
  - intros org m E. destruct (Hv org) as [Hl _ _ _ _ _ _ _]. unfold view in Hl. simpl in Hl.
    by rewrite E in Hl.
  - intros org m E. destruct (Hv org) as [_ _ _ Hl _ _ _ _]. unfold view in Hl. simpl in Hl.
    by rewrite E in Hl.
  - intros org m E. destruct (Hv org) as [_ _ _ _ _ _ Hl _]. unfold view in Hl. simpl in Hl.
    rewrite E in Hl. simpl in Hl. destruct Hl as [?|[_ ?]]; lia.
  - intros org m E. apply dc_bound. destruct (Hv org) as [_ _ _ _ _ _ _ Hl].
    unfold view in Hl. simpl in Hl. by rewrite E in Hl.
  - intros org m E. by apply (Hi org m).
Qed.

(** ** The audit trail *)

(** What an operation logs, and for which organization. *)
Definition logged (i : Inner) (op : Op) : list (string * Event) :=
  match op with
  | KillAudited now org run actor => [(org, mkEvent now actor "control.kill" run "mode=hard")]
  | SetBudgetAudited now org run m actor =>
      [(org, mkEvent now actor "control.set_budget" run ("budget_micros=" +:+ pretty m))]
  | SetUnitBudgetAudited now org unit m actor =>
      [(org, mkEvent now actor "control.unit_budget_set" unit ("budget_micros=" +:+ pretty m))]
  | AckAudited now org id actor =>
      match get_in org id (incidents i) with
      | Some _ => [(org, mkEvent now actor "control.incident_ack" id "")]
      | None => []
      end
  | Finding now org by_ f =>
      [(org, mkEvent now by_ "control.finding_recorded"
               (incident_id (Store.fi_detector f) (Store.fi_subject f)) (Store.fi_source f))]
  | AuditAppend now org actor action subject detail =>
      [(org, mkEvent now actor action subject detail)]
  | RedeemAudited now code now_unix id _ _ _ platform =>
      match pairings i !! code with
      | Some p =>
          if pg_expires p <? now_unix then []
          else [(pg_org p, mkEvent now ("device:" +:+ id) "control.pair" id
                             ("role=" +:+ pg_role p +:+ ";platform=" +:+ platform))]
      | None => []
      end
  | _ => []
  end.

Fixpoint trail (i : Inner) (ops : list Op) : list (string * Event) :=
  match ops with
  | [] => []
  | op :: ops => logged i op ++ trail (apply i op) ops
  end.

Definition events_of (org : string) (l : list (string * Event)) : list Event :=
  snd <$> filter (λ p, p.1 = org) l.

Lemma events_of_app org l k : events_of org (l ++ k) = events_of org l ++ events_of org k.
Proof. unfold events_of. by rewrite filter_app, fmap_app. Qed.

Lemma audit_append_log now org actor action subject detail i j org' :
  audit j = audit i →
  Store.audit (Store.append_audit_locked sha256 now org actor action subject detail j) org' =
  foldl (record sha256) (Store.audit i org')
        (events_of org' [(org, mkEvent now actor action subject detail)]).
Proof.
  unfold Store.audit, Store.append_audit_locked, events_of. cbn [audit set_audit]. intros ->.
  rewrite lookup_insert, filter_cons. simpl. repeat case_decide; subst; done.
Qed.

Lemma audit_frame i j org : audit j = audit i → Store.audit j org = Store.audit i org.
Proof. unfold Store.audit. by intros ->. Qed.

Lemma apply_audit i op org :
  incidents_ok (incidents i) →
  Store.audit (apply i op) org = foldl (record sha256) (Store.audit i org) (events_of org (logged i op)).
Proof.
  intros Hi. destruct op; try done; cbn [logged apply_op].
  - apply audit_frame. destruct (ingest_step alert_pct cfg org0 records now i) as (? & ? & ? & ? & ? & ->).
    done.
  - by apply audit_append_log.
  - by apply audit_append_log.
  - by apply audit_append_log.
  - apply audit_frame. unfold Store.ack_incident. by destruct (get_in _ _ _).
  - unfold Store.ack_incident_audited. destruct (get_in _ _ _); [|done].
    by apply audit_append_log.
  - unfold Store.record_external_finding. set (agent := if starts_with _ _ then _ else _).
    pose proof (upsert_found org0 (Store.fi_detector f) (Store.fi_severity f) (Store.fi_subject f)
      None agent (Store.fi_ts f) i Hi) as Hf.
    pose proof (upsert_step org0 (Store.fi_detector f) (Store.fi_severity f) (Store.fi_subject f)
      None agent (Store.fi_ts f) i) as Hst. revert Hf Hst. cbv zeta.
    generalize (upsert_incident org0 (Store.fi_detector f) (Store.fi_severity f)
      (Store.fi_subject f) None agent (Store.fi_ts f) i). intros [j inc] [Hid Hg] Hst.
    cbn [fst snd] in *. rewrite Hg. cbn [fst].
    change (Store.audit (Store.touch_dirty ?x) org) with (Store.audit x org).
    rewrite (audit_append_log _ _ _ _ _ _ j) by done. cbn [Store.attribute_source in_id]. rewrite Hid. f_equal.
    apply audit_frame. by destruct Hst as (? & ? & ? & ? & ? & ->).
  - apply audit_frame. unfold Store.mark_incident_notified. destruct (get_in _ _ _); [|done].
    by destruct (_ <? _).
  - by apply audit_append_log.
  - apply audit_frame. unfold Store.redeem_pairing. destruct (pairings i !! code); [|done].
    by destruct (_ <? _).
  - unfold Store.redeem_pairing_audited. destruct (pairings i !! code) as [p|]; [|done].
    destruct (_ <? _); [done|]. by apply audit_append_log.
  - apply audit_frame. unfold Store.check_and_record_nonce. by destruct (existsb _ _).
  - apply audit_frame. unfold Store.set_apns_token. by destruct (find _ _) as [[? ?]|].
Qed.

Lemma trail_audit n i ops org :
  MAX_RUNS_PER_ORG ≤ n → n + 3 * total_volume ops ≤ u64_max → bounded n i →
  Store.audit (run_ops sha256 alert_pct cfg i ops) org =
  foldl (record sha256) (Store.audit i org) (events_of org (trail i ops)).
Proof.
  unfold total_volume. revert n i. induction ops as [|op ops IH]; intros n i H0 Hn Hb; [done|].
  rewrite zsum_fmap_cons in Hn. pose proof (volume_nonneg op).
  assert (0 ≤ zsum (volume <$> ops)).
  { apply zsum_nonneg, Forall_fmap, Forall_forall. intros; apply volume_nonneg. }
  cbn [run_ops foldl trail]. rewrite events_of_app, foldl_app.
  rewrite <-(apply_audit i op org) by apply Hb.
  apply (IH (n + 3 * volume op)); [lia|lia|]. apply apply_op_bounded; [done|lia|done].
Qed.

(** C14: the audit trail is the log of the operators' actions that survived.  After any
    history of operations, saves and restarts, the chain of an organization consists of
    exactly one entry per audited mutation of it whose effect the store still has, in order
    (none for an action that found nothing to act on), and it verifies end to end.  While the
    process runs that is every action; a restart goes back to the last save that succeeded,
    and forgets the actions after it, their entries included. *)
Theorem audit_trail_complete (l : list Step) org :
  fits (survivors l) →
  let i := live (server booted l) in
  Store.audit i org = log_of sha256 (events_of org (trail empty_inner (survivors l))) ∧
  Store.audit_verify sha256 i org = Ok tt ∧
  (Reboot ∉ l → survivors l = performed l).
Proof.
  intros Hf. cbv zeta. rewrite live_survivors. set (ops := survivors l) in *.
  assert (Store.audit (run ops) org = log_of sha256 (events_of org (trail empty_inner ops))) as Ha.
  { by apply (trail_audit MAX_RUNS_PER_ORG); [|apply Hf|apply bounded_empty]. }
  split; [done|]. split; [|apply survivors_performed]. unfold Store.audit in Ha.
  unfold Store.audit_verify.
  destruct (audit (run ops) !! org); simpl in Ha; [|done]. rewrite Ha. apply log_of_verifies.
Qed.

(** ** Totals *)

Definition ingested (org : string) (ops : list Op) : list CallRecord :=
  ops ≫= λ op, match op with
               | Ingest org' records _ => if decide (org' = org) then records else []
               | _ => []
               end.

(** Calls that count as real spend. *)
Definition real (rs : list CallRecord) : list CallRecord :=
  filter (λ r, is_blocked (r_decision r) = false) rs.

(** An absent or unsigned count. *)
Definition tool_calls_typed (r : CallRecord) : Prop := 0 ≤ default 0 (r_tool_calls r).

Definition exact_totals (rs : list CallRecord) : OrgTotals :=
  mkTotals (u64_wrap (Z.of_nat (length rs)))
           (Z.min i64_max (zsum (cost_of <$> real rs)))
           (Z.min u64_max (zsum (tool_calls_of <$> real rs))).

Lemma cost_sum_nonneg rs : 0 ≤ zsum (cost_of <$> rs).
Proof. apply zsum_nonneg, Forall_fmap, Forall_forall. intros r _. unfold cost_of. simpl. lia. Qed.

Lemma tool_sum_nonneg rs : Forall tool_calls_typed rs → 0 ≤ zsum (tool_calls_of <$> rs).
Proof. intros Hr. apply zsum_nonneg, Forall_fmap. done. Qed.

Lemma exact_totals_snoc rs r :
  Forall tool_calls_typed rs → tool_calls_typed r →
  update_totals r (exact_totals rs) = exact_totals (rs ++ [r]).
Proof.
  intros Hrs Hr. unfold update_totals, exact_totals, real. rewrite filter_app, length_app.
  rewrite filter_cons, filter_nil. pose proof (cost_sum_nonneg (real rs)) as Hc.
  assert (Forall tool_calls_typed (real rs)) as Hrr.
  { apply Forall_forall. intros x [_ Hx]%list_elem_of_filter. by eapply Forall_forall in Hrs. }
  pose proof (tool_sum_nonneg _ Hrr) as Ht. unfold real in Hc, Ht.
  assert (u64_wrap (u64_wrap (Z.of_nat (length rs)) + 1) =
    u64_wrap (Z.of_nat (length rs + length [r]))) as Hw.
  { unfold u64_wrap. rewrite Zplus_mod_idemp_l. f_equal. simpl. lia. }
  destruct (is_blocked (r_decision r)) eqn:E; cbn [negb ot_calls ot_spent ot_tool_calls].
  - rewrite decide_False by done. rewrite app_nil_r, Hw. done.
  - rewrite decide_True by done. rewrite Hw, !fmap_app, !zsum_app.
    assert (0 ≤ cost_of r) by (unfold cost_of; lia). unfold tool_calls_typed in Hr.
    cbn [fmap list_fmap zsum foldr]. fold (tool_calls_of r) in Hr. f_equal; mach.
Qed.

Lemma fold_totals budgets month_now v rs rs0 :
  Forall tool_calls_typed rs0 → Forall tool_calls_typed rs → v_totals v = exact_totals rs0 →
  v_totals (foldl (fold_record alert_pct budgets month_now) v rs) = exact_totals (rs0 ++ rs).
Proof.
  intros H0 Hrs. revert rs0 v H0. induction Hrs as [|r rs Hr _ IH]; intros rs0 v H0 Hv.
  { by rewrite app_nil_r. }
  cbn [foldl]. rewrite cons_middle, app_assoc. apply IH.
  - apply Forall_app. split; [done|by constructor].
  - unfold fold_record. destruct (evict_run _ _ _ _ _), (fold_blocked _ _ _). cbn [v_totals].
    by rewrite Hv, exact_totals_snoc.
Qed.

(** Totals exist wherever runs do. *)
Definition totals_cover (i : Inner) : Prop :=
  ∀ org, is_Some (orgs i !! org) → is_Some (org_totals i !! org).

Lemma op_core i op :
  match op with Ingest _ _ _ | Restart => True | _ => core (apply i op) = core i end.
Proof.
  destruct op; try done; cbn [apply_op].
  - unfold Store.ack_incident. by destruct (get_in _ _ _).
  - unfold Store.ack_incident_audited. by destruct (get_in _ _ _).
  - unfold Store.record_external_finding. set (agent := if starts_with _ _ then _ else _).
    pose proof (upsert_step org (Store.fi_detector f) (Store.fi_severity f) (Store.fi_subject f)
      None agent (Store.fi_ts f) i) as Hst.
    assert (core (upsert_incident org (Store.fi_detector f) (Store.fi_severity f)
      (Store.fi_subject f) None agent (Store.fi_ts f) i).1 = core i) as Hc by done. revert Hc.
    generalize (upsert_incident org (Store.fi_detector f) (Store.fi_severity f)
      (Store.fi_subject f) None agent (Store.fi_ts f) i). intros [j inc] Hc. cbn [fst snd] in *.
    by destruct (get_in _ _ _).
  - unfold Store.mark_incident_notified. destruct (get_in _ _ _); [|done]. by destruct (_ <? _).
  - unfold Store.redeem_pairing. destruct (pairings i !! code); [|done]. by destruct (_ <? _).
  - unfold Store.redeem_pairing_audited. destruct (pairings i !! code); [|done].
    by destruct (_ <? _).
  - unfold Store.check_and_record_nonce. by destruct (existsb _ _).
  - unfold Store.set_apns_token. by destruct (find _ _) as [[? ?]|].
Qed.

Lemma core_view i j org : core j = core i → view org j = view org i.
Proof.
  intros Hc. injection Hc as E1 E2 E3 E4 E5 E6 E7 _ _ _ _ _. unfold view.
  by rewrite E1, E2, E3, E4, E5, E6, E7.
Qed.

Lemma core_cover i j : core j = core i → totals_cover i → totals_cover j.
Proof. intros Hc. injection Hc as E1 _ _ E4 _ _ _ _ _ _ _ _. unfold totals_cover. by rewrite E1, E4. Qed.

Lemma apply_cover i op : totals_cover i → totals_cover (apply i op).
Proof.
  intros Hc. pose proof (op_core i op) as Hcore.
  destruct op; try (by eapply core_cover; [exact Hcore|]); cbn [apply_op].
  - destruct (ingest_step alert_pct cfg org records now i) as (? & ? & ? & ? & ? & ->).
    intros org'. cbn. rewrite !lookup_insert. case_decide; [eauto|apply Hc].
  - intros org [m Hm]. cbn in *. apply lookup_union_is_Some. left. apply Hc. eauto.
Qed.

Lemma restart_totals i org :
  totals_cover i →
  v_totals (view org (Store.restore (Store.snapshot i) empty_inner)) = v_totals (view org i).
Proof.
  intros Hc. unfold view. cbn. f_equal. rewrite lookup_union, lookup_fmap.
  destruct (org_totals i !! org) as [t|] eqn:E; [by rewrite union_Some_l|].
  destruct (orgs i !! org) eqn:Eo; [|done]. destruct (Hc org) as [? ?]; [eauto|]. congruence.
Qed.

Lemma run_totals i ops org rs0 :
  totals_cover i → Forall tool_calls_typed rs0 → Forall tool_calls_typed (ingested org ops) →
  v_totals (view org i) = exact_totals rs0 →
  v_totals (view org (run_ops sha256 alert_pct cfg i ops)) = exact_totals (rs0 ++ ingested org ops).
Proof.
  revert i rs0. induction ops as [|op ops IH]; intros i rs0 Hc H0 Hops Hv.
  { by rewrite app_nil_r. }
  cbn [ingested mbind list_bind] in *. apply Forall_app in Hops as [Hop Hops].
  rewrite app_assoc. cbn [run_ops foldl]. apply IH; [by apply apply_cover|by apply Forall_app|done|].
  pose proof (op_core i op) as Hcore.
  destruct op; rewrite ?app_nil_r; try (by rewrite (core_view i); [|exact Hcore]).
  - cbn [apply_op]. rewrite ingest_view. repeat case_decide; subst; try done; rewrite ?app_nil_r;
      [|done]. by apply fold_totals.
  - cbn [apply_op]. by rewrite restart_totals.
Qed.

(** C15: an organization's totals are exact for what survived.  Whatever was evicted, and
    however often the plane saved and was restarted, the summary counts every record the
    organization ingested whose effect the store still has (while the process runs, all of
    them; after a restart, those up to the last save that succeeded), and its spend and tool
    calls are the sums over the calls of these that were not blocked, negative costs counting
    as zero; they saturate instead of wrapping. *)
Theorem summary_exact (l : list Step) org :
  Forall tool_calls_typed (ingested org (survivors l)) →
  let rs := ingested org (survivors l) in
  let s := Store.summary (live (server booted l)) org in
  (Reboot ∉ l → rs = ingested org (performed l)) ∧
  sm_calls s = u64_wrap (Z.of_nat (length rs)) ∧
  sm_spent s = Z.min i64_max (zsum (cost_of <$> real rs)) ∧
  sm_tool_calls s = Z.min u64_max (zsum (tool_calls_of <$> real rs)).
Proof.
  intros Hrs. cbv zeta. split; [intros Hno; by rewrite survivors_performed|].
  rewrite live_survivors. set (ops := survivors l) in *.
  pose proof (run_totals empty_inner ops org []) as Ht. cbn [app] in Ht.
  unfold Store.summary. cbn [sm_calls sm_spent sm_tool_calls].
  change (default no_totals (org_totals (run ops) !! org)) with (v_totals (view org (run ops))).
  rewrite Ht; [done| |constructor|done|done].
  intros org' [? E]. cbn in E. by rewrite lookup_empty in E.
Qed.

End props.
