(* ===== verification/CloudGuards.v ===== *)
(** * What an untrusted caller cannot do to the control plane

    Single-step guarantees of the store: eviction never hides an alerting run, an
    unrecognized decision is no evidence, repeated blocks do open an incident, a nonce
    is accepted once, a pairing code once, a burn-rate series loses no sample, and a
    snapshot restores what was saved. *)

From S2P Require Import Prelude Float Strings McpReport AuditChain UnitLedger.
From S2P Require Import Recency CloudTypes CloudIngest CloudStore CloudInv.
From S2P Require Savings.

Section guards.
Context `{HashOrder} (sha256 : string → string) (alert_pct : f64) (cfg : IncidentConfig).

(** ** Eviction *)

(** Eviction never hides an alerting run.  In every reachable state, folding a
    record in keeps every retained run but at most one; the run it drops, to make room
    for a new one at the cap, is not over its alert threshold unless every retained run
    is, so it cannot silently leave the alerts. *)
Theorem eviction_spares_alerting ops org r month_now :
  MAX_RUNS_PER_ORG + 3 * total_volume ops ≤ u64_max →
  let i := run_ops sha256 alert_pct cfg empty_inner ops in
  let v := view org i in
  let v' := fold_record alert_pct (budgets i !! org) month_now v r in
  let alerting := is_alerting alert_pct (budgets i !! org) (v_runs v) in
  is_Some (v_runs v' !! r_run_id r) ∧
  (∀ k a, k ≠ r_run_id r → v_runs v' !! k = Some a → v_runs v !! k = Some a) ∧
  (∀ k, is_Some (v_runs v !! k) → v_runs v' !! k = None →
     len (v_runs v) = MAX_RUNS_PER_ORG ∧ v_runs v !! r_run_id r = None ∧
     (∀ k', v_runs v' !! k' = None → is_Some (v_runs v !! k') → k' = k) ∧
     (alerting k = false ∨ ∀ k', is_Some (v_runs v !! k') → alerting k' = true)).
Proof.
  intros Hf. cbv zeta. set (i := run_ops _ _ _ _ _).
  assert (bounded (MAX_RUNS_PER_ORG + 3 * total_volume ops) i) as Hb.
  { apply run_ops_bounded; [done|done|]. by apply bounded_empty. }
  destruct (b_view _ _ Hb org) as [Hlen Ht _ _ _ _ _ _]. generalize dependent i. intros i _ Hlen Ht.
  unfold fold_record. destruct (fold_blocked _ _ _) as [sav br].
  unfold evict_run. destruct (bool_decide (v_runs (view org i) !! r_run_id r = None) &&
    (MAX_RUNS_PER_ORG <=? len (v_runs (view org i)))) eqn:E.
  - breflect. destruct (tracks_evict _ _ _
      (is_alerting alert_pct (budgets i !! org) (v_runs (view org i))) Ht)
      as (w & r' & -> & Hw & _ & Hp); [apply len_pos; unfold MAX_RUNS_PER_ORG in *; lia|].
    cbn [v_runs]. assert (w ≠ r_run_id r) as Hne by (intros ->; rewrite H0 in Hw; by destruct Hw).
    split; [rewrite lookup_insert_eq; eauto|]. split.
    + intros k a Hk. rewrite lookup_insert_ne by done. by intros [_ ?]%lookup_delete_Some.
    + assert (∀ k, is_Some (v_runs (view org i) !! k) →
        <[r_run_id r := update_run r (default (new_run (r_run_id r))
           (delete w (v_runs (view org i)) !! r_run_id r))]> (delete w (v_runs (view org i))) !! k
          = None → k = w) as Hkw.
      { intros k [a Ha] [Hk Hn]%lookup_insert_None. apply lookup_delete_None in Hk as [?|?]; congruence. }
      intros k Hk Hn. pose proof (Hkw k Hk Hn) as ->. split; [lia|]. split; [done|].
      split; [|done]. intros k' Hn' Hk'. by apply Hkw.
  - cbn [v_runs]. split; [rewrite lookup_insert_eq; eauto|]. split.
    + intros k a Hk. by rewrite lookup_insert_ne.
    + intros k [a Ha] Hn. apply lookup_insert_None in Hn as [? ?]. congruence.
Qed.

(** ** Evidence *)

(** An unattributed record whose decision no gateway writes. *)
Definition forged (r : CallRecord) : Prop :=
  is_known_decision (r_decision r) = false ∧ r_agent_id r = "".

Lemma forged_detect org now s r : forged r → detect_record cfg org now s r = s.
Proof.
  intros [Hk Ha]. unfold detect_record, detect_budget, detect_loop, detect_fanout.
  by rewrite Hk, Ha.
Qed.

(** A forged decision is no evidence, except through its cost.  A batch of
    unattributed records with unrecognized decisions changes no decision count, and the
    only incident it can trip is the spend spike: the burn rate sums the cost of every
    sample, whatever its decision. *)
Theorem forged_decisions_no_evidence org rs now i :
  Forall forged rs → incidents_ok (incidents i) →
  let '(j, _, fired) := ingest_locked alert_pct cfg org rs now i in
  Store.decision_counts j org = Store.decision_counts i org ∧
  (∀ id, id ≠ incident_id "spend_spike" "" → fired !! id = None) ∧
  let log := default [] (series j !! org) in
  (burn_since log (i64_wrap (now - SPIKE_WINDOW_MS)) now < spend_per_min_micros cfg →
     fired = ∅ ∧ incidents j = incidents i) ∧
  (spend_per_min_micros cfg ≤ burn_since log (i64_wrap (now - SPIKE_WINDOW_MS)) now →
     ∃ inc, fired !! incident_id "spend_spike" "" = Some inc ∧
            get_in org (incident_id "spend_spike" "") (incidents j) = Some inc).
Proof.
  intros Hf Hok. pose proof (ingest_step alert_pct cfg org rs now i) as Hst.
  pose proof (ingest_view alert_pct cfg org rs now i org) as Hview. revert Hst Hview.
  unfold ingest_locked. set (j := push_samples _ _ _).
  assert (∀ s, foldl (detect_record cfg org now) s rs = s) as Hd.
  { induction Hf as [|r rs Hr _ IH]; intros s; [done|]. cbn [foldl]. by rewrite forged_detect, IH. }
  rewrite Hd. unfold detect_spike, fire. cbn [fst snd].
  assert (series j !! org = Some (default [] (series j !! org))) as Hlog.
  { subst j. cbn. by rewrite lookup_insert_eq. }
  assert (incidents j = incidents i) as Hinc by done. rewrite <-Hinc in Hok. clearbody j.
  rewrite Hlog. cbn [fmap option_fmap option_map default].
  rewrite decide_True by done.
  assert (∀ v, v_dc (foldl (fold_record alert_pct (budgets i !! org) (month_key now)) v rs) = v_dc v)
    as Hdc.
  { clear -Hf. induction Hf as [|r rs [Hr _] _ IH]; intros v; [done|]. cbn [foldl]. rewrite IH.
    unfold fold_record. destruct (evict_run _ _ _ _ _), (fold_blocked _ _ _). cbn [v_dc].
    unfold count_decision. by rewrite Hr. }
  destruct (_ <=? _) eqn:E; breflect.
  - pose proof (upsert_step org "spend_spike" High "" None None now j) as (? & ? & ? & ? & ? & Hu).
    pose proof (upsert_found org "spend_spike" High "" None None now j Hok) as [Hid Hg].
    destruct (upsert_incident org "spend_spike" High "" None None now j) as [k inc].
    cbn [fst snd] in *. intros _ Hview. rewrite Hid in Hg.
    assert (series k = series j) as Hs by by rewrite Hu.
    split; [|split; [|split]].
    + unfold Store.decision_counts.
      change (default ∅ (decision_counts k !! org)) with (v_dc (view org k)).
      by rewrite Hview, Hdc.
    + intros id Hne. rewrite Hid. by rewrite lookup_insert_ne.
    + rewrite Hs. intros ?. simpl in E. exfalso. lia.
    + intros _. exists inc. rewrite Hid, lookup_insert_eq. done.
  - cbn [fst snd]. intros _ Hview. split; [|split; [|split]].
    + unfold Store.decision_counts.
      change (default ∅ (decision_counts j !! org)) with (v_dc (view org j)).
      by rewrite Hview, Hdc.
    + done.
    + done.
    + intros ?. simpl in E. exfalso. lia.
Qed.
(** The record of a budget-family block that no other detector counts. *)
Definition budget_block (run : string) (r : CallRecord) : Prop :=
  r_run_id r = run ∧ is_known_decision (r_decision r) = true ∧
  Savings.is_budget_protection (r_decision r) = true ∧ r_decision r ≠ "loop_detected".

Definition tripped_times (org run : string) (i : Inner) : Z :=
  Z.of_nat (length (default [] (incident_tracker i !! (org, incident_id "budget_exhausted" run)))).

Lemma bump_tracker_count org run ts i :
  let p := bump_tracker org "budget_exhausted" run ts None i in
  p.2 = tripped_times org run p.1 ∧
  Z.min INCIDENT_TRACKER_CAP (tripped_times org run i + 1) ≤ p.2.
Proof.
  cbv zeta. unfold bump_tracker, tripped_times.
  destruct (bound_tracker _ _ _) as [m r] eqn:E. cbn [fst snd incident_tracker set_incident_tracker].
  rewrite lookup_insert_eq. cbn [default]. split; [done|]. rewrite trim_front_length by done.
  rewrite length_app. simpl. assert (length (default [] (incident_tracker i !!
    (org, incident_id "budget_exhausted" run))) ≤
    length (default [] (m !! (org, incident_id "budget_exhausted" run))))%nat; [|lia].
  unfold bound_tracker in E. case_bool_decide as Hk; simpl in E.
  - rewrite Hk. simpl. lia.
  - by injection E as <- _.
Qed.

Lemma fire_keeps over org kind sev scope run agent ts s :
  incident_tracker (fire over org kind sev scope run agent ts s).1 = incident_tracker s.1 ∧
  ∀ k, is_Some (s.2 !! k) → is_Some ((fire over org kind sev scope run agent ts s).2 !! k).
Proof.
  unfold fire. destruct over; [|done]. unfold upsert_incident. cbn [fst snd]. split; [done|].
  intros k Hk. apply lookup_insert_is_Some'. by right.
Qed.

(** What one such record does to the counter, and to what has fired. *)
Lemma block_counted org now s r run :
  budget_block run r → incidents_ok (incidents s.1) →
  let s' := detect_record cfg org now s r in
  Z.min INCIDENT_TRACKER_CAP (tripped_times org run s.1 + 1) ≤ tripped_times org run s'.1 ∧
  (budget_blocks cfg ≤ Z.min INCIDENT_TRACKER_CAP (tripped_times org run s.1 + 1) →
   is_Some (s'.2 !! incident_id "budget_exhausted" run)).
Proof.
  intros (<- & Hk & Hp & Hl) Hok. cbv zeta. unfold detect_record.
  set (ts := if 0 <? r_ts r then _ else _). set (agent := if is_empty_str _ then _ else _).
  assert (detect_loop cfg org r ts agent now (detect_budget cfg org r ts agent s)
    = detect_budget cfg org r ts agent s) as ->.
  { unfold detect_loop. by rewrite (bool_decide_false _ Hl), andb_false_r. }
  assert (let s' := detect_budget cfg org r ts agent s in
    Z.min INCIDENT_TRACKER_CAP (tripped_times org (r_run_id r) s.1 + 1)
      ≤ tripped_times org (r_run_id r) s'.1 ∧
    (budget_blocks cfg ≤ Z.min INCIDENT_TRACKER_CAP (tripped_times org (r_run_id r) s.1 + 1) →
     is_Some (s'.2 !! incident_id "budget_exhausted" (r_run_id r)))) as [H1 H2].
  { cbv zeta. unfold detect_budget. rewrite Hk, Hp. cbn [andb].
    pose proof (bump_tracker_count org (r_run_id r) ts s.1) as Hb. cbv zeta in Hb.
    pose proof (bump_step org "budget_exhausted" (r_run_id r) ts None s.1) as Hst.
    assert (incidents (bump_tracker org "budget_exhausted" (r_run_id r) ts None s.1).1
      = incidents s.1) as Hinc by (unfold bump_tracker; by destruct (bound_tracker _ _ _)).
    destruct (bump_tracker _ _ _ _ _ _) as [j n]. cbn [fst snd] in *. destruct Hb as [Hn Hb].
    unfold tripped_times at 2. rewrite (proj1 (fire_keeps _ _ _ _ _ _ _ _ _)). cbn [fst].
    fold (tripped_times org (r_run_id r) j). split; [lia|]. intros Hover. unfold fire.
    replace (budget_blocks cfg <=? n) with true by (symmetry; apply Z.leb_le; lia).
    cbn [fst]. rewrite <-Hinc in Hok.
    destruct (upsert_found org "budget_exhausted" High (r_run_id r) (Some (r_run_id r)) agent ts j Hok)
      as [Hid _]. destruct (upsert_incident _ _ _ _ _ _ _ _) as [k inc]. cbn [fst snd] in *.
    rewrite Hid, lookup_insert_eq. eauto. }
  revert H1 H2. cbv zeta. generalize (detect_budget cfg org r ts agent s). clear Hok. intros s1 H1 H2.
  unfold detect_fanout. destruct agent as [a|]; [|done].
  assert (incident_tracker (bump_fanout_tracker org a (r_run_id r) ts now (fanout_window_ms cfg) s1.1).1
    = incident_tracker s1.1) as Hf by (unfold bump_fanout_tracker; by destruct (bound_tracker _ _ _)).
  destruct (bump_fanout_tracker _ _ _ _ _ _ _) as [j n]. cbn [fst] in Hf.
  split.
  - unfold tripped_times at 2. rewrite (proj1 (fire_keeps _ _ _ _ _ _ _ _ _)). cbn [fst].
    by rewrite Hf.
  - intros Hover. apply fire_keeps. by apply H2.
Qed.

Lemma blocks_counted n org now run s rs :
  n + 3 * Z.of_nat (length rs) ≤ u64_max → det_ok n s.1 → Forall (budget_block run) rs →
  let s' := foldl (detect_record cfg org now) s rs in
  Z.min INCIDENT_TRACKER_CAP (tripped_times org run s.1 + Z.of_nat (length rs))
    ≤ tripped_times org run s'.1 ∧
  (rs ≠ [] → budget_blocks cfg ≤ Z.min INCIDENT_TRACKER_CAP
       (tripped_times org run s.1 + Z.of_nat (length rs)) →
   is_Some (s'.2 !! incident_id "budget_exhausted" run)).
Proof.
  cbv zeta. intros Hn Hd Hrs. revert Hn. induction rs as [|r rs IH] using rev_ind; intros Hn.
  { split; [simpl; lia|done]. }
  rewrite Forall_app, Forall_singleton in Hrs. destruct Hrs as [Hrs Hr]. rewrite length_app in *. simpl in Hn |- *.
  destruct (IH Hrs ltac:(lia)) as [Hc _]. rewrite foldl_app. cbn [foldl].
  assert (incidents_ok (incidents (foldl (detect_record cfg org now) s rs).1)) as Hok.
  { apply (do_incidents (n + 3 * Z.of_nat (length rs))). apply detect_records_ok; [lia|done]. }
  destruct (block_counted org now _ r run Hr Hok) as [H1 H2].
  assert (0 ≤ tripped_times org run s.1) by (unfold tripped_times; lia).
  unfold INCIDENT_TRACKER_CAP in *. split; [lia|]. intros _ Hover. apply H2. lia.
Qed.

(** A run that keeps hitting its budget raises an incident.  In every reachable
    state, a batch of at least as many budget-family blocks of a run as the threshold
    (itself within the tracker's memory) broadcasts its [budget_exhausted] incident,
    whatever else the plane holds. *)
Theorem repeated_blocks_raise_incident ops org run rs now :
  MAX_RUNS_PER_ORG + 3 * (total_volume ops + Z.of_nat (length rs)) ≤ u64_max →
  Forall (budget_block run) rs → rs ≠ [] →
  budget_blocks cfg ≤ Z.min INCIDENT_TRACKER_CAP (Z.of_nat (length rs)) →
  let i := run_ops sha256 alert_pct cfg empty_inner ops in
  let '(_, updated, fired) := ingest_locked alert_pct cfg org rs now i in
  ∃ inc, fired !! incident_id "budget_exhausted" run = Some inc ∧
         IncidentEvent inc ∈ ingest_events org updated fired.
Proof.
  intros Hf Hrs Hne Hth. cbv zeta. set (i := run_ops _ _ _ _ _).
  assert (bounded (MAX_RUNS_PER_ORG + 3 * total_volume ops) i) as Hb.
  { apply run_ops_bounded; [done|lia|]. by apply bounded_empty. }
  clearbody i. unfold ingest_locked. set (j := push_samples _ _ _).
  assert (det_ok (MAX_RUNS_PER_ORG + 3 * total_volume ops) j) as Hd.
  { destruct Hb as [_ [] _ _]. by split. }
  clearbody j. destruct (blocks_counted (MAX_RUNS_PER_ORG + 3 * total_volume ops) org now run (j, ∅) rs
    ltac:(lia) Hd Hrs) as [_ Hfired].
  cbv zeta in Hfired. unfold detect_spike.
  match goal with |- context [fire ?o ?a ?k ?sv ?sc ?rn ?ag ?t ?s] =>
    pose proof (proj2 (fire_keeps o a k sv sc rn ag t s) (incident_id "budget_exhausted" run)) as Hk
  end.
  destruct (fire _ _ _ _ _ _ _ _ _) as [k fired]. cbn [fst snd] in *.
  destruct Hk as [inc Hinc].
  { apply Hfired; [done|]. assert (0 ≤ tripped_times org run j)
      by (unfold tripped_times; lia). lia. }
  exists inc. split; [done|]. unfold ingest_events. apply elem_of_app. right.
  apply list_elem_of_fmap. exists inc. split; [done|]. apply hash_values_elem. eauto.
Qed.

End guards.
