(* ===== verification/CloudAccess.v ===== *)
(** * Replay defence, pairing, series, restarts

    Guarantees of the store's methods across every sequence of operations: a nonce is
    accepted once, a pairing code redeems once, a kill stays, a burn-rate series loses
    no sample, the month's spend is conserved, and a restart restores what was saved. *)

From S2P Require Import Prelude Float Strings McpReport AuditChain UnitLedger.
From S2P Require Import Recency CloudTypes CloudIngest CloudStore CloudInv CloudProps.

Section access.
Context `{HashOrder} (sha256 : string → string) (alert_pct : f64) (cfg : IncidentConfig).
Abbreviation apply := (apply_op sha256 alert_pct cfg).
Abbreviation run_from := (run_ops sha256 alert_pct cfg).

(** The fields only their own operations touch. *)
Lemma op_access i op :
  match op with
  | Nonce _ _ | CreatePairing _ _ _ _ | Redeem _ _ _ _ _ _ _ | RedeemAudited _ _ _ _ _ _ _ _
  | Kill _ _ | KillAudited _ _ _ _ | Restart => True
  | _ => nonces (apply i op) = nonces i ∧ pairings (apply i op) = pairings i ∧
         killed (apply i op) = killed i
  end.
Proof.
  destruct op; try done; cbn [apply_op].
  - by destruct (ingest_step alert_pct cfg org records now i) as (? & ? & ? & ? & ? & ->).
  - unfold Store.ack_incident. by destruct (get_in _ _ _).
  - unfold Store.ack_incident_audited. by destruct (get_in _ _ _).
  - unfold Store.record_external_finding. set (agent := if starts_with _ _ then _ else _).
    pose proof (upsert_step org (Store.fi_detector f) (Store.fi_severity f) (Store.fi_subject f)
      None agent (Store.fi_ts f) i) as Hst. revert Hst.
    generalize (upsert_incident org (Store.fi_detector f) (Store.fi_severity f)
      (Store.fi_subject f) None agent (Store.fi_ts f) i).
    intros [j inc] Hst. cbn [fst snd] in *. destruct Hst as (? & ? & ? & ? & ? & ->).
    by destruct (get_in _ _ _).
  - unfold Store.mark_incident_notified. destruct (get_in _ _ _); [|done]. by destruct (_ <? _).
  - unfold Store.set_apns_token. by destruct (find _ _) as [[? ?]|].
Qed.

(** ** Nonces *)

Definition nonce_on (device : string) (op : Op) : bool :=
  match op with Nonce d _ => bool_decide (d = device) | _ => false end.
Definition is_restart (op : Op) : bool := match op with Restart => true | _ => false end.

(** [n] was recorded, and at most [k] nonces since. *)
Definition recorded (device n : string) (k : Z) (i : Inner) : Prop :=
  ∃ pre post, default [] (nonces i !! device) = pre ++ n :: post ∧ Z.of_nat (length post) ≤ k.

Lemma trim_keeps {A} cap (pre post : list A) (x : A) :
  Z.of_nat (length post) < cap → ∃ pre', trim_front cap (pre ++ x :: post) = pre' ++ x :: post.
Proof.
  intros Hl. unfold trim_front. rewrite length_app. simpl.
  set (d := Z.to_nat _). assert (d ≤ length pre)%nat by lia.
  exists (drop d pre). rewrite drop_app_le by done. done.
Qed.

Lemma recorded_refused device n k i :
  recorded device n k i → (Store.check_and_record_nonce device n i).2 = false.
Proof.
  intros (pre & post & Hq & _). unfold Store.check_and_record_nonce. rewrite Hq.
  replace (existsb _ _) with true; [done|]. symmetry. apply existsb_Exists, Exists_exists.
  exists n. split; [set_solver|]. by apply bool_decide_true.
Qed.

Lemma recorded_push device n k d m i :
  k + 1 < NONCE_CAP → recorded device n k i →
  recorded device n (if bool_decide (d = device) then k + 1 else k)
    (Store.check_and_record_nonce d m i).1.
Proof.
  intros Hk (pre & post & Hq & Hl). unfold recorded, Store.check_and_record_nonce.
  case_bool_decide as Hd; [subst|].
  - rewrite Hq. destruct (existsb _ _); cbn; rewrite lookup_insert_eq; cbn.
    + exists pre, post. split; [done|lia].
    + rewrite <-app_assoc. cbn. destruct (trim_keeps NONCE_CAP pre (post ++ [m]) n) as [pre' ->].
      { rewrite length_app. simpl. lia. }
      exists pre', (post ++ [m]). split; [done|]. rewrite length_app. simpl. lia.
  - exists pre, post. destruct (existsb _ _); cbn; by rewrite lookup_insert_ne.
Qed.

Lemma recorded_run device n ops k i :
  recorded device n k i → 0 ≤ k → forallb (λ op, negb (is_restart op)) ops = true →
  k + Z.of_nat (length (filter (λ op, nonce_on device op = true) ops)) < NONCE_CAP →
  ∃ k', recorded device n k' (run_from i ops).
Proof.
  revert k i. induction ops as [|op ops IH]; intros k i Hr Hk0 Hno Hlt; [by exists k|].
  cbn [forallb] in Hno. apply andb_true_iff in Hno as [Hop Hno]. rewrite filter_cons in Hlt.
  cbn [run_ops foldl]. pose proof (op_access i op) as Ha.
  assert (nonce_on device op = false → nonces (apply i op) = nonces i →
          ∃ k', recorded device n k' (foldl apply (apply i op) ops)) as Hskip.
  { intros Hf Hn. rewrite Hf in Hlt. apply (IH k); [|done|done|done].
    destruct Hr as (pre & post & ? & ?). exists pre, post. by rewrite Hn. }
  destruct op; try (by apply Hskip); try (by apply Hskip; [|apply Ha]); try done.
  - apply Hskip; [done|]. cbn [apply_op]. unfold Store.redeem_pairing.
    destruct (pairings i !! code); [|done]. by destruct (_ <? _).
  - apply Hskip; [done|]. cbn [apply_op]. unfold Store.redeem_pairing_audited.
    destruct (pairings i !! code); [|done]. by destruct (_ <? _).
  - cbn [nonce_on] in Hlt. case_decide as Hd.
    + breflect. subst. cbn [length] in Hlt. apply (IH (k + 1)); [|lia|done|lia].
      pose proof (recorded_push device n k device nonce i ltac:(lia) Hr) as Hp.
      by rewrite bool_decide_true in Hp.
    + apply not_true_is_false in Hd. breflect. apply (IH k); [|done|done|done].
      destruct Hr as (pre & post & ? & ?). exists pre, post. split; [|done]. cbn [apply_op].
      unfold Store.check_and_record_nonce. destruct (existsb _ _); cbn; by rewrite lookup_insert_ne.
Qed.

Lemma accepted_recorded device nonce i :
  (Store.check_and_record_nonce device nonce i).2 = true →
  recorded device nonce 0 (Store.check_and_record_nonce device nonce i).1.
Proof.
  unfold Store.check_and_record_nonce. destruct (existsb _ _); [done|]. intros _. unfold recorded.
  cbn. rewrite lookup_insert_eq. cbn.
  destruct (trim_keeps NONCE_CAP (default [] (nonces i !! device)) [] nonce) as [pre' ->]; [done|].
  by exists pre', [].
Qed.

(** A signed request cannot be replayed.  Once a device's nonce is accepted, it is
    refused again as long as the plane keeps running and fewer than [NONCE_CAP] nonces
    of that device were presented since, whatever else happens. *)
Theorem nonce_accepted_once i device nonce ops :
  let '(j, accepted) := Store.check_and_record_nonce device nonce i in
  accepted = true → forallb (λ op, negb (is_restart op)) ops = true →
  Z.of_nat (length (filter (λ op, nonce_on device op = true) ops)) < NONCE_CAP →
  (Store.check_and_record_nonce device nonce (run_from j ops)).2 = false.
Proof.
  destruct (Store.check_and_record_nonce device nonce i) as [j b] eqn:E. intros -> Hno Hlt.
  pose proof (accepted_recorded device nonce i ltac:(by rewrite E)) as Hr. rewrite E in Hr.
  destruct (recorded_run device nonce ops 0 j Hr ltac:(lia) Hno ltac:(lia)) as [k' Hk].
  by eapply recorded_refused.
Qed.

(** ** Pairing *)

Definition issues (code : string) (op : Op) : bool :=
  match op with CreatePairing c _ _ _ => bool_decide (c = code) | _ => false end.

Lemma pairing_gone code i op :
  issues code op = false → pairings i !! code = None → pairings (apply i op) !! code = None.
Proof.
  intros Hi Hn. pose proof (op_access i op) as Ha.
  destruct op; try done; try (by destruct Ha as (_ & -> & _)); cbn [apply_op].
  - cbn in *. breflect. by rewrite lookup_insert_ne.
  - unfold Store.redeem_pairing. destruct (pairings i !! code0); [|done].
    destruct (_ <? _); cbn; by apply lookup_delete_None; right.
  - unfold Store.redeem_pairing_audited. destruct (pairings i !! code0); [|done].
    destruct (_ <? _); cbn; by apply lookup_delete_None; right.
  - unfold Store.check_and_record_nonce. by destruct (existsb _ _).
Qed.

(** A pairing code is good for one device.  A redemption succeeds exactly when the
    code is pending and unexpired, gives the device the organization and the role the
    issuing admin fixed, and audits it; and after any redemption, successful or not, no
    later one succeeds or changes anything unless the code is issued again. *)
Theorem pairing_code_once i now code now_unix id token pubkey name platform ops :
  let '(j, o) := Store.redeem_pairing_audited sha256 now code now_unix id token pubkey name platform i in
  (match o with
   | Some d => ∃ p, pairings i !! code = Some p ∧ now_unix ≤ pg_expires p ∧
       dv_org d = pg_org p ∧ dv_role d = pg_role p ∧ Store.device_by_token j token = Some d ∧
       length (Store.audit j (pg_org p)) = S (length (Store.audit i (pg_org p)))
   | None => ∀ p, pairings i !! code = Some p → pg_expires p < now_unix
   end) ∧
  (forallb (λ op, negb (issues code op)) ops = true →
   ∀ now' now_unix' id' token' pubkey' name' platform',
   Store.redeem_pairing_audited sha256 now' code now_unix' id' token' pubkey' name' platform'
     (run_from j ops) = (run_from j ops, None)).
Proof.
  destruct (Store.redeem_pairing_audited _ _ _ _ _ _ _ _ _ _) as [j o] eqn:E.
  assert (pairings j !! code = None) as Hgone.
  { unfold Store.redeem_pairing_audited in E. destruct (pairings i !! code) eqn:Ep; [|by simplify_eq].
    destruct (_ <? _); injection E as <- <-; cbn; apply lookup_delete_eq. }
  split.
  - unfold Store.redeem_pairing_audited in E. destruct (pairings i !! code) as [p|] eqn:Ep.
    + destruct (_ <? _) eqn:Hx; breflect; injection E as <- <-; [by intros ? [= <-]|].
      exists p. split_and!; try done.
      * unfold Store.device_by_token. cbn. by rewrite lookup_insert_eq.
      * unfold Store.audit. cbn. rewrite lookup_insert_eq. cbn. rewrite length_app. simpl. lia.
    + injection E as <- <-. done.
  - intros Hops now' now_unix' id' token' pubkey' name' platform'.
    unfold Store.redeem_pairing_audited.
    assert (pairings (run_from j ops) !! code = None) as ->; [|done].
    clear E. revert j Hgone. induction ops as [|op ops IH]; intros j Hj; [done|].
    cbn [forallb] in Hops. apply andb_true_iff in Hops as [Hop Hops]. cbn [run_ops foldl].
    apply IH; [done|]. apply pairing_gone; [|done]. by apply negb_true_iff.
Qed.

(** ** Kills *)

Lemma kill_stays org run i op :
  get_in org run (killed i) = Some true → get_in org run (killed (apply i op)) = Some true.
Proof.
  intros Hk. pose proof (op_access i op) as Ha.
  destruct op; try done; try (by destruct Ha as (_ & _ & ->)); cbn [apply_op].
  - cbn. rewrite get_in_insert. by case_decide.
  - cbn. rewrite get_in_insert. by case_decide.
  - unfold Store.redeem_pairing. destruct (pairings i !! code); [|done]. by destruct (_ <? _).
  - unfold Store.redeem_pairing_audited. destruct (pairings i !! code); [|done].
    by destruct (_ <? _).
  - unfold Store.check_and_record_nonce. by destruct (existsb _ _).
Qed.

Lemma kills_elem i org run : run ∈ Store.kills i org ↔ get_in org run (killed i) = Some true.
Proof.
  unfold Store.kills, get_in. rewrite list_elem_of_fmap. setoid_rewrite list_elem_of_filter.
  setoid_rewrite iter_pair. destruct (killed i !! org) as [m|]; simpl.
  - split; [intros ([k b] & -> & Hb & Hm); simpl in *; by subst|]. intros Hm. by exists (run, true).
  - split; [|done]. intros ([k b] & _ & _ & Hm). by rewrite lookup_empty in Hm.
Qed.

(** A kill is permanent.  From the moment an operator kills a run, every poll of the
    organization's kill list returns it, whatever is ingested, done or restarted later;
    the killing is on the audit trail. *)
Theorem kill_is_permanent i now org run actor ops :
  let j := run_from (Store.kill_audited sha256 now org run actor i).1 ops in
  run ∈ Store.kills j org ∧
  ∀ a, a ∈ Store.runs j org → ra_run_id a = run → ra_killed a = true.
Proof.
  cbv zeta. set (j0 := (Store.kill_audited _ _ _ _ _ _).1).
  assert (get_in org run (killed (run_from j0 ops)) = Some true) as Hk.
  { assert (get_in org run (killed j0) = Some true) as Hj.
    { cbn. rewrite get_in_insert. by rewrite decide_True. }
    clearbody j0. revert j0 Hj. induction ops as [|op ops IH]; intros j0 Hj; [done|].
    cbn [run_ops foldl]. by apply IH, kill_stays. }
  split; [by apply kills_elem|]. intros a. unfold Store.runs. rewrite list_elem_of_fmap.
  intros (b & -> & _) Hrun. cbn in *. by rewrite Hrun, Hk.
Qed.

(** ** The burn-rate series *)

Lemma zsum_alter {A} (f : A → Z) (g : A → A) n l x d :
  l !! n = Some x → f (g x) = f x + d → zsum (f <$> alter g n l) = zsum (f <$> l) + d.
Proof.
  revert n. induction l as [|y l IH]; intros [|n] Hn Hg; simplify_eq/=; [rewrite Hg; lia|].
  rewrite (IH n) by done. lia.
Qed.

Lemma bucket_in_bounds start step n s : (0 < n)%nat → (Store.bucket_index start step n s < n)%nat.
Proof. unfold Store.bucket_index. lia. Qed.

(** A measure of a bucket that a sample adds [w] to, while it stays in range. *)
Definition measured (f : SeriesBucket → Z) (w : Sample → Z) (bound : Z) : Prop :=
  (∀ t, f (mkBucket t 0 0 0 0) = 0) ∧
  ∀ s b, 0 ≤ f b → 0 ≤ w s → f b + w s ≤ bound → f (Store.add_sample s b) = f b + w s.

Lemma series_measure f w bound (add : Sample → bool) idx n bs log :
  measured f w bound → (∀ s, (idx s < n)%nat) → length bs = n →
  Forall (λ b, 0 ≤ f b) bs → Forall (λ s, 0 ≤ w s) log →
  zsum (f <$> bs) + zsum (w <$> filter (λ s, add s = true) log) ≤ bound →
  let bs' := foldl (λ bs s, if add s then alter (Store.add_sample s) (idx s) bs else bs) bs log in
  length bs' = n ∧ zsum (f <$> bs') = zsum (f <$> bs) + zsum (w <$> filter (λ s, add s = true) log).
Proof.
  intros [_ Hm] Hidx. revert bs.
  induction log as [|s log IH]; intros bs Hl Hb Hw Hsum; cbn [foldl].
  { split; [done|]. rewrite filter_nil. cbn. lia. }
  inversion Hw as [|? ? Hs Hlog]; subst. rewrite filter_cons in *.
  assert (0 ≤ zsum (w <$> filter (λ s, add s = true) log)) as Hpos.
  { apply zsum_nonneg, Forall_fmap, Forall_forall. intros x [_ Hx]%list_elem_of_filter.
    by eapply Forall_forall in Hlog. }
  destruct (add s) eqn:E; [|by apply IH].
  rewrite decide_True in * by done. rewrite zsum_fmap_cons in *.
  destruct (lookup_lt_is_Some_2 bs (idx s)) as [b Hbx]; [apply Hidx|].
  assert (0 ≤ f b) as Hb0 by (by eapply Forall_lookup_1 in Hb).
  assert (f b ≤ zsum (f <$> bs)) as Hble.
  { apply zsum_elem_le; [by apply Forall_fmap|]. apply list_elem_of_fmap. exists b.
    split; [done|]. by eapply list_elem_of_lookup_2. }
  assert (f (Store.add_sample s b) = f b + w s) as Hadd by (apply Hm; [done|done|lia]).
  pose proof (zsum_alter f (Store.add_sample s) _ _ _ _ Hbx Hadd) as Halt.
  destruct (IH (alter (Store.add_sample s) (idx s) bs)) as [Hl' Hs'].
  - by rewrite length_alter.
  - apply Forall_alter; [done|]. intros x Hx _. rewrite Hbx in Hx. injection Hx as <-. lia.
  - done.
  - lia.
  - cbv zeta in *. split; [done|lia].
Qed.

(** The samples a series covers. *)
Definition covered (i : Inner) (org : string) (run : option string) (start now : Z) : list Sample :=
  filter (λ s, Store.in_scope run start now s = true) (default [] (series i !! org)).

Lemma zsum_ones {A} (l : list A) : zsum ((λ _, 1) <$> l) = Z.of_nat (length l).
Proof. induction l; cbn; [done|]. unfold zsum in *. lia. Qed.

Lemma empty_buckets_zero f start step n :
  (∀ t, f (mkBucket t 0 0 0 0) = 0) →
  zsum (f <$> Store.empty_buckets start step n) = 0 ∧
  Forall (λ b, 0 ≤ f b) (Store.empty_buckets start step n) ∧
  length (Store.empty_buckets start step n) = n.
Proof.
  intros Hf. unfold Store.empty_buckets. split_and!.
  - generalize (List.seq 0 n). intros l. induction l as [|x l IH]; [done|].
    rewrite !fmap_cons. cbn [zsum foldr]. rewrite Hf. by unfold zsum in IH; rewrite IH.
  - apply Forall_fmap, Forall_forall. intros x _. simpl. rewrite Hf. done.
  - by rewrite length_fmap, length_seq.
Qed.

Lemma series_total f w bound i org run window step now :
  measured f w bound →
  Forall (λ s, 0 ≤ w s) (default [] (series i !! org)) →
  let start := i64_wrap (now - Z.max window (Z.max step 1)) in
  zsum (w <$> covered i org run start now) ≤ bound →
  Z.of_nat (length (Store.series i org run window step now)) =
    Z.min (Z.max (Z.quot (Z.max window (Z.max step 1)) (Z.max step 1)) 1) MAX_SERIES_BUCKETS ∧
  zsum (f <$> Store.series i org run window step now) = zsum (w <$> covered i org run start now).
Proof.
  intros Hf Hw. cbv zeta. intros Hb. unfold Store.series.
  set (n := Z.to_nat _). assert (0 < n)%nat as Hn by (subst n; unfold MAX_SERIES_BUCKETS; lia).
  set (start := i64_wrap _) in *. destruct (empty_buckets_zero f start (Z.max step 1) n (proj1 Hf))
    as (Hz & Hp & Hl).
  destruct (series_measure f w bound (Store.in_scope run start now)
    (Store.bucket_index start (Z.max step 1) n) n (Store.empty_buckets start (Z.max step 1) n)
    (default [] (series i !! org)) Hf (λ s, bucket_in_bounds _ _ _ s Hn) Hl Hp Hw) as [Hl' Hs'].
  { rewrite Hz. exact Hb. }
  split; [rewrite Hl'; subst n; unfold MAX_SERIES_BUCKETS; lia|]. rewrite Hs', Hz. done.
Qed.

(** A burn-rate series loses nothing.  Whatever window and step are asked for, the
    buckets number at most the cap, every sample of the window is counted in exactly
    one of them, and their costs add up to the samples' cost while it fits. *)
Theorem series_conserves i org run window step now :
  let log := default [] (series i !! org) in
  let start := i64_wrap (now - Z.max window (Z.max step 1)) in
  let out := Store.series i org run window step now in
  Z.of_nat (length log) ≤ SERIES_CAP → Forall (λ s, 0 ≤ s_cost s) log →
  zsum (s_cost <$> covered i org run start now) ≤ i64_max →
  1 ≤ Z.of_nat (length out) ≤ MAX_SERIES_BUCKETS ∧
  zsum (sb_calls <$> out) = Z.of_nat (length (covered i org run start now)) ∧
  zsum (sb_blocked <$> out) =
    Z.of_nat (length (filter (λ s, s_blocked s = true) (covered i org run start now))) ∧
  zsum (sb_cost <$> out) = zsum (s_cost <$> covered i org run start now).
Proof.
  cbv zeta. intros Hlen Hcost Hsum. set (start := i64_wrap _) in *.
  assert (length (covered i org run start now) ≤ length (default [] (series i !! org)))%nat as Hcl
    by apply length_filter.
  assert (measured sb_calls (λ _, 1) SERIES_CAP) as Hcalls.
  { split; [done|]. intros s b H0 H1 H2. cbn. apply u64_wrap_id. unfold SERIES_CAP in *. mach. }
  assert (measured sb_blocked (λ s, if s_blocked s then 1 else 0) SERIES_CAP) as Hblocked.
  { split; [done|]. intros s b H0 H1 H2. cbn. destruct (s_blocked s); [|lia].
    apply u64_wrap_id. unfold SERIES_CAP in *. mach. }
  assert (measured sb_cost s_cost i64_max) as Hc.
  { split; [done|]. intros s b H0 H1 H2. cbn. apply i64_sat_id. mach. }
  destruct (series_total _ _ _ i org run window step now Hcalls) as [Hl Hs];
    [by apply Forall_forall|fold start; rewrite zsum_ones; lia|].
  assert (∀ l, zsum ((λ s, if s_blocked s then 1 else 0) <$> l) =
    Z.of_nat (length (filter (λ s, s_blocked s = true) l))) as Hz.
  { intros l. induction l as [|s l IH]; [done|]. rewrite zsum_fmap_cons, filter_cons, IH.
    destruct (s_blocked s); simpl; lia. }
  destruct (series_total _ _ _ i org run window step now Hblocked) as [_ Hs2].
  { apply Forall_forall. intros s _. by destruct (s_blocked s). }
  { fold start. rewrite Hz.
    pose proof (length_filter (λ s, s_blocked s = true) (covered i org run start now)). lia. }
  destruct (series_total _ _ _ i org run window step now Hc) as [_ Hs3]; [done|done|].
  fold start in Hs, Hs2, Hs3. rewrite Hs, Hs2, Hs3, zsum_ones, Hz. rewrite Hl.
  split; [unfold MAX_SERIES_BUCKETS; lia|]. done.
Qed.

(** ** Restarts *)

Lemma run_cover i ops : totals_cover i → totals_cover (run_from i ops).
Proof.
  revert i. induction ops as [|op ops IH]; intros i Hi; [done|]. cbn [run_ops foldl].
  by apply IH, apply_cover.
Qed.

Lemma fmap_same {A} (f : A → A) (m : gmap string A) :
  (∀ k x, m !! k = Some x → f x = x) → f <$> m = m.
Proof.
  intros Hf. apply map_eq. intros k. rewrite lookup_fmap.
  destruct (m !! k) eqn:E; simpl; [by rewrite (Hf k)|done].
Qed.

(** A restart restores what was saved.  In every reachable state, loading the saved
    bytes into a fresh store succeeds and yields the same persistent state: the same
    runs, kills, budgets, devices, savings, months, counts, incidents, audit chains and
    totals; the rebuilt index holds exactly the restored runs; and no chain is reported
    broken. *)
Theorem restart_restores (to_vec : Store.Snapshot → string) from_slice ops :
  fits ops →
  let i := run_from empty_inner ops in
  from_slice (to_vec (Store.snapshot i)) = Some (Store.snapshot i) →
  ∃ j, Store.load from_slice (Store.FileData (Store.save to_vec i)) empty_inner = Ok j ∧
    Store.snapshot j = Store.snapshot i ∧
    (∀ org, ∃ n, tracks n (v_runs (view org j)) (v_recency (view org j))) ∧
    Store.load_warnings sha256 (Store.snapshot i) = [].
Proof.
  intros Hf. cbv zeta. set (i := run_from empty_inner ops). intros Hrt.
  pose proof (run_bounded sha256 alert_pct cfg ops Hf) as Hb. fold i in Hb.
  assert (totals_cover i) as Hc.
  { apply run_cover. intros org [? E]. cbn in E. by rewrite lookup_empty in E. }
  exists (Store.restore (Store.snapshot i) empty_inner).
  split; [unfold Store.load, Store.save; by rewrite Hrt|]. split; [|split].
  - unfold Store.snapshot, Store.restore. cbn. f_equal.
    + apply fmap_same. intros org sav E. apply backfill_id.
      pose proof (vo_counted _ _ (b_view _ _ Hb org)) as Hv. unfold view in Hv. cbn in Hv.
      by rewrite E in Hv.
    + apply map_eq. intros org. rewrite lookup_union, lookup_fmap.
      destruct (org_totals i !! org) as [t|] eqn:E; [by rewrite union_Some_l|].
      destruct (orgs i !! org) eqn:Eo; [|done]. destruct (Hc org) as [? ?]; [eauto|]. congruence.
  - intros org. exists (MAX_RUNS_PER_ORG + 3 * total_volume ops).
    refine (vo_recency _ _ (restart_view sha256 _ i org _ Hf (b_view _ _ Hb org))).
    assert (0 ≤ total_volume ops); [|lia].
    apply zsum_nonneg, Forall_fmap, Forall_forall.
    intros; apply volume_nonneg.
  - unfold Store.load_warnings. apply elem_of_nil_inv. intros [org n].
    rewrite list_elem_of_omap. intros ([org' chain] & Hin%iter_elem & Hx). cbn [fst snd Store.sn_audit Store.snapshot] in Hin, Hx.
    pose proof (trail_audit sha256 alert_pct cfg MAX_RUNS_PER_ORG empty_inner ops org'
      ltac:(done) Hf (bounded_empty MAX_RUNS_PER_ORG ltac:(done))) as Ha. fold i in Ha.
    unfold Store.audit at 1 in Ha. rewrite Hin in Ha. cbn [default] in Ha.
    change (Store.audit empty_inner org') with (@nil AuditEntry) in Ha.
    pose proof (log_of_verifies sha256 (events_of org' (trail sha256 alert_pct cfg empty_inner ops)))
      as Hv. unfold log_of in Hv. rewrite <-Ha in Hv. unfold id in Hv. by rewrite Hv in Hx.
Qed.

(** ** The month's spend *)

(** What the buckets of month [w] hold. *)
Definition month_calls (w : string) (m : gmap string UnitMonthAcc) : Z :=
  zsum ((λ p, if bool_decide (um_window p.2 = w) then um_calls p.2 else 0) <$> map_to_list m).
Definition month_spent (w : string) (m : gmap string UnitMonthAcc) : Z :=
  zsum ((λ p, if bool_decide (um_window p.2 = w) then um_spent p.2 else 0) <$> map_to_list m).

Lemma zsum_map_insert {A} (f : string * A → Z) (m : gmap string A) k x :
  zsum (f <$> map_to_list (<[k := x]> m)) =
  zsum (f <$> map_to_list m) - match m !! k with Some y => f (k, y) | None => 0 end + f (k, x).
Proof.
  destruct (m !! k) as [y|] eqn:E.
  - rewrite <-insert_delete_eq, map_to_list_insert by apply lookup_delete_eq.
    rewrite <-(map_to_list_delete m k y E), !zsum_fmap_cons. lia.
  - rewrite map_to_list_insert by done. rewrite zsum_fmap_cons. lia.
Qed.

(** Every bucket of the month is in range. *)
Definition months_typed (m : gmap string UnitMonthAcc) : Prop :=
  map_Forall (λ _ a, 0 ≤ um_calls a ∧ 0 ≤ um_spent a) m.

Lemma month_bucket_le w m k a :
  months_typed m → m !! k = Some a → um_window a = w →
  um_calls a ≤ month_calls w m ∧ um_spent a ≤ month_spent w m.
Proof.
  intros Ht Hk Hw. unfold month_calls, month_spent.
  split; (apply zsum_elem_le; [apply Forall_fmap, Forall_forall; intros [k' b] Hb%elem_of_map_to_list;
    destruct (Ht _ _ Hb); simpl; case_bool_decide; lia|]);
    apply list_elem_of_fmap; exists (k, a);
    (split; [simpl; by rewrite bool_decide_true|by apply elem_of_map_to_list]).
Qed.

Lemma fold_month_sums w r m :
  months_typed m → month_calls w m < u64_max → month_spent w m + cost_of r ≤ i64_max →
  let m' := fold_month w r m in
  months_typed m' ∧ month_calls w m' = month_calls w m + 1 ∧
  month_spent w m' = month_spent w m + (if is_blocked (r_decision r) then 0 else cost_of r).
Proof.
  intros Ht Hc Hs. cbv zeta. unfold fold_month. set (k := month_bucket r m).
  set (acc := roll_month w (default no_month (m !! k))).
  assert (um_window acc = w ∧ 0 ≤ um_calls acc ∧ 0 ≤ um_spent acc ∧
    um_calls acc ≤ month_calls w m ∧ um_spent acc ≤ month_spent w m ∧
    um_calls acc = match m !! k with
                   | Some a => if bool_decide (um_window a = w) then um_calls a else 0
                   | None => 0 end ∧
    um_spent acc = match m !! k with
                   | Some a => if bool_decide (um_window a = w) then um_spent a else 0
                   | None => 0 end) as (Hw & H1 & H2 & H3 & H4 & H5 & H6).
  { assert (0 ≤ month_calls w m ∧ 0 ≤ month_spent w m) as [Hp1 Hp2].
    { split; apply zsum_nonneg, Forall_fmap, Forall_forall; intros [k' b] Hb%elem_of_map_to_list;
        destruct (Ht _ _ Hb); simpl; case_bool_decide; lia. }
    subst acc. unfold roll_month. destruct (m !! k) as [a|] eqn:E; cbn [default].
    - repeat case_bool_decide; cbn [um_window um_calls um_spent]; try tauto;
        [split_and!; done || lia|].
      destruct (Ht _ _ E). destruct (month_bucket_le w m k a Ht E); [tauto|]. split_and!; tauto || lia.
    - case_bool_decide as Hd; cbn [um_window um_calls um_spent]; [split_and!; done || lia|].
      cbn in *. split_and!; done || lia. }
  clearbody acc. assert (0 ≤ cost_of r) by (unfold cost_of; lia).
  assert (u64_wrap (um_calls acc + 1) = um_calls acc + 1) as Hu by (apply u64_wrap_id; mach).
  assert (i64_sat (um_spent acc + cost_of r) = um_spent acc + cost_of r) as Hi
    by (apply i64_sat_id; mach).
  split; [|split].
  - apply map_Forall_insert_2; [|done]. cbn. rewrite Hu, Hi. destruct (negb _); lia.
  - unfold month_calls. rewrite zsum_map_insert. cbn [um_window um_calls fst snd].
    rewrite (bool_decide_true (um_window acc = w)), Hu by done. destruct (m !! k); lia.
  - unfold month_spent. rewrite zsum_map_insert. cbn [um_window um_spent fst snd].
    rewrite (bool_decide_true (um_window acc = w)), Hi by done.
    destruct (is_blocked _); cbn [negb]; destruct (m !! k); lia.
Qed.

(** The month's spend is conserved.  Folding a batch in during month [w], whatever
    units its records name and however many, adds exactly the number of its records and
    the spend of its unblocked calls to the buckets of that month: no unmapped or
    overflowing unit is dropped. *)
Theorem month_spend_conserved budgets now v rs :
  let w := month_key now in
  let v' := foldl (fold_record alert_pct budgets w) v rs in
  months_typed (v_months v) →
  month_calls w (v_months v) + Z.of_nat (length rs) ≤ u64_max →
  month_spent w (v_months v) + zsum (cost_of <$> rs) ≤ i64_max →
  months_typed (v_months v') ∧
  month_calls w (v_months v') = month_calls w (v_months v) + Z.of_nat (length rs) ∧
  month_spent w (v_months v') = month_spent w (v_months v) + zsum (cost_of <$> real rs).
Proof.
  cbv zeta. generalize (month_key now). intros w. revert v.
  induction rs as [|r rs IH]; intros v Ht Hc Hs; cbn [foldl].
  { split; [done|]. cbn. lia. }
  rewrite zsum_fmap_cons in Hs. cbn [length] in *. pose proof (cost_sum_nonneg rs).
  destruct (fold_month_sums w r (v_months v) Ht) as (Ht' & Hc' & Hs'); [lia|lia|].
  assert (v_months (fold_record alert_pct budgets w v r) = fold_month w r (v_months v)) as Hm.
  { unfold fold_record. by destruct (evict_run _ _ _ _ _), (fold_blocked _ _ _). }
  assert (0 ≤ cost_of r) by (unfold cost_of; lia).
  destruct (IH (fold_record alert_pct budgets w v r)) as (Ht2 & Hc2 & Hs2).
  - by rewrite Hm.
  - rewrite Hm. lia.
  - rewrite Hm, Hs'. destruct (is_blocked _); lia.
  - split; [done|]. rewrite Hc2, Hs2, Hm, Hc', Hs'. split; [lia|].
    unfold real. rewrite filter_cons. destruct (is_blocked (r_decision r)).
    + rewrite decide_False by done. lia.
    + rewrite decide_True, zsum_fmap_cons by done. lia.
Qed.

End access.
