(* ===== verification/CloudTyped.v ===== *)
(** * The stored numbers are in their types

    Every number the store keeps stays within the width the code declares, and no spend
    is ever negative, whatever an untrusted batch contains. *)

From S2P Require Import Prelude Float Strings McpReport AuditChain UnitLedger.
From S2P Require Import Recency CloudTypes CloudIngest CloudStore CloudInv CloudProps.
From S2P Require Savings.

(** A record as deserialized: each field in the range of its type. *)
Record typed_record (r : CallRecord) : Prop := mkTypedRecord {
  tr_ts : in_i64 (r_ts r);
  tr_cost : in_i64 (r_cost r);
  tr_saved : in_i64 (r_saved r);
  tr_step : in_u32 (r_step r);
  tr_tools : in_u32 (default 0 (r_tool_calls r))
}.

Definition spend (z : Z) : Prop := 0 ≤ z ≤ i64_max.

Record typed_run (a : RunAgg) : Prop := mkTypedRun {
  ty_spent : spend (ra_spent a);
  ty_calls : in_u64 (ra_calls a);
  ty_hits : in_u64 (ra_cache_hits a);
  ty_steps : in_u32 (ra_steps a);
  ty_seen : spend (ra_last_seen a);
  ty_tools : in_u64 (ra_tool_calls a)
}.

Definition typed_totals (t : OrgTotals) : Prop :=
  in_u64 (ot_calls t) ∧ spend (ot_spent t) ∧ in_u64 (ot_tool_calls t).
Definition typed_savings (s : SavingsAcc) : Prop :=
  spend (sa_blocked s) ∧ spend (sa_cache s) ∧ spend (sa_router s) ∧ in_u64 (sa_budget_breaks s).
Definition typed_month (a : UnitMonthAcc) : Prop := spend (um_spent a) ∧ in_u64 (um_calls a).

Record typed_view (v : View) : Prop := mkTypedView {
  tv_runs : map_Forall (λ _ a, typed_run a) (v_runs v);
  tv_sav : typed_savings (v_sav v);
  tv_dc : map_Forall (λ _ n, in_u64 n) (v_dc v);
  tv_totals : typed_totals (v_totals v);
  tv_months : map_Forall (λ _ a, typed_month a) (v_months v)
}.

Lemma spend_add a b : spend a → 0 ≤ b → spend (i64_sat (a + b)).
Proof. unfold spend. intros. mach. Qed.

Ltac typed := unfold spend in *; first [apply u64_wrap_range | apply u64_sat_range | mach].

Lemma map_Forall_sub {A} (P : string → A → Prop) (m m' : gmap string A) :
  m' ⊆ m → map_Forall P m → map_Forall P m'.
Proof. intros Hs Hm k x Hk. apply Hm. by eapply lookup_weaken. Qed.

Lemma map_Forall_empty_string {A} (P : string → A → Prop) : map_Forall P (∅ : gmap string A).
Proof. intros k x. by rewrite lookup_empty. Qed.

Section typed.
Context `{HashOrder} (sha256 : string → string) (alert_pct : f64) (cfg : IncidentConfig).

Lemma update_run_typed r a : typed_record r → typed_run a → typed_run (update_run r a).
Proof.
  intros [Ht Hc Hsv Hst Htl] [Ha1 Ha2 Ha3 Ha4 Ha5 Ha6]. unfold update_run.
  assert (0 ≤ cost_of r) by (unfold cost_of; lia).
  split; cbn [ra_spent ra_calls ra_cache_hits ra_steps ra_last_seen ra_tool_calls].
  - destruct (negb _); [by apply spend_add|done].
  - apply u64_wrap_range.
  - case_bool_decide; [apply u64_wrap_range|done].
  - by destruct (_ <? _).
  - destruct (_ <? _) eqn:E; breflect; [typed|done].
  - destruct (negb _); [apply u64_sat_range|done].
Qed.

Lemma new_run_typed id : typed_run (new_run id).
Proof. split; cbn; typed. Qed.

Lemma fold_blocked_typed r sav br :
  typed_savings sav → typed_savings (fold_blocked r sav br).1.
Proof.
  intros (H1 & H2 & H3 & H4). unfold fold_blocked. assert (0 ≤ cost_of r) by (unfold cost_of; lia).
  destruct (Savings.is_budget_protection _); [|done]. unfold note_break. cbn [sa_breaks].
  case_bool_decide; [|destruct (if _ <=? _ then _ else _)]; cbn [fst];
    split_and!; cbn [sa_blocked sa_cache sa_router sa_budget_breaks]; try done;
    first [by apply spend_add | apply u64_sat_range].
Qed.

Lemma fold_saved_typed r sav : typed_savings sav → typed_savings (fold_saved r sav).
Proof.
  intros (H1 & H2 & H3 & H4). unfold fold_saved. assert (0 ≤ saved_of r) by (unfold saved_of; lia).
  repeat case_bool_decide; split_and!; cbn; try done; by apply spend_add.
Qed.

Lemma fold_record_typed budgets month_now v r :
  typed_record r → typed_view v → typed_view (fold_record alert_pct budgets month_now v r).
Proof.
  intros Hr [Hruns Hsav Hdc (Ht1 & Ht2 & Ht3) Hm]. unfold fold_record.
  assert (∀ k, let runs := (evict_run alert_pct budgets (v_runs v) (v_recency v) k).1 in
               runs ⊆ v_runs v) as Hsub.
  { intros k. cbv zeta. unfold evict_run. destruct (_ && _); [|done].
    destruct (evict_oldest_unprotected _ _) as [r' [w|]]; cbn; [apply delete_subseteq|].
    destruct (iter _) as [|[w ?] ?]; [done|apply delete_subseteq]. }
  specialize (Hsub (r_run_id r)). cbv zeta in Hsub.
  destruct (evict_run _ _ _ _ _) as [runs recency]. cbn [fst] in Hsub.
  pose proof (fold_blocked_typed r (v_sav v) (v_break_recency v) Hsav) as Hb.
  destruct (fold_blocked _ _ _) as [sav br]. cbn [fst] in Hb.
  assert (map_Forall (λ _ a, typed_run a) runs) as Hruns' by by eapply map_Forall_sub.
  assert (0 ≤ cost_of r) by (unfold cost_of; lia).
  split; cbn [v_runs v_sav v_dc v_totals v_months].
  - apply map_Forall_insert_2; [|done]. apply update_run_typed; [done|].
    destruct (runs !! r_run_id r) eqn:E; [by apply (Hruns' _ _ E)|apply new_run_typed].
  - by apply fold_saved_typed.
  - unfold count_decision. destruct (is_known_decision _); [|done].
    apply map_Forall_insert_2; [apply u64_wrap_range|done].
  - unfold update_totals. destruct (negb _); split_and!; cbn;
      first [apply u64_wrap_range|apply u64_sat_range|by apply spend_add|done].
  - unfold fold_month. apply map_Forall_insert_2; [|done].
    assert (typed_month (roll_month month_now (default no_month (v_months v !! month_bucket r (v_months v)))))
      as [Hs Hc].
    { unfold roll_month. case_bool_decide; [split; cbn; typed|].
      destruct (v_months v !! _) eqn:E; [by apply (Hm _ _ E)|split; cbn; typed]. }
    split; cbn [um_spent um_calls]; [|apply u64_wrap_range].
    destruct (negb _); [by apply spend_add|done].
Qed.

Lemma totals_of_typed runs :
  map_Forall (λ _ a, typed_run a) runs → typed_totals (Store.totals_of runs).
Proof.
  intros Hr. unfold Store.totals_of.
  assert (Forall typed_run (values runs)) as Hv.
  { apply Forall_forall. intros a [k Hk]%hash_values_elem. by apply (Hr _ _ Hk). }
  assert (typed_totals no_totals) as H0 by (split_and!; cbn; typed).
  revert H0. generalize no_totals. induction Hv as [|a l Ha _ IH]; intros t (H1 & H2 & H3); [done|].
  apply IH. destruct Ha. split_and!; cbn; [apply u64_wrap_range| |done].
  apply spend_add; [done|]. unfold spend in *. lia.
Qed.

(** The records an operation carries are as deserialized. *)
Definition typed_op (op : Op) : Prop :=
  match op with Ingest _ records _ => Forall typed_record records | _ => True end.

Lemma apply_typed i op :
  typed_op op → (∀ org, typed_view (view org i)) →
  (∀ org, Z.of_nat (size (sa_breaks (v_sav (view org i)))) ≤ MAX_BREAK_KEYS) →
  ∀ org, typed_view (view org (apply_op sha256 alert_pct cfg i op)).
Proof.
  intros Hop Hv Hsz org. pose proof (op_core sha256 alert_pct cfg i op) as Hcore.
  destruct op; try (rewrite (core_view i _ org Hcore); apply Hv); cbn [apply_op].
  - rewrite ingest_view. case_decide; [|apply Hv]. subst. specialize (Hv org0). revert Hv. cbn in Hop.
    generalize (view org0 i). induction Hop as [|r rs Hr _ IH]; intros v Hv; [done|].
    cbn [foldl]. by apply IH, fold_record_typed.
  - specialize (Hsz org). destruct (Hv org) as [H1 H2 H3 H4 H5]. unfold view in *. cbn in *.
    rewrite lookup_fmap. split; cbn; try done.
    + destruct (savings i !! org) as [s|]; cbn in *; [|done].
      destruct H2 as (? & ? & ? & ?). unfold Store.backfill_breaks.
      destruct (_ <? _); split_and!; cbn; try done. unfold MAX_BREAK_KEYS in *. mach.
    + rewrite lookup_union, lookup_fmap. destruct (org_totals i !! org) as [t|] eqn:E.
      * by rewrite union_Some_l.
      * destruct (orgs i !! org) as [runs|]; cbn in *; [by apply totals_of_typed|exact H4].
Qed.

Lemma reachable_typed ops org :
  fits ops → Forall typed_op ops →
  typed_view (view org (run_ops sha256 alert_pct cfg empty_inner ops)).
Proof.
  intros Hf Hops. revert org. assert (∀ n i, MAX_RUNS_PER_ORG ≤ n →
    n + 3 * total_volume ops ≤ u64_max → bounded n i → (∀ org, typed_view (view org i)) →
    ∀ org, typed_view (view org (run_ops sha256 alert_pct cfg i ops))) as Hrun.
  { clear Hf. unfold total_volume.
    induction Hops as [|op ops Hop _ IH]; intros n i H0 Hn Hb Hv; [done|].
    rewrite zsum_fmap_cons in Hn. pose proof (volume_nonneg op).
    assert (0 ≤ zsum (volume <$> ops)).
    { apply zsum_nonneg, Forall_fmap, Forall_forall. intros; apply volume_nonneg. }
    cbn [run_ops foldl]. apply (IH (n + 3 * volume op)); [lia|lia| |].
    - apply apply_op_bounded; [done|lia|done].
    - apply apply_typed; [done|done|]. intros org. apply (vo_breaks n), Hb. }
  apply (Hrun MAX_RUNS_PER_ORG); [done|exact Hf|by apply bounded_empty|].
  intros org. unfold view. cbn. rewrite !lookup_empty. split; cbn; try apply map_Forall_empty_string.
  - split_and!; cbn; typed.
  - split_and!; cbn; typed.
Qed.

(** C16: the store is well typed.  Whatever records are ingested, however they combine
    with other operations and restarts, every aggregate of every organization stays
    within the range of its declared type, and no spend, avoided spend or month is ever
    negative, so no attacker-chosen cost can deflate one. *)
Theorem store_well_typed ops org :
  fits ops → Forall typed_op ops →
  typed_view (view org (run_ops sha256 alert_pct cfg empty_inner ops)).
Proof. apply reachable_typed. Qed.
End typed.
