(* ===== verification/CloudDemo.v ===== *)
(** * The control plane at work

    A small organization, and the theorems about the store applied to it. *)

From S2P Require Import Prelude Float Strings McpReport AuditChain UnitLedger.
From S2P Require Import Recency CloudTypes CloudIngest CloudStore CloudInv CloudProps.
From S2P Require Import CloudGuards CloudAccess CloudTyped.

#[local] Existing Instance listing_order.

Definition demo_pct : f64 := f64_lit 4 5.
Definition demo_cfg : IncidentConfig := default_incident_config.
Definition row (run decision agent : string) (cost : Z) : CallRecord :=
  mkRecord 1700000000000 run "m" decision 10 5 cost 1 agent 0 "" "" "" "" (Some 2).

Definition demo_ops : list Op :=
  [ SetBudgetAudited 1 "acme" "r1" 1000 "admin";
    Ingest "acme" [row "r1" "allow" "a1" 700; row "r1" "budget_exceeded" "a1" 400;
                   row "r2" "allow" "" 50; row "r1" "allow" "a1" (-90)] 1700000000500;
    KillAudited 2 "acme" "r1" "admin";
    Restart;
    Ingest "acme" [row "r2" "allow" "" 25] 1700000000600 ].

Abbreviation demo_state := (run_ops toy demo_pct demo_cfg empty_inner demo_ops).

Example demo_reads :
  Store.summary demo_state "acme" = mkSummary 2 5 775 8 ∧
  Store.kills demo_state "acme" = ["r1"] ∧
  (in_kind <$> Store.incidents demo_state "acme") = [] ∧
  length (Store.audit demo_state "acme") = 2%nat ∧
  (al_run_id <$> Store.alerts demo_state "acme" (f64_lit 1 2)) = ["r1"].
Proof. vm_compute. done. Qed.

Lemma demo_fits : fits demo_ops.
Proof. by vm_compute. Defined.

(** The same, as a history with a save, a budget set after it, and a process that stops. *)
Definition demo_life : list Step :=
  (Operate <$> take 3 demo_ops) ++
  [ Tick [] true; Operate (SetBudgetAudited 3 "acme" "r2" 5 "admin"); Reboot ] ++
  (Operate <$> drop 4 demo_ops).
Abbreviation demo_server := (run_server toy demo_pct demo_cfg booted demo_life).

Example demo_survivors :
  survivors toy demo_pct demo_cfg demo_life = take 3 demo_ops ++ TakeDirty :: drop 3 demo_ops ∧
  length (performed demo_life) = 6%nat.
Proof. split; vm_compute; reflexivity. Qed.

Lemma demo_life_fits : fits (survivors toy demo_pct demo_cfg demo_life).
Proof. by vm_compute. Defined.

Lemma memory_bounded_witness :
  fits (survivors toy demo_pct demo_cfg demo_life) ∧
  Z.of_nat (size (incident_tracker (live demo_server))) ≤ MAX_TRACKER_KEYS.
Proof.
  split; [exact demo_life_fits|].
  pose proof (memory_bounded toy demo_pct demo_cfg demo_life demo_life_fits) as H.
  cbv zeta in H. destruct H as (_ & _ & _ & _ & _ & _ & H & _). exact H.
Defined.

Lemma audit_trail_complete_witness :
  Store.audit_verify toy (live demo_server) "acme" = Ok tt ∧
  length (Store.audit (live demo_server) "acme") = 2%nat.
Proof.
  split; [|vm_compute; reflexivity].
  exact (proj1 (proj2 (audit_trail_complete toy demo_pct demo_cfg demo_life "acme" demo_life_fits))).
Defined.

Lemma summary_exact_witness : sm_spent (Store.summary (live demo_server) "acme") = 775.
Proof.
  assert (Forall tool_calls_typed (ingested "acme" (survivors toy demo_pct demo_cfg demo_life))) as Ht.
  { rewrite (proj1 demo_survivors). repeat constructor; vm_compute; intros H; discriminate H. }
  destruct (summary_exact toy demo_pct demo_cfg demo_life "acme" Ht) as (_ & _ & H & _).
  etransitivity; [exact H|]. rewrite (proj1 demo_survivors). vm_compute. reflexivity.
Defined.

Lemma eviction_spares_alerting_witness :
  is_Some (v_runs (fold_record demo_pct (budgets demo_state !! "acme") "2023-11"
             (view "acme" demo_state) (row "r9" "allow" "" 5)) !! "r9").
Proof.
  exact (proj1 (eviction_spares_alerting toy demo_pct demo_cfg demo_ops "acme"
           (row "r9" "allow" "" 5) "2023-11" demo_fits)).
Defined.

Definition forged_row (cost : Z) : CallRecord := row "r7" "pwned" "" cost.

Lemma forged_decisions_no_evidence_witness :
  let '(j, _, fired) :=
    ingest_locked demo_pct demo_cfg "acme" [forged_row 5000000] 1700000000600 empty_inner in
  Store.decision_counts j "acme" = ∅ ∧
  ∃ inc, fired !! incident_id "spend_spike" "" = Some inc.
Proof.
  assert (Forall forged [forged_row 5000000]) as Hf by (repeat constructor).
  assert (incidents_ok (incidents empty_inner)) as Hi
    by (intros org m Hm; cbn in Hm; rewrite lookup_empty in Hm; discriminate Hm).
  pose proof (forged_decisions_no_evidence demo_pct demo_cfg "acme" _ 1700000000600 empty_inner
    Hf Hi) as H.
  destruct (ingest_locked demo_pct demo_cfg "acme" [forged_row 5000000] 1700000000600 empty_inner)
    as [[j u] fired] eqn:E.
  destruct H as (Hd & _ & _ & Hs). split; [exact Hd|].
  destruct Hs as (inc & Hinc & _); [|by exists inc].
  assert (series j !! "acme" = Some [sample_of (forged_row 5000000)]) as ->.
  { apply (f_equal (λ p, series p.1.1 !! "acme")) in E. cbn [fst] in E. rewrite <-E.
    vm_compute. reflexivity. }
  vm_compute. intros H. discriminate H.
Defined.

Lemma repeated_blocks_raise_incident_witness :
  let rs := replicate 3 (row "r1" "budget_exceeded" "" 400) in
  let '(_, updated, fired) := ingest_locked demo_pct demo_cfg "acme" rs 1700000000600
    (run_ops toy demo_pct demo_cfg empty_inner demo_ops) in
  is_Some (fired !! incident_id "budget_exhausted" "r1").
Proof.
  cbv zeta. pose proof (repeated_blocks_raise_incident toy demo_pct demo_cfg demo_ops "acme" "r1"
    (replicate 3 (row "r1" "budget_exceeded" "" 400)) 1700000000600) as H.
  specialize (H ltac:(vm_compute; intros Hx; discriminate Hx)).
  specialize (H ltac:(repeat constructor; intros Hx; discriminate Hx)).
  specialize (H ltac:(intros Hx; discriminate Hx) ltac:(vm_compute; intros Hx; discriminate Hx)).
  cbv zeta in H.
  destruct (ingest_locked _ _ _ _ _ _) as [[j u] fired].
  destruct H as (inc & Hinc & _). exists inc. exact Hinc.
Defined.

Lemma nonce_accepted_once_witness :
  (Store.check_and_record_nonce "d1" "n1"
     (run_ops toy demo_pct demo_cfg
        (Store.check_and_record_nonce "d1" "n1" demo_state).1 [Nonce "d1" "n2"; TakeDirty])).2 = false.
Proof.
  pose proof (nonce_accepted_once toy demo_pct demo_cfg demo_state "d1" "n1"
    [Nonce "d1" "n2"; TakeDirty]) as H.
  destruct (Store.check_and_record_nonce "d1" "n1" demo_state) as [j b] eqn:E.
  apply (f_equal snd) in E. cbn [snd] in E. apply H; [|reflexivity|reflexivity].
  rewrite <-E. vm_compute. reflexivity.
Defined.

Lemma pairing_code_once_witness :
  let i := Store.create_pairing "CODE" "acme" "admin" 100 demo_state in
  let j := (Store.redeem_pairing_audited toy 3 "CODE" 50 "d1" "tok" "pk" "phone" "ios" i).1 in
  Store.redeem_pairing_audited toy 4 "CODE" 51 "d2" "tok2" "pk2" "x" "y" j = (j, None).
Proof.
  cbv zeta. pose proof (pairing_code_once toy demo_pct demo_cfg
    (Store.create_pairing "CODE" "acme" "admin" 100 demo_state) 3 "CODE" 50 "d1" "tok" "pk" "phone"
    "ios" []) as H.
  destruct (Store.redeem_pairing_audited toy 3 "CODE" 50 "d1" "tok" "pk" "phone" "ios" _) as [j o].
  destruct H as [_ H]. exact (H eq_refl 4 51 "d2" "tok2" "pk2" "x" "y").
Defined.

Lemma kill_is_permanent_witness :
  ∀ a, a ∈ Store.runs (run_ops toy demo_pct demo_cfg
    (Store.kill_audited toy 9 "acme" "r2" "admin" demo_state).1 [Restart]) "acme" →
    ra_run_id a = "r2" → ra_killed a = true.
Proof.
  exact (proj2 (kill_is_permanent toy demo_pct demo_cfg demo_state 9 "acme" "r2" "admin" [Restart])).
Defined.

Lemma series_conserves_witness :
  zsum (sb_calls <$> Store.series demo_state "acme" None 60000 1000 1700000001000) = 1.
Proof.
  destruct (series_conserves demo_state "acme" None 60000 1000 1700000001000) as (_ & H & _).
  - vm_compute. intros H. discriminate H.
  - assert (series demo_state !! "acme" = Some [sample_of (row "r2" "allow" "" 25)]) as ->
      by (vm_compute; reflexivity).
    repeat constructor; vm_compute; intros H; discriminate H.
  - vm_compute. intros H. discriminate H.
  - rewrite H. vm_compute. reflexivity.
Defined.

Lemma restart_restores_witness :
  ∃ j, Store.load (λ _, Some (Store.snapshot demo_state))
         (Store.FileData (Store.save (λ _, "{}") demo_state)) empty_inner = Ok j ∧
    Store.snapshot j = Store.snapshot demo_state.
Proof.
  destruct (restart_restores toy demo_pct demo_cfg (λ _, "{}")
    (λ _, Some (Store.snapshot demo_state)) demo_ops demo_fits eq_refl) as (j & Hl & Hs & _).
  exists j. split; [exact Hl|exact Hs].
Defined.

Lemma month_spend_conserved_witness :
  month_calls "2023-11" (v_months (foldl (fold_record demo_pct None "2023-11")
    (view "acme" empty_inner) [row "r1" "allow" "" 7; row "r1" "killed" "" 3])) = 2.
Proof.
  destruct (month_spend_conserved toy demo_pct None 1700000000000 (view "acme" empty_inner)
    [row "r1" "allow" "" 7; row "r1" "killed" "" 3]) as (_ & H & _).
  - apply map_Forall_empty_string.
  - vm_compute. intros H. discriminate H.
  - vm_compute. intros H. discriminate H.
  - etransitivity; [|exact H]. vm_compute. reflexivity.
Defined.

Lemma store_well_typed_witness : typed_view (view "acme" demo_state).
Proof.
  apply (store_well_typed toy demo_pct demo_cfg demo_ops "acme" demo_fits).
  repeat constructor; vm_compute; intros H; discriminate H.
Defined.
