(* ===== verification/CloudSaved.v ===== *)
(** * The snapshot file

    Whatever the store went through, the numbers its snapshot writes are in the ranges of the
    types it is read with, so [load] accepts what [save] wrote, and what an older version
    wrote.  [save] itself ([crates/cloud/src/store.rs]) works on a file system: a private temporary
    file beside the snapshot is created and written in pieces, then renamed over it.  Every
    system call may fail, and the process may be stopped between any two of them.  Files are
    named by their paths, and no other process touches the two files. *)

From S2P Require Import Prelude Float Strings Json Serde McpReport AuditChain.
From S2P Require Import Recency CloudTypes CloudIngest CloudStore CloudInv CloudProps CloudAccess CloudTyped CloudDemo CloudJson.
From S2P Require LedgerBackend.

(** An operation's arguments are in the ranges of their types. *)
Definition typed_args (op : Op) : Prop :=
  match op with
  | Ingest _ records now => Forall typed_record records ∧ in_i64 now
  | SetBudget _ _ m | SetUnitBudget _ _ m => in_i64 m
  | SetBudgetAudited now _ _ m _ | SetUnitBudgetAudited now _ _ m _ => in_i64 now ∧ in_i64 m
  | KillAudited now _ _ _ | AckAudited now _ _ _ | Notified _ _ now _ | AuditAppend now _ _ _ _ _
  | RedeemAudited now _ _ _ _ _ _ _ => in_i64 now
  | Finding now _ _ f => in_i64 now ∧ in_i64 (Store.fi_ts f)
  | _ => True
  end.

Section saved.
Context `{HashOrder} (sha256 : string → string) (alert_pct : f64) (cfg : IncidentConfig).

(** What the typing of the aggregates leaves out. *)
Definition typed_rest (i : Inner) : Prop :=
  domain (by_org c_i64) (budgets i) ∧ domain (by_org c_i64) (unit_budgets i) ∧
  domain (by_org c_incident) (incidents i) ∧ domain (c_map (c_list c_entry)) (audit i).

Lemma insert_in_domain {A} (c : Codec A) org k v m :
  domain c v → domain (by_org c) m → domain (by_org c) (insert_in org k v m).
Proof.
  intros Hv Hm. apply map_Forall_insert_2; [|done]. apply map_Forall_insert_2; [done|].
  destruct (m !! org) as [m'|] eqn:E; [exact (Hm _ _ E)|apply map_Forall_empty].
Qed.

Lemma get_in_domain {A} (c : Codec A) org k v m :
  domain (by_org c) m → get_in org k m = Some v → domain c v.
Proof. intros Hm (m' & Ho & Hk)%bind_Some. exact (Hm _ _ Ho _ _ Hk). Qed.

Lemma upsert_typed org kind sev scope run agent ts i :
  in_i64 ts → domain (by_org c_incident) (incidents i) →
  domain (by_org c_incident) (incidents (upsert_incident org kind sev scope run agent ts i).1).
Proof.
  intros Hts Hi. unfold upsert_incident. cbn [fst]. set (id := incident_id kind scope).
  assert (domain (c_map c_incident) (evict_incident id (default ∅ (incidents i !! org)))) as He.
  { assert (domain (c_map c_incident) (default ∅ (incidents i !! org))) as Hd.
    { destruct (incidents i !! org) as [m'|] eqn:E; [exact (Hi _ _ E)|apply map_Forall_empty]. }
    unfold evict_incident. destruct (_ && _); [|done]. destruct (oldest _) as [[]|]; [|done].
    by apply map_Forall_delete. }
  cbn. apply map_Forall_insert_2; [|done]. apply map_Forall_insert_2; [|done].
  assert (domain c_incident
    (default (open_incident org kind sev scope run agent ts)
       (evict_incident id (default ∅ (incidents i !! org)) !! id))) as (H1 & H2 & H3 & H4).
  { destruct (_ !! id) as [inc|] eqn:E; [exact (He _ _ E)|]. cbn. split_and!; try done; mach. }
  cbn. split_and!; try done; [by destruct (_ <? _)|apply u64_wrap_range].
Qed.

Lemma append_typed org e (m : gmap string (list AuditEntry)) now a b c d :
  in_i64 now → e = append sha256 (last (default [] (m !! org))) now a b c d →
  domain (c_map (c_list c_entry)) m →
  domain (c_map (c_list c_entry)) (<[org := default [] (m !! org) ++ [e]]> m).
Proof.
  intros Hnow -> Hm. apply map_Forall_insert_2; [|done]. apply Forall_app. split.
  - destruct (m !! org) as [l|] eqn:E; [exact (Hm _ _ E)|constructor].
  - constructor; [|constructor]. split; [|done]. cbn.
    destruct (last _); [apply u64_wrap_range|mach].
Qed.

Lemma fire_rest over org kind sev scope run agent ts s :
  in_i64 ts → typed_rest s.1 → typed_rest (fire over org kind sev scope run agent ts s).1.
Proof.
  intros Hts (Hb & Hu & Hi & Ha). unfold fire. destruct over; [|done].
  exact (conj Hb (conj Hu (conj (upsert_typed org kind sev scope run agent ts s.1 Hts Hi) Ha))).
Qed.

Lemma bump_rest org kind scope ts w i : typed_rest i → typed_rest (bump_tracker org kind scope ts w i).1.
Proof. unfold bump_tracker. by destruct (bound_tracker _ _ _). Qed.

Lemma bump_fanout_rest org a run ts now w i :
  typed_rest i → typed_rest (bump_fanout_tracker org a run ts now w i).1.
Proof. unfold bump_fanout_tracker. by destruct (bound_tracker _ _ _). Qed.

Lemma detect_record_rest org now s r :
  in_i64 now → typed_record r → typed_rest s.1 → typed_rest (detect_record cfg org now s r).1.
Proof.
  intros Hnow Hr Hs. unfold detect_record. set (ts := if 0 <? r_ts r then _ else _).
  assert (in_i64 ts) as Hts by (unfold ts; destruct (_ <? _); [apply Hr|done]).
  set (agent := if is_empty_str _ then _ else _).
  assert (typed_rest (detect_budget cfg org r ts agent s).1) as Hb.
  { unfold detect_budget. case_match; [|done].
    pose proof (bump_rest org "budget_exhausted" (r_run_id r) ts None _ Hs).
    destruct (bump_tracker _ _ _ _ _ _). by apply fire_rest. }
  revert Hb. generalize (detect_budget cfg org r ts agent s). clear s Hs. intros s Hs.
  assert (typed_rest (detect_loop cfg org r ts agent now s).1) as Hb.
  { unfold detect_loop. case_match; [|done].
    pose proof (bump_rest org "sustained_loop" (r_run_id r) ts (Some (now, loop_window_ms cfg)) _ Hs).
    destruct (bump_tracker _ _ _ _ _ _). by apply fire_rest. }
  revert Hb. generalize (detect_loop cfg org r ts agent now s). clear s Hs. intros s Hs.
  unfold detect_fanout. destruct agent as [a|]; [|done].
  pose proof (bump_fanout_rest org a (r_run_id r) ts now (fanout_window_ms cfg) _ Hs).
  destruct (bump_fanout_tracker _ _ _ _ _ _ _). by apply fire_rest.
Qed.

Lemma ingest_rest org rs now i :
  Forall typed_record rs → in_i64 now → typed_rest i →
  typed_rest (ingest_locked alert_pct cfg org rs now i).1.1.
Proof.
  intros Hrs Hnow Hi. unfold ingest_locked. set (j := push_samples _ _ _).
  assert (typed_rest j) as Hj by exact Hi.
  assert (typed_rest (foldl (detect_record cfg org now) (j, ∅) rs).1) as Hd.
  { generalize (∅ : gmap string Incident). clearbody j. clear Hi. revert j Hj.
    induction Hrs as [|r rs Hr _ IH]; intros j Hj f; [done|]. cbn [foldl].
    pose proof (detect_record_rest org now (j, f) r Hnow Hr Hj).
    destruct (detect_record cfg org now (j, f) r) as [j' f']. by apply IH. }
  revert Hd. generalize (foldl (detect_record cfg org now) (j, ∅) rs). intros s Hd.
  unfold detect_spike. match goal with |- context [fire ?b ?g ?k ?v ?c ?r ?a ?t s] =>
    pose proof (fire_rest b g k v c r a t s Hnow Hd); by destruct (fire b g k v c r a t s) end.
Qed.

Lemma log_rest now org a b c d i :
  in_i64 now → typed_rest i → typed_rest (Store.append_audit_locked sha256 now org a b c d i).
Proof. intros Hn (?&?&?&?). split_and!; try done. by eapply append_typed. Qed.

Lemma apply_rest i op :
  typed_args op → typed_rest i → typed_rest (apply_op sha256 alert_pct cfg i op).
Proof.
  intros Ha Hi. pose proof Hi as (Hb & Hu & Hinc & Haud).
  destruct op; cbn [apply_op typed_args] in *; try exact Hi.
  - destruct Ha. by apply ingest_rest.
  - by apply log_rest.
  - split_and!; try done. by apply insert_in_domain.
  - destruct Ha. apply log_rest; [done|]. split_and!; try done. by apply insert_in_domain.
  - split_and!; try done. by apply insert_in_domain.
  - destruct Ha. apply log_rest; [done|]. split_and!; try done. by apply insert_in_domain.
  - unfold Store.ack_incident. destruct (get_in _ _ _) as [inc|] eqn:E; [|done].
    split_and!; try done. apply insert_in_domain; [|done].
    exact (get_in_domain c_incident _ _ _ _ Hinc E).
  - unfold Store.ack_incident_audited. destruct (get_in _ _ _) as [inc|] eqn:E; [|done].
    apply log_rest; [done|]. split_and!; try done. apply insert_in_domain; [|done].
    exact (get_in_domain c_incident _ _ _ _ Hinc E).
  - destruct Ha as [Hn Hts]. unfold Store.record_external_finding.
    set (agent := if starts_with _ _ then _ else _).
    pose proof (upsert_typed org (Store.fi_detector f) (Store.fi_severity f) (Store.fi_subject f)
      None agent (Store.fi_ts f) i Hts Hinc) as Hup.
    assert (typed_rest (upsert_incident org (Store.fi_detector f) (Store.fi_severity f)
      (Store.fi_subject f) None agent (Store.fi_ts f) i).1) as Hr by (split_and!; try done).
    destruct (upsert_incident _ _ _ _ _ _ _ i) as [j inc]. cbn [fst] in *.
    destruct (get_in _ _ _) as [stored|] eqn:E; [|done]. apply log_rest; [done|].
    destruct Hr as (?&?&Hj&?). split_and!; try done. apply insert_in_domain; [|done].
    exact (get_in_domain c_incident _ _ _ _ Hj E).
  - unfold Store.mark_incident_notified. destruct (get_in _ _ _) as [inc|] eqn:E; [|done].
    destruct (_ <? _); [|done]. split_and!; try done. apply insert_in_domain; [|done].
    pose proof (get_in_domain c_incident _ _ _ _ Hinc E) as (?&?&?&?). by split_and!.
  - by apply log_rest.
  - unfold Store.redeem_pairing. destruct (pairings i !! code); [|done]. by destruct (_ <? _).
  - unfold Store.redeem_pairing_audited. destruct (pairings i !! code) as [p|]; [|done].
    destruct (_ <? _); [done|]. by apply log_rest.
  - unfold Store.check_and_record_nonce. by destruct (existsb _ _).
  - unfold Store.set_apns_token. by destruct (find _ _) as [[? ?]|].
Qed.

Lemma snapshot_domain i :
  (∀ org, typed_view (view org i)) → typed_rest i → domain c_snapshot (Store.snapshot i).
Proof.
  intros Hv (Hb & Hu & Hi & Ha).
  assert (∀ z, spend z → in_i64 z) as Hs by (intros z; unfold spend; mach).
  split_and!; try done; intros org x Hx; destruct (Hv org) as [H1 H2 H3 H4 H5];
    unfold view in *; cbn in *; rewrite Hx in *; cbn in *.
  - intros k a Hk. destruct (H1 _ _ Hk). by split_and!; try apply Hs.
  - destruct H2 as (?&?&?&?). by split_and!; try apply Hs.
  - intros k a Hk. destruct (H5 _ _ Hk). split; [by apply Hs|done].
  - intros k a Hk. exact (H3 _ _ Hk).
  - destruct H4 as (?&?&?). by split_and!; try apply Hs.
Qed.

Lemma typed_args_op op : typed_args op → typed_op op.
Proof. destruct op; cbn; tauto. Qed.

Lemma run_rest ops i :
  Forall typed_args ops → typed_rest i → typed_rest (run_ops sha256 alert_pct cfg i ops).
Proof.
  intros Ho. revert i. induction Ho as [|op ops Hop _ IH]; intros i Hi; [done|].
  cbn [run_ops foldl]. by apply IH, apply_rest.
Qed.

Lemma without_none m : without ∅ m = m.
Proof. induction m as [|p m IH]; [done|]. unfold without in *. rewrite filter_cons_True; [by f_equal|set_solver]. Qed.

Lemma saved_domain ops :
  fits ops → Forall typed_args ops →
  domain c_snapshot (Store.snapshot (run_ops sha256 alert_pct cfg empty_inner ops)).
Proof.
  intros Hf Hops. apply snapshot_domain.
  - intros org. apply reachable_typed; [done|]. eapply Forall_impl; [done|apply typed_args_op].
  - apply run_rest; [done|]. by split_and!; try apply map_Forall_empty.
Qed.

(** The document of a reachable state, or what is left of it without some members, is loaded. *)
Lemma load_saved (print : Value → string) (parse : string → option Value) ops dropped j :
  fits ops → Forall typed_args ops →
  let s := Store.snapshot (run_ops sha256 alert_pct cfg empty_inner ops) in
  let doc := Obj (without dropped (snapshot_members s)) in
  parse (print doc) = Some doc →
  Store.load (λ t, parse t ≫= read_snapshot) (Store.FileData (print doc)) j =
    Ok (Store.restore (drop_members dropped s) j).
Proof.
  intros Hf Hops s doc Hd. unfold Store.load. rewrite Hd. cbn [mbind option_bind].
  unfold doc. by rewrite (read_snapshot_without _ _ (saved_domain ops Hf Hops)).
Qed.

(** The whole document is read as the snapshot. *)
Lemma read_saved (print : Value → string) (parse : string → option Value) ops :
  fits ops → Forall typed_args ops →
  let s := Store.snapshot (run_ops sha256 alert_pct cfg empty_inner ops) in
  parse (print (to_value c_snapshot s)) = Some (to_value c_snapshot s) →
  parse (print (to_value c_snapshot s)) ≫= read_snapshot = Some s.
Proof.
  intros Hf Hops s Hd. rewrite Hd. cbn [mbind option_bind].
  pose proof (read_snapshot_without ∅ s (saved_domain ops Hf Hops)) as Hl.
  rewrite without_none in Hl. exact Hl.
Qed.

(** C18: What the control plane saved it can load.  Whatever operations led to the state, the
    document of its snapshot is read back member by member, so a process started on it has the
    saved data; and a document without some of the members, as an older version wrote it, is
    read with exactly those empty.  All that is asked of the JSON library is that its parser
    undoes its printer on these documents. *)
Theorem saved_snapshot_loads (print : Value → string) (parse : string → option Value) ops ks j :
  fits ops → Forall typed_args ops →
  let s := Store.snapshot (run_ops sha256 alert_pct cfg empty_inner ops) in
  let doc dropped := Obj (without dropped (snapshot_members s)) in
  parse (print (doc ∅)) = Some (doc ∅) → parse (print (doc ks)) = Some (doc ks) →
  let load text := Store.load (λ t, parse t ≫= read_snapshot) (Store.FileData text) j in
  load (Store.save (print ∘ to_value c_snapshot) (run_ops sha256 alert_pct cfg empty_inner ops)) =
    Ok (Store.restore s j) ∧
  load (print (doc ks)) = Ok (Store.restore (drop_members ks s) j).
Proof.
  intros Hf Hops s doc Hp Hpk load. split; [|by apply load_saved].
  unfold doc in Hp. rewrite without_none in Hp. unfold load, Store.load, Store.save.
  cbn [compose]. by rewrite (read_saved print parse ops Hf Hops Hp).
Qed.

End saved.

(** ** An instance *)

#[local] Existing Instance listing_order.

(** A stand-in for the library on two documents, told apart by their size. *)
Definition demo_snapshot : Store.Snapshot := Store.snapshot demo_state.
Definition demo_doc (ks : gset string) : Value := Obj (without ks (snapshot_members demo_snapshot)).
Definition demo_print (v : Value) : string :=
  match v with Obj m => if (length m =? 11)%nat then "new" else "old" | _ => "" end.
Definition demo_parse (s : string) : option Value :=
  if bool_decide (s = "new") then Some (demo_doc ∅) else Some (demo_doc {["savings"; "org_totals"]}).

Lemma saved_snapshot_loads_witness :
  Store.load (λ t, demo_parse t ≫= read_snapshot) (Store.FileData "old") empty_inner =
    Ok (Store.restore (drop_members {["savings"; "org_totals"]} demo_snapshot) empty_inner).
Proof.
  assert (Forall typed_args demo_ops) as Ho.
  { repeat constructor; vm_compute; intros H; discriminate H. }
  destruct (saved_snapshot_loads toy demo_pct demo_cfg demo_print demo_parse demo_ops
    {["savings"; "org_totals"]} empty_inner demo_fits Ho) as [_ H]; [by vm_compute..|]. exact H.
Defined.

(** ** [Path::with_extension] *)

(** The components of a path from the last, without trailing separators and [.]. *)
Fixpoint skip_trailing (l : list string) : list string :=
  match l with
  | x :: ((_ :: _) as rest) =>
      if bool_decide (x = "") || bool_decide (x = ".") then skip_trailing rest else l
  | _ => l
  end.
Definition components_back (path : string) : list string := skip_trailing (rev (split_char "/" path)).

(** [Path::file_name] and [Path::file_stem]. *)
Definition file_name (path : string) : option string :=
  match components_back path with
  | name :: _ =>
      if bool_decide (name = "") || bool_decide (name = ".") || bool_decide (name = "..") then None
      else Some name
  | [] => None
  end.
Definition file_stem (name : string) : string :=
  match rsplit_char "." name with Some ((String _ _) as before, _) => before | _ => name end.

Definition with_extension (path ext : string) : string :=
  match file_name path with
  | None => path
  | Some name =>
      join_char "/" (rev (tail (components_back path)) ++ [file_stem name +:+ "." +:+ ext])
  end.

Example with_extension_json : with_extension "/data/state.json" "tmp" = "/data/state.tmp".
Proof. reflexivity. Qed.
Example with_extension_hidden : with_extension "a/.state/." "tmp" = "a/.state.tmp".
Proof. reflexivity. Qed.
Example with_extension_double : with_extension "state.tar.gz" "tmp" = "state.tar.tmp".
Proof. reflexivity. Qed.
Example with_extension_dots : with_extension "a/.." "tmp" = "a/..".
Proof. reflexivity. Qed.

Lemma join_char_last c l x : ∃ p, join_char c (l ++ [x]) = p +:+ x.
Proof.
  induction l as [|y l [p IH]]; [by exists ""|]. cbn [app].
  destruct (l ++ [x]) as [|z k] eqn:E; [by destruct l|]. rewrite join_char_cons.
  rewrite IH. exists (y +:+ String c p). by rewrite append_assoc.
Qed.

(** ** The file system *)

(** A regular file and its permission bits. *)
Record File := mkFile { f_data : string; f_mode : Z }.
Abbreviation Files := (gmap string File).

(** How a system call ends: it does its work, a [write] with at most that many bytes more than
    one, or it fails. *)
Inductive Outcome := Does (more : nat) | Fails (e : string).

(** Where [save] stands: the file is not open yet, [rest] is still to be written, the file is to
    be renamed, or it has returned. *)
Inductive Stage := Opening | Writing (rest : string) | Renaming | Returned (r : result unit string).

Section save.
Context (umask : Z) (path data : string).

(* @src cloud/store.rs 2069 Store::save *)
Definition tmp_path : string := with_extension path "tmp".

(** [OpenOptions::new().write(true).create(true).truncate(true).mode(0o600).open(tmp)]: the mode
    is that of a file that is created. *)
Definition open_private (old : option File) : File :=
  mkFile "" (match old with Some f => f_mode f | None => Z.ldiff 384 umask end).

(** One system call of [save]. *)
(* @src cloud/store.rs 2545-2562 write_file_private *)
Definition write_step (o : Outcome) (rest : string) (fs : Files) : Stage * Files :=
  match rest, o with
  | "", _ => (Renaming, fs)
  | _, Fails e => (Returned (Err e), fs)
  | _, Does more =>
      (Writing (str_drop (S more) rest),
       alter (λ f, mkFile (f_data f +:+ str_take (S more) rest) (f_mode f)) tmp_path fs)
  end.

(* @src cloud/store.rs 2069-2072 Store::save *)
Definition save_step (s : Stage * Files) (o : Outcome) : Stage * Files :=
  let '(stage, fs) := s in
  match stage, o with
  | Opening, Does _ => (Writing data, <[tmp_path := open_private (fs !! tmp_path)]> fs)
  | Writing rest, _ => write_step o rest fs
  | Renaming, Does _ =>
      match fs !! tmp_path with
      | Some f => (Returned (Ok tt), <[path := f]> (delete tmp_path fs))
      | None => (Returned (Err "No such file or directory"), fs)
      end
  | (Opening | Renaming), Fails e => (Returned (Err e), fs)
  | Returned _, _ => (stage, fs)
  end.

(** [save] up to the call after which the process was stopped. *)
Definition save_run (os : list Outcome) (fs : Files) : Stage * Files :=
  foldl save_step (Opening, fs) os.

Definition done_ok (s : Stage) : bool := match s with Returned (Ok _) => true | _ => false end.

(** What is true at every point of [save] started on [fs0]. *)
Definition saving (fs0 : Files) (s : Stage * Files) : Prop :=
  let '(stage, fs) := s in
  (∀ p, p ≠ path → p ≠ tmp_path → fs !! p = fs0 !! p) ∧
  match stage with
  | Opening => fs = fs0
  | Writing rest =>
      fs !! path = fs0 !! path ∧ ∃ f, fs !! tmp_path = Some f ∧ f_data f +:+ rest = data ∧
        f_mode f = f_mode (open_private (fs0 !! tmp_path))
  | Renaming =>
      fs !! path = fs0 !! path ∧
      fs !! tmp_path = Some (mkFile data (f_mode (open_private (fs0 !! tmp_path))))
  | Returned (Ok _) =>
      fs !! path = Some (mkFile data (f_mode (open_private (fs0 !! tmp_path)))) ∧
      fs !! tmp_path = None
  | Returned (Err _) => fs !! path = fs0 !! path
  end.

Lemma write_saving fs0 rest fs o :
  tmp_path ≠ path → saving fs0 (Writing rest, fs) → saving fs0 (write_step o rest fs).
Proof.
  intros Ht (Ho & Hp & f & Hf & Hd & Hm). unfold write_step.
  destruct rest as [|c rest]; [|destruct o as [more|e]]; cbn.
  - split_and!; [done..|]. rewrite Hf. rewrite append_nil_r in Hd. destruct f; cbn in *. by subst.
  - split; [|split].
    + intros p ??. rewrite lookup_alter_ne by done. by apply Ho.
    + by rewrite lookup_alter_ne.
    + exists (mkFile (f_data f +:+ str_take (S more) (String c rest)) (f_mode f)).
      rewrite lookup_alter_eq, Hf. cbn [f_data f_mode fmap option_fmap option_map].
      split_and!; [done| |done]. rewrite append_assoc. cbn.
      by rewrite cons_app, str_take_drop.
  - done.
Qed.

Lemma step_saving fs0 s o : tmp_path ≠ path → saving fs0 s → saving fs0 (save_step s o).
Proof.
  destruct s as [stage fs]. intros Ht Hs. destruct stage as [|rest| |r].
  - destruct Hs as [Ho ->]. destruct o as [more|e]; cbn; [|done]. split; [|split].
    + intros p ??. by rewrite lookup_insert_ne.
    + by rewrite lookup_insert_ne.
    + eexists. by rewrite lookup_insert_eq.
  - by apply write_saving.
  - destruct Hs as (Ho & Hp & Hf), o as [more|e]; cbn; [|done]. rewrite Hf. cbn. split; [|split].
    + intros p ??. rewrite lookup_insert_ne, lookup_delete_ne by done. by apply Ho.
    + by rewrite lookup_insert_eq.
    + by rewrite lookup_insert_ne, lookup_delete_eq.
  - done.
Qed.

Lemma run_saving fs0 os : tmp_path ≠ path → saving fs0 (save_run os fs0).
Proof.
  intros Ht. unfold save_run. assert (saving fs0 (Opening, fs0)) as Hs by done.
  revert Hs. generalize (Opening, fs0). induction os as [|o os IH]; intros s Hs; [done|].
  by apply IH, step_saving.
Qed.
End save.

(** [save] returns: no run of it is longer than its calls, one to open, one to rename and one
    for each byte, with two for the end of the writing. *)
Lemma save_returns umask path data os fs :
  (String.length data + 3 ≤ length os)%nat → ∃ r, (save_run umask path data os fs).1 = Returned r.
Proof.
  unfold save_run. intros Hl.
  assert (∀ os s, match s.1 with
    | Opening => String.length data + 3 | Writing rest => String.length rest + 2
    | Renaming => 1 | Returned _ => 0 end ≤ length os →
    ∃ r, (foldl (save_step umask path data) s os).1 = Returned r)%nat as H by shelve.
  by apply H.
  Unshelve. clear. induction os as [|o os IH]; intros [stage fs] Hs; cbn in *.
  - destruct stage; try lia. by eexists.
  - apply IH. destruct stage as [|rest| |r]; [destruct o| |destruct o|]; cbn; try lia.
    + unfold write_step. destruct rest as [|c rest]; [cbn; lia|]. destruct o; cbn; [|lia].
      cbn in Hs. rewrite str_drop_length. lia.
    + destruct (fs !! tmp_path path); cbn; lia.
Qed.

(** The temporary file is the snapshot file itself only if that is named so, or names no file. *)
Lemma tmp_path_same path :
  tmp_path path = path → file_name path = None ∨ ∃ p, path = p +:+ ".tmp".
Proof.
  unfold tmp_path, with_extension. destruct (file_name path) as [name|]; [|by left].
  intros H. right. destruct (join_char_last "/" (rev (tail (components_back path)))
    (file_stem name +:+ "." +:+ "tmp")) as [p Hp].
  exists (p +:+ file_stem name). by rewrite <-H, Hp, append_assoc.
Qed.

Section attempts.
Context {A : Type} (text : A → string) (umask : Z) (path : string).





End attempts.


Section durable.
Context `{HashOrder} (sha256 : string → string) (alert_pct : f64) (cfg : IncidentConfig).
Context (print : Value → string) (parse : string → option Value).


End durable.

(** A snapshot nobody but the owner can read: when no temporary file was left behind. *)
Lemma saved_private umask path data os fs :
  tmp_path path ≠ path → fs !! tmp_path path = None →
  done_ok (save_run umask path data os fs).1 = true →
  ∃ f, (save_run umask path data os fs).2 !! path = Some f ∧ Z.land (f_mode f) 63 = 0.
Proof.
  intros Ht Hn Hd. pose proof (run_saving umask path data fs os Ht) as Hs.
  destruct (save_run _ _ _ _ _) as [[|rest| |[u|e]] fs']; try done. destruct Hs as (_ & Hs & _).
  rewrite Hn in Hs. eexists. split; [exact Hs|].
  cbn [f_mode open_private]. rewrite Z.ldiff_land, (Z.land_comm 384), <-Z.land_assoc. apply Z.land_0_r.
Qed.

(** A temporary file that was left behind keeps its permissions, and gives them to the snapshot. *)
Example stale_tmp_mode :
  f_mode <$> (save_run 18 "state.json" "{}" [Does 0; Does 5; Does 0; Does 0]
    {["state.tmp" := mkFile "old" 420]}).2 !! "state.json" = Some 420.
Proof. by vm_compute. Qed.

(** A snapshot file with the extension of the temporary one is written in place, and a save that
    is stopped leaves it cut short. *)
Example saved_in_place :
  save_run 18 "data/state.tmp" "{}" [Does 0; Does 0] {["data/state.tmp" := mkFile "{1}" 384]} =
    (Writing "}", {["data/state.tmp" := mkFile "{" 384]}).
Proof. by vm_compute. Qed.

(** ** An instance *)


