(* ===== verification/CloudAuth.v ===== *)
(** * Who may call the control plane

    [crates/cloud/src/keys.rs], [oidc.rs], [devices.rs], and the authorization part of
    [AppState] in [http.rs].  A request is a task over the store: a sequence of critical
    sections, each a read or one of the store's operations, between which other requests
    run.  Signature verification, SHA-256, base64 and the JWT library are parameters. *)

From S2P Require Import Prelude Float Strings AuditChain.
From S2P Require Import Recency CloudTypes CloudIngest CloudStore CloudInv.
From S2P Require Json Request.

Definition NL : string := String (ascii_of_nat 10) "".

(** ** API keys *)

(* @src keys.rs Principal *)
Record Principal := mkPrincipal { pr_org : string; pr_role : string }.

(** One [key:org[:role]] entry, when it is usable. *)
(* @src keys.rs 36-55 parse_keys *)
Definition parse_pair (pair : string) : option (string * Principal) :=
  match split_char ":"%char (trim pair) with
  | key :: org :: rest =>
      if is_empty_str (trim key) || is_empty_str (trim org) then None
      else
        let role := match rest with
                    | role :: _ => if is_empty_str (trim role) then "admin" else trim role
                    | [] => "admin"
                    end in
        Some (trim key, mkPrincipal (trim org) role)
  | _ => None
  end.

Definition add_pair (keys : gmap string Principal) (pair : string) : gmap string Principal :=
  if is_empty_str (trim pair) then keys
  else match parse_pair pair with Some (k, p) => <[k := p]> keys | None => keys end.

(* @src keys.rs parse_keys *)
Definition parse_keys (spec : string) (allow_devkey : bool) : gmap string Principal :=
  let keys := foldl add_pair ∅ (split_char ","%char spec) in
  if bool_decide (keys = ∅) && allow_devkey
  then <["devkey" := mkPrincipal "default" "admin"]> keys else keys.

(** ** Tasks over the store *)

Inductive Task (A : Type) : Type :=
| Ret (a : A)
| Read (B : Type) (f : Inner → B) (k : B → Task A)
| Write (B : Type) (op : Op) (out : Inner → B) (k : B → Task A).
Arguments Ret {A} a.
Arguments Read {A B} f k.
Arguments Write {A B} op out k.

Fixpoint task_bind {A B} (p : Task A) (f : A → Task B) : Task B :=
  match p with
  | Ret a => f a
  | Read g k => Read g (λ b, task_bind (k b) f)
  | Write op out k => Write op out (λ b, task_bind (k b) f)
  end.

Declare Scope task_scope.
Delimit Scope task_scope with task.
Notation "x ←! p ; q" := (task_bind p (λ x, q))
  (at level 20, p at level 100, q at level 200, right associativity) : task_scope.

(** A read lock held for [f]; the write lock held for one operation, whose result is a
    function of the state it found. *)
Definition read {B} (f : Inner → B) : Task B := Read f Ret.
Definition write {B} (op : Op) (out : Inner → B) : Task B := Write op out Ret.

(** A critical section of a task: the state it found and what it did there. *)
Abbreviation Event := (Inner * option Op)%type.

Section exec.
Context `{HashOrder} (sha256 : string → string) (alert_pct : f64) (cfg : IncidentConfig).

(** Running a task: before each of its critical sections, the operations of the rest of the
    system for that place. *)
Fixpoint exec {A} (p : Task A) (others : list (list Op)) (i : Inner) : Inner * list Event * A :=
  match p with
  | Ret a => (i, [], a)
  | Read f k =>
      let i := run_ops sha256 alert_pct cfg i (default [] (head others)) in
      let '(j, tr, a) := exec (k (f i)) (tail others) i in (j, (i, None) :: tr, a)
  | Write op out k =>
      let i := run_ops sha256 alert_pct cfg i (default [] (head others)) in
      let '(j, tr, a) := exec (k (out i)) (tail others) (apply_op sha256 alert_pct cfg i op) in
      (j, (i, Some op) :: tr, a)
  end.
End exec.

(** What a task may do, whatever the states it finds: [P] of each of its operations, after the
    critical sections so far, and [Q] of its answer. *)
Fixpoint spec {A} (P : list Event → Op → Prop) (tr : list Event) (p : Task A)
    (Q : list Event → A → Prop) : Prop :=
  match p with
  | Ret a => Q tr a
  | Read f k => ∀ i, spec P (tr ++ [(i, None)]) (k (f i)) Q
  | Write op out k => P tr op ∧ ∀ i, spec P (tr ++ [(i, Some op)]) (k (out i)) Q
  end.

(** ** The libraries *)

(* @src oidc.rs 194-200 verify *)
Inductive Algorithm := RS256 | RS384 | RS512 | ES256 | ES384 | HS256 | OtherAlgorithm.

(** [AlgorithmParameters] of a JWK: the kind of its key. *)
Inductive KeyKind := RsaKey | EllipticCurveKey | OctetKeyPair | OctetKey.

(** [jsonwebtoken::Validation], the fields the program sets. *)
Record Validation := mkValidation {
  va_algorithms : list Algorithm;
  va_exp : bool;
  va_required : list string;
  va_issuer : list string;
  va_audience : list string
}.

(* @src oidc.rs Claims *)
Record Claims := mkClaims { cl_sub : string; cl_extra : gmap string Json.Value }.

(** What the program calls of its third-party libraries: [sha2], [base64], [p256],
    [jsonwebtoken] and [http]. *)
Class CloudLib := {
  sha256 : string → string;
  to_str : string → option string;                       (* HeaderValue::to_str *)
  b64_decode : string → option string;
  b64_encode : string → string;
  VerifyingKey : Type;
  Signature : Type;
  from_sec1_bytes : string → option VerifyingKey;
  signature_from_slice : string → option Signature;
  verify_bytes : VerifyingKey → string → Signature → bool;
  SigningKey : Type;
  sign : SigningKey → string → string;                   (* the 64 bytes r||s *)
  public_point : SigningKey → string;
  Jwk : Type;
  jwk_kind : Jwk → KeyKind;
  DecodingKey : Type;
  from_jwk : Jwk → option DecodingKey;
  JwkSet : Type;
  parse_jwks : string → option JwkSet;
  jwks_empty : JwkSet → bool;
  jwks_find : JwkSet → string → option Jwk;
  decode_header : string → option (option string);       (* the header's kid *)
  jwt_decode : string → DecodingKey → Validation → option Claims
}.

Section auth.
Context `{CloudLib}.

(** ** Device signatures *)

(* @src devices.rs canonical_string *)
Definition canonical_string (method path body ts nonce : string) : string :=
  method +:+ NL +:+ path +:+ NL +:+ hex_lower (sha256 body) +:+ NL +:+ ts +:+ NL +:+ nonce.

(* @src devices.rs verify_signature *)
Definition verify_signature (pubkey_b64 canonical sig_b64 : string) : bool :=
  match b64_decode pubkey_b64 with
  | None => false
  | Some pk_bytes =>
      match b64_decode sig_b64 with
      | None => false
      | Some sig_bytes =>
          match from_sec1_bytes pk_bytes with
          | None => false
          | Some vk =>
              match signature_from_slice sig_bytes with
              | None => false
              | Some sig => verify_bytes vk canonical sig
              end
          end
      end
  end.

(** The random bytes are an input. *)
(* @src devices.rs random_hex *)
Definition random_hex (buf : string) : string := hex_lower buf.

(* @src devices.rs 82 pairing_code *)
Definition ALPHABET : string := "ABCDEFGHJKLMNPQRSTUVWXYZ23456789".

(* @src devices.rs pairing_code *)
Definition pairing_code (buf : string) : string :=
  str_map (λ b, match String.get (nat_of_ascii b mod String.length ALPHABET)%nat ALPHABET with
                | Some c => String c ""
                | None => ""
                end) buf.

(** ** OpenID Connect *)

(* @src oidc.rs DEFAULT_ORG_CLAIM *)
Definition DEFAULT_ORG_CLAIM : string := "org".
(* @src oidc.rs DEFAULT_ROLES_CLAIM *)
Definition DEFAULT_ROLES_CLAIM : string := "roles".
(* @src oidc.rs DEFAULT_ADMIN_ROLE *)
Definition DEFAULT_ADMIN_ROLE : string := "admin".

(* @src oidc.rs OidcConfig *)
Record OidcConfig := mkOidc {
  oc_issuer : string; oc_audience : string; oc_jwks : JwkSet; oc_org_claim : string;
  oc_roles_claim : string; oc_admin_role : string
}.

(* @src oidc.rs non_empty *)
Definition non_empty (value dflt : string) : string := if is_empty_str value then dflt else value.

(* @src oidc.rs OidcConfig::new *)
Definition oidc_new (issuer audience jwks_json org_claim roles_claim admin_role : string)
  : option OidcConfig :=
  if is_empty_str issuer || is_empty_str audience then None
  else
    jwks ← parse_jwks jwks_json;
    if jwks_empty jwks then None
    else Some (mkOidc issuer audience jwks (non_empty org_claim DEFAULT_ORG_CLAIM)
                 (non_empty roles_claim DEFAULT_ROLES_CLAIM)
                 (non_empty admin_role DEFAULT_ADMIN_ROLE)).

(* @src oidc.rs Verified *)
Record Verified := mkVerified { ve_principal : Principal; ve_actor : string }.

(* @src oidc.rs Claims::string *)
Definition claim_string (c : Claims) (key : string) : option string :=
  match cl_extra c !! key with
  | Some (Json.Str s) => if is_empty_str s then None else Some s
  | _ => None
  end.

(* @src oidc.rs Claims::has_role *)
Definition has_role (c : Claims) (key role : string) : bool :=
  match cl_extra c !! key with
  | Some (Json.Arr items) => existsb (λ v, bool_decide (Json.as_str v = Some role)) items
  | Some (Json.Str s) => existsb (λ r, bool_decide (r = role)) (split_whitespace s)
  | _ => false
  end.

(* @src oidc.rs 194-200 verify *)
Definition allowed_algorithms (jwk : Jwk) : option (list Algorithm) :=
  match jwk_kind jwk with
  | RsaKey => Some [RS256; RS384; RS512]
  | EllipticCurveKey => Some [ES256; ES384]
  | _ => None
  end.

(* @src oidc.rs 222-245 verify *)
Definition verified_claims (cfg : OidcConfig) (claims : Claims) : option Verified :=
  org ← claim_string claims (oc_org_claim cfg);
  let role := if has_role claims (oc_roles_claim cfg) (oc_admin_role cfg) then "admin"
              else "viewer" in
  let subject := if is_empty_str (cl_sub claims) then org else cl_sub claims in
  Some (mkVerified (mkPrincipal org role) ("oidc:" +:+ subject)).

(* @src oidc.rs verify *)
Definition verify (cfg : OidcConfig) (token : string) : option Verified :=
  header ← decode_header token;
  kid ← header;
  jwk ← jwks_find (oc_jwks cfg) kid;
  algorithms ← allowed_algorithms jwk;
  key ← from_jwk jwk;
  claims ← jwt_decode token key
             (mkValidation algorithms true ["exp"; "iss"; "aud"] [oc_issuer cfg] [oc_audience cfg]);
  verified_claims cfg claims.

(* @src oidc.rs verify_id_token *)
Definition verify_id_token (cfg : OidcConfig) (token : string) : option Principal :=
  ve_principal <$> verify cfg token.

(** ** The request's credential *)

(* @src cloud/http.rs header_str *)
Definition header_str (headers : Request.HeaderMap) (name : string) : option string :=
  Json.assoc name headers ≫= to_str.

(* @src cloud/http.rs bearer *)
Definition bearer (headers : Request.HeaderMap) : option string :=
  raw ← Json.assoc "authorization" headers ≫= to_str;
  let token := trim (default raw (strip_prefix "Bearer " raw)) in
  if is_empty_str token then None else Some token.

(* @src cloud/http.rs key_actor *)
Definition key_actor (token : string) : string :=
  "key:" +:+ hex_lower (str_take 6 (sha256 token)).

(* @src cloud/http.rs AppState *)
Record AppState := mkAppState {
  keys : gmap string Principal;
  alert_pct : f64;
  oidc : option OidcConfig;
  audit_signing_key : option SigningKey;
  replay_events_path : option string
}.

(* @src cloud/http.rs AppState::new *)
Definition app_state_new (keys : gmap string Principal) (alert_pct : f64) : AppState :=
  mkAppState keys alert_pct None None None.
(* @src cloud/http.rs AppState::with_oidc *)
Definition with_oidc (st : AppState) (c : option OidcConfig) : AppState :=
  mkAppState (keys st) (alert_pct st) c (audit_signing_key st) (replay_events_path st).
(* @src cloud/http.rs AppState::with_audit_signing_key *)
Definition with_audit_signing_key (st : AppState) (k : option SigningKey) : AppState :=
  mkAppState (keys st) (alert_pct st) (oidc st) k (replay_events_path st).
(* @src cloud/http.rs AppState::with_replay_events_path *)
Definition with_replay_events_path (st : AppState) (path : option string) : AppState :=
  mkAppState (keys st) (alert_pct st) (oidc st) (audit_signing_key st)
    (p ← path; if is_empty_str p then None else Some p).

(* @src cloud/http.rs AuthError *)
Inductive AuthError := Unauthorized | Forbidden | SignatureInvalid.

(* @src cloud/http.rs Mutator *)
Record Mutator := mkMutator { mu_org : string; mu_actor : string }.

(** [i64::abs], which returns [i64::MIN] for [i64::MIN]. *)
Definition i64_abs (z : Z) : Z := i64_wrap (Z.abs z).

Section state.
Context (st : AppState) (headers : Request.HeaderMap).
Open Scope task_scope.

(* @src cloud/http.rs AppState::oidc_principal *)
Definition oidc_principal : option Principal :=
  cfg ← oidc st; token ← bearer headers; verify_id_token cfg token.

(* @src cloud/http.rs AppState::principal_for *)
Definition principal_for : option Principal := token ← bearer headers; keys st !! token.

(* @src cloud/http.rs AppState::org_for *)
Definition org_for : Task (option string) :=
  match bearer headers with
  | None => Ret None
  | Some token =>
      match keys st !! token with
      | Some p => Ret (Some (pr_org p))
      | None =>
          d ←! read (λ i, Store.device_by_token i token);
          match d with
          | Some d => Ret (Some (dv_org d))
          | None => Ret (pr_org <$> oidc_principal)
          end
      end
  end.

(* @src cloud/http.rs AppState::admin_org_key *)
Definition admin_org_key : result string AuthError :=
  match principal_for with
  | None => Err Unauthorized
  | Some p => if bool_decide (pr_role p ≠ "admin") then Err Forbidden else Ok (pr_org p)
  end.

(** The part of the request a device signs, and the clock. *)
Context (method path body : string) (now_unix : Z).

(** The headers of a signed request: the claimed device, the nonce, and whether the
    timestamp is fresh and the signature that of the device's key. *)
(* @src cloud/http.rs 229-245 AppState::verify_device_signature *)
Definition signed_by (device : Device) : option string :=
  dev_hdr ← header_str headers "x-fuse-device";
  if bool_decide (dev_hdr ≠ dv_device_id device) then None
  else
    ts ← header_str headers "x-fuse-ts";
    nonce ← header_str headers "x-fuse-nonce";
    sig ← header_str headers "x-fuse-sig";
    ts_num ← parse_i64 ts;
    if 120 <? i64_abs (i64_wrap (now_unix - ts_num)) then None
    else if verify_signature (dv_pubkey device) (canonical_string method path body ts nonce) sig
    then Some nonce else None.

(* @src cloud/http.rs AppState::verify_device_signature *)
Definition verify_device_signature : Task (result Device AuthError) :=
  match bearer headers with
  | None => Ret (Err Unauthorized)
  | Some token =>
      d ←! read (λ i, Store.device_by_token i token);
      match d with
      | None => Ret (Err Unauthorized)
      | Some device =>
          match signed_by device with
          | None => Ret (Err SignatureInvalid)
          | Some nonce =>
              fresh ←! write (Nonce (dv_device_id device) nonce)
                         (λ i, (Store.check_and_record_nonce (dv_device_id device) nonce i).2);
              if fresh then Ret (Ok device) else Ret (Err SignatureInvalid)
          end
      end
  end.

(* @src cloud/http.rs 291-298 AppState::authorize_mutation *)
Definition authorize_signed : Task (result Mutator AuthError) :=
  d ←! verify_device_signature;
  match d with
  | Err e => Ret (Err e)
  | Ok device =>
      if bool_decide (dv_role device ≠ "admin") then Ret (Err Forbidden)
      else Ret (Ok (mkMutator (dv_org device) ("device:" +:+ dv_device_id device)))
  end.

(* @src cloud/http.rs AppState::authorize_mutation *)
Definition authorize_mutation : Task (result Mutator AuthError) :=
  match bearer headers with
  | None => Ret (Err Unauthorized)
  | Some token =>
      match keys st !! token with
      | Some p =>
          if bool_decide (pr_role p ≠ "admin") then Ret (Err Forbidden)
          else Ret (Ok (mkMutator (pr_org p) (key_actor token)))
      | None =>
          match (cfg ← oidc st; verify cfg token) with
          | Some v =>
              if bool_decide (pr_role (ve_principal v) ≠ "admin") then Ret (Err Forbidden)
              else Ret (Ok (mkMutator (pr_org (ve_principal v)) (ve_actor v)))
          | None => authorize_signed
          end
      end
  end.

(* @src cloud/http.rs AppState::authorize_device *)
Definition authorize_device : Task (result Device AuthError) := verify_device_signature.
End state.
End auth.

Lemma spec_bind {A B} P tr (p : Task A) (f : A → Task B) Q :
  spec P tr p (λ tr a, spec P tr (f a) Q) → spec P tr (task_bind p f) Q.
Proof.
  revert tr. induction p as [a|C g k IH|C op out k IH]; intros tr; simpl; [done| |].
  - intros Hs i. apply IH, Hs.
  - intros [Hp Hs]. split; [done|]. intros i. apply IH, Hs.
Qed.

Lemma spec_mono {A} P tr (p : Task A) (Q R : list Event → A → Prop) :
  spec P tr p Q → (∀ tr' a, tr `prefix_of` tr' → Q tr' a → R tr' a) → spec P tr p R.
Proof.
  revert tr. induction p as [a|C g k IH|C op out k IH]; intros tr; simpl.
  - intros HQ HR. by apply HR.
  - intros Hs HR i. eapply IH; [apply Hs|]. intros tr' a Ht. apply HR.
    etrans; [by apply prefix_app_r|done].
  - intros [Hp Hs] HR. split; [done|]. intros i. eapply IH; [apply Hs|]. intros tr' a Ht. apply HR.
    etrans; [by apply prefix_app_r|done].
Qed.

Lemma spec_exec `{HashOrder} sha pct cfg {A} P tr0 (p : Task A) Q others i j tr a :
  spec P tr0 p Q → exec sha pct cfg p others i = (j, tr, a) →
  Q (tr0 ++ tr) a ∧ ∀ n i op, tr !! n = Some (i, Some op) → P (tr0 ++ take n tr) op.
Proof.
  revert tr0 others i j tr. induction p as [x|B f k IH|B op out k IH];
    intros tr0 others i j tr; simpl.
  - intros HQ [= <- <- <-]. rewrite app_nil_r. split; [done|]. intros n ? ?. by rewrite lookup_nil.
  - intros Hs. destruct (exec _ _ _ (k _) _ _) as [[j' tr'] a'] eqn:E. intros [= <- <- <-].
    destruct (IH _ _ _ _ _ _ (Hs _) E) as [HQ HP]. split; [by rewrite <-app_assoc in HQ|].
    intros [|n] i' op'; [done|]. simpl. intros Hn. specialize (HP _ _ _ Hn).
    by rewrite <-app_assoc in HP.
  - intros [Hp Hs]. destruct (exec _ _ _ (k _) _ _) as [[j' tr'] a'] eqn:E. intros [= <- <- <-].
    destruct (IH _ _ _ _ _ _ (Hs _) E) as [HQ HP]. split; [by rewrite <-app_assoc in HQ|].
    intros [|n] i' op'; simpl.
    + intros [= <- <-]. by rewrite app_nil_r.
    + intros Hn. specialize (HP _ _ _ Hn). by rewrite <-app_assoc in HP.
Qed.

(** The state a task ends in is the interleaving of its operations with the others'. *)
Lemma exec_state `{HashOrder} sha pct cfg {A} (p : Task A) others i j tr a :
  exec sha pct cfg p others i = (j, tr, a) → ∃ ops, j = run_ops sha pct cfg i ops.
Proof.
  revert others i j tr. induction p as [x|B f k IH|B op out k IH]; intros others i j tr; simpl.
  - intros [= <- _ _]. by exists [].
  - destruct (exec _ _ _ (k _) _ _) as [[j' tr'] a'] eqn:E. intros [= <- _ <-].
    destruct (IH _ _ _ _ _ E) as [ops ->]. eexists (_ ++ ops). unfold run_ops. by rewrite foldl_app.
  - destruct (exec _ _ _ (k _) _ _) as [[j' tr'] a'] eqn:E. intros [= <- _ <-].
    destruct (IH _ _ _ _ _ E) as [ops ->]. eexists (_ ++ op :: ops). unfold run_ops.
    by rewrite foldl_app.
Qed.
