(* ===== verification/CloudApi.v ===== *)
(** * The control plane's HTTP interface

    The handlers of [crates/cloud/src/http.rs], with [replay.rs] and [audit_sign.rs]: each is
    a task over the store, its guards in the order of the source.  The bodies are decoded by
    [serde_json], a parameter; what a handler answers is the value it serializes. *)

From S2P Require Import Prelude Float Strings McpReport AuditChain.
From S2P Require Import Recency CloudTypes CloudIngest CloudStore CloudInv CloudAuth.
From S2P Require Compliance Json Request UnitLedger.

(** ** Request and response bodies *)

(* @src cloud/http.rs ExternalFinding *)
Record ExternalFinding := mkExternalFinding {
  xf_detector : string; xf_identity : string; xf_severity : string; xf_time : option string;
  xf_summary : string
}.

(* @src cloud/http.rs PairRequest *)
Record PairRequest := mkPairRequest {
  pq_code : string; pq_pubkey : string; pq_platform : string; pq_name : string
}.

(* @src cloud/http.rs ActivityBody *)
Record ActivityBody := mkActivityBody { ab_token : string; ab_run_id : string }.

(* @src cloud/http.rs SeriesQuery *)
Record SeriesQuery := mkSeriesQuery {
  sq_run : option string; sq_window : option string; sq_step : option string
}.

(* @src replay.rs ReplayEvent *)
Record ReplayEvent := mkReplayEvent {
  re_schema : string; re_ts : string; re_source : string; re_kind : string;
  re_severity : option string; re_agent_id : string; re_run_id : option string;
  re_on_behalf_of : option (list string); re_data : option Json.Value;
  re_prev_hash : option string
}.

(* @src audit_sign.rs AuditManifest *)
Record AuditManifest := mkManifest {
  mf_org : string; mf_tip_seq : Z; mf_tip_hash : string; mf_entry_count : Z;
  mf_signed_at : Z; mf_algorithm : string; mf_signature : string; mf_public_key : string
}.

(* @src cloud/http.rs EvidenceStatus *)
Inductive EvidenceStatus := Enforced | Partial | Documented.

(* @src cloud/http.rs EvidenceControl *)
Record EvidenceControl := mkEvidenceControl {
  ec_control : string; ec_status : EvidenceStatus; ec_evidence : string
}.

#[export] Instance EvidenceStatus_eq_dec : EqDecision EvidenceStatus.
Proof. solve_decision. Defined.
#[export] Instance EvidenceControl_eq_dec : EqDecision EvidenceControl.
Proof. solve_decision. Defined.

(* @src cloud/http.rs EvidencePackResponse *)
Record EvidencePack := mkPack {
  pk_note : string; pk_org : string; pk_eu_ai_act : list EvidenceControl;
  pk_sr_11_7 : list EvidenceControl; pk_soc2 : list EvidenceControl;
  pk_verified : bool; pk_break : option nat; pk_entries : Z; pk_decisions : Z; pk_incidents : Z
}.

(* @src cloud/http.rs ReplayResponse *)
Record ReplayResponse := mkReplay {
  rr_run_id : string; rr_configured : bool; rr_events : list ReplayEvent; rr_event_count : nat;
  rr_malformed : nat; rr_incidents : list Incident; rr_audit : list AuditEntry
}.

(** What is serialized into a response. *)
Inductive Body :=
| Empty
| Text (s : string)                           (* a text, not JSON *)
| Ok_
| Error (message : string)
| Rejected                                   (* an extractor of axum refused the request *)
| Dashboard | OpenApi                        (* the embedded page, the published document *)
| Accepted (n : nat) | FindingsAccepted (n : nat)
| Runs (l : list RunAgg) | Agents (l : list AgentAgg) | Units (l : list UnitAgg)
| Savings (s : SavingsSummary) | Totals (s : Summary) | Alerts (l : list Alert)
| Series (l : list SeriesBucket)
| EventStream                                (* the organization's events from here on *)
| Killed (run : string) | Kills (l : list string)
| BudgetSet (run : string) (micros : Z) | UnitBudgetSet (unit_ : string) (micros : Z)
| Budgets (m : gmap string Z)
| Incidents (l : list Incident) | Acknowledged (id : string)
| ComplianceReport (r : Compliance.ComplianceReport) | Evidence (p : EvidencePack)
| AuditLog (l : list AuditEntry) | AuditVerified (ok : bool) (break_index : option nat)
| Manifest (m : AuditManifest) | Replay (r : ReplayResponse)
| PairNew (code : string) (expires : Z)
| Paired (device_id org role token : string).

Record Response := mkResponse {
  status : Z; headers_out : list (string * string); response_body : Body
}.

Record HttpRequest := mkHttp {
  hq_method : string;
  hq_path : string;               (* Uri::path, undecoded *)
  hq_query : string;
  hq_headers : Request.HeaderMap;
  hq_body : string
}.

(** What a handler reads of its surroundings: the clocks, the random bytes, and the lines of
    the replay file, [None] when it cannot be opened, a line [None] when it cannot be read. *)
Record Inputs := mkInputs {
  now_unix : Z;
  now_millis : Z;
  store_millis : nat → Z;         (* the clock inside the store's n-th mutation *)
  code_bytes : string; id_bytes : string; token_bytes : string;
  replay_lines : option (list (option string))
}.

(** [serde_json::from_slice] at the types of the bodies, [serde_urlencoded] at those of the
    queries, axum's percent-decoding of a path segment, [None] when the result is not UTF-8,
    and the printer of a string with [{:?}]. *)
Class CloudWire := {
  decode_ingest : string → option (list CallRecord);
  decode_budget : string → option f64;
  decode_findings : string → result (list ExternalFinding) string;
  decode_pair_new : string → option (option string);
  decode_pair : string → option PairRequest;
  decode_apns : string → option string;
  decode_activity : string → option ActivityBody;
  decode_event : string → option ReplayEvent;
  query_alerts : string → option (option f64);
  query_series : string → option SeriesQuery;
  query_source : string → option (option string);
  path_param : string → option string;
  debug_str : string → string
}.

Module Api.

Definition json (status : Z) (b : Body) : Response := mkResponse status [] b.

(* @src cloud/http.rs error *)
Definition error (status : Z) (message : string) : Response := json status (Error message).
(* @src cloud/http.rs unauthorized *)
Definition unauthorized : Response := error 401 "invalid api key".
(* @src cloud/http.rs forbidden *)
Definition forbidden : Response := error 403 "admin role required".
(* @src cloud/http.rs bad_json *)
Definition bad_json : Response := error 400 "bad json".

(* @src cloud/http.rs 330-338 AuthError::into_response *)
Definition auth_response (e : AuthError) : Response :=
  match e with
  | Unauthorized => unauthorized
  | Forbidden => forbidden
  | SignatureInvalid => error 403 "signature_invalid"
  end.

(** ** Helpers *)

(* @src cloud/http.rs MIN_SERIES_STEP_MS *)
Definition MIN_SERIES_STEP_MS : Z := 1000.
(* @src cloud/http.rs MAX_SERIES_WINDOW_MS *)
Definition MAX_SERIES_WINDOW_MS : Z := 30 * 24 * 3600000.

(* @src cloud/http.rs 1836-1846 parse_duration_ms *)
Definition duration_unit (s : string) : string * Z :=
  match strip_suffix "ms" s with
  | Some v => (v, 1)
  | None =>
      match strip_suffix "s" s with
      | Some v => (v, 1000)
      | None =>
          match strip_suffix "m" s with
          | Some v => (v, 60000)
          | None =>
              match strip_suffix "h" s with Some v => (v, 3600000) | None => (s, 1000) end
          end
      end
  end.

(* @src cloud/http.rs parse_duration_ms *)
Definition parse_duration_ms (s : option string) : option Z :=
  s ← trim <$> s;
  if is_empty_str s then None
  else
    let '(num, mult) := duration_unit s in
    n ← parse_i64 (trim num);
    if 0 <? n then Some (i64_wrap (n * mult)) else None.

(* @src cloud/http.rs parse_severity *)
Definition parse_severity (s : string) : option Severity :=
  let s := to_ascii_lowercase (trim s) in
  if bool_decide (s = "info") then Some Info
  else if bool_decide (s = "low") then Some Low
  else if bool_decide (s = "medium") then Some Medium
  else if bool_decide (s = "high") then Some High
  else if bool_decide (s = "critical") then Some Critical
  else None.

Definition source_char (c : string) : bool :=
  match c with
  | String a "" =>
      let n := nat_of_ascii a in
      ((48 <=? n) && (n <=? 57) || (65 <=? n) && (n <=? 90) || (97 <=? n) && (n <=? 122)
       || (n =? 45) || (n =? 95) || (n =? 46))%nat
  | _ => false
  end.

(* @src cloud/http.rs sanitize_source *)
Definition sanitize_source (raw : option string) : string :=
  let cleaned := concat_str (take 32 (filter (λ c, source_char c = true)
                   (char_list (to_ascii_lowercase (trim (default "external" raw)))))) in
  if is_empty_str cleaned then "external" else cleaned.

(* @src cloud/http.rs finding_input *)
Definition finding_input (source : string) (f : ExternalFinding) (severity : Severity) (ts : Z)
  : Store.FindingInput :=
  Store.mkFindingInput source (xf_detector f) severity (xf_identity f) (xf_summary f) ts.

(** ** The replay file *)

(* @src replay.rs 84-96 read_run_events *)
Definition replay_line (decode : string → option ReplayEvent) (run : string)
    (acc : list ReplayEvent * nat) (line : option string) : list ReplayEvent * nat :=
  match line with
  | None => (acc.1, S acc.2)
  | Some line =>
      if is_empty_str (trim line) then acc
      else match decode line with
           | Some ev =>
               if bool_decide (re_run_id ev = Some run) then (acc.1 ++ [ev], acc.2) else acc
           | None => (acc.1, S acc.2)
           end
  end.

(* @src replay.rs read_run_events *)
Definition read_run_events (decode : string → option ReplayEvent)
    (file : option (list (option string))) (run : string) : list ReplayEvent * nat :=
  match file with
  | None => ([], O)
  | Some lines =>
      let '(events, malformed) := foldl (replay_line decode run) ([], O) lines in
      (sort_by (λ a b, str_leb (re_ts a) (re_ts b)) events, malformed)
  end.

(** ** The evidence pack *)

(* @src cloud/http.rs evidence_status *)
Definition evidence_status (ce : Compliance.ControlEvidence) : EvidenceStatus :=
  match Compliance.ce_enforcement ce with
  | Compliance.Documented => Documented
  | Compliance.Partial => Partial
  | Compliance.Enforced => if Compliance.evidence_seen ce then Enforced else Documented
  end.

Definition show_count (p : string * Z) : string := p.1 +:+ "=" +:+ pretty p.2.

(* @src cloud/http.rs control_evidence_text *)
Definition control_evidence_text (ce : Compliance.ControlEvidence) : string :=
  let bits := (show_count <$> (btree_list (Compliance.decision_counts ce)
                                ++ btree_list (Compliance.finding_counts ce)))
              ++ (if 0 <? Compliance.incident_count ce
                  then ["incidents=" +:+ pretty (Compliance.incident_count ce)] else []) in
  match bits with [] => "no watched signal for this org yet" | _ => join ", " bits end.

(* @src cloud/http.rs catalog_section *)
Definition catalog_section (framework_id : string)
    (evidence_by_id : gmap string Compliance.ControlEvidence) : list EvidenceControl :=
  c ← Compliance.CATALOG;
  if bool_decide (Compliance.control_id c = "TF.AUDIT") then []
  else
    omap (λ fw : string * string,
            if bool_decide (fw.1 ≠ framework_id) then None
            else ce ← evidence_by_id !! Compliance.control_id c;
                 Some (mkEvidenceControl
                         (Compliance.control_id c +:+ " (" +:+ Compliance.title c +:+ ") - " +:+ fw.2)
                         (evidence_status ce) (control_evidence_text ce)))
         (Compliance.frameworks c).

(* @src cloud/http.rs audit_chain_status *)
Definition audit_chain_status (entries : nat) (verify : result unit nat) : EvidenceStatus * string :=
  match verify with
  | Ok _ =>
      if (0 <? entries)%nat
      then (Enforced, "audit chain verifies intact over " +:+ pretty entries +:+ " entries")
      else (Documented, "audit chain configured; no mutations recorded yet")
  | Err i =>
      (Partial, "audit chain verification FAILED at entry " +:+ pretty i +:+ " of "
                +:+ pretty entries +:+ "; integrity compromised")
  end.

(* @src cloud/http.rs audit_control *)
Definition audit_control (citation : string) (s : EvidenceStatus) (evidence : string)
  : EvidenceControl :=
  mkEvidenceControl ("TF.AUDIT (Tamper-evident audit trail) - " +:+ citation) s evidence.

Definition count (m : gmap string Z) (k : string) : Z := default 0 (m !! k).

(* @src cloud/http.rs 1431 model_use_controls *)
Definition watched : list string := ["budget_exceeded"; "loop_detected"; "killed"].

(* @src cloud/http.rs model_use_controls *)
Definition model_use_controls (decision_counts : gmap string Z) : EvidenceControl :=
  let bits := (λ k, show_count (k, count decision_counts k)) <$> watched in
  let seen := existsb (λ k, 0 <? count decision_counts k) watched in
  mkEvidenceControl
    ("SR 11-7 Model Development, Implementation, and Use - runtime spend/behavior " +:+
     "limits (budget breaker, loop breaker, kill-switch)")
    (if seen then Enforced else Documented) (join ", " bits).

(* @src cloud/http.rs ongoing_monitoring *)
Definition ongoing_monitoring (incident_kind_counts : gmap string Z) : EvidenceControl :=
  let seen := Compliance.u64_sum (Compliance.values incident_kind_counts) in
  let bits := show_count <$> btree_list incident_kind_counts in
  mkEvidenceControl
    ("SR 11-7 Model Validation - ongoing performance/anomaly monitoring (cloud " +:+
     "incident detectors)")
    (if 0 <? seen then Enforced else Documented)
    (match bits with [] => "no incidents recorded for this org yet" | _ => join ", " bits end).

(* @src cloud/http.rs 1258-1311 compliance_evidence *)
Definition evidence_pack (org : string) (decision_counts incident_kind_counts : gmap string Z)
    (entries : nat) (verify : result unit nat) : EvidencePack :=
  let report := Compliance.compute_compliance_from_counts Compliance.CATALOG decision_counts ∅
                  incident_kind_counts in
  let by_id := foldl (λ m c, <[Compliance.ce_control_id c := c]> m) ∅ (Compliance.controls report) in
  let '(audit_status, audit_evidence) := audit_chain_status entries verify in
  mkPack Compliance.DISCLAIMER org
    (catalog_section "EU-AI-ACT" by_id
       ++ [audit_control "Art. 12 (Record-keeping)" audit_status audit_evidence])
    [model_use_controls decision_counts; ongoing_monitoring incident_kind_counts;
     audit_control "Governance, Policies, and Controls" audit_status audit_evidence]
    (catalog_section "SOC2" by_id
       ++ [audit_control "CC7.2 (System Monitoring)" audit_status audit_evidence])
    (is_ok verify) (match verify with Ok _ => None | Err i => Some i end)
    (Z.of_nat entries)
    (Compliance.u64_sum (Compliance.values decision_counts))
    (Compliance.u64_sum (Compliance.values incident_kind_counts)).

Section handlers.
Context `{HashOrder} `{CloudLib} `{CloudWire}.

(** ** The signed manifest *)

(* @src audit_sign.rs build_signed_manifest *)
Definition build_signed_manifest (org : string) (entries : list AuditEntry) (key : SigningKey)
    (now_ms : Z) : AuditManifest :=
  let '(tip_seq, tip_hash, n) :=
    match last entries with
    | Some tip => (seq tip, entry_hash tip, Z.of_nat (length entries))
    | None => (0, "", 0)
    end in
  mkManifest org tip_seq tip_hash n now_ms "ES256"
    (b64_encode (sign key (manifest_signing_bytes org tip_seq tip_hash n now_ms)))
    (b64_encode (public_point key)).

(* @src cloud/store.rs Store::audit_manifest *)
Definition store_audit_manifest (i : Inner) (org : string) (key : SigningKey) (now_ms : Z)
  : AuditManifest :=
  build_signed_manifest org (default [] (CloudTypes.audit i !! org)) key now_ms.

(** ** Handlers *)

Context (st : AppState) (rq : HttpRequest) (inp : Inputs).
Open Scope task_scope.

(** [let Some(org) = st.org_for(&headers) else { return unauthorized() }] *)
Definition with_org (k : string → Task Response) : Task Response :=
  org ←! org_for st (hq_headers rq);
  match org with Some org => k org | None => Ret unauthorized end.

(** [match st.authorize_mutation("POST", uri.path(), body, &headers) { Ok(m) => m, .. }] *)
Definition with_mutator (body : string) (k : Mutator → Task Response) : Task Response :=
  m ←! authorize_mutation st (hq_headers rq) "POST" (hq_path rq) body (now_unix inp);
  match m with Ok m => k m | Err e => Ret (auth_response e) end.

(** The same with [authorize_device], and the check of the path's device id. *)
Definition with_device (id : string) (k : Device → Task Response) : Task Response :=
  d ←! authorize_device (hq_headers rq) "POST" (hq_path rq) (hq_body rq) (now_unix inp);
  match d with
  | Ok d => if bool_decide (dv_device_id d ≠ id) then Ret (error 403 "signature_invalid") else k d
  | Err e => Ret (auth_response e)
  end.

(** A handler that answers one read of the store. *)
Definition view {B} (f : Inner → string → B) (c : B → Body) : Task Response :=
  with_org (λ org, b ←! read (λ i, f i org); Ret (json 200 (c b))).

(** The extractors of axum that can refuse: [Path<String>] of a segment, and [Bytes] of a body
    over the default limit of two megabytes. They run before the handler's first line. *)
Definition BODY_LIMIT : Z := 2097152.
Definition with_path (k : string → Task Response) (segment : string) : Task Response :=
  match path_param segment with Some p => k p | None => Ret (json 400 Rejected) end.
Definition with_body (k : Task Response) : Task Response :=
  if BODY_LIMIT <? Z.of_nat (String.length (hq_body rq)) then Ret (json 413 Rejected) else k.

(* @src cloud/http.rs dashboard *)
Definition dashboard : Task Response := Ret (json 200 Dashboard).
(* @src cloud/http.rs openapi_doc *)
Definition openapi_doc : Task Response := Ret (json 200 OpenApi).
(* @src cloud/http.rs healthz *)
Definition healthz : Task Response := Ret (json 200 (Text "ok")).

(* @src cloud/http.rs ingest *)
Definition ingest : Task Response :=
  with_org (λ org,
    match decode_ingest (hq_body rq) with
    | None => Ret bad_json
    | Some records =>
        _ ←! write (Ingest org records (store_millis inp 0)) (λ _, tt);
        Ret (json 200 (Accepted (length records)))
    end).

(* @src cloud/http.rs runs *)
Definition runs : Task Response := view Store.runs Runs.
(* @src cloud/http.rs agents *)
Definition agents : Task Response := view Store.agents Agents.
(* @src cloud/http.rs units *)
Definition units : Task Response := view (λ i org, Store.units_at i org (store_millis inp 0)) Units.
(* @src cloud/http.rs savings *)
Definition savings : Task Response := view Store.savings Savings.
(* @src cloud/http.rs summary *)
Definition summary : Task Response := view Store.summary Totals.

(* @src cloud/http.rs alerts *)
Definition alerts : Task Response :=
  match query_alerts (hq_query rq) with
  | None => Ret (json 400 Rejected)
  | Some q =>
      let pct := match q with
                 | Some p => if f64_ltb (f64_of_Z 0) p && f64_leb p (f64_of_Z 1) then p
                             else alert_pct st
                 | None => alert_pct st
                 end in
      view (λ i org, Store.alerts i org pct) Alerts
  end.

(* @src cloud/http.rs series *)
Definition series : Task Response :=
  match query_series (hq_query rq) with
  | None => Ret (json 400 Rejected)
  | Some q =>
      let window := Z.min (default 3600000 (parse_duration_ms (sq_window q))) MAX_SERIES_WINDOW_MS in
      let step := Z.max (default 60000 (parse_duration_ms (sq_step q))) MIN_SERIES_STEP_MS in
      view (λ i org, Store.series i org (sq_run q) window step (now_millis inp)) Series
  end.

(** What a subscriber of the organization is sent of the broadcast events. *)
(* @src cloud/http.rs 764-772 stream *)
Definition stream_events (org : string) (events : list StreamEvent) : list (string * StreamEvent) :=
  (λ e, (event_name e, e)) <$> filter (λ e, event_org e = org) events.

(* @src cloud/http.rs stream *)
Definition stream : Task Response := with_org (λ org, Ret (json 200 EventStream)).

(* @src cloud/http.rs kill *)
Definition kill (run : string) : Task Response :=
  with_mutator "" (λ m,
    _ ←! write (KillAudited (store_millis inp 0) (mu_org m) run (mu_actor m)) (λ _, tt);
    Ret (json 200 (Killed run))).

(* @src cloud/http.rs kills *)
Definition kills : Task Response := view Store.kills Kills.

(** [(parsed.budget_usd * 1e6) as i64] *)
Definition micros_of (usd : f64) : Z := f64_to_i64 (f64_mul usd (f64_of_Z 1000000)).

(* @src cloud/http.rs set_budget *)
Definition set_budget (run : string) : Task Response :=
  with_mutator (hq_body rq) (λ m,
    match decode_budget (hq_body rq) with
    | None => Ret bad_json
    | Some usd =>
        let micros := micros_of usd in
        _ ←! write (SetBudgetAudited (store_millis inp 0) (mu_org m) run micros (mu_actor m)) (λ _, tt);
        Ret (json 200 (BudgetSet run micros))
    end).

(* @src cloud/http.rs budgets *)
Definition budgets : Task Response := view Store.budgets Budgets.

(* @src cloud/http.rs set_unit_budget *)
Definition set_unit_budget (unit_ : string) : Task Response :=
  with_mutator (hq_body rq) (λ m,
    match decode_budget (hq_body rq) with
    | None => Ret bad_json
    | Some usd =>
        let micros := micros_of usd in
        _ ←! write (SetUnitBudgetAudited (store_millis inp 0) (mu_org m) unit_ micros (mu_actor m))
               (λ _, tt);
        Ret (json 200 (UnitBudgetSet unit_ micros))
    end).

(* @src cloud/http.rs unit_budgets *)
Definition unit_budgets : Task Response := view Store.unit_budgets Budgets.

(* @src cloud/http.rs incidents *)
Definition incidents : Task Response := view Store.incidents Incidents.

(** The loop over the findings, the number accepted so far. *)
(* @src cloud/http.rs 1028-1052 external_findings *)
Fixpoint record_findings (m : Mutator) (source : string) (now : Z) (accepted : nat)
    (fs : list ExternalFinding) : Task Response :=
  match fs with
  | [] => Ret (json 200 (FindingsAccepted accepted))
  | f :: fs =>
      match parse_severity (xf_severity f) with
      | None => Ret (error 400 ("unknown severity " +:+ debug_str (xf_severity f)))
      | Some severity =>
          _ ←! write (Finding (store_millis inp accepted) (mu_org m) (mu_actor m)
                        (finding_input source f severity now)) (λ _, tt);
          record_findings m source now (S accepted) fs
      end
  end.

(* @src cloud/http.rs external_findings *)
Definition external_findings : Task Response :=
  match query_source (hq_query rq) with
  | None => Ret (json 400 Rejected)
  | Some source =>
      with_body (with_mutator (hq_body rq) (λ m,
        match decode_findings (hq_body rq) with
        | Err e => Ret (error 400 ("bad findings payload: " +:+ e))
        | Ok findings => record_findings m (sanitize_source source) (now_millis inp) 0 findings
        end))
  end.

(* @src cloud/http.rs ack_incident *)
Definition ack_incident (id : string) : Task Response :=
  with_mutator "" (λ m,
    let op := AckAudited (store_millis inp 0) (mu_org m) id (mu_actor m) in
    found ←! write op (λ i, (Store.ack_incident_audited sha256 (store_millis inp 0) (mu_org m) id
                               (mu_actor m) i).2);
    Ret (if found : bool then json 200 (Acknowledged id) else error 404 "unknown incident")).

(* @src cloud/http.rs compliance *)
Definition compliance : Task Response :=
  with_org (λ org,
    dc ←! read (λ i, Store.decision_counts i org);
    ic ←! read (λ i, Store.incident_kind_counts i org);
    Ret (json 200 (ComplianceReport
           (Compliance.compute_compliance_from_counts Compliance.CATALOG dc ∅ ic)))).

(* @src cloud/http.rs compliance_evidence *)
Definition compliance_evidence : Task Response :=
  with_org (λ org,
    dc ←! read (λ i, Store.decision_counts i org);
    ic ←! read (λ i, Store.incident_kind_counts i org);
    entries ←! read (λ i, Store.audit i org);
    verified ←! read (λ i, Store.audit_verify sha256 i org);
    Ret (json 200 (Evidence (evidence_pack org dc ic (length entries) verified)))).

(* @src cloud/http.rs audit *)
Definition audit : Task Response := view Store.audit AuditLog.

(* @src cloud/http.rs audit_verify *)
Definition audit_verify : Task Response :=
  view (Store.audit_verify sha256) (λ v,
    AuditVerified (is_ok v) (match v with Ok _ => None | Err i => Some i end)).

(* @src cloud/http.rs audit_manifest *)
Definition audit_manifest : Task Response :=
  with_org (λ org,
    match audit_signing_key st with
    | None => Ret (error 404 "audit manifest signing not configured")
    | Some key =>
        m ←! read (λ i, store_audit_manifest i org key (now_millis inp));
        Ret (json 200 (Manifest m))
    end).

(* @src cloud/http.rs replay *)
Definition replay (run : string) : Task Response :=
  with_org (λ org,
    known ←! read (λ i, Store.run_belongs_to_org i org run);
    if negb known then Ret (error 404 "unknown run")
    else
      let '(events, malformed) :=
        match replay_events_path st with
        | Some _ => read_run_events decode_event (replay_lines inp) run
        | None => ([], O)
        end in
      incs ←! read (λ i, Store.incidents i org);
      entries ←! read (λ i, Store.audit i org);
      Ret (json 200 (Replay
             (mkReplay run (bool_decide (is_Some (replay_events_path st))) events (length events)
                malformed (filter (λ inc, in_run_id inc = Some run) incs)
                (filter (λ e, subject e = run) entries))))).

(* @src cloud/http.rs pair_new *)
Definition pair_new : Task Response :=
  match admin_org_key st (hq_headers rq) with
  | Err e => Ret (auth_response e)
  | Ok org =>
      let role := match decode_pair_new (hq_body rq) with
                  | Some role => Some (default "admin" role)
                  | None => if is_empty_str (hq_body rq) then Some "admin" else None
                  end in
      match role with
      | None => Ret bad_json
      | Some role =>
          if bool_decide (role ≠ "admin") && bool_decide (role ≠ "viewer")
          then Ret (error 400 "role must be admin or viewer")
          else
            let code := pairing_code (code_bytes inp) in
            let expires := i64_wrap (now_unix inp + 600) in
            _ ←! write (CreatePairing code org role expires) (λ _, tt);
            Ret (json 200 (PairNew code expires))
      end
  end.

(* @src cloud/http.rs pair *)
Definition pair : Task Response :=
  match decode_pair (hq_body rq) with
  | None => Ret bad_json
  | Some req =>
      let device_id := random_hex (id_bytes inp) in
      let device_token := random_hex (token_bytes inp) in
      dev ←! write (RedeemAudited (store_millis inp 0) (pq_code req) (now_unix inp) device_id
                      device_token (pq_pubkey req) (pq_name req) (pq_platform req))
               (λ i, (Store.redeem_pairing_audited sha256 (store_millis inp 0) (pq_code req)
                        (now_unix inp) device_id device_token (pq_pubkey req) (pq_name req)
                        (pq_platform req) i).2);
      Ret match dev with
          | Some d => json 200 (Paired (dv_device_id d) (dv_org d) (dv_role d) device_token)
          | None => error 400 "invalid or expired pairing code"
          end
  end.

(* @src cloud/http.rs register_apns *)
Definition register_apns (id : string) : Task Response :=
  with_device id (λ _,
    match decode_apns (hq_body rq) with
    | None => Ret bad_json
    | Some token =>
        found ←! write (Apns id token) (λ i, (Store.set_apns_token id token i).2);
        Ret (if found : bool then json 200 Ok_ else error 404 "unknown device")
    end).

(* @src cloud/http.rs register_activity *)
Definition register_activity (id : string) : Task Response :=
  with_device id (λ d,
    match decode_activity (hq_body rq) with
    | None => Ret bad_json
    | Some req =>
        _ ←! write (Activity (dv_org d) (ab_run_id req) (ab_token req)) (λ _, tt);
        Ret (json 200 Ok_)
    end).

(** ** The router *)

(** A handler with the method it is registered for; its argument is the path's segment that
    the pattern leaves open. *)
Definition get (h : string → Task Response) : string * (string → Task Response) := ("GET", h).
Definition post (h : string → Task Response) : string * (string → Task Response) := ("POST", h).

(** The routes, each handler behind its extractors. *)
(* @src cloud/http.rs app *)
Definition app : list (string * (string * (string → Task Response))) :=
  [("/", get (λ _, dashboard));
   ("/healthz", get (λ _, healthz));
   ("/openapi.json", get (λ _, openapi_doc));
   ("/v1/ingest", post (λ _, with_body ingest));
   ("/v1/runs", get (λ _, runs));
   ("/v1/agents", get (λ _, agents));
   ("/v1/units", get (λ _, units));
   ("/v1/savings", get (λ _, savings));
   ("/v1/summary", get (λ _, summary));
   ("/v1/alerts", get (λ _, alerts));
   ("/v1/series", get (λ _, series));
   ("/v1/stream", get (λ _, stream));
   ("/v1/runs/{run}/kill", post (with_path kill));
   ("/v1/kills", get (λ _, kills));
   ("/v1/runs/{run}/budget", post (with_path (λ run, with_body (set_budget run))));
   ("/v1/budgets", get (λ _, budgets));
   ("/v1/units/{id}/budget", post (with_path (λ unit_, with_body (set_unit_budget unit_))));
   ("/v1/unit-budgets", get (λ _, unit_budgets));
   ("/v1/incidents", get (λ _, incidents));
   ("/v1/incidents/{id}/ack", post (with_path ack_incident));
   ("/v1/findings", post (λ _, external_findings));
   ("/v1/compliance", get (λ _, compliance));
   ("/v1/compliance/evidence", get (λ _, compliance_evidence));
   ("/v1/audit", get (λ _, audit));
   ("/v1/audit/verify", get (λ _, audit_verify));
   ("/v1/audit/manifest", get (λ _, audit_manifest));
   ("/v1/replay/{run}", get (with_path replay));
   ("/v1/pair/new", post (λ _, with_body pair_new));
   ("/v1/pair", post (λ _, with_body pair));
   ("/v1/devices/{id}/apns", post (with_path (λ id, with_body (register_apns id))));
   ("/v1/devices/{id}/activity", post (with_path (λ id, with_body (register_activity id))))].

(** The segments of a pattern against those of an undecoded path: the segment that stands for
    the parameter, which is not empty. *)
Fixpoint match_segments (pattern segments : list string) (param : string) : option string :=
  match pattern, segments with
  | [], [] => Some param
  | p :: pattern, s :: segments =>
      if starts_with "{" p then if is_empty_str s then None else match_segments pattern segments s
      else if bool_decide (p = s) then match_segments pattern segments param else None
  | _, _ => None
  end.

Definition match_route (pattern path : string) : option string :=
  match_segments (tail (split_char "/"%char pattern)) (tail (split_char "/"%char path)) "".

Fixpoint find_route (routes : list (string * (string * (string → Task Response))))
    : option (string * Task Response) :=
  match routes with
  | [] => None
  | (pattern, (method, h)) :: routes =>
      match match_route pattern (hq_path rq) with
      | Some param => Some (method, h param)
      | None => find_route routes
      end
  end.

(* @src cloud/http.rs set_cors_headers *)
Definition set_cors_headers (r : Response) : Response :=
  mkResponse (status r)
    (headers_out r ++ [("access-control-allow-origin", "*");
                       ("access-control-allow-methods", "GET, POST, OPTIONS");
                       ("access-control-allow-headers", "authorization, content-type")])
    (response_body r).

(** A [get] route also serves [HEAD]. *)
Definition accepts (method m : string) : bool :=
  bool_decide (m = method) || (bool_decide (method = "GET") && bool_decide (m = "HEAD")).

(** The routed request: 404 without a route, 405 for another method. *)
Definition routed : Task Response :=
  match find_route app with
  | None => Ret (json 404 Empty)
  | Some (method, h) =>
      if accepts method (hq_method rq) then h else Ret (json 405 Empty)
  end.

(* @src cloud/http.rs cors *)
Definition cors : Task Response :=
  if bool_decide (hq_method rq = "OPTIONS") then Ret (set_cors_headers (json 204 Empty))
  else r ←! routed; Ret (set_cors_headers r).

End handlers.
End Api.
