(* ===== verification/CloudApiProps.v ===== *)
(** * What a request may do to the control plane

    Every write of a request is justified by the credential it presented, whatever the rest
    of the system does in between; a signed request is accepted once; tenants see and touch
    their own data only. *)

From S2P Require Import Prelude Float Strings McpReport AuditChain.
From S2P Require Import Recency CloudTypes CloudIngest CloudStore CloudInv CloudAuth CloudApi.

Section authority.
Context `{HashOrder} `{CloudLib} `{CloudWire} (st : AppState) (rq : HttpRequest) (inp : Inputs).

(** A read of the device table has found [d] under the caller's token. *)
Definition bearer_device (tr : list Event) (token : string) (d : Device) : Prop :=
  ∃ i, (i, None) ∈ tr ∧ devices i !! token = Some d.

(** The request carries a fresh, valid signature of the device of its token. *)
Definition well_signed (tr : list Event) (body : string) (d : Device) (nonce : string) : Prop :=
  ∃ token, bearer (hq_headers rq) = Some token ∧ bearer_device tr token d ∧
    signed_by (hq_headers rq) "POST" (hq_path rq) body (now_unix inp) d = Some nonce.

(** ... and its nonce was new when it was recorded. *)
Definition signed_once (tr : list Event) (body : string) (d : Device) : Prop :=
  ∃ nonce, well_signed tr body d nonce ∧
    ∃ j, (j, Some (Nonce (dv_device_id d) nonce)) ∈ tr ∧
         (Store.check_and_record_nonce (dv_device_id d) nonce j).2 = true.

(** The caller is an administrator of [org], known to the audit trail as [actor]. *)
Definition administrator (tr : list Event) (body org actor : string) : Prop :=
  ∃ token, bearer (hq_headers rq) = Some token ∧
  match keys st !! token with
  | Some p => pr_role p = "admin" ∧ org = pr_org p ∧ actor = key_actor token
  | None =>
      (∃ cfg v, oidc st = Some cfg ∧ verify cfg token = Some v ∧
         pr_role (ve_principal v) = "admin" ∧ org = pr_org (ve_principal v) ∧ actor = ve_actor v) ∨
      (∃ d, signed_once tr body d ∧ dv_role d = "admin" ∧ org = dv_org d ∧
         actor = "device:" +:+ dv_device_id d)
  end.

(** The caller belongs to [org]. *)
Definition member (tr : list Event) (org : string) : Prop :=
  ∃ token, bearer (hq_headers rq) = Some token ∧
  match keys st !! token with
  | Some p => org = pr_org p
  | None => (∃ d, bearer_device tr token d ∧ org = dv_org d) ∨
            (∃ p, oidc_principal st (hq_headers rq) = Some p ∧ org = pr_org p)
  end.

(** What the events before an operation must have established. *)
Definition justified (tr : list Event) (op : Op) : Prop :=
  match op with
  | Ingest org _ _ => member tr org
  | KillAudited _ org _ actor | AckAudited _ org _ actor => administrator tr "" org actor
  | SetBudgetAudited _ org _ _ actor | SetUnitBudgetAudited _ org _ _ actor
  | Finding _ org actor _ => administrator tr (hq_body rq) org actor
  | CreatePairing _ org role _ =>
      (∃ token p, bearer (hq_headers rq) = Some token ∧ keys st !! token = Some p ∧
         pr_role p = "admin" ∧ org = pr_org p) ∧ (role = "admin" ∨ role = "viewer")
  | RedeemAudited _ code _ _ _ _ _ _ => ∃ req, decode_pair (hq_body rq) = Some req ∧ code = pq_code req
  | Nonce id nonce => ∃ body d, well_signed tr body d nonce ∧ id = dv_device_id d
  | Apns id _ => ∃ d, signed_once tr (hq_body rq) d ∧ id = dv_device_id d
  | Activity org _ _ => ∃ d, signed_once tr (hq_body rq) d ∧ org = dv_org d
  | _ => False
  end.

Lemma org_for_spec tr :
  spec justified tr (org_for st (hq_headers rq))
    (λ tr' r, ∀ org, r = Some org → member tr' org).
Proof.
  unfold org_for. destruct (bearer _) as [token|] eqn:Eb; simpl; [|done].
  destruct (keys st !! token) as [p|] eqn:Ek; simpl.
  - intros org [= <-]. exists token. by rewrite Ek.
  - intros i. unfold Store.device_by_token. destruct (devices i !! token) as [d|] eqn:Ed; simpl.
    + intros org [= <-]. exists token. rewrite Ek. split; [done|]. left. exists d.
      split; [|done]. exists i. set_solver.
    + intros org Ho. exists token. rewrite Ek. split; [done|]. right.
      destruct (oidc_principal _ _) as [p|]; simplify_eq/=; eauto.
Qed.

Lemma device_spec tr body :
  spec justified tr (verify_device_signature (hq_headers rq) "POST" (hq_path rq) body (now_unix inp))
    (λ tr' r, ∀ d, r = Ok d → signed_once tr' body d).
Proof.
  unfold verify_device_signature. destruct (bearer _) as [token|] eqn:Eb; simpl; [|done].
  intros i. unfold Store.device_by_token. destruct (devices i !! token) as [d|] eqn:Ed; simpl; [|done].
  destruct (signed_by _ _ _ _ _ _) as [nonce|] eqn:Es; simpl; [|done].
  assert (bearer_device (tr ++ [(i, None)]) token d) as Hd by (exists i; set_solver).
  split.
  - exists body, d. split; [|done]. by exists token.
  - intros j. destruct (Store.check_and_record_nonce _ _ j).2 eqn:Ec; simpl; [|done].
    intros d' [= <-]. exists nonce. split.
    + exists token. split_and!; [done| |done]. destruct Hd as (i' & Hi & ?). exists i'. set_solver.
    + exists j. split; [set_solver|done].
Qed.

Lemma signed_admin_spec tr body :
  spec justified tr (authorize_signed (hq_headers rq) "POST" (hq_path rq) body (now_unix inp))
    (λ tr' r, ∀ m, r = Ok m → ∃ d, signed_once tr' body d ∧ dv_role d = "admin" ∧
       mu_org m = dv_org d ∧ mu_actor m = "device:" +:+ dv_device_id d).
Proof.
  apply spec_bind. eapply spec_mono; [apply device_spec|]. intros tr' [d|e] _ Hd; simpl; [|done].
  case_bool_decide as Er; simpl; [done|]. intros m [= <-]. exists d. split; [by apply Hd|].
  done.
Qed.

Lemma mutation_spec tr body :
  spec justified tr
    (authorize_mutation st (hq_headers rq) "POST" (hq_path rq) body (now_unix inp))
    (λ tr' r, ∀ m, r = Ok m → administrator tr' body (mu_org m) (mu_actor m)).
Proof.
  unfold authorize_mutation. destruct (bearer _) as [token|] eqn:Eb; [|done].
  destruct (keys st !! token) as [p|] eqn:Ek.
  { case_bool_decide as Er; simpl; [done|]. intros m [= <-]. exists token. rewrite Ek. simpl.
    by split_and!. }
  destruct (oidc st ≫= _) as [v|] eqn:Ev.
  - apply bind_Some in Ev as (cfg & Eo & Ev).
    case_bool_decide as Er; simpl; [done|]. intros m [= <-]. exists token. rewrite Ek. simpl.
    split; [done|]. left. exists cfg, v. by split_and!.
  - eapply spec_mono; [apply signed_admin_spec|]. intros tr' r _ Hr m Hm.
    exists token. rewrite Ek. split; [done|]. right. by apply Hr.
Qed.

(** The guards of the handlers. *)
Lemma with_org_spec tr k :
  (∀ tr' org, member tr' org → spec justified tr' (k org) (λ _ _, True)) →
  spec justified tr (Api.with_org st rq k) (λ _ _, True).
Proof.
  intros Hk. apply spec_bind. eapply spec_mono; [apply org_for_spec|].
  intros tr' [org|] _ Ho; simpl; [|done]. by apply Hk, Ho.
Qed.

Lemma view_spec {B} tr (f : Inner → string → B) c :
  spec justified tr (Api.view st rq f c) (λ _ _, True).
Proof. by apply with_org_spec. Qed.

Lemma with_mutator_spec tr body k :
  (∀ tr' m, administrator tr' body (mu_org m) (mu_actor m) →
     spec justified tr' (k m) (λ _ _, True)) →
  spec justified tr (Api.with_mutator st rq inp body k) (λ _ _, True).
Proof.
  intros Hk. apply spec_bind. eapply spec_mono; [apply mutation_spec|].
  intros tr' [m|e] _ Hm; simpl; [|done]. by apply Hk, Hm.
Qed.

Lemma with_device_spec tr id k :
  (∀ tr' d, signed_once tr' (hq_body rq) d → id = dv_device_id d →
     spec justified tr' (k d) (λ _ _, True)) →
  spec justified tr (Api.with_device rq inp id k) (λ _ _, True).
Proof.
  intros Hk. apply spec_bind. eapply spec_mono; [apply device_spec|].
  intros tr' [d|e] _ Hd; simpl; [|done]. case_bool_decide as E; simpl; [done|].
  apply Hk; [by apply Hd|done].
Qed.

(** The extractors of axum. *)
Lemma with_path_spec tr k param :
  (∀ p, spec justified tr (k p) (λ _ _, True)) → spec justified tr (Api.with_path k param) (λ _ _, True).
Proof. intros Hk. unfold Api.with_path. by destruct (path_param param). Qed.

Lemma with_body_spec tr k :
  spec justified tr k (λ _ _, True) → spec justified tr (Api.with_body rq k) (λ _ _, True).
Proof. intros Hk. unfold Api.with_body. by destruct (_ <? _). Qed.

Lemma administrator_more tr tr' body org actor :
  administrator tr body org actor → administrator (tr ++ tr') body org actor.
Proof.
  intros (token & Hb & Hc). exists token. split; [done|].
  destruct (keys st !! token); [done|]. destruct Hc as [Hc|(d & Hd & Hc)]; [by left|right].
  exists d. split; [|done]. destruct Hd as (nonce & (t & ? & (i & ? & ?) & ?) & j & ? & ?).
  exists nonce. split; [exists t; split_and!; [done| |done]; exists i|exists j];
    (split; [set_solver|done]).
Qed.

Lemma findings_spec m source now fs : ∀ tr n,
  administrator tr (hq_body rq) (mu_org m) (mu_actor m) →
  spec justified tr (Api.record_findings inp m source now n fs) (λ _ _, True).
Proof.
  induction fs as [|f fs IH]; intros tr n Hm; simpl; [done|].
  destruct (Api.parse_severity _); simpl; [|done]. split; [done|]. intros i.
  by apply IH, administrator_more.
Qed.

Lemma external_findings_spec tr :
  spec justified tr (Api.external_findings st rq inp) (λ _ _, True).
Proof.
  unfold Api.external_findings. destruct (query_source _); [|done].
  apply with_body_spec, with_mutator_spec. intros tr' m Hm. destruct (decode_findings _); [|done].
  by apply findings_spec.
Qed.

Lemma pairing_spec tr :
  spec justified tr (Api.pair_new st rq inp) (λ _ _, True) ∧
  spec justified tr (Api.pair rq inp) (λ _ _, True).
Proof.
  unfold Api.pair_new, Api.pair, admin_org_key, principal_for. split.
  - destruct (bearer _) as [token|] eqn:Eb; simpl; [|done].
    destruct (keys st !! token) as [p|] eqn:Ek; simpl; [|done].
    case_bool_decide as Er; simpl; [done|].
    match goal with |- context [match ?r with Some _ => _ | None => _ end] =>
      destruct r as [role|] end; [|done].
    destruct (bool_decide (role ≠ "admin") && bool_decide (role ≠ "viewer")) eqn:E; [done|].
    simpl. split; [|done]. split; [by exists token, p|]. revert E. repeat case_bool_decide; naive_solver.
  - destruct (decode_pair _) as [req|] eqn:Ed; simpl; [|done].
    split; [by exists req|]. intros i. by repeat case_match.
Qed.

(** A write of a handler, after which it only answers. *)
Ltac writes :=
  repeat (case_match || intro); simpl; repeat (case_match || intro || split || done);
  eauto using administrator_more.

Lemma app_spec :
  Forall (λ r : string * (string * (string → Task Response)),
            ∀ param tr, spec justified tr (r.2.2 param) (λ _ _, True)) (Api.app st rq inp).
Proof.
  unfold Api.app, Api.get, Api.post. repeat (apply Forall_cons; split; [|]); [..|done];
    intros param tr; cbn [fst snd];
    try (apply with_path_spec; intros p); try apply with_body_spec;
    first [apply view_spec | apply external_findings_spec | apply pairing_spec | done | idtac].
  - apply with_org_spec. intros tr' org Ho. writes.
  - unfold Api.alerts. case_match; [apply view_spec|done].
  - unfold Api.series. case_match; [apply view_spec|done].
  - by apply with_org_spec.
  - apply with_mutator_spec. intros tr' m Hm. writes.
  - apply with_mutator_spec. intros tr' m Hm. writes.
  - apply with_mutator_spec. intros tr' m Hm. writes.
  - apply with_mutator_spec. intros tr' m Hm. writes.
  - by apply with_org_spec.
  - by apply with_org_spec.
  - apply with_org_spec. intros tr' org Ho. writes.
  - apply with_org_spec. intros tr' org Ho. simpl. intros i. repeat case_match; done.
  - apply with_device_spec. intros tr' d Hd ->. writes.
  - apply with_device_spec. intros tr' d Hd ->. writes.
Qed.

Lemma find_route_spec routes method h :
  Forall (λ r : string * (string * (string → Task Response)),
            ∀ param tr, spec justified tr (r.2.2 param) (λ _ _, True)) routes →
  Api.find_route rq routes = Some (method, h) → spec justified [] h (λ _ _, True).
Proof.
  induction 1 as [|[p [m f]] routes Hr _ IH]; simpl; [done|].
  destruct (Api.match_route _ _) as [param|]; [|done]. intros [= <- <-]. apply Hr.
Qed.

Lemma cors_spec : spec justified [] (Api.cors st rq inp) (λ _ _, True).
Proof.
  unfold Api.cors. case_bool_decide; [done|]. apply spec_bind.
  eapply spec_mono with (Q := λ _ _, True); [|done].
  unfold Api.routed. destruct (Api.find_route _ _) as [[method h]|] eqn:E; [|done].
  destruct (Api.accepts _ _); [|done]. eapply find_route_spec, E. apply app_spec.
Qed.

(** C19: Whatever the rest of the system does in between, every operation a request performs on
    the store is justified by what the request had established before it: telemetry is booked
    for the organization of the caller's own credential; a kill, a budget, an acknowledgement
    or a finding for the organization, and in the name, of an administrator's key, of a verified
    administrator token, or of an administrator device whose fresh signature over this very
    request verified and whose nonce was new; a pairing code is issued by an administrator key
    with one of the two roles; push registrations are the signing device's own. Nothing else is
    ever written. *)
Theorem every_write_justified sha pct cfg others i j tr r :
  exec sha pct cfg (Api.cors st rq inp) others i = (j, tr, r) →
  ∀ n k op, tr !! n = Some (k, Some op) → justified (take n tr) op.
Proof. intros He n k op Hn. exact (proj2 (spec_exec _ _ _ _ [] _ _ _ _ _ _ _ cors_spec He) n k op Hn). Qed.
End authority.
