(* ===== verification/CloudTenants.v ===== *)
(** * Tenants of the control plane are isolated

    What a request answers and does depends on its own organization's data only, the file of the
    replay excepted, and what it writes leaves every other organization's data alone, under any
    interleaving. *)

From Stdlib Require Import FunctionalExtensionality.
From S2P Require Import Prelude Float Strings McpReport AuditChain.
From S2P Require Import Recency CloudTypes CloudIngest CloudStore CloudInv CloudAccess.
From S2P Require Import CloudAuth CloudApi.

(** An organization's data. *)
Record Slice := mkSlice {
  sl_runs : option (gmap string RunAgg);
  sl_killed : option (gmap string bool);
  sl_budgets : option (gmap string Z);
  sl_unit_budgets : option (gmap string Z);
  sl_series : option (list Sample);
  sl_savings : option SavingsAcc;
  sl_months : option (gmap string UnitMonthAcc);
  sl_decisions : option (gmap string Z);
  sl_incidents : option (gmap string Incident);
  sl_audit : option (list AuditEntry);
  sl_totals : option OrgTotals
}.

Definition slice (org : string) (i : Inner) : Slice :=
  mkSlice (orgs i !! org) (killed i !! org) (budgets i !! org) (unit_budgets i !! org)
    (series i !! org) (savings i !! org) (unit_months i !! org) (decision_counts i !! org)
    (incidents i !! org) (audit i !! org) (org_totals i !! org).

(** The organization an operation writes to. *)
Definition op_org (i : Inner) (op : Op) : option string :=
  match op with
  | Ingest org _ _ | Kill org _ | KillAudited _ org _ _ | SetBudget org _ _
  | SetBudgetAudited _ org _ _ _ | SetUnitBudget org _ _ | SetUnitBudgetAudited _ org _ _ _
  | Ack org _ | AckAudited _ org _ _ | Finding _ org _ _ | Notified org _ _ _
  | AuditAppend _ org _ _ _ _ => Some org
  | RedeemAudited _ code _ _ _ _ _ _ => pg_org <$> pairings i !! code
  | _ => None
  end.

(** ** What tenants read *)

(** The devices of an organization, by their tokens. *)
Definition own_devices (org : string) (i : Inner) : gmap string Device :=
  filter (λ p, dv_org p.2 = org) (devices i).

(** Some device has this id. *)
Definition known_device (i : Inner) (id : string) : Prop :=
  ∃ token d, devices i !! token = Some d ∧ dv_device_id d = id.

Section reads.
Context `{HashOrder} (sha256 : string → string).

Lemma apns_found id token i : (Store.set_apns_token id token i).2 = true ↔ known_device i id.
Proof.
  unfold Store.set_apns_token. destruct (find _ _) as [[k d]|] eqn:E; simpl.
  - apply find_some in E as [Hin Hd]. apply list_elem_of_In, iter_elem in Hin. breflect.
    split; [|done]. intros _. by exists k, d.
  - split; [done|]. intros (k & d & Hk & <-). apply iter_elem, list_elem_of_In in Hk.
    pose proof (find_none _ _ E _ Hk) as Hf. cbn in Hf. by rewrite bool_decide_true in Hf.
Qed.

Lemma alike_reads org i j :
  slice org i = slice org j →
  Store.runs i org = Store.runs j org ∧ Store.agents i org = Store.agents j org ∧
  (∀ now, Store.units_at i org now = Store.units_at j org now) ∧
  Store.savings i org = Store.savings j org ∧ Store.summary i org = Store.summary j org ∧
  (∀ pct, Store.alerts i org pct = Store.alerts j org pct) ∧
  (∀ run w s now, Store.series i org run w s now = Store.series j org run w s now) ∧
  Store.kills i org = Store.kills j org ∧ Store.budgets i org = Store.budgets j org ∧
  Store.unit_budgets i org = Store.unit_budgets j org ∧
  Store.incidents i org = Store.incidents j org ∧
  Store.decision_counts i org = Store.decision_counts j org ∧
  Store.incident_kind_counts i org = Store.incident_kind_counts j org ∧
  Store.audit i org = Store.audit j org ∧
  Store.audit_verify sha256 i org = Store.audit_verify sha256 j org ∧
  (∀ run, Store.run_belongs_to_org i org run = Store.run_belongs_to_org j org run) ∧
  (∀ now id actor, (Store.ack_incident_audited sha256 now org id actor i).2 =
                   (Store.ack_incident_audited sha256 now org id actor j).2).
Proof.
  intros [= E1 E2 E3 E4 E5 E6 E7 E8 E9 E10 E11].
  unfold Store.runs, Store.agents, Store.units_at, Store.savings, Store.summary, Store.alerts,
    Store.series, Store.kills, Store.budgets, Store.unit_budgets, Store.incidents,
    Store.decision_counts, Store.incident_kind_counts, Store.audit, Store.audit_verify,
    Store.run_belongs_to_org, Store.ack_incident_audited, get_in.
  rewrite E1, E2, E3, E4, E5, E6, E7, E8, E9, E10, E11. split_and!; try done.
  intros now id actor. by destruct (incidents j !! org ≫= lookup id).
Qed.
End reads.

(** ** Noninterference *)

Section local.
Context (S : Inner → Inner → Prop).

(** Whatever a task learns is the same in two states that [S] relates. *)
Fixpoint local {A} (p : Task A) (Q : A → Prop) : Prop :=
  match p with
  | Ret a => Q a
  | Read f k => (∀ i j, S i j → f i = f j) ∧ ∀ i, S i i → local (k (f i)) Q
  | Write op out k => (∀ i j, S i j → out i = out j) ∧ ∀ i, S i i → local (k (out i)) Q
  end.

Lemma local_bind {A B} (p : Task A) (f : A → Task B) Q :
  local p (λ a, local (f a) Q) → local (task_bind p f) Q.
Proof.
  induction p as [a|C g k IH|C op out k IH]; simpl; [done| |];
    (intros [Hr Hk]; split; [done|]; intros i Hi; by apply IH, Hk).
Qed.

Lemma local_mono {A} (p : Task A) (Q R : A → Prop) :
  local p Q → (∀ a, Q a → R a) → local p R.
Proof.
  intros Hp HR. induction p as [a|C g k IH|C op out k IH]; simpl in *; [by apply HR| |];
    (destruct Hp as [Hr Hk]; split; [done|]; intros i Hi; by apply IH, Hk).
Qed.

Lemma local_exec `{HashOrder} sha pct1 pct2 cfg1 cfg2 {A} (p : Task A) Q o1 o2 i1 i2 j1 j2 tr1 tr2
    a1 a2 :
  (∀ i j, S i j → S i i) → local p Q →
  exec sha pct1 cfg1 p o1 i1 = (j1, tr1, a1) → exec sha pct2 cfg2 p o2 i2 = (j2, tr2, a2) →
  (∀ n e1 e2, tr1 !! n = Some e1 → tr2 !! n = Some e2 → S e1.1 e2.1) →
  a1 = a2 ∧ tr1.*2 = tr2.*2.
Proof.
  intros Hrefl. revert o1 o2 i1 i2 j1 j2 tr1 tr2.
  induction p as [a|C g k IH|C op out k IH]; intros o1 o2 i1 i2 j1 j2 tr1 tr2; simpl.
  - by intros _ [= _ <- <-] [= _ <- <-] _.
  - intros [Hr Hk]. destruct (exec _ _ _ (k _) _ _) as [[k1 t1] b1] eqn:E1.
    destruct (exec _ _ _ (k (g (run_ops _ _ _ i2 _))) _ _) as [[k2 t2] b2] eqn:E2.
    intros [= <- <- <-] [= <- <- <-] Hs. pose proof (Hs O _ _ eq_refl eq_refl) as H0. cbn [fst] in H0.
    rewrite <-(Hr _ _ H0) in E2.
    destruct (IH _ _ _ _ _ _ _ _ _ (Hk _ (Hrefl _ _ H0)) E1 E2) as [-> Ht].
    + intros n. apply (Hs (Datatypes.S n)).
    + split; [done|]. cbn. by f_equal.
  - intros [Hr Hk]. destruct (exec _ _ _ (k _) _ _) as [[k1 t1] b1] eqn:E1.
    destruct (exec _ _ _ (k (out (run_ops _ _ _ i2 _))) _ _) as [[k2 t2] b2] eqn:E2.
    intros [= <- <- <-] [= <- <- <-] Hs. pose proof (Hs O _ _ eq_refl eq_refl) as H0. cbn [fst] in H0.
    rewrite <-(Hr _ _ H0) in E2.
    destruct (IH _ _ _ _ _ _ _ _ _ (Hk _ (Hrefl _ _ H0)) E1 E2) as [-> Ht].
    + intros n. apply (Hs (Datatypes.S n)).
    + split; [done|]. cbn. by f_equal.
Qed.
End local.

Section isolation.
Context `{HashOrder} `{CloudLib} `{CloudWire} (st : AppState) (rq : HttpRequest) (inp : Inputs).

(** The organizations the request's token stands for in a state. *)
Definition speaks_for (i : Inner) (org : string) : Prop :=
  ∃ token, bearer (hq_headers rq) = Some token ∧
    ((∃ p, keys st !! token = Some p ∧ org = pr_org p) ∨
     (∃ d, devices i !! token = Some d ∧ org = dv_org d) ∨
     (∃ p, oidc_principal st (hq_headers rq) = Some p ∧ org = pr_org p)).

Context (org : string).

(** The request cannot tell [i] from [j]: the same data and the same devices of [org]; the same
    pairing under the one code the request presents; of the one device id its signature claims,
    the same nonces, and whether a device has it. *)
Definition alike (i j : Inner) : Prop :=
  slice org i = slice org j ∧ own_devices org i = own_devices org j ∧
  (∀ pq, decode_pair (hq_body rq) = Some pq → pairings i !! pq_code pq = pairings j !! pq_code pq) ∧
  ∀ id, header_str (hq_headers rq) "x-fuse-device" = Some id →
    nonces i !! id = nonces j !! id ∧ (known_device i id ↔ known_device j id).

#[export] Instance alike_equivalence : Equivalence alike.
Proof.
  split; unfold alike.
  - by intros i.
  - intros i j (-> & -> & Hp & Hn). split_and!; [done|done| |]; intros ? E.
    + by rewrite (Hp _ E).
    + by destruct (Hn _ E) as [-> ->].
  - intros i j k (-> & -> & Hp & Hn) (-> & -> & Hp' & Hn'). split_and!; [done|done| |]; intros ? E.
    + by rewrite (Hp _ E), (Hp' _ E).
    + destruct (Hn _ E) as [-> ->]. by apply Hn'.
Qed.

(** ... and in neither of them its token stands for another organization. *)
Definition same_to (i j : Inner) : Prop :=
  alike i j ∧ ∀ o, speaks_for i o ∨ speaks_for j o → o = org.

Lemma same_refl i j : same_to i j → same_to i i.
Proof. intros [_ Hs]. split; [reflexivity|]. naive_solver. Qed.

(** The device of the caller's token is the organization's own. *)
Lemma token_device i j token : bearer (hq_headers rq) = Some token → same_to i j →
  devices i !! token = devices j !! token.
Proof.
  intros Hb [(_ & Hd & _) Hs]. apply (f_equal (.!! token)) in Hd. unfold own_devices in Hd.
  rewrite !map_lookup_filter in Hd.
  assert (∀ k d, k = i ∨ k = j → devices k !! token = Some d → dv_org d = org) as Ho.
  { intros k d Hk He. apply Hs. destruct Hk as [-> | ->]; [left|right]; exists token; eauto 7. }
  destruct (devices i !! token) as [d|] eqn:Ei, (devices j !! token) as [d'|] eqn:Ej; try done;
    cbn in Hd; rewrite ?(option_guard_True _ _ (Ho _ _ (or_introl eq_refl) Ei)),
      ?(option_guard_True _ _ (Ho _ _ (or_intror eq_refl) Ej)) in Hd; naive_solver.
Qed.

(** The organizations a guard lets through are the caller's. *)
Definition callers (o : string) : Prop := ∀ i j, same_to i j → o = org.

Lemma org_for_local : local same_to (org_for st (hq_headers rq)) (λ r, ∀ o, r = Some o → callers o).
Proof.
  unfold org_for. destruct (bearer _) as [token|] eqn:Eb; simpl; [|done].
  destruct (keys st !! token) as [p|] eqn:Ek; simpl.
  - intros o [= <-] i j [_ Hs]. apply Hs. left. exists token. eauto 7.
  - unfold Store.device_by_token. split; [by intros i j; apply token_device|].
    intros i Hi. destruct (devices i !! token) as [d|] eqn:Ed; simpl.
    + intros o [= <-] _ _ _. apply Hi. left. exists token. eauto 7.
    + intros o Ho i' j' [_ Hs]. apply Hs. left. exists token. split; [done|]. right; right.
      destruct (oidc_principal _ _); simplify_eq/=. eauto.
Qed.

Lemma device_local body :
  local same_to
    (verify_device_signature (hq_headers rq) "POST" (hq_path rq) body (now_unix inp))
    (λ r, ∀ d, r = Ok d →
       callers (dv_org d) ∧ header_str (hq_headers rq) "x-fuse-device" = Some (dv_device_id d)).
Proof.
  unfold verify_device_signature. destruct (bearer _) as [token|] eqn:Eb; simpl; [|done].
  unfold Store.device_by_token. split; [by intros i j; apply token_device|].
  intros i Hi. destruct (devices i !! token) as [d|] eqn:Ed; simpl; [|done].
  destruct (signed_by _ _ _ _ _ _) as [nonce|] eqn:Es; simpl; [|done].
  assert (header_str (hq_headers rq) "x-fuse-device" = Some (dv_device_id d)) as Hid.
  { unfold signed_by in Es. apply bind_Some in Es as (hdr & Hh & Es). case_bool_decide as Hne; [done|].
    by rewrite Hh, Hne. }
  split.
  - intros k l [(_ & _ & _ & Hn) _]. unfold Store.check_and_record_nonce.
    rewrite (proj1 (Hn _ Hid)). by destruct (existsb _ _).
  - intros k Hk. destruct (_.2); simpl; [|done]. intros d' [= <-]. split; [|done]. intros _ _ _.
    apply Hi. left. exists token. eauto 7.
Qed.

Lemma mutation_local body :
  local same_to
    (authorize_mutation st (hq_headers rq) "POST" (hq_path rq) body (now_unix inp))
    (λ r, ∀ m, r = Ok m → callers (mu_org m)).
Proof.
  unfold authorize_mutation. destruct (bearer _) as [token|] eqn:Eb; [|done].
  destruct (keys st !! token) as [p|] eqn:Ek.
  { case_bool_decide; simpl; [done|]. intros m [= <-] i j [_ Hs]. apply Hs. left. exists token. eauto 7. }
  destruct (oidc st ≫= _) as [v|] eqn:Ev.
  - case_bool_decide; simpl; [done|]. intros m [= <-] i j [_ Hs]. apply Hs. left. exists token.
    split; [done|]. right; right. exists (ve_principal v). split; [|done].
    apply bind_Some in Ev as (cfg & Eo & Ev). unfold oidc_principal, verify_id_token.
    rewrite Eo, Eb. simpl. by rewrite Ev.
  - apply local_bind. eapply local_mono; [apply device_local|].
    intros [d|e] Hd; simpl; [|done]. case_bool_decide; simpl; [done|]. intros m [= <-].
    by destruct (Hd d eq_refl).
Qed.

Abbreviation quiet p := (local same_to p (λ _, True)).

Lemma with_org_local k : (∀ o, callers o → quiet (k o)) → quiet (Api.with_org st rq k).
Proof.
  intros Hk. apply local_bind. eapply local_mono; [apply org_for_local|].
  intros [o|] Ho; simpl; [|done]. by apply Hk, Ho.
Qed.

Lemma with_mutator_local body k :
  (∀ m, callers (mu_org m) → quiet (k m)) → quiet (Api.with_mutator st rq inp body k).
Proof.
  intros Hk. apply local_bind. eapply local_mono; [apply mutation_local|].
  intros [m|e] Hm; simpl; [|done]. by apply Hk, Hm.
Qed.

Lemma with_device_local id k :
  (∀ d, callers (dv_org d) → header_str (hq_headers rq) "x-fuse-device" = Some id → quiet (k d)) →
  quiet (Api.with_device rq inp id k).
Proof.
  intros Hk. apply local_bind. eapply local_mono; [apply device_local|].
  intros [d|e] Hd; simpl; [|done]. case_bool_decide as Hne; simpl; [done|].
  destruct (Hd d eq_refl) as [Ho Hid]. apply Hk; [done|]. by rewrite Hid, Hne.
Qed.

(** The extractors of axum. *)
Lemma with_path_local k param : (∀ p, quiet (k p)) → quiet (Api.with_path k param).
Proof. intros Hk. unfold Api.with_path. by destruct (path_param param). Qed.
Lemma with_body_local k : quiet k → quiet (Api.with_body rq k).
Proof. intros Hk. unfold Api.with_body. by destruct (_ <? _). Qed.

(** A read of the caller's organization. *)
Lemma org_read {B} (f : Inner → string → B) o :
  callers o → (∀ i j, slice org i = slice org j → f i org = f j org) →
  ∀ i j, same_to i j → f i o = f j o.
Proof. intros Ho Hf i j Hs. rewrite (Ho _ _ Hs). apply Hf, Hs. Qed.

Lemma view_local {B} (f : Inner → string → B) c :
  (∀ i j, slice org i = slice org j → f i org = f j org) → quiet (Api.view st rq f c).
Proof.
  intros Hf. apply with_org_local. intros o Ho. simpl. split; [|done]. by apply org_read.
Qed.

Lemma findings_local m source now fs : ∀ n, quiet (Api.record_findings inp m source now n fs).
Proof. induction fs as [|f fs IH]; intros n; simpl; [done|]. by destruct (Api.parse_severity _). Qed.

(** The reads of [alike_reads], and the answer of an acknowledgement. *)
Ltac slice_read :=
  let i := fresh in let j := fresh in let Hs := fresh in
  intros i j Hs; apply (alike_reads sha256) in Hs; by decompose [and] Hs.

Lemma replay_local run : quiet (Api.replay st rq inp run).
Proof.
  apply with_org_local. intros o Ho. simpl.
  split; [apply (org_read (λ i o, Store.run_belongs_to_org i o run) o Ho); slice_read|].
  intros i _. destruct (negb _); simpl; [done|]. destruct (match _ with Some _ => _ | _ => _ end) as [evs n].
  simpl. split; [apply (org_read Store.incidents o Ho); slice_read|]. intros j _.
  split; [apply (org_read Store.audit o Ho); slice_read|done].
Qed.

Lemma compliance_local : quiet (Api.compliance st rq) ∧ quiet (Api.compliance_evidence st rq).
Proof.
  split; apply with_org_local; intros o Ho; simpl;
    (split; [apply (org_read Store.decision_counts o Ho); slice_read|]; intros _ _);
    (split; [apply (org_read Store.incident_kind_counts o Ho); slice_read|]; intros _ _); [done|].
  split; [apply (org_read Store.audit o Ho); slice_read|]. intros _ _.
  split; [apply (org_read (Store.audit_verify sha256) o Ho); slice_read|done].
Qed.

Lemma pairing_local : quiet (Api.pair_new st rq inp) ∧ quiet (Api.pair rq inp).
Proof.
  split.
  - unfold Api.pair_new. repeat (case_match; try done).
  - unfold Api.pair. destruct (decode_pair _) as [req|] eqn:Ed; [|done]. split; [|done].
    intros i j [(_ & _ & Hp & _) _]. unfold Store.redeem_pairing_audited. rewrite (Hp req Ed).
    destruct (pairings j !! pq_code req); [|done]. by destruct (_ <? _).
Qed.

Lemma device_calls_local id :
  quiet (Api.register_apns rq inp id) ∧ quiet (Api.register_activity rq inp id).
Proof.
  split; apply with_device_local; intros d Hd Hid.
  - destruct (decode_apns _) as [token|]; [|done]. split; [|done].
    intros i j [(_ & _ & _ & Hn) _]. apply eq_bool_prop_intro.
    rewrite !Is_true_true, !apns_found. by apply Hn.
  - by destruct (decode_activity _).
Qed.

Lemma operator_local id :
  quiet (Api.kill st rq inp id) ∧ quiet (Api.set_budget st rq inp id) ∧
  quiet (Api.set_unit_budget st rq inp id) ∧ quiet (Api.ack_incident st rq inp id) ∧
  quiet (Api.external_findings st rq inp).
Proof.
  split_and!; [| | | |unfold Api.external_findings; destruct (query_source _); [|done]; 
      apply with_body_local];
    apply with_mutator_local; intros m Hm; try (by destruct (decode_budget _)); [done| |].
  - simpl. split; [|done]. apply (org_read (λ i o, (Store.ack_incident_audited sha256
      (store_millis inp 0) o id (mu_actor m) i).2) _ Hm); slice_read.
  - destruct (decode_findings _); [|done]. apply findings_local.
Qed.

Ltac apply_part H := let E := fresh in pose proof H as E; decompose [and] E; assumption.

Lemma app_local :
  Forall (λ r : string * (string * (string → Task Response)), ∀ param, quiet (r.2.2 param))
    (Api.app st rq inp).
Proof.
  unfold Api.app, Api.get, Api.post. repeat (apply Forall_cons; split; [|]); [..|done];
    intros param; cbn [fst snd]; try (apply with_path_local; clear param; intros param);
    try apply with_body_local;
    lazymatch goal with
    | |- local _ (Api.dashboard) _ => done
    | |- local _ (Api.openapi_doc) _ => done
    | |- local _ (Api.healthz) _ => done
    | |- local _ (Api.ingest _ _ _) _ => idtac
    | |- local _ (Api.stream _ _) _ => idtac
    | |- local _ (Api.alerts _ _) _ => unfold Api.alerts; case_match; [|done]
    | |- local _ (Api.series _ _ _) _ => unfold Api.series; case_match; [|done]
    | |- local _ (Api.kill _ _ _ _) _ => apply_part (operator_local param)
    | |- local _ (Api.set_budget _ _ _ _) _ => apply_part (operator_local param)
    | |- local _ (Api.set_unit_budget _ _ _ _) _ => apply_part (operator_local param)
    | |- local _ (Api.ack_incident _ _ _ _) _ => apply_part (operator_local param)
    | |- local _ (Api.external_findings _ _ _) _ => apply_part (operator_local param)
    | |- local _ (Api.compliance _ _) _ => apply_part compliance_local
    | |- local _ (Api.compliance_evidence _ _) _ => apply_part compliance_local
    | |- local _ (Api.replay _ _ _ _) _ => apply replay_local
    | |- local _ (Api.pair_new _ _ _) _ => apply_part pairing_local
    | |- local _ (Api.pair _ _) _ => apply_part pairing_local
    | |- local _ (Api.register_apns _ _ _) _ => apply_part (device_calls_local param)
    | |- local _ (Api.register_activity _ _ _) _ => apply_part (device_calls_local param)
    | |- local _ (Api.audit_manifest _ _ _) _ => idtac
    | _ => idtac
    end; try (apply view_local; slice_read).
  - apply with_org_local. intros o Ho. by destruct (decode_ingest _).
  - by apply with_org_local.
  - apply with_org_local. intros o Ho. destruct (audit_signing_key st) as [key|]; [|done].
    simpl. split; [|done].
    apply (org_read (λ i o, Api.store_audit_manifest i o key (now_millis inp)) o Ho).
    intros i j Hs. unfold Api.store_audit_manifest. by injection Hs as _ _ _ _ _ _ _ _ _ -> _.
Qed.

Lemma cors_local : quiet (Api.cors st rq inp).
Proof.
  unfold Api.cors. case_bool_decide; [done|]. apply local_bind.
  eapply local_mono with (Q := λ _, True); [|done]. unfold Api.routed.
  pose proof app_local as Ha. induction Ha as [|[p [m h]] routes Hr _ IH]; simpl; [done|].
  destruct (Api.match_route _ _); [|done]. destruct (Api.accepts _ _); [apply Hr|done].
Qed.

End isolation.

(** ** Two deployments *)

Section deployments.
Context `{HashOrder} `{CloudLib} `{CloudWire} (rq : HttpRequest).

(** Two configurations that differ in the keys of other callers only. *)
Definition configured_alike (st1 st2 : AppState) : Prop :=
  (∀ token, bearer (hq_headers rq) = Some token → keys st1 !! token = keys st2 !! token) ∧
  st2 = mkAppState (keys st2) (alert_pct st1) (oidc st1) (audit_signing_key st1)
          (replay_events_path st1).

(** The events a request for a replay finds in the file, and the number of malformed lines. *)
Definition replayed (inp : Inputs) : option (list ReplayEvent * nat) :=
  segment ← Api.match_route "/v1/replay/{run}" (hq_path rq);
  run ← path_param segment;
  Some (Api.read_run_events decode_event (replay_lines inp) run).

(** The same clocks and random bytes, and the same answer of the replay file, when it is asked. *)
Definition informed_alike (inp1 inp2 : Inputs) : Prop :=
  replayed inp1 = replayed inp2 ∧
  inp2 = mkInputs (now_unix inp1) (now_millis inp1) (store_millis inp1) (code_bytes inp1)
           (id_bytes inp1) (token_bytes inp1) (replay_lines inp2).

Context (st1 st2 : AppState) (inp1 inp2 : Inputs).
Context (Hst : configured_alike st1 st2) (Hinp : informed_alike inp1 inp2).

Lemma org_for_alike : org_for st1 (hq_headers rq) = org_for st2 (hq_headers rq).
Proof.
  destruct Hst as [Hk ->]. unfold org_for, oidc_principal. cbn. destruct (bearer _) as [token|]; [|done].
  by rewrite (Hk token eq_refl).
Qed.

Lemma with_org_alike k : Api.with_org st1 rq k = Api.with_org st2 rq k.
Proof. unfold Api.with_org. by rewrite org_for_alike. Qed.

Lemma with_mutator_alike body k :
  Api.with_mutator st1 rq inp1 body k = Api.with_mutator st2 rq inp2 body k.
Proof.
  destruct Hst as [Hk ->], Hinp as [_ ->]. unfold Api.with_mutator, authorize_mutation. cbn.
  destruct (bearer _) as [token|]; [|done]. by rewrite (Hk token eq_refl).
Qed.

Lemma pair_new_alike : Api.pair_new st1 rq inp1 = Api.pair_new st2 rq inp2.
Proof.
  destruct Hst as [Hk ->], Hinp as [_ ->]. unfold Api.pair_new, admin_org_key, principal_for. cbn.
  destruct (bearer _) as [token|]; [|done]. cbn. by rewrite (Hk token eq_refl).
Qed.

Lemma replay_alike segment run :
  Api.match_route "/v1/replay/{run}" (hq_path rq) = Some segment → path_param segment = Some run →
  Api.replay st1 rq inp1 run = Api.replay st2 rq inp2 run.
Proof.
  intros Hm Hp. unfold Api.replay. rewrite with_org_alike. f_equal.
  apply functional_extensionality. intros org.
  destruct Hinp as [Hr _]. unfold replayed in Hr. rewrite Hm in Hr. cbn in Hr. rewrite Hp in Hr.
  cbn in Hr. injection Hr as Hr. destruct Hst as [_ ->]. cbn. by rewrite Hr.
Qed.

(** A route of one deployment and of the other. *)
Definition route_alike (r1 r2 : string * (string * (string → Task Response))) : Prop :=
  r1.1 = r2.1 ∧ r1.2.1 = r2.2.1 ∧
  ∀ segment, Api.match_route r1.1 (hq_path rq) = Some segment → r1.2.2 segment = r2.2.2 segment.

Lemma findings_alike m source now n fs :
  Api.record_findings inp1 m source now n fs = Api.record_findings inp2 m source now n fs.
Proof. by destruct Hinp as [_ ->]. Qed.

Lemma app_alike : Forall2 route_alike (Api.app st1 rq inp1) (Api.app st2 rq inp2).
Proof.
  unfold Api.app.
  repeat (apply Forall2_cons_2; [split; [reflexivity|split; [reflexivity|]]; cbn [fst snd Api.get Api.post];
    intros segment Hm|]); [..|constructor].
  all: unfold Api.with_path, Api.with_body;
    try (destruct (path_param segment) as [p|] eqn:Ep; [|done]); try (case_match; [done|]).
  all: try by apply (replay_alike segment).
  all: try apply pair_new_alike.
  all: destruct Hst as [_ Est], Hinp as [_ Einp].
  all: unfold Api.ingest, Api.runs, Api.agents, Api.units, Api.savings, Api.summary,
    Api.alerts, Api.series, Api.stream, Api.kill, Api.kills, Api.set_budget, Api.budgets,
    Api.set_unit_budget, Api.unit_budgets, Api.incidents, Api.ack_incident, Api.external_findings,
    Api.compliance, Api.compliance_evidence, Api.audit, Api.audit_verify, Api.audit_manifest,
    Api.pair, Api.register_apns, Api.register_activity, Api.view;
    try (case_match; [|done]); rewrite ?with_org_alike, ?with_mutator_alike; try rewrite Einp; try rewrite Est; reflexivity.
Qed.

Lemma found_alike routes1 routes2 :
  Forall2 route_alike routes1 routes2 → Api.find_route rq routes1 = Api.find_route rq routes2.
Proof.
  induction 1 as [|[p1 [m1 h1]] [p2 [m2 h2]] routes1 routes2 (Hp & Hm & Hh) _ IH]; [done|].
  cbn in *. subst p2 m2. destruct (Api.match_route _ _) as [segment|]; [|done].
  by rewrite (Hh segment eq_refl).
Qed.

(** The two deployments serve the request by the same task. *)
Lemma cors_alike : Api.cors st1 rq inp1 = Api.cors st2 rq inp2.
Proof. unfold Api.cors, Api.routed. by rewrite (found_alike _ _ app_alike). Qed.

(** C20: Tenants are isolated, but for the replay file.  Serve one request in two deployments,
    under the same clocks and random bytes, among arbitrary other requests.  The deployments may
    differ in the keys of other callers, in their incident thresholds, and in everything the store
    holds of other organizations: the premise is only that, at each critical section of the
    request, the two stores agree on the data and the devices of the one organization its token
    can stand for, on the pairing under the code it presents, and on the nonces and the existence
    of the one device id its signature claims.  Then the request answers the same and performs the
    same operations, so nothing another organization stores can be read through the interface.
    The file of the replay is the exception: all organizations share it, and the two files need
    only agree on the events of the run a replay asks for and on how many lines are malformed. *)
Theorem tenant_isolated org sha pct1 pct2 cfg1 cfg2 others1 others2 i1 i2 j1 j2 tr1 tr2 r1 r2 :
  exec sha pct1 cfg1 (Api.cors st1 rq inp1) others1 i1 = (j1, tr1, r1) →
  exec sha pct2 cfg2 (Api.cors st2 rq inp2) others2 i2 = (j2, tr2, r2) →
  (∀ n e1 e2, tr1 !! n = Some e1 → tr2 !! n = Some e2 → same_to st1 rq org e1.1 e2.1) →
  r1 = r2 ∧ tr1.*2 = tr2.*2.
Proof.
  intros E1 E2. rewrite <-cors_alike in E2.
  exact (local_exec _ _ _ _ _ _ _ _ _ _ _ _ _ _ _ _ _ _ (same_refl st1 rq org)
           (cors_local st1 rq inp1 org) E1 E2).
Qed.
End deployments.


(** ** What tenants write *)

Section confined.
Context `{HashOrder} (sha256 : string → string) (pct : f64) (cfg : IncidentConfig) (o : string).

Abbreviation kept i j := (slice o j = slice o i).

Lemma upsert_kept org kind sev scope run agent ts i :
  o ≠ org → kept i (upsert_incident org kind sev scope run agent ts i).1.
Proof. intros Ho. unfold slice. simpl. by rewrite lookup_insert_ne. Qed.

Lemma fire_kept over org kind sev scope run agent ts s :
  o ≠ org → kept s.1 (fire over org kind sev scope run agent ts s).1.
Proof. intros Ho. unfold fire. destruct over; [|done]. by apply (upsert_kept _ _ _ _ _ _ _ s.1). Qed.

Lemma bump_kept org kind scope ts w i : kept i (bump_tracker org kind scope ts w i).1.
Proof. unfold bump_tracker. by destruct (bound_tracker _ _ _). Qed.

Lemma bump_fanout_kept org a run ts now w i : kept i (bump_fanout_tracker org a run ts now w i).1.
Proof. unfold bump_fanout_tracker. by destruct (bound_tracker _ _ _). Qed.

Lemma detect_record_kept org now s r : o ≠ org → kept s.1 (detect_record cfg org now s r).1.
Proof.
  intros Ho. unfold detect_record. set (ts := if 0 <? r_ts r then _ else _).
  set (agent := if is_empty_str _ then _ else _).
  transitivity (slice o (detect_loop cfg org r ts agent now (detect_budget cfg org r ts agent s)).1);
    [|transitivity (slice o (detect_budget cfg org r ts agent s).1)].
  - generalize (detect_loop cfg org r ts agent now (detect_budget cfg org r ts agent s)).
    clear s. intros s. unfold detect_fanout. destruct agent as [a|]; [|done].
    pose proof (bump_fanout_kept org a (r_run_id r) ts now (fanout_window_ms cfg) s.1) as Hb.
    destruct (bump_fanout_tracker _ _ _ _ _ _ _) as [i m].
    etransitivity; [by apply (fire_kept _ _ _ _ _ _ _ _ (i, s.2))|exact Hb].
  - generalize (detect_budget cfg org r ts agent s). clear s. intros s.
    unfold detect_loop. case_match; [|done].
    pose proof (bump_kept org "sustained_loop" (r_run_id r) ts
      (Some (now, loop_window_ms cfg)) s.1) as Hb.
    destruct (bump_tracker _ _ _ _ _ _) as [i m].
    etransitivity; [by apply (fire_kept _ _ _ _ _ _ _ _ (i, s.2))|exact Hb].
  - unfold detect_budget. case_match; [|done].
    pose proof (bump_kept org "budget_exhausted" (r_run_id r) ts None s.1) as Hb.
    destruct (bump_tracker _ _ _ _ _ _) as [i m].
    etransitivity; [by apply (fire_kept _ _ _ _ _ _ _ _ (i, s.2))|exact Hb].
Qed.

Lemma ingest_kept org rs now i : o ≠ org → kept i (ingest_locked pct cfg org rs now i).1.1.
Proof.
  intros Ho. unfold ingest_locked. set (j := push_samples _ _ _).
  assert (kept i j) as Hj.
  { unfold j, slice. cbn. by rewrite !lookup_insert_ne. }
  assert (kept j (foldl (detect_record cfg org now) (j, ∅) rs).1) as Hd.
  { generalize (∅ : gmap string Incident). clearbody j. clear Hj. revert j.
    induction rs as [|r rs IH]; intros j f; [done|]. cbn [foldl].
    pose proof (detect_record_kept org now (j, f) r Ho) as Hr.
    destruct (detect_record cfg org now (j, f) r) as [j' f']. etransitivity; [apply IH|exact Hr]. }
  revert Hd. generalize (foldl (detect_record cfg org now) (j, ∅) rs). intros s Hd.
  unfold detect_spike. match goal with |- context [fire ?b ?g ?k ?v ?c ?r ?a ?t s] =>
    pose proof (fire_kept b g k v c r a t s Ho) as Hf; destruct (fire b g k v c r a t s) as [k' f] end.
  cbn [fst] in *. by rewrite Hf, Hd.
Qed.

Lemma log_kept now org actor action subject detail i :
  o ≠ org → kept i (Store.append_audit_locked sha256 now org actor action subject detail i).
Proof. intros Ho. unfold slice. cbn. by rewrite lookup_insert_ne. Qed.

(** An operation on the store writes to one organization at most, the one it is performed
    for: every other organization keeps its runs, totals, budgets, kills, series, savings,
    counts, incidents and audit chain unchanged (a restart apart, which reloads them all). *)
Theorem writes_stay_in_tenant i op :
  is_restart op = false → op_org i op ≠ Some o → kept i (apply_op sha256 pct cfg i op).
Proof.
  intros Hr Ho.
  destruct op; cbn [apply_op op_org is_restart] in *; try done;
    try (assert (o ≠ org) as Hne by (by intros ->)).
  all: try (unfold slice; cbn; unfold insert_in; by rewrite ?lookup_insert_ne by done).
  - by apply ingest_kept.
  - unfold Store.ack_incident. destruct (get_in _ _ _); [|done]. unfold slice. cbn. unfold insert_in.
    by rewrite lookup_insert_ne by done.
  - unfold Store.ack_incident_audited. destruct (get_in _ _ _); [|done]. unfold slice. cbn. unfold insert_in.
    by rewrite !lookup_insert_ne by done.
  - unfold Store.record_external_finding. set (agent := if starts_with _ _ then _ else _).
    pose proof (upsert_kept org (Store.fi_detector f) (Store.fi_severity f) (Store.fi_subject f)
      None agent (Store.fi_ts f) i Hne) as Hu.
    destruct (upsert_incident _ _ _ _ _ _ _ i) as [j inc]. cbn [fst] in Hu. rewrite <-Hu.
    destruct (get_in _ _ _); [|done]. unfold slice. cbn. unfold insert_in. by rewrite !lookup_insert_ne by done.
  - unfold Store.mark_incident_notified. destruct (get_in _ _ _); [|done].
    destruct (_ <? _); [|done]. unfold slice. cbn. unfold insert_in. by rewrite lookup_insert_ne by done.
  - unfold Store.redeem_pairing. destruct (pairings i !! code); [|done]. by destruct (_ <? _).
  - unfold Store.redeem_pairing_audited. destruct (pairings i !! code) as [p|]; [|done].
    destruct (_ <? _); [done|]. etransitivity; [apply log_kept|done]. simpl. by intros ->.
  - unfold Store.check_and_record_nonce. by destruct (existsb _ _).
  - unfold Store.set_apns_token. by destruct (find _ _) as [[? ?]|].
Qed.
End confined.
