(* ===== verification/CloudApiFacts.v ===== *)
(** * What the interface's answers mean

    A signed request is accepted once; the evidence pack claims nothing the store did not
    observe; a batch of findings is recorded up to the first one it cannot grade; the replay
    shows exactly the run's events. *)

From S2P Require Import Prelude Float Strings McpReport AuditChain.
From S2P Require Import Recency CloudTypes CloudIngest CloudStore CloudInv CloudAccess.
From S2P Require Import CloudAuth CloudApi.
From S2P Require Compliance Json.

(** ** API keys *)

Lemma add_pair_spec m p :
  add_pair m p = match parse_pair p with Some (k, v) => <[k := v]> m | None => m end.
Proof.
  unfold add_pair. destruct (is_empty_str (trim p)) eqn:E; [|done].
  unfold parse_pair. by destruct (trim p).
Qed.

Lemma last_filter_snoc {A} (P : A → Prop) `{∀ x, Decision (P x)} l x :
  last (filter P (l ++ [x])) = if decide (P x) then Some x else last (filter P l).
Proof. rewrite filter_app. cbn. case_decide; [by rewrite last_snoc|by rewrite app_nil_r]. Qed.

Lemma add_pairs_lookup l k :
  foldl add_pair ∅ l !! k = snd <$> last (filter (λ e, e.1 = k) (omap parse_pair l)).
Proof.
  induction l as [|p l IH] using rev_ind; [done|]. rewrite foldl_snoc, omap_app, add_pair_spec.
  destruct (parse_pair p) as [[k' v]|] eqn:Ep; cbn; rewrite Ep.
  - rewrite last_filter_snoc, lookup_insert. cbn. by repeat case_decide.
  - by rewrite app_nil_r.
Qed.

(** The key table fails closed. Every principal comes from a usable entry, the last one of
    its key, and carries the role it names, [admin] only when none is named; with no usable
    entry nobody is known, unless the operator opted in to the development key. *)
Theorem parse_keys_sound spec allow :
  let entries := omap parse_pair (split_char ","%char spec) in
  (entries ≠ [] →
   ∀ k, parse_keys spec allow !! k = snd <$> last (filter (λ e, e.1 = k) entries)) ∧
  (entries = [] → parse_keys spec allow =
     if allow then {["devkey" := mkPrincipal "default" "admin"]} else ∅).
Proof.
  intros entries. unfold parse_keys. pose proof (add_pairs_lookup (split_char ","%char spec)) as Hl.
  split.
  - intros Hne k. rewrite bool_decide_false; [apply Hl|].
    destruct entries as [|[k' v] es] eqn:E using rev_ind; [done|]. intros He.
    specialize (Hl k'). fold entries in Hl. rewrite He, E, last_filter_snoc, lookup_empty in Hl.
    by rewrite decide_True in Hl.
  - intros He. assert (foldl add_pair ∅ (split_char ","%char spec) = ∅) as ->.
    { apply map_empty. intros k. rewrite Hl. fold entries. by rewrite He. }
    by destruct allow.
Qed.

(** ** The evidence pack *)

Lemma sum_nonzero l : Compliance.u64_sum l ≠ 0 → ∃ x, x ∈ l ∧ x ≠ 0.
Proof.
  intros Hs. destruct (decide (Exists (λ x, x ≠ 0) l)) as [He|He].
  - by apply Exists_exists in He.
  - exfalso. apply Hs. apply not_Exists_Forall in He; [|apply _]. unfold Compliance.u64_sum.
    assert (∀ l, Forall (not ∘ (λ x : Z, x ≠ 0)) l → foldl (λ a x, u64_wrap (a + x)) 0 l = 0) as H0; [|by apply H0].
    clear. intros l. induction 1 as [|x l Hx _ IH]; [done|]. cbn in *.
    assert (x = 0) as -> by lia. exact IH.
Qed.

Lemma watched_lookup keys counts k v :
  Compliance.watch keys counts !! k = Some v → k ∈ keys ∧ v = default 0 (counts !! k).
Proof.
  unfold Compliance.watch.
  assert (∀ m : gmap string Z, foldl (λ m k, <[k:=default 0 (counts !! k)]> m) m keys !! k = Some v →
    m !! k = Some v ∨ k ∈ keys ∧ v = default 0 (counts !! k)) as Hg.
  { induction keys as [|x keys IH]; intros m; cbn; [by left|].
    intros [Hm|[? ->]]%IH; [|set_solver]. rewrite lookup_insert in Hm.
    case_decide; simplify_eq; set_solver. }
  intros [Hm|?]%Hg; [|done]. by rewrite lookup_empty in Hm.
Qed.

(** A key of the organization's counts that was seen. *)
Definition observed (m : gmap string Z) (keys : list string) : Prop :=
  ∃ k, k ∈ keys ∧ default 0 (m !! k) ≠ 0.

Lemma watch_seen keys counts :
  (0 <? Compliance.u64_sum (Compliance.values (Compliance.watch keys counts))) = true →
  observed counts keys.
Proof.
  intros Hs. breflect. destruct (sum_nonzero (Compliance.values (Compliance.watch keys counts))) as (x & Hx & H0).
  { lia. }
  unfold Compliance.values in Hx. apply list_elem_of_fmap in Hx as ([k v] & -> & Hk).
  apply btree_list_elem, watched_lookup in Hk as [Hk ->]. by exists k.
Qed.

Lemma control_seen dc ic c :
  Compliance.evidence_seen (Compliance.control_evidence dc ∅ ic c) = true →
  observed dc (Compliance.evidence_decisions c) ∨ observed ic (Compliance.evidence_incident_kinds c).
Proof.
  simpl. rewrite !orb_true_iff. intros [[Hd|Hf]|Hi].
  - left. by apply watch_seen.
  - apply watch_seen in Hf as (k & _ & Hk). by rewrite lookup_empty in Hk.
  - right. breflect. destruct (sum_nonzero ((λ k, default 0 (ic !! k)) <$> Compliance.evidence_incident_kinds c))
      as (x & Hx & H0); [lia|]. apply list_elem_of_fmap in Hx as (k & -> & Hk). by exists k.
Qed.

Lemma by_id_lookup (l : list Compliance.ControlEvidence) k ce :
  foldl (λ m c, <[Compliance.ce_control_id c := c]> m) (∅ : gmap string Compliance.ControlEvidence) l !! k = Some ce →
  ce ∈ l ∧ Compliance.ce_control_id ce = k.
Proof.
  assert (∀ m : gmap string Compliance.ControlEvidence,
    foldl (λ m c, <[Compliance.ce_control_id c := c]> m) m l !! k = Some ce →
    m !! k = Some ce ∨ ce ∈ l ∧ Compliance.ce_control_id ce = k) as Hg.
  { induction l as [|x l IH]; intros m; cbn; [by left|].
    intros [Hm|[? ?]]%IH; [|set_solver]. rewrite lookup_insert in Hm.
    case_decide; simplify_eq; [right; set_solver|by left]. }
  intros [Hm|?]%Hg; [|done]. by rewrite lookup_empty in Hm.
Qed.

(** The entry of the pack that [c] of the catalog is shown as. *)
Definition shows (ec : EvidenceControl) (c : Compliance.ControlMapping) : Prop :=
  ∃ citation, ec_control ec =
    Compliance.control_id c +:+ " (" +:+ Compliance.title c +:+ ") - " +:+ citation.

Definition backed (dc ic : gmap string Z) (entries : nat) (verify : result unit nat)
    (ec : EvidenceControl) : Prop :=
  (∃ c, c ∈ Compliance.CATALOG ∧ shows ec c ∧ Compliance.enforcement c = Compliance.Enforced ∧
     (observed dc (Compliance.evidence_decisions c) ∨
      observed ic (Compliance.evidence_incident_kinds c))) ∨
  (verify = Ok tt ∧ (0 < entries)%nat ∧ ∃ citation, ec_control ec =
     "TF.AUDIT (Tamper-evident audit trail) - " +:+ citation) ∨
  (ec = Api.model_use_controls dc ∧ observed dc Api.watched) ∨
  (ec = Api.ongoing_monitoring ic ∧ ∃ k, default 0 (ic !! k) ≠ 0).

Lemma catalog_ids : NoDup (Compliance.control_id <$> Compliance.CATALOG).
Proof. by apply (bool_decide_unpack _); vm_compute. Qed.

Lemma NoDup_fmap_eq {A B} (f : A → B) l x y : NoDup (f <$> l) → x ∈ l → y ∈ l → f x = f y → x = y.
Proof.
  induction l as [|z l IH]; [set_solver|]. cbn. rewrite NoDup_cons. intros [Hz Hl].
  rewrite !elem_of_cons. intros [->|Hx] [->|Hy] He; try done.
  - destruct Hz. rewrite He. by apply list_elem_of_fmap_2.
  - destruct Hz. rewrite <-He. by apply list_elem_of_fmap_2.
  - by apply IH.
Qed.

Lemma catalog_section_backed framework dc ic entries verify ec :
  ec ∈ Api.catalog_section framework
    (foldl (λ m c, <[Compliance.ce_control_id c := c]> m) ∅
       (Compliance.control_evidence dc ∅ ic <$> Compliance.CATALOG)) →
  ec_status ec = Enforced → backed dc ic entries verify ec.
Proof.
  unfold Api.catalog_section. rewrite list_elem_of_bind. intros (c & Hec & Hc).
  case_bool_decide; [by apply elem_of_nil in Hec|].
  apply list_elem_of_omap in Hec as ([fw cite] & _ & Hec). case_bool_decide; [done|].
  apply bind_Some in Hec as (ce & Hce & [= <-]). cbn. intros Hst.
  apply by_id_lookup in Hce as [Hin Hid]. apply list_elem_of_fmap in Hin as (c' & -> & Hc').
  assert (c' = c) as ->.
  { eapply NoDup_fmap_eq; [apply catalog_ids|done..]. }
  left. exists c. unfold Api.evidence_status in Hst. cbn in Hst.
  destruct (Compliance.enforcement c) eqn:Ee; try done.
  destruct (_ || _) eqn:Es in Hst; [|done].
  split_and!; [done|by exists cite|done|by apply control_seen].
Qed.

Lemma audit_control_backed dc ic entries verify citation :
  let '(s, e) := Api.audit_chain_status entries verify in
  s = Enforced → backed dc ic entries verify (Api.audit_control citation s e).
Proof.
  unfold Api.audit_chain_status. destruct verify as [[]|n]; [|done].
  destruct (0 <? entries)%nat eqn:E; [|done]. intros _. right; left. breflect.
  split_and!; [done|done|by exists citation].
Qed.

Definition rows (pack : EvidencePack) : list EvidenceControl :=
  pk_eu_ai_act pack ++ pk_sr_11_7 pack ++ pk_soc2 pack.

Lemma pack_backed org dc ic entries verify ec :
  let pack := Api.evidence_pack org dc ic entries verify in
  ec ∈ rows pack → ec_status ec = Enforced → backed dc ic entries verify ec.
Proof.
  intros pack Hin Hst. unfold rows, pack, Api.evidence_pack in *.
  pose proof (audit_control_backed dc ic entries verify) as Ha.
  destruct (Api.audit_chain_status entries verify) as [s e]. cbn [pk_eu_ai_act pk_sr_11_7 pk_soc2
    Compliance.controls Compliance.compute_compliance_from_counts] in *.
  rewrite !elem_of_app, !list_elem_of_singleton, !elem_of_cons, elem_of_nil in Hin.
  destruct Hin as [[Hc| ->]|[[->|[->|[->|[]]]]|[Hc| ->]]]; try (by apply Ha);
    try (by eapply catalog_section_backed).
  - right; right; left. split; [done|]. cbn [ec_status Api.model_use_controls] in Hst.
    destruct (existsb _ _) eqn:E; [|done]. apply existsb_Exists, Exists_exists in E as (k & Hk & E).
    exists k. split; [done|]. breflect. unfold Api.count in E. lia.
  - right; right; right. split; [done|]. cbn [ec_status Api.ongoing_monitoring] in Hst.
    destruct (0 <? _) eqn:E; [|done]. breflect.
    destruct (sum_nonzero (Compliance.values ic)) as (x & Hx & H0); [lia|].
    apply list_elem_of_fmap in Hx as ([k v] & -> & Hk). apply btree_list_elem in Hk.
    exists k. by rewrite Hk.
Qed.

Lemma pack_facts org dc ic entries verify :
  let pack := Api.evidence_pack org dc ic entries verify in
  pk_org pack = org ∧ (pk_verified pack = true ↔ verify = Ok tt) ∧ pk_entries pack = Z.of_nat entries.
Proof.
  unfold Api.evidence_pack. destruct (Api.audit_chain_status entries verify) as [s e]. cbn.
  split_and!; [done| |done]. by destruct verify as [[]|].
Qed.

(** ** The replay *)

(** A line that is counted as malformed. *)
Definition bad_line (decode : string → option ReplayEvent) (line : option string) : bool :=
  match line with
  | None => true
  | Some l => negb (is_empty_str (trim l)) && bool_decide (decode l = None)
  end.

(** The event of a line of the run. *)
Definition run_event (decode : string → option ReplayEvent) (run : string) (line : option string)
  : option ReplayEvent :=
  l ← line; if is_empty_str (trim l) then None
            else ev ← decode l; if bool_decide (re_run_id ev = Some run) then Some ev else None.

Lemma replay_line_spec decode run acc l :
  Api.replay_line decode run acc l =
  (acc.1 ++ option_list (run_event decode run l), (acc.2 + (if bad_line decode l then 1 else 0))%nat).
Proof.
  destruct acc as [evs n]. unfold Api.replay_line, run_event, bad_line. destruct l as [l|]; cbn.
  - destruct (is_empty_str (trim l)); cbn; [by rewrite app_nil_r, Nat.add_0_r|].
    destruct (decode l) as [ev|]; cbn.
    + case_bool_decide; cbn; by rewrite ?app_nil_r, Nat.add_0_r.
    + by rewrite app_nil_r, Nat.add_1_r.
  - by rewrite app_nil_r, Nat.add_1_r.
Qed.

Lemma omap_cons_list {A B} (f : A → option B) x l : omap f (x :: l) = option_list (f x) ++ omap f l.
Proof. cbn. by destruct (f x). Qed.

(** The replay of a run is exactly the run's events of the file, each once, in the order of
    their timestamps, and the count of malformed lines is the number of lines that are not
    blank and do not parse. A file that cannot be opened has no events. *)
Theorem replay_exact decode file run :
  let '(events, malformed) := Api.read_run_events decode file run in
  let lines := default [] file in
  events ≡ₚ omap (run_event decode run) lines ∧
  StronglySorted (λ a b, str_leb (re_ts a) (re_ts b) = true) events ∧
  malformed = length (filter (λ l, bad_line decode l = true) lines).
Proof.
  unfold Api.read_run_events. destruct file as [lines|]; [|by split_and!; [done|constructor|]].
  cbn [default].
  assert (∀ acc, foldl (Api.replay_line decode run) acc lines =
    (acc.1 ++ omap (run_event decode run) lines,
     (acc.2 + length (filter (λ l, bad_line decode l = true) lines))%nat)) as Hf.
  { induction lines as [|l lines IH]; intros acc; [cbn; by rewrite app_nil_r, Nat.add_0_r; destruct acc|].
    rewrite filter_cons, omap_cons_list. cbn [foldl]. rewrite IH, replay_line_spec, app_assoc.
    cbn [fst snd]. f_equal. destruct (bad_line decode l); case_decide; cbn; try done; lia. }
  rewrite Hf. cbn. split_and!.
  - apply sort_by_perm.
  - apply (sort_by_sorted (λ a b, str_leb (re_ts a) (re_ts b))).
    + intros a b. apply str_leb_total.
    + intros a b c. apply str_leb_trans.
  - done.
Qed.

(** ** Requests *)

Section requests.
Context `{HashOrder} `{CloudLib} `{CloudWire} (pct : f64) (cfg : IncidentConfig).
Abbreviation run_all := (exec sha256 pct cfg).

(** The reads a handler makes of the caller's organization, after its credential was checked. *)
Lemma with_org_reads st rq k others i j tr r :
  run_all (Api.with_org st rq k) others i = (j, tr, r) →
  r = Api.unauthorized ∨
  ∃ org others' i' tr0 tr', tr = tr0 ++ tr' ∧ run_all (k org) others' i' = (j, tr', r).
Proof.
  unfold Api.with_org, org_for. destruct (bearer _) as [token|]; [|by intros [= _ _ <-]; left].
  destruct (keys st !! token) as [p|]; cbn.
  - intros He. right. by exists (pr_org p), others, i, [], tr.
  - set (i0 := run_ops _ _ _ _ _). unfold Store.device_by_token.
    destruct (devices i0 !! token) as [d|]; cbn.
    + destruct (exec _ _ _ (k _) _ _) as [[j' t'] r'] eqn:E. intros [= <- <- <-]. right.
      by eexists _, _, _, [_], _.
    + destruct (oidc_principal _ _) as [p|]; cbn.
      * destruct (exec _ _ _ (k _) _ _) as [[j' t'] r'] eqn:E. intros [= <- <- <-]. right.
        by eexists _, _, _, [_], _.
      * intros [= _ _ <-]. by left.
Qed.

(** C22: The evidence pack never over-claims.  Whenever the pack of an organization is served, each
    row that says "enforced" rests on what this organization's part of the store held when the
    handler read it, and each kind of row on its own ground: a row of the catalog, on a control the
    catalog enforces and a decision or incident it watches that was counted; the audit trail's row,
    on a chain of at least one entry that verified; the row on model use, on a counted budget stop,
    loop stop or kill; the row on ongoing monitoring, on a counted incident.  The pack says the
    chain verified exactly when it did.  The four reads are separate critical sections, so they may
    find four different states. *)
Theorem evidence_never_overclaims st rq others i j tr r pack :
  run_all (Api.compliance_evidence st rq) others i = (j, tr, r) → response_body r = Evidence pack →
  ∃ i1 i2 i3 i4, ((λ k, (k, None)) <$> [i1; i2; i3; i4]) `suffix_of` tr ∧
    let org := pk_org pack in
    let verified := Store.audit_verify sha256 i4 org in
    (∀ ec, ec ∈ rows pack → ec_status ec = Enforced →
       backed (Store.decision_counts i1 org) (Store.incident_kind_counts i2 org)
         (length (Store.audit i3 org)) verified ec) ∧
    (pk_verified pack = true ↔ verified = Ok tt) ∧
    pk_entries pack = Z.of_nat (length (Store.audit i3 org)).
Proof.
  intros He Hb. apply with_org_reads in He as [->|(org & others' & i' & tr0 & tr' & -> & He)]; [done|].
  cbn in He. injection He as <- <- <-. cbn in Hb. injection Hb as <-.
  eexists _, _, _, _. split; [by exists tr0|].
  match goal with |- context [Api.evidence_pack org ?dc ?ic ?n ?v] =>
    destruct (pack_facts org dc ic n v) as (-> & Hv & Hn) end.
  split_and!; [|done|done]. intros ec. apply pack_backed.
Qed.

(** The freshness test accepts the timestamps within two minutes, and one more: the one
    [2^63] seconds before now, whose distance has no absolute value in an [i64]. *)
Lemma fresh_window now ts :
  0 ≤ now ≤ 4611686018427387904 → in_i64 ts →
  (120 <? i64_abs (i64_wrap (now - ts))) = false ↔
  -120 ≤ now - ts ≤ 120 ∨ ts = now - 9223372036854775808.
Proof.
  intros Hn Hts. unfold i64_abs. rewrite Z.ltb_ge.
  destruct (decide (now - ts ≤ i64_max)) as [Hs|Hb].
  - rewrite (i64_wrap_id (now - ts)) by (unfold in_i64, i64_min, i64_max in *; lia).
    rewrite i64_wrap_id by (unfold in_i64, i64_min, i64_max in *; lia).
    unfold in_i64, i64_min, i64_max in *. lia.
  - unfold in_i64, i64_min, i64_max in *.
    assert (i64_wrap (now - ts) = now - ts - 18446744073709551616) as ->.
    { unfold i64_wrap. rewrite <-(Z.mod_unique_pos _ _ 1 (now - ts + 9223372036854775808 - 18446744073709551616)); lia. }
    destruct (decide (ts = now - 9223372036854775808)) as [->|Hne].
    + replace (now - (now - 9223372036854775808) - 18446744073709551616) with (-9223372036854775808) by lia.
      assert (i64_wrap (Z.abs (-9223372036854775808)) = -9223372036854775808) as -> by reflexivity.
      lia.
    + rewrite i64_wrap_id by (unfold in_i64, i64_min, i64_max; lia). lia.
Qed.

(** The findings of a batch up to the first severity that is none, with their grades. *)
Fixpoint graded (fs : list ExternalFinding) : list (ExternalFinding * Severity) :=
  match fs with
  | [] => []
  | f :: fs => match Api.parse_severity (xf_severity f) with
               | Some s => (f, s) :: graded fs
               | None => []
               end
  end.

(** A batch of external findings is recorded in order, each with one audited write stamped
    with the arrival time, up to the first one whose severity is not one of the five words. The
    answer is 200 with the size of the batch exactly when there is none such; otherwise it is
    400, and the findings before it stay recorded. *)
Theorem findings_recorded_in_order inp m source now fs others i j tr r :
  run_all (Api.record_findings inp m source now 0 fs) others i = (j, tr, r) →
  tr.*2 = imap (λ n '(f, s), Some (Finding (store_millis inp n) (mu_org m) (mu_actor m)
                 (Store.mkFindingInput source (xf_detector f) s (xf_identity f) (xf_summary f) now)))
               (graded fs) ∧
  (r = Api.json 200 (FindingsAccepted (length fs)) ↔ length (graded fs) = length fs) ∧
  (status r = 200 ∨ status r = 400).
Proof.
  assert (∀ n i others j tr r, run_all (Api.record_findings inp m source now n fs) others i = (j, tr, r) →
    tr.*2 = imap (λ k '(f, s), Some (Finding (store_millis inp (n + k)) (mu_org m) (mu_actor m)
       (Store.mkFindingInput source (xf_detector f) s (xf_identity f) (xf_summary f) now))) (graded fs) ∧
    (length (graded fs) ≤ length fs)%nat ∧
    if bool_decide (length (graded fs) = length fs) then r = Api.json 200 (FindingsAccepted (n + length fs))
    else ∃ e, r = Api.error 400 e) as Hg.
  { induction fs as [|f fs IH]; intros n i' o' j' tr' r'; cbn [Api.record_findings graded].
    - intros [= <- <- <-]. split_and!; [done|done|]. cbn. by rewrite Nat.add_0_r.
    - destruct (Api.parse_severity (xf_severity f)) as [s|] eqn:Es.
      + cbn. destruct (exec _ _ _ (Api.record_findings _ _ _ _ _ _) _ _) as [[j2 t2] r2] eqn:E.
        intros [= <- <- <-]. destruct (IH _ _ _ _ _ _ E) as (Ht & Hl & Hr). cbn. rewrite Ht.
        split_and!; [|lia|].
        * rewrite Nat.add_0_r. f_equal. apply imap_ext. intros k [f' s'] _. cbn.
          by rewrite <-Nat.add_succ_comm.
        * rewrite <-Nat.add_succ_comm. revert Hr. by repeat case_bool_decide; try lia.
      + intros [= <- <- <-]. split_and!; [done|cbn; lia|]. rewrite bool_decide_false by done. eauto. }
  intros He. destruct (Hg _ _ _ _ _ _ He) as (Ht & _ & Hr). split; [exact Ht|].
  case_bool_decide as Hl; [subst r|destruct Hr as [e ->]].
  - split; [done|by left].
  - split; [|by right]. split; [by intros [=]|done].
Qed.

Lemma run_two others i :
  run_ops sha256 pct cfg (run_ops sha256 pct cfg i (default [] (head others)))
    (default [] (head (tail others))) = run_ops sha256 pct cfg i (mjoin (take 2 others)).
Proof. destruct others as [|o1 [|o2 os]]; cbn; unfold run_ops; by rewrite ?foldl_app, ?app_nil_r. Qed.

Lemma accepted_spec headers method path body now others i j tr d :
  run_all (verify_device_signature headers method path body now) others i = (j, tr, Ok d) →
  ∃ nonce, header_str headers "x-fuse-nonce" = Some nonce ∧
  let found := run_ops sha256 pct cfg i (mjoin (take 2 others)) in
  (Store.check_and_record_nonce (dv_device_id d) nonce found) = (j, true).
Proof.
  unfold verify_device_signature. destruct (bearer headers) as [token|]; [|done]. cbn.
  unfold Store.device_by_token. destruct (devices _ !! token) as [d'|]; cbn; [|done].
  destruct (signed_by _ _ _ _ _ d') as [nonce|] eqn:Es; cbn; [|done].
  unfold signed_by in Es. apply bind_Some in Es as (hdr & _ & Es). case_bool_decide; [done|].
  apply bind_Some in Es as (ts & _ & (n & Hn & Es)%bind_Some).
  apply bind_Some in Es as (sig & _ & (tsn & _ & Es)%bind_Some).
  destruct (120 <? _); [done|]. destruct (verify_signature _ _ _); [|done]. injection Es as ->.
  rewrite !run_two. set (found := run_ops _ _ _ _ _).
  destruct (Store.check_and_record_nonce (dv_device_id d') nonce found) as [k []] eqn:Ec; cbn;
    [|done].
  intros [= <- <- <-]. by exists nonce.
Qed.

(** C21: A signed request is accepted once. After a device's signed request was authorized, any
    request of that device with the same nonce is refused, for any method, path, body and
    time, as long as the plane is not restarted and fewer than [NONCE_CAP] nonces of the device
    were presented in between, whatever else happens before and during the second one. *)
Theorem signed_request_once headers headers' method path body now method' path' body' now'
    others i j tr d ops others' k tr' r' :
  run_all (verify_device_signature headers method path body now) others i = (j, tr, Ok d) →
  run_all (verify_device_signature headers' method' path' body' now') others'
    (run_ops sha256 pct cfg j ops) = (k, tr', r') →
  header_str headers' "x-fuse-nonce" = header_str headers "x-fuse-nonce" →
  let between := ops ++ mjoin (take 2 others') in
  forallb (λ op, negb (is_restart op)) between = true →
  Z.of_nat (length (filter (λ op, nonce_on (dv_device_id d) op = true) between)) < NONCE_CAP →
  ∀ d', r' = Ok d' → dv_device_id d' ≠ dv_device_id d.
Proof.
  intros E1 E2 Hh between Hno Hlt d' -> Hd.
  destruct (accepted_spec _ _ _ _ _ _ _ _ _ _ E1) as (n & Hn & Hc).
  destruct (accepted_spec _ _ _ _ _ _ _ _ _ _ E2) as (n' & Hn' & Hc').
  rewrite Hh, Hn in Hn'. injection Hn' as <-. rewrite Hd in Hc'.
  pose proof (accepted_recorded (dv_device_id d) n _ ltac:(by rewrite Hc)) as Hr. rewrite Hc in Hr.
  destruct (recorded_run sha256 pct cfg (dv_device_id d) n between 0 j Hr ltac:(lia) Hno ltac:(lia))
    as [m Hm].
  apply (recorded_refused sha256) in Hm. unfold between, run_ops in Hm. rewrite foldl_app in Hm.
  unfold run_ops in Hc'. by rewrite Hc' in Hm.
Qed.
(** ** The replay file is not an organization's own *)

Lemma ingest_claims_run org r now i :
  Store.run_belongs_to_org (ingest_locked pct cfg org [r] now i).1.1 org (r_run_id r) = true.
Proof.
  assert (is_Some (v_runs (CloudIngest.view org (ingest_locked pct cfg org [r] now i).1.1) !! r_run_id r)) as Hv.
  { rewrite ingest_view, decide_True by done. cbn. unfold fold_record.
    destruct (evict_run _ _ _ _) as [runs rec]. destruct (fold_blocked _ _ _). cbn.
    rewrite lookup_insert_eq. by eexists. }
  unfold CloudIngest.view in Hv. cbn in Hv. unfold Store.run_belongs_to_org.
  destruct (orgs _ !! org); [by apply bool_decide_true|]. cbn in Hv. rewrite lookup_empty in Hv.
  by destruct Hv.
Qed.

(** Any member can read any run's events: one record with that run id, pushed by the member,
    makes the run the organization's, and the file is not split by organization. *)
Theorem run_id_claims_replay st rq inp token p path r now i j tr resp :
  bearer (hq_headers rq) = Some token → keys st !! token = Some p →
  replay_events_path st = Some path →
  run_all (Api.replay st rq inp (r_run_id r)) []
    (apply_op sha256 pct cfg i (Ingest (pr_org p) [r] now)) = (j, tr, resp) →
  ∃ body, resp = Api.json 200 (Replay body) ∧
    rr_events body = (Api.read_run_events decode_event (replay_lines inp) (r_run_id r)).1.
Proof.
  intros Hb Hk Hp. unfold Api.replay, Api.with_org, org_for. rewrite Hb, Hk. cbn [task_bind].
  cbn [exec read task_bind head default tail run_ops foldl].
  change (default [] None) with (@nil Op). cbn [foldl].
  cbn [apply_op]. rewrite ingest_claims_run. rewrite Hp. cbn [negb].
  destruct (Api.read_run_events _ _ _) as [evs n]. cbn.
  intros [= <- <- <-]. by eexists.
Qed.
End requests.
