(* ===== verification/CloudContract.v ===== *)
(** * The published contract of the control plane

    The annotations of the handlers in [crates/cloud/src/http.rs], collected in [ApiDoc] and
    served as [/openapi.json]: per operation the statuses it may answer and the schema of each
    body.  Clients are generated from this document, so the theorem is that the server keeps to
    it; where it does not, the list of exceptions is exact. *)

From S2P Require Import Prelude Float Strings Json Serde McpReport AuditChain.
From S2P Require Import Recency CloudTypes CloudIngest CloudStore CloudInv CloudJson CloudAuth CloudApi.
From S2P Require Compliance.

(** ** The document *)

(** Parameters, descriptions and tags left out. *)
Record Operation := mkOperation {
  o_method : string; o_path : string; o_request : option string;
  o_responses : list (Z * option string)
}.
Abbreviation operation := mkOperation.

(* @src cloud/http.rs 567-576 ingest *)
Definition doc_ingest : Operation :=
  operation "POST" "/v1/ingest" (Some "IngestBody")
    [(200, Some "IngestResponse");
     (400, Some "ErrorResponse");
     (401, Some "ErrorResponse")].
(* @src cloud/http.rs 591-598 runs *)
Definition doc_runs : Operation :=
  operation "GET" "/v1/runs" None
    [(200, Some "Vec<RunAgg>");
     (401, Some "ErrorResponse")].
(* @src cloud/http.rs 608-615 agents *)
Definition doc_agents : Operation :=
  operation "GET" "/v1/agents" None
    [(200, Some "Vec<AgentAgg>");
     (401, Some "ErrorResponse")].
(* @src cloud/http.rs 630-637 units *)
Definition doc_units : Operation :=
  operation "GET" "/v1/units" None
    [(200, Some "Vec<UnitAgg>");
     (401, Some "ErrorResponse")].
(* @src cloud/http.rs 647-654 savings *)
Definition doc_savings : Operation :=
  operation "GET" "/v1/savings" None
    [(200, Some "SavingsSummary");
     (401, Some "ErrorResponse")].
(* @src cloud/http.rs 663-670 summary *)
Definition doc_summary : Operation :=
  operation "GET" "/v1/summary" None
    [(200, Some "Summary");
     (401, Some "ErrorResponse")].
(* @src cloud/http.rs 679-687 alerts *)
Definition doc_alerts : Operation :=
  operation "GET" "/v1/alerts" None
    [(200, Some "Vec<Alert>");
     (401, Some "ErrorResponse")].
(* @src cloud/http.rs 714-722 series *)
Definition doc_series : Operation :=
  operation "GET" "/v1/series" None
    [(200, Some "Vec<SeriesBucket>");
     (401, Some "ErrorResponse")].
(* @src cloud/http.rs 783-792 kill *)
Definition doc_kill : Operation :=
  operation "POST" "/v1/runs/{run}/kill" None
    [(200, Some "KillResponse");
     (401, Some "ErrorResponse");
     (403, Some "ErrorResponse")].
(* @src cloud/http.rs 812-819 kills *)
Definition doc_kills : Operation :=
  operation "GET" "/v1/kills" None
    [(200, Some "Vec<String>");
     (401, Some "ErrorResponse")].
(* @src cloud/http.rs 828-839 set_budget *)
Definition doc_set_budget : Operation :=
  operation "POST" "/v1/runs/{run}/budget" (Some "BudgetBody")
    [(200, Some "BudgetResponse");
     (400, Some "ErrorResponse");
     (401, Some "ErrorResponse");
     (403, Some "ErrorResponse")].
(* @src cloud/http.rs 870-877 budgets *)
Definition doc_budgets : Operation :=
  operation "GET" "/v1/budgets" None
    [(200, None);
     (401, Some "ErrorResponse")].
(* @src cloud/http.rs 887-898 set_unit_budget *)
Definition doc_set_unit_budget : Operation :=
  operation "POST" "/v1/units/{id}/budget" (Some "BudgetBody")
    [(200, Some "UnitBudgetResponse");
     (400, Some "ErrorResponse");
     (401, Some "ErrorResponse");
     (403, Some "ErrorResponse")].
(* @src cloud/http.rs 934-941 unit_budgets *)
Definition doc_unit_budgets : Operation :=
  operation "GET" "/v1/unit-budgets" None
    [(200, None);
     (401, Some "ErrorResponse")].
(* @src cloud/http.rs 951-958 incidents *)
Definition doc_incidents : Operation :=
  operation "GET" "/v1/incidents" None
    [(200, Some "Vec<Incident>");
     (401, Some "ErrorResponse")].
(* @src cloud/http.rs 1000-1005 external_findings *)
Definition doc_external_findings : Operation :=
  operation "POST" "/v1/findings" (Some "Vec<ExternalFinding>")
    [(200, Some "ExternalFindingsResponse")].
(* @src cloud/http.rs 1119-1129 ack_incident *)
Definition doc_ack_incident : Operation :=
  operation "POST" "/v1/incidents/{id}/ack" None
    [(200, Some "AckResponse");
     (401, Some "ErrorResponse");
     (403, Some "ErrorResponse");
     (404, Some "ErrorResponse")].
(* @src cloud/http.rs 1159-1166 compliance *)
Definition doc_compliance : Operation :=
  operation "GET" "/v1/compliance" None
    [(200, Some "ComplianceReportSchema");
     (401, Some "ErrorResponse")].
(* @src cloud/http.rs 1241-1248 compliance_evidence *)
Definition doc_compliance_evidence : Operation :=
  operation "GET" "/v1/compliance/evidence" None
    [(200, Some "EvidencePackResponse");
     (401, Some "ErrorResponse")].
(* @src cloud/http.rs 1482-1489 audit *)
Definition doc_audit : Operation :=
  operation "GET" "/v1/audit" None
    [(200, Some "Vec<AuditEntrySchema>");
     (401, Some "ErrorResponse")].
(* @src cloud/http.rs 1499-1506 audit_verify *)
Definition doc_audit_verify : Operation :=
  operation "GET" "/v1/audit/verify" None
    [(200, Some "AuditVerifyResponse");
     (401, Some "ErrorResponse")].
(* @src cloud/http.rs 1530-1538 audit_manifest *)
Definition doc_audit_manifest : Operation :=
  operation "GET" "/v1/audit/manifest" None
    [(200, Some "AuditManifest");
     (401, Some "ErrorResponse");
     (404, Some "ErrorResponse")].
(* @src cloud/http.rs 1561-1570 replay *)
Definition doc_replay : Operation :=
  operation "GET" "/v1/replay/{run}" None
    [(200, Some "ReplayResponse");
     (401, Some "ErrorResponse");
     (404, Some "ErrorResponse")].
(* @src cloud/http.rs 1646-1655 pair_new *)
Definition doc_pair_new : Operation :=
  operation "POST" "/v1/pair/new" (Some "PairNewBody")
    [(200, Some "PairNewResponse");
     (401, Some "ErrorResponse");
     (403, Some "ErrorResponse")].
(* @src cloud/http.rs 1678-1686 pair *)
Definition doc_pair : Operation :=
  operation "POST" "/v1/pair" (Some "PairRequest")
    [(200, Some "PairResponse");
     (400, Some "ErrorResponse")].
(* @src cloud/http.rs 1725-1735 register_apns *)
Definition doc_register_apns : Operation :=
  operation "POST" "/v1/devices/{id}/apns" (Some "ApnsBody")
    [(200, Some "OkResponse");
     (403, Some "ErrorResponse");
     (404, Some "ErrorResponse")].
(* @src cloud/http.rs 1762-1771 register_activity *)
Definition doc_register_activity : Operation :=
  operation "POST" "/v1/devices/{id}/activity" (Some "ActivityBody")
    [(200, Some "OkResponse");
     (403, Some "ErrorResponse")].

(* @src cloud/http.rs 48-104 ApiDoc *)
Definition openapi_spec : list Operation :=
  [doc_ingest; doc_runs; doc_agents; doc_units;
   doc_savings; doc_summary; doc_alerts; doc_series;
   doc_kill; doc_kills; doc_set_budget; doc_budgets;
   doc_set_unit_budget; doc_unit_budgets; doc_incidents; doc_ack_incident;
   doc_compliance; doc_compliance_evidence; doc_audit; doc_audit_verify;
   doc_audit_manifest; doc_replay; doc_pair_new; doc_pair;
   doc_register_apns; doc_register_activity].

(** The schema a body is serialized by. *)
Definition schema_of (b : Body) : option string :=
  match b with
  | Error _ => Some "ErrorResponse"
  | Ok_ => Some "OkResponse"
  | Accepted _ => Some "IngestResponse"
  | FindingsAccepted _ => Some "ExternalFindingsResponse"
  | Runs _ => Some "Vec<RunAgg>" | Agents _ => Some "Vec<AgentAgg>" | Units _ => Some "Vec<UnitAgg>"
  | Savings _ => Some "SavingsSummary" | Totals _ => Some "Summary" | Alerts _ => Some "Vec<Alert>"
  | Series _ => Some "Vec<SeriesBucket>"
  | Killed _ => Some "KillResponse" | Kills _ => Some "Vec<String>"
  | BudgetSet _ _ => Some "BudgetResponse" | UnitBudgetSet _ _ => Some "UnitBudgetResponse"
  | Incidents _ => Some "Vec<Incident>" | Acknowledged _ => Some "AckResponse"
  | ComplianceReport _ => Some "ComplianceReportSchema"
  | Evidence _ => Some "EvidencePackResponse"
  | AuditLog _ => Some "Vec<AuditEntrySchema>"
  | AuditVerified _ _ => Some "AuditVerifyResponse"
  | Manifest _ => Some "AuditManifest" | Replay _ => Some "ReplayResponse"
  | PairNew _ _ => Some "PairNewResponse" | Paired _ _ _ _ => Some "PairResponse"
  | Empty | Text _ | Rejected | Dashboard | OpenApi | EventStream | Budgets _ => None
  end.

Definition documented (op : Operation) (r : Response) : bool :=
  existsb (λ p, bool_decide (p.1 = status r) &&
                match p.2 with None => true | s => bool_decide (schema_of (response_body r) = s) end)
    (o_responses op).

(** What the server answers and the document does not say: the refusals of axum, which are plain
    texts (of a query string, of a path segment that is not UTF-8, of a body over the limit), and
    the errors of the pairing and device routes. *)
Definition undocumented : list (string * list (Z * option string)) :=
  let refuses status := (status, None) in
  let errs status := (status, Some "ErrorResponse") in
  [("/v1/ingest", [refuses 413]); ("/v1/alerts", [refuses 400]); ("/v1/series", [refuses 400]);
   ("/v1/runs/{run}/kill", [refuses 400]); ("/v1/runs/{run}/budget", [refuses 400; refuses 413]);
   ("/v1/units/{id}/budget", [refuses 400; refuses 413]); ("/v1/incidents/{id}/ack", [refuses 400]);
   ("/v1/replay/{run}", [refuses 400]); ("/v1/pair/new", [errs 400; refuses 413]);
   ("/v1/pair", [refuses 413]);
   ("/v1/devices/{id}/apns", [refuses 400; errs 400; errs 401; refuses 413]);
   ("/v1/devices/{id}/activity", [refuses 400; errs 400; errs 401; refuses 413])].

(** The routes that are not in the document. *)
Definition unlisted : list string :=
  ["/"; "/healthz"; "/openapi.json"; "/v1/stream"; "/v1/findings"].

Definition operation_of (path method : string) : option Operation :=
  find (λ op, bool_decide (o_path op = path) && bool_decide (o_method op = method)) openapi_spec.

(** An answer of a route, as the document has it. *)
Definition contracted (path method : string) (r : Response) : bool :=
  match operation_of path method with
  | Some op =>
      documented op r ||
      existsb (λ p, bool_decide (p.1 = path) &&
                    bool_decide ((status r, schema_of (response_body r)) ∈ p.2)) undocumented
  | None => bool_decide (path ∈ unlisted)
  end.

(** ** The mirrors

    Three of the schemas are written by hand next to the core type that is really serialized:
    the members each promises, in order. *)

Inductive Ty := TInt (lo hi : Z) | TString | TBool | TVec (t : Ty) | TMap (t : Ty)
| TStruct (members : list (string * Ty)).

Fixpoint has_type (t : Ty) (v : Value) : bool :=
  match t, v with
  | TInt lo hi, Number (PosInt z) | TInt lo hi, Number (NegInt z) => (lo <=? z) && (z <=? hi)
  | TString, Str _ => true
  | TBool, Bool _ => true
  | TVec t, Arr l => forallb (has_type t) l
  | TMap t, Obj m => forallb (λ p, has_type t p.2) m
  | TStruct fs, Obj m =>
      (fix go fs m := match fs, m with
                      | [], [] => true
                      | (k, t) :: fs, (k', v) :: m => bool_decide (k = k') && has_type t v && go fs m
                      | _, _ => false
                      end) fs m
  | _, _ => false
  end.
Abbreviation TU64 := (TInt 0 u64_max).
Abbreviation TI64 := (TInt i64_min i64_max).

(* @src cloud/http.rs AuditEntrySchema *)
Definition AuditEntrySchema : Ty :=
  TStruct [("seq", TU64); ("ts_millis", TI64); ("actor", TString); ("action", TString);
           ("subject", TString); ("detail", TString); ("prev_hash", TString);
           ("entry_hash", TString)].

(* @src cloud/http.rs ControlEvidenceSchema *)
Definition ControlEvidenceSchema : Ty :=
  TStruct [("control_id", TString); ("title", TString); ("enforcement", TString);
           ("decision_counts", TMap TU64); ("finding_counts", TMap TU64);
           ("incident_count", TU64); ("covered", TBool); ("evidence_seen", TBool)].

(* @src cloud/http.rs ComplianceReportSchema *)
Definition ComplianceReportSchema : Ty :=
  TStruct [("generated_note", TString); ("framework_versions", TVec (TVec TString));
           ("controls", TVec ControlEvidenceSchema); ("decisions_total", TU64);
           ("findings_total", TU64)].

(** A [BTreeMap] of counts: by key. *)
Definition counts_value (m : gmap string Z) : Value :=
  Obj ((λ p, (p.1, int_value p.2)) <$> btree_list m).

(* @src core/compliance.rs Enforcement *)
Definition enforcement_value (e : Compliance.Enforcement) : Value :=
  Str (match e with
       | Compliance.Enforced => "enforced" | Compliance.Partial => "partial"
       | Compliance.Documented => "documented"
       end).

(* @src core/compliance.rs ControlEvidence *)
Definition control_evidence_value (c : Compliance.ControlEvidence) : Value :=
  Obj [("control_id", Str (Compliance.ce_control_id c)); ("title", Str (Compliance.ce_title c));
       ("enforcement", enforcement_value (Compliance.ce_enforcement c));
       ("decision_counts", counts_value (Compliance.decision_counts c));
       ("finding_counts", counts_value (Compliance.finding_counts c));
       ("incident_count", int_value (Compliance.incident_count c));
       ("covered", Bool (Compliance.covered c));
       ("evidence_seen", Bool (Compliance.evidence_seen c))].

(* @src core/compliance.rs ComplianceReport *)
Definition report_value (r : Compliance.ComplianceReport) : Value :=
  Obj [("generated_note", Str (Compliance.generated_note r));
       ("framework_versions",
        Arr ((λ p, Arr [Str p.1.1; Str p.1.2; Str p.2]) <$> Compliance.framework_versions r));
       ("controls", Arr (control_evidence_value <$> Compliance.controls r));
       ("decisions_total", int_value (Compliance.decisions_total r));
       ("findings_total", int_value (Compliance.findings_total r))].

Lemma int_typed lo hi z : lo ≤ z ≤ hi → has_type (TInt lo hi) (int_value z) = true.
Proof. intros Hz. unfold int_value. destruct (z <? 0); cbn; rewrite !Zle_imp_le_bool by lia; done. Qed.

Lemma struct_typed k t v fs m :
  has_type t v = true → has_type (TStruct fs) (Obj m) = true →
  has_type (TStruct ((k, t) :: fs)) (Obj ((k, v) :: m)) = true.
Proof. intros Hv Hm. cbn [has_type]. by rewrite bool_decide_true, Hv by done. Qed.

Lemma vec_typed t l : Forall (λ v, has_type t v = true) l → has_type (TVec t) (Arr l) = true.
Proof. intros Hl. apply forallb_forall. intros v Hv%list_elem_of_In. by apply (proj1 (Forall_forall _ _) Hl). Qed.

Lemma entry_mirrored e : domain c_entry e → has_type AuditEntrySchema (to_value c_entry e) = true.
Proof. intros [H1 H2]. by repeat apply struct_typed; try apply int_typed. Qed.

Lemma counts_typed m : map_Forall (λ _ : string, in_u64) m → has_type (TMap TU64) (counts_value m) = true.
Proof.
  intros Hm. cbn. apply forallb_forall. intros p Hp%list_elem_of_In.
  apply list_elem_of_fmap in Hp as ([k z] & -> & Hk%btree_list_elem). by apply int_typed, (Hm k).
Qed.

Lemma u64_sum_typed l : in_u64 (Compliance.u64_sum l).
Proof.
  unfold Compliance.u64_sum. destruct l as [|x l _] using rev_ind; [cbn; mach|].
  rewrite foldl_app. apply u64_wrap_range.
Qed.

Lemma evidence_mirrored dc fc ic c :
  map_Forall (λ _, in_u64) dc → map_Forall (λ _, in_u64) fc →
  has_type ControlEvidenceSchema (control_evidence_value (Compliance.control_evidence dc fc ic c)) = true.
Proof.
  intros Hd Hf.
  assert (∀ keys m, map_Forall (λ _, in_u64) m → map_Forall (λ _, in_u64) (Compliance.watch keys m)) as Hw.
  { intros keys m Hm k z. rewrite Compliance.watch_lookup. case_decide; [|done]. intros [= <-].
    destruct (m !! k) eqn:E; [exact (Hm _ _ E)|cbn; mach]. }
  repeat apply struct_typed; try done;
    first [apply counts_typed, Hw; assumption | apply int_typed, u64_sum_typed].
Qed.

Lemma report_mirrored catalog dc fc ic :
  map_Forall (λ _, in_u64) dc → map_Forall (λ _, in_u64) fc →
  has_type ComplianceReportSchema
    (report_value (Compliance.compute_compliance_from_counts catalog dc fc ic)) = true.
Proof.
  intros Hd Hf. repeat apply struct_typed; try done.
  - apply vec_typed, Forall_fmap, Forall_fmap, Forall_forall. intros c _. by apply evidence_mirrored.
  - apply int_typed, u64_sum_typed.
  - apply int_typed, u64_sum_typed.
Qed.

(** ** What a task answers *)

(** [P] of the answer, whatever states the task finds. *)
Fixpoint answers {A} (P : A → Prop) (p : Task A) : Prop :=
  match p with
  | Ret a => P a
  | Read f k => ∀ i, answers P (k (f i))
  | Write op out k => ∀ i, answers P (k (out i))
  end.

Lemma answers_bind {A B} (P : B → Prop) (p : Task A) (f : A → Task B) :
  answers (λ a, answers P (f a)) p → answers P (task_bind p f).
Proof. induction p; cbn; auto. Qed.

Lemma answers_mono {A} (P Q : A → Prop) (p : Task A) :
  (∀ a, P a → Q a) → answers P p → answers Q p.
Proof. intros HPQ. induction p; cbn; auto. Qed.

Lemma answers_exec `{HashOrder} sha pct cfg {A} (P : A → Prop) (p : Task A) others i :
  answers P p → P (exec sha pct cfg p others i).2.
Proof.
  revert others i. induction p as [a|B f k IH|B op out k IH]; intros others i Hp; cbn [exec].
  - done.
  - specialize (IH _ (tail others) (run_ops sha pct cfg i (default [] (head others)))
                  (Hp (run_ops sha pct cfg i (default [] (head others))))).
    by destruct (exec sha pct cfg (k _) _ _) as [[? ?] ?].
  - specialize (IH _ (tail others)
                  (apply_op sha pct cfg (run_ops sha pct cfg i (default [] (head others))) op)
                  (Hp (run_ops sha pct cfg i (default [] (head others))))).
    by destruct (exec sha pct cfg (k _) _ _) as [[? ?] ?].
Qed.

Section contract.
Context `{HashOrder} `{CloudLib} `{CloudWire} (st : AppState) (rq : HttpRequest) (inp : Inputs).
Implicit Types P : Response → Prop.

Lemma trivially {A} (p : Task A) : answers (λ _, True) p.
Proof. induction p; cbn; auto. Qed.

(** The guards of the handlers. *)
Lemma with_org_answers P k :
  P Api.unauthorized → (∀ org, answers P (k org)) → answers P (Api.with_org st rq k).
Proof.
  intros Hu Hk. apply answers_bind. eapply answers_mono; [|apply trivially]. by intros [org|] _.
Qed.

Lemma view_answers {B} P (f : Inner → string → B) c :
  P Api.unauthorized → (∀ b, P (Api.json 200 (c b))) → answers P (Api.view st rq f c).
Proof. intros Hu Hb. apply with_org_answers; [done|]. intros org i. apply Hb. Qed.

Lemma with_mutator_answers P body k :
  P Api.unauthorized → P Api.forbidden → P (Api.error 403 "signature_invalid") →
  (∀ m, answers P (k m)) → answers P (Api.with_mutator st rq inp body k).
Proof.
  intros ? ? ? Hk. apply answers_bind. eapply answers_mono; [|apply trivially]. by intros [m|[]] _.
Qed.

Lemma with_device_answers P id k :
  P Api.unauthorized → P Api.forbidden → P (Api.error 403 "signature_invalid") →
  (∀ d, answers P (k d)) → answers P (Api.with_device rq inp id k).
Proof.
  intros ? ? ? Hk. apply answers_bind. eapply answers_mono; [|apply trivially].
  intros [d|[]] _; [|done..]. by case_bool_decide.
Qed.
End contract.

Section routes.
Context `{HashOrder} `{CloudLib} `{CloudWire} (st : AppState) (rq : HttpRequest) (inp : Inputs).

Lemma findings_answer m source now n fs :
  answers (λ r, contracted "/v1/findings" "POST" r = true) (Api.record_findings inp m source now n fs).
Proof.
  revert n. induction fs as [|f fs IH]; intros n; [done|]. cbn. destruct (Api.parse_severity _); [|done].
  cbn. intros _. apply IH.
Qed.

(** Goes through a handler branch by branch; an answer is looked up in the document. *)
Ltac answering :=
  cbn [answers task_bind];
  unfold Api.with_path, Api.with_body;
  first
  [ apply findings_answer
  | apply view_answers; [answering|intros ?; answering]
  | apply with_org_answers; [answering|intros ?; answering]
  | apply with_mutator_answers; [answering..|intros ?; answering]
  | apply with_device_answers; [answering..|intros ?; answering]
  | match goal with |- contracted _ _ (Api.auth_response ?e) = true => by destruct e end
  | match goal with |- contracted _ _ _ = true => case_match; answering end
  | match goal with |- contracted _ _ _ = true => reflexivity end
  | match goal with |- answers _ ?p => case_match; answering end
  | intros ?; answering ].

(** Every handler on every branch. *)
Lemma app_contracted :
  Forall (λ route, ∀ param,
            answers (λ r, contracted route.1 route.2.1 r = true) (route.2.2 param))
         (Api.app st rq inp).
Proof.
  unfold Api.app.
  repeat (apply Forall_cons_2; [intros param; cbn [fst snd Api.get Api.post]|]); [..|constructor].
  all: unfold Api.dashboard, Api.healthz, Api.openapi_doc, Api.ingest, Api.runs, Api.agents, Api.units, Api.savings, Api.summary,
    Api.alerts, Api.series, Api.stream, Api.kill, Api.kills, Api.set_budget, Api.budgets,
    Api.set_unit_budget, Api.unit_budgets, Api.incidents, Api.ack_incident, Api.external_findings,
    Api.compliance, Api.compliance_evidence, Api.audit, Api.audit_verify, Api.audit_manifest,
    Api.replay, Api.pair_new, Api.pair, Api.register_apns, Api.register_activity.
  all: answering.
Qed.

Lemma found_route routes method h :
  Api.find_route rq routes = Some (method, h) →
  ∃ route param, route ∈ routes ∧ Api.match_route route.1 (hq_path rq) = Some param ∧
    route.2.1 = method ∧ h = route.2.2 param.
Proof.
  induction routes as [|[path [m f]] routes IH]; [done|]. cbn.
  destruct (Api.match_route _ _) as [param|] eqn:Em.
  - intros [= <- <-]. exists (path, (m, f)), param. set_solver.
  - intros (route & param & Hr & ?)%IH. exists route, param. set_solver.
Qed.

(** The answer the document promises to this request. *)
Definition as_published (r : Response) : Prop :=
  (hq_method rq = "OPTIONS" ∧ status r = 204) ∨
  (Api.find_route rq (Api.app st rq inp) = None ∧ status r = 404) ∨
  ∃ route param, route ∈ Api.app st rq inp ∧
    Api.match_route route.1 (hq_path rq) = Some param ∧
    if Api.accepts route.2.1 (hq_method rq) then contracted route.1 route.2.1 r = true
    else status r = 405.

(** C23: The server keeps to the contract it publishes.  Whatever the request, the state of the
    store and everything that happens around the request, the answer is that of the matched
    route's operation: a status the document lists for it, with a body of the schema it gives
    there.  The exceptions are the ones [undocumented] and [unlisted] name, each with its status
    and the form of its body: axum's own refusals of a query, a path segment or a body over two
    megabytes (plain texts, 400 and 413), the errors 400 of the pairing route and 400 and 401 of
    the device routes, and five routes that are not in the document.  A request without a route is
    a 404, one with another method a 405, and OPTIONS is answered 204. *)
Theorem server_keeps_contract sha pct cfg others i :
  as_published (exec sha pct cfg (Api.cors st rq inp) others i).2.
Proof.
  apply answers_exec. unfold Api.cors, as_published.
  case_bool_decide as Hm; [by left|]. apply answers_bind. unfold Api.routed.
  destruct (Api.find_route _ _) as [[method h]|] eqn:Ef; [|cbn; auto].
  apply found_route in Ef as (route & param & Hr & Hp & <- & ->).
  destruct (Api.accepts _ _) eqn:Ea.
  - eapply answers_mono; [|apply (proj1 (Forall_forall _ _) app_contracted route Hr param)].
    intros a Ha. cbn. right. right. exists route, param. by rewrite Ea.
  - cbn. right. right. exists route, param. by rewrite Ea.
Qed.

(** Every operation of the document is served. *)
Lemma documented_routes op :
  op ∈ openapi_spec → (o_path op, o_method op) ∈ (λ route, (route.1, route.2.1)) <$> Api.app st rq inp.
Proof.
  intros Hop. assert (Forall (λ op, (o_path op, o_method op) ∈
    (λ route, (route.1, route.2.1)) <$> Api.app st rq inp) openapi_spec) as Hall.
  { repeat constructor; cbn; set_solver. }
  exact (proj1 (Forall_forall _ _) Hall op Hop).
Qed.
End routes.
