(* ===== verification/CloudPush.v ===== *)
(** * Push alerts and persistence of the control plane

    The pipeline of [crates/cloud/src/push.rs] from broadcast events to alerts, the payloads
    of [apns.rs], and the autosave loop and settings of [main.rs].  Delivery is the list of
    what is sent; the clocks are inputs. *)

From S2P Require Import Prelude Float Strings.
From S2P Require Import Recency CloudTypes CloudIngest CloudStore CloudInv CloudAccess CloudAuth.
From S2P Require Json Text.

(* @src push.rs Push *)
Record Push := mkPush {
  ps_token : string; ps_title : string; ps_body : string; ps_run_id : string;
  ps_reason : string; ps_incident_id : option string; ps_kind : option string
}.

(* @src push.rs ActivityUpdate *)
Record ActivityUpdate := mkUpdate {
  up_token : string; up_run_id : string; up_spent : Z; up_budget : option Z; up_ended : bool
}.

Inductive Sent := SentPush (p : Push) | SentActivity (u : ActivityUpdate).

(* @src push.rs DEDUP_SECS *)
Definition DEDUP_SECS : Z := 600.

Abbreviation Dedup := (gmap (string * string * string) Z).

(* @src push.rs PushPipeline::should_send *)
Definition should_send (org run reason : string) (now : Z) (dedup : Dedup) : Dedup * bool :=
  let key := (org, run, reason) in
  match dedup !! key with
  | Some last =>
      if i64_wrap (now - last) <? DEDUP_SECS then (dedup, false) else (<[key := now]> dedup, true)
  | None => (<[key := now]> dedup, true)
  end.

Section pipeline.
Context `{HashOrder} (alert_pct : f64) (now_unix now_millis : Z).
Open Scope task_scope.

(** One push to each device that registered a token. *)
Definition to_devices (p : string → Push) (devices : list Device) : list Sent :=
  omap (λ d, SentPush ∘ p <$> dv_apns_token d) devices.

(* @src push.rs PushPipeline::alert *)
Definition alert (org run reason title body : string) (dedup : Dedup) : Task (Dedup * list Sent) :=
  let '(dedup, ok) := should_send org run reason now_unix dedup in
  if negb ok then Ret (dedup, [])
  else
    ds ←! read (λ i, Store.devices_for_org i org);
    Ret (dedup, to_devices (λ token, mkPush token title body run reason None None) ds).

(* @src push.rs PushPipeline::incident_alert *)
Definition incident_alert (inc : Incident) : Task (list Sent) :=
  let window_ms := DEDUP_SECS * 1000 in
  fresh ←! write (Notified (in_org inc) (in_id inc) now_millis window_ms)
             (λ i, (Store.mark_incident_notified (in_org inc) (in_id inc) now_millis window_ms i).2);
  if negb fresh then Ret []
  else
    let run := default "" (in_run_id inc) in
    let label := default (in_id inc) (in_run_id inc) in
    let body := "Agent/run " +:+ label +:+ " running hot — " +:+ in_kind inc
                +:+ ". Tap to review and kill." in
    ds ←! read (λ i, Store.devices_for_org i (in_org inc));
    Ret (to_devices (λ token, mkPush token "Agent running hot" body run "incident"
                                (Some (in_id inc)) (Some (in_kind inc))) ds).

(** The share of the budget, when there is a positive one. *)
(* @src push.rs 135-137 PushPipeline::handle *)
Definition over_budget (spent : Z) (budget : option Z) : option Z :=
  b ← budget;
  if (0 <? b) && f64_geb (f64_div (f64_of_Z spent) (f64_of_Z b)) alert_pct
  then Some (f64_to_i64 (f64_mul (f64_div (f64_of_Z spent) (f64_of_Z b)) (f64_of_Z 100)))
  else None.

(* @src push.rs PushPipeline::handle *)
Definition handle (event : StreamEvent) (dedup : Dedup) : Task (Dedup * list Sent) :=
  match event with
  | KillEvent org run =>
      r ←! alert org run "kill" "Run killed" ("Agent run " +:+ run +:+ " was killed") dedup;
      tokens ←! read (λ i, Store.activities_for_run i org run);
      Ret (r.1, r.2 ++ ((λ token, SentActivity (mkUpdate token run 0 None true)) <$> tokens))
  | RunUpdate org run =>
      budget ←! read (λ i, Store.budgets i org !! ra_run_id run);
      r ←! match over_budget (ra_spent run) budget with
           | Some pct =>
               alert org (ra_run_id run) "budget" "Budget alert"
                 ("Run " +:+ ra_run_id run +:+ " at " +:+ pretty pct +:+ "% of budget") dedup
           | None => Ret (dedup, [])
           end;
      tokens ←! read (λ i, Store.activities_for_run i org (ra_run_id run));
      Ret (r.1, r.2 ++ ((λ token, SentActivity
             (mkUpdate token (ra_run_id run) (ra_spent run) budget false)) <$> tokens))
  | BudgetEvent _ _ _ => Ret (dedup, [])
  | IncidentEvent inc => s ←! incident_alert inc; Ret (dedup, s)
  end.
End pipeline.

(** What the broadcast channel hands its receiver: an event, that it lagged and lost some, or
    that the channel closed. *)
Inductive Received := Event_ (e : StreamEvent) (now_unix now_millis : Z) | Lagged | Closed.

Section spawn.
Context `{HashOrder} (alert_pct : f64).
Open Scope task_scope.

(** [while let Ok(event) = rx.recv().await { self.handle(event); }]: what is sent for each event,
    until the first receive that fails. *)
(* @src push.rs PushPipeline::spawn *)
Fixpoint spawn (rx : list Received) (dedup : Dedup) : Task (list (list Sent)) :=
  match rx with
  | Event_ e unix ms :: rx =>
      r ←! handle alert_pct unix ms e dedup;
      s ←! spawn rx r.1;
      Ret (r.2 :: s)
  | _ => Ret []
  end.
End spawn.

(** ** Delivery by the push service *)

Section apns.
(** The printer of JSON, base64url, the signature of the provider key. *)
Context (to_string : Json.Value → string) (b64url : string → string) (sign : string → string).

Definition opt_str (o : option string) : Json.Value :=
  match o with Some s => Json.Str s | None => Json.Null end.
Definition json_int (z : Z) : Json.Value :=
  Json.Number (if 0 <=? z then Json.PosInt z else Json.NegInt z).

(** The cached token with its time of issue, and the token to use now. *)
(* @src apns.rs ApnsInner::provider_jwt *)
Definition provider_jwt (key_id team_id : string) (now : Z) (cache : option (string * Z))
  : option (string * Z) * string :=
  let mint :=
    let header := b64url (to_string (Json.Obj [("alg", Json.Str "ES256"); ("kid", Json.Str key_id)])) in
    let claims := b64url (to_string (Json.Obj [("iat", json_int now); ("iss", Json.Str team_id)])) in
    let signing_input := header +:+ "." +:+ claims in
    let jwt := signing_input +:+ "." +:+ b64url (sign signing_input) in
    (Some (jwt, now), jwt) in
  match cache with
  | Some (jwt, iat) => if i64_wrap (now - iat) <? 2400 then (cache, jwt) else mint
  | None => mint
  end.

(* @src apns.rs 113-121 ApnsSender::send *)
Definition push_payload (p : Push) : Json.Value :=
  Json.Obj
    [("aps", Json.Obj [("alert", Json.Obj [("body", Json.Str (ps_body p));
                                           ("title", Json.Str (ps_title p))]);
                       ("sound", Json.Str "default")]);
     ("incident_id", opt_str (ps_incident_id p)); ("kind", opt_str (ps_kind p));
     ("reason", Json.Str (ps_reason p)); ("run_id", Json.Str (ps_run_id p))].

(* @src apns.rs 131-141 ApnsSender::update_activity *)
Definition activity_payload (u : ActivityUpdate) (now : Z) : Json.Value :=
  Json.Obj
    [("aps", Json.Obj
       [("content-state", Json.Obj
          [("budget_micros", match up_budget u with Some b => json_int b | None => Json.Null end);
           ("spent_microusd", json_int (up_spent u))]);
        ("event", Json.Str (if up_ended u then "end" else "update"));
        ("timestamp", json_int now)])].
End apns.

(** ** The server process *)

(* @src cloud/main.rs env_flag *)
Definition env_flag (v : option string) : bool :=
  match v with
  | Some v => eq_ignore_ascii_case v "1" || eq_ignore_ascii_case v "true"
  | None => false
  end.

(* @src cloud/main.rs env_u64 *)
Definition env_u64 (v : option string) (dflt : Z) : Z :=
  match (n ← v ≫= parse_unsigned u64_max; if 0 <? n then Some n else None) with
  | Some n => n
  | None => dflt
  end.

(* @src cloud/main.rs 67-71 main *)
Definition alert_pct_of (v : option string) : f64 :=
  match v ≫= Text.parse_f64 with
  | Some p => if f64_ltb (f64_of_Z 0) p && f64_leb p (f64_of_Z 1) then p else f64_lit 8 10
  | None => f64_lit 8 10
  end.

(* @src cloud/main.rs 75-93 main *)
Definition incident_cfg_of (blocks repeats usd_per_min fanout : option string) : IncidentConfig :=
  let d := default_incident_config in
  mkIncidentConfig (env_u64 blocks (budget_blocks d)) (env_u64 repeats (loop_repeats d))
    (loop_window_ms d)
    (match usd_per_min ≫= Text.parse_f64 with
     | Some usd => if f64_ltb (f64_of_Z 0) usd then f64_to_i64 (f64_mul usd (f64_of_Z 1000000))
                   else spend_per_min_micros d
     | None => spend_per_min_micros d
     end)
    (env_u64 fanout (fanout_runs d)) (fanout_window_ms d).

(** ** Alerts are not repeated *)

Section dedup.
Context `{HashOrder} (sha256 : string → string) (pct alert_pct : f64) (cfg : IncidentConfig).
Abbreviation run_all := (exec sha256 pct cfg).

(** The alert of a run, as the table of recent alerts keys it. *)
Definition alert_key (org : string) (p : Push) : string * string * string :=
  (org, ps_run_id p, ps_reason p).

(** What an event at time [now] does to the table of recent alerts. *)
Definition dedup_step (org : string) (now : Z) (d d' : Dedup) (sent : list Sent) : Prop :=
  (∀ p, SentPush p ∈ sent → ps_reason p ≠ "incident" →
     d' !! alert_key org p = Some now ∧
     ∀ last, d !! alert_key org p = Some last → DEDUP_SECS ≤ i64_wrap (now - last)) ∧
  (∀ k t, d !! k = Some t → d' !! k = Some t ∨
     d' !! k = Some now ∧ DEDUP_SECS ≤ i64_wrap (now - t)) ∧
  (∀ k t, d' !! k = Some t → d !! k = Some t ∨ t = now).

Lemma dedup_idle org now d sent : (∀ p, SentPush p ∈ sent → ps_reason p = "incident") →
  dedup_step org now d d sent.
Proof. intros Hs. split; [|split; by left]. intros p Hp Hr. by destruct Hr; apply Hs. Qed.

Lemma dedup_activities org now d d' sent {A} (f : A → ActivityUpdate) l :
  dedup_step org now d d' sent → dedup_step org now d d' (sent ++ (SentActivity ∘ f <$> l)).
Proof.
  intros [Hs Hk]. split; [|done]. intros p Hp. apply Hs. apply elem_of_app in Hp as [?|Hp]; [done|].
  by apply list_elem_of_fmap in Hp as (? & ? & _).
Qed.

Lemma to_devices_elem f ds s : s ∈ to_devices f ds → ∃ t, s = SentPush (f t).
Proof.
  intros (d & Hd & Hs)%list_elem_of_omap. destruct (dv_apns_token d) as [t|]; simplify_eq/=. eauto.
Qed.

Lemma should_send_spec org run reason now d :
  let '(d', ok) := should_send org run reason now d in
  if ok then (d' !! (org, run, reason) = Some now ∧
              ∀ last, d !! (org, run, reason) = Some last → DEDUP_SECS ≤ i64_wrap (now - last)) ∧
             (∀ k t, d !! k = Some t → d' !! k = Some t ∨
                d' !! k = Some now ∧ DEDUP_SECS ≤ i64_wrap (now - t)) ∧
             (∀ k t, d' !! k = Some t → d !! k = Some t ∨ t = now)
  else d' = d.
Proof.
  assert (∀ k t, <[(org, run, reason):=now]> d !! k = Some t → d !! k = Some t ∨ t = now) as Hn.
  { intros k t. rewrite lookup_insert. case_decide; [intros [= <-]; by right|by left]. }
  unfold should_send. destruct (d !! (org, run, reason)) as [t0|] eqn:E;
    [destruct (i64_wrap (now - t0) <? DEDUP_SECS) eqn:Ht; [done|breflect]|].
  - split_and!; [by rewrite lookup_insert_eq|by intros last [= <-]| |done].
    intros k t Hk. rewrite lookup_insert. case_decide; [subst|by left]. right. by simplify_eq.
  - split_and!; [by rewrite lookup_insert_eq|done| |done].
    intros k t Hk. rewrite lookup_insert. case_decide; [by simplify_eq|by left].
Qed.

Lemma alert_spec now org run reason title body d P tr :
  spec P tr (alert now org run reason title body d)
    (λ _ r, dedup_step org now d r.1 r.2).
Proof.
  pose proof (should_send_spec org run reason now d) as Hs. unfold alert.
  destruct (should_send org run reason now d) as [d' []]; cbn.
  - intros i. destruct Hs as (H1 & H2 & H3). split; [|done].
    by intros p (tok & [= ->])%to_devices_elem _.
  - rewrite Hs. by apply dedup_idle; intros p ?%elem_of_nil.
Qed.

Lemma handle_spec unix ms e d P tr :
  (∀ tr inc now w, P tr (Notified (in_org inc) (in_id inc) now w)) →
  spec P tr (handle alert_pct unix ms e d) (λ _ r, dedup_step (event_org e) unix d r.1 r.2).
Proof.
  intros HP. destruct e as [org run|org run|org run b|inc]; cbn [handle event_org].
  - intros i. cbn [task_bind]. destruct (over_budget _ _ _).
    + apply spec_bind. eapply spec_mono; [apply alert_spec|]. intros tr' r _ Hd j. cbn.
      by apply (dedup_activities _ _ _ _ _ (λ token, mkUpdate token _ _ _ false)).
    + cbn. intros j. apply (dedup_activities _ _ _ _ [] (λ token, mkUpdate token _ _ _ false)).
      by apply dedup_idle; intros p ?%elem_of_nil.
  - apply spec_bind. eapply spec_mono; [apply alert_spec|]. intros tr' r _ Hd j. cbn.
    by apply (dedup_activities _ _ _ _ _ (λ token, mkUpdate token run 0 None true)).
  - by apply dedup_idle; intros p ?%elem_of_nil.
  - cbn. split; [apply HP|]. intros i. destruct (negb _); cbn.
    + by apply dedup_idle; intros p ?%elem_of_nil.
    + intros j. apply dedup_idle. by intros p (t & [= ->])%to_devices_elem.
Qed.
(** Unix seconds of the next hundred billion years. *)
Definition clock (t : Z) : Prop := 0 ≤ t ≤ 4611686018427387904.

Definition clocked (rx : list Received) : Prop :=
  Forall (λ r, match r with Event_ _ t _ => clock t | _ => True end) rx.

Lemma clock_diff a b : clock a → clock b → i64_wrap (a - b) = a - b.
Proof. intros Ha Hb. apply i64_wrap_id. unfold clock, in_i64, i64_min, i64_max in *. lia. Qed.

(** The [n]-th event was received at [t] and alerted with [p]. *)
Definition alerted (rx : list Received) (outs : list (list Sent)) (n : nat) (t : Z)
    (k : string * string * string) : Prop :=
  ∃ e ms out p, rx !! n = Some (Event_ e t ms) ∧ outs !! n = Some out ∧ SentPush p ∈ out ∧
    ps_reason p ≠ "incident" ∧ k = alert_key (event_org e) p.

(** Alerts come ten minutes after what the table remembers, and after each other. *)
Definition spaced (d : Dedup) (rx : list Received) (outs : list (list Sent)) : Prop :=
  (∀ n t k last, alerted rx outs n t k → d !! k = Some last → DEDUP_SECS ≤ t - last) ∧
  (∀ m n t t' k, (m < n)%nat → alerted rx outs m t k → alerted rx outs n t' k →
     DEDUP_SECS ≤ t' - t).

Lemma alerted_cons r rx out outs n t k :
  alerted (r :: rx) (out :: outs) (S n) t k ↔ alerted rx outs n t k.
Proof. done. Qed.

Lemma spaced_cons d d' e t ms rx out outs :
  clock t → (∀ k t, d !! k = Some t → clock t) →
  dedup_step (event_org e) t d d' out → spaced d' rx outs →
  spaced d (Event_ e t ms :: rx) (out :: outs).
Proof.
  intros Hc Hd (Hs & Hk & _) [Hl Hp]. split.
  - intros [|n] t' k last.
    + intros (e' & ms' & out' & p & [= <- <- _] & [= <-] & Hin & Hr & ->) Hlast.
      destruct (Hs _ Hin Hr) as [_ H1]. specialize (H1 _ Hlast).
      rewrite clock_diff in H1; [done|done|by eapply Hd].
    + rewrite alerted_cons. intros Ha Hlast. destruct (Hk _ _ Hlast) as [H1|[H1 H2]].
      * by eapply Hl.
      * rewrite clock_diff in H2; [|done|by eapply Hd]. specialize (Hl _ _ _ _ Ha H1).
        unfold DEDUP_SECS in *. lia.
  - intros [|m] [|n] t1 t2 k Hmn; try lia; rewrite ?alerted_cons.
    + intros (e' & ms' & out' & p & [= <- <- _] & [= <-] & Hin & Hr & ->) Ha.
      destruct (Hs _ Hin Hr) as [H1 _]. by eapply Hl.
    + intros Ha. apply (Hp m n); [lia|done].
Qed.

Lemma spaced_nil d rx : spaced d rx [].
Proof.
  split; [intros n t k l (? & ? & ? & ? & _ & Ho & _)|intros m n t t' k _ (? & ? & ? & ? & _ & Ho & _)];
    by rewrite lookup_nil in Ho.
Qed.

Lemma spawn_spec rx P : ∀ d tr,
  (∀ tr inc now w, P tr (Notified (in_org inc) (in_id inc) now w)) →
  clocked rx → (∀ k t, d !! k = Some t → clock t) →
  spec P tr (spawn alert_pct rx d) (λ _ outs, spaced d rx outs).
Proof.
  induction rx as [|[e t ms| |] rx IH]; intros d tr HP Hc Hd; cbn [spawn];
    try by apply spaced_nil.
  apply Forall_cons in Hc as [Ht Hc]. apply spec_bind.
  eapply spec_mono; [by apply handle_spec|]. intros tr' r _ Hr. apply spec_bind.
  eapply spec_mono; [apply IH; [done|done|]|].
  - intros k t' Hk. destruct Hr as (_ & _ & Hn). destruct (Hn _ _ Hk) as [?| ->]; [by eapply Hd|done].
  - intros tr'' outs _ Hs. by apply (spaced_cons d r.1).
Qed.

(** Alerts are not repeated. In whatever order events arrive and however the clock moves,
    two alerts that the pipeline sends for the same organization, run and reason are at least
    ten minutes apart. (Incident alerts have a window of their own in the store.) *)
Theorem alerts_spaced rx others i j tr outs :
  clocked rx → run_all (spawn alert_pct rx ∅) others i = (j, tr, outs) →
  ∀ m n t t' k, (m < n)%nat → alerted rx outs m t k → alerted rx outs n t' k → DEDUP_SECS ≤ t' - t.
Proof.
  intros Hc He. refine (proj2 (proj1 (spec_exec _ _ _ (λ _ _, True) [] _ _ _ _ _ _ _ (spawn_spec rx _ ∅ [] _ Hc _) He))).
  - done.
  - intros k t. by rewrite lookup_empty.
Qed.

(** The first receive that fails ends the pipeline for good: no event after it is handled. *)
Theorem lag_ends_alerts pre post d others i j tr outs :
  run_all (spawn alert_pct (pre ++ Lagged :: post) d) others i = (j, tr, outs) →
  (length outs ≤ length pre)%nat.
Proof.
  assert (∀ d tr, spec (λ _ _, True) tr (spawn alert_pct (pre ++ Lagged :: post) d)
            (λ _ outs, (length outs ≤ length pre)%nat)) as Hs.
  { induction pre as [|[e t ms| |] pre IH]; intros d' tr'; cbn; try lia.
    apply spec_bind. eapply spec_mono; [by apply handle_spec|].
    intros tr'' r _ _. apply spec_bind. eapply spec_mono; [apply IH|]. intros t3 o _ Ho. exact (le_n_S _ _ Ho). }
  intros He. exact (proj1 (spec_exec _ _ _ _ [] _ _ _ _ _ _ _ (Hs d []) He)).
Qed.
End dedup.

(** ** No change goes unsaved *)

Section persistence.
Context `{HashOrder} (sha256 : string → string) (pct : f64) (cfg : IncidentConfig).
Abbreviation apply := (apply_op sha256 pct cfg).

(** An operation of the running store: no restart, and the dirty flag is the timer's. *)
Definition running (op : Op) : bool :=
  match op with Restart | TakeDirty => false | _ => true end.

Lemma op_dirty i op :
  running op = true →
  (dirty i = true → dirty (apply i op) = true) ∧
  (Store.snapshot (apply i op) = Store.snapshot i ∨ dirty (apply i op) = true).
Proof.
  intros Hr. destruct op; try done; cbn [apply_op]; try (split; [done|by right]); try (split; [done|by left]).
  - assert (dirty (ingest_locked pct cfg org records now i).1.1 = true) as ->; [|by auto].
    by destruct (ingest_step pct cfg org records now i) as (? & ? & ? & ? & ? & ->).
  - unfold Store.ack_incident. destruct (get_in _ _ _); cbn; auto.
  - unfold Store.ack_incident_audited. destruct (get_in _ _ _); cbn; auto.
  - unfold Store.record_external_finding. destruct (upsert_incident _ _ _ _ _ _ _ _) as [j inc].
    destruct (get_in _ _ _); cbn; auto.
  - unfold Store.mark_incident_notified. destruct (get_in _ _ _); [|by auto].
    destruct (_ <? _); cbn; auto.
  - unfold Store.redeem_pairing. destruct (pairings i !! code); [|by auto].
    destruct (_ <? _); cbn; auto.
  - unfold Store.redeem_pairing_audited. destruct (pairings i !! code); [|by auto].
    destruct (_ <? _); cbn; auto.
  - unfold Store.check_and_record_nonce. destruct (existsb _ _); cbn; auto.
  - unfold Store.set_apns_token. destruct (find _ _) as [[? ?]|]; cbn; auto.
Qed.

(** Every change since the last snapshot is on its way to the file. *)
Definition synced (i : Inner) (f : option Store.Snapshot) : Prop :=
  dirty i = true ∨ f = Some (Store.snapshot i).

Lemma run_synced ops i f :
  forallb running ops = true → synced i f → synced (run_ops sha256 pct cfg i ops) f.
Proof.
  revert i. induction ops as [|op ops IH]; intros i Hr Hs; [done|]. cbn in Hr.
  apply andb_true_iff in Hr as [Hop Hr]. apply IH; [done|].
  destruct (op_dirty i op Hop) as [H1 H2]. destruct Hs as [Hd| ->]; [left; by apply H1|].
  destruct H2 as [H2|H2]; [right; by rewrite H2|by left].
Qed.

(** A step of a server that keeps running and whose saves succeed. *)
Definition healthy (t : Step) : bool :=
  match t with
  | Operate op => running op
  | Tick before saved => forallb running before && saved
  | Reboot => false
  end.

Lemma step_synced s t :
  healthy t = true → synced (live s) (file s) →
  synced (live (step sha256 pct cfg s t)) (file (step sha256 pct cfg s t)).
Proof.
  destruct t as [op|before saved|]; cbn [healthy step]; [..|done].
  - intros Hop Hs. apply (run_synced [op]); [|done]. cbn. by rewrite Hop.
  - intros [Hb ->]%andb_true_iff Hs. cbn. destruct (dirty (live s)) eqn:Ed; cbn.
    + by right.
    + apply run_synced; [done|]. destruct Hs as [Hs|Hs]; [by rewrite Ed in Hs|]. by right.
Qed.

(** No change goes unsaved. Starting from a loaded snapshot, whatever operations run between
    and during the ticks of the autosave timer, as long as no save fails the file already is
    the snapshot of the store or the store is marked for the next tick; and the next
    undisturbed tick makes the file the snapshot of everything so far. *)
Theorem no_change_goes_unsaved s l :
  file s = Some (Store.snapshot (live s)) → forallb healthy l = true →
  let s' := run_server sha256 pct cfg s l in
  synced (live s') (file s') ∧
  let s'' := step sha256 pct cfg s' (Tick [] true) in
  file s'' = Some (Store.snapshot (live s'')) ∧ Store.snapshot (live s'') = Store.snapshot (live s').
Proof.
  intros Hf Hl s'. assert (synced (live s') (file s')) as Hs.
  { unfold s'. clear s'. assert (synced (live s) (file s)) as Hs by by right. clear Hf. revert s Hs.
    induction l as [|t l IH]; intros s Hs; [done|]. cbn in Hl. apply andb_true_iff in Hl as [Ht Hl].
    apply IH; [done|]. by apply step_synced. }
  split; [done|]. cbn. destruct (dirty (live s')) eqn:Ed; cbn; [done|].
  destruct Hs as [Hs|Hs]; [by rewrite Ed in Hs|done].
Qed.

(** A save that fails is not retried: the flag is already cleared, so until the next operation
    no tick writes the file again. *)
Theorem failed_save_not_retried s n :
  let s1 := step sha256 pct cfg s (Tick [] false) in
  file (run_server sha256 pct cfg s1 (replicate n (Tick [] true))) = file s.
Proof.
  intros s1. assert (file s1 = file s ∧ dirty (live s1) = false) as [Hf Hd].
  { unfold s1. cbn. by destruct (dirty (live s)) eqn:Ed; cbn. }
  rewrite <-Hf. clear Hf. clearbody s1. revert s1 Hd. induction n as [|n IH]; intros s1 Hd; [done|].
  cbn [replicate run_server foldl]. assert (step sha256 pct cfg s1 (Tick [] true) = mkServer (Store.take_dirty (live s1)).1 (file s1)) as ->.
  { cbn. by rewrite Hd. }
  apply (IH (mkServer _ _)). done.
Qed.
End persistence.
