(* ===== verification/CloudStart.v ===== *)
(** * The control plane's process

    [main] of [crates/cloud/src/main.rs] with the readers of the environment of [oidc.rs],
    [audit_sign.rs] and [apns.rs]: what is configured, what is loaded and where the server
    listens.  The theorems say what a start without credentials grants, and what a snapshot
    that cannot be loaded costs. *)

From S2P Require Import Prelude Float Strings McpReport AuditChain.
From S2P Require Import Recency CloudTypes CloudIngest CloudStore CloudInv CloudAuth CloudApi CloudPush.
From S2P Require AgentEvent Json.

Abbreviation Env := (string → option string).

(** ** Settings *)

(* @src oidc.rs env_nonempty *)
Definition env_nonempty (env : Env) (name : string) : option string :=
  v ← env name; if is_empty_str v then None else Some v.

(** The keys and PEM forms of the [p256] and [jsonwebtoken] libraries, and the files. *)
Class StartLib `{CloudLib} := {
  from_pkcs8_pem : string → option SigningKey;
  from_sec1_pem : string → option SigningKey;
  key_from_slice : string → option SigningKey;
  from_pkcs8_der : string → option SigningKey;
  from_sec1_der : string → option SigningKey
}.

Section settings.
Context `{StartLib} (env : Env) (read : string → option string).

(* @src oidc.rs load_jwks *)
Definition load_jwks (raw : string) : option string :=
  if starts_with "{" (trim_start raw) then Some raw else read raw.

(* @src oidc.rs OidcConfig::from_env *)
Definition oidc_from_env : option OidcConfig :=
  issuer ← env_nonempty env "TOKENFUSE_CLOUD_OIDC_ISSUER";
  audience ← env_nonempty env "TOKENFUSE_CLOUD_OIDC_AUDIENCE";
  jwks ← env_nonempty env "TOKENFUSE_CLOUD_OIDC_JWKS" ≫= load_jwks;
  oidc_new issuer audience jwks (default "" (env "TOKENFUSE_CLOUD_OIDC_ORG_CLAIM"))
    (default "" (env "TOKENFUSE_CLOUD_OIDC_ROLES_CLAIM"))
    (default "" (env "TOKENFUSE_CLOUD_OIDC_ADMIN_ROLE")).

(** [or_else] on the first that parses. *)
Definition first_of {A} (l : list (option A)) : option A :=
  default None (head (filter is_Some l)).

(* @src audit_sign.rs parse_signing_key *)
Definition parse_signing_key (s : string) : option SigningKey :=
  if is_empty_str s then None
  else if Strings.contains "-----BEGIN" s then first_of [from_pkcs8_pem s; from_sec1_pem s]
  else
    bytes ← b64_decode s;
    first_of [if (String.length bytes =? 32)%nat then key_from_slice bytes else None;
              from_pkcs8_der bytes; from_sec1_der bytes].

(* @src audit_sign.rs signing_key_from_env *)
Definition signing_key_from_env : option SigningKey :=
  raw ← env "TOKENFUSE_CLOUD_AUDIT_SIGNING_KEY"; parse_signing_key (trim raw).
End settings.

(** ** The push service *)

(* @src apns.rs 21-30 ApnsSender::from_env *)
Record ApnsConfig := mkApns {
  ap_pem : string; ap_key_id : string; ap_team_id : string; ap_topic : string; ap_host : string
}.

(* @src apns.rs ApnsSender::from_env *)
Definition apns_from_env (env : Env) (read : string → option string) (pem_ok client_ok : string → bool)
  : option ApnsConfig :=
  key_path ← env "TOKENFUSE_APNS_KEY_PATH";
  key_id ← env "TOKENFUSE_APNS_KEY_ID";
  team_id ← env "TOKENFUSE_APNS_TEAM_ID";
  topic ← env "TOKENFUSE_APNS_TOPIC";
  let host := if bool_decide (env "TOKENFUSE_APNS_ENV" = Some "production")
              then "https://api.push.apple.com" else "https://api.sandbox.push.apple.com" in
  pem ← read key_path;
  if pem_ok pem && client_ok host then Some (mkApns pem key_id team_id topic host) else None.

(** One request to the push service: URL, headers and payload. *)
Record ApnsRequest := mkApnsRequest {
  aq_url : string; aq_headers : list (string * string); aq_payload : Json.Value
}.

(* @src apns.rs ApnsInner::post *)
Definition apns_post (c : ApnsConfig) (jwt target push_type suffix : string) (payload : Json.Value)
  : ApnsRequest :=
  mkApnsRequest (ap_host c +:+ "/3/device/" +:+ target)
    [("authorization", "bearer " +:+ jwt); ("apns-topic", ap_topic c +:+ suffix);
     ("apns-push-type", push_type)] payload.

(** What is sent for one item of the pipeline, with the provider's token. *)
(* @src apns.rs 109-151 PushSender for ApnsSender *)
Definition apns_request (c : ApnsConfig) (jwt : string) (now : Z) (s : Sent) : ApnsRequest :=
  match s with
  | SentPush p => apns_post c jwt (ps_token p) "alert" "" (push_payload p)
  | SentActivity u => apns_post c jwt (up_token u) "liveactivity" ".push-type.liveactivity"
                        (activity_payload u now)
  end.

(** [NullSender] drops everything; without the feature or the settings it is the sender. *)
(* @src cloud/main.rs build_push_sender *)
Definition build_push_sender (feature : bool) (configured : option ApnsConfig) : option ApnsConfig :=
  if feature then configured else None.

(** ** The start *)

(** What is logged of a start: no key at all, the insecure key in use, a snapshot that was not
    loaded, an address others can reach. *)
Inductive Notice :=
| NoKeys | DevkeyActive | SnapshotNotLoaded (path : string) (e : Store.LoadError)
| NotLoopback (host : string).

Section start.
Context `{HashOrder} `{StartLib}.

(** A process that serves: its state, the store it starts on, the file it saves to, the address
    it binds. *)
Record Process := mkProcess {
  pc_state : AppState;
  pc_cfg : IncidentConfig;
  pc_store : Inner;
  pc_save : option string;
  pc_events : AgentEvent.Exporter;
  pc_push : option ApnsConfig;
  pc_addr : string;
  pc_notices : list Notice
}.

(** The environment, the files, the snapshot at a path and its decoding, the event stream's
    file once opened, and the push service's libraries. *)
Context (env : Env) (read : string → option string)
        (snapshot_file : string → Store.ReadFile) (from_slice : string → option Store.Snapshot)
        (open_events : string → option AgentEvent.Exporter)
        (apns_feature : bool) (pem_ok client_ok : string → bool).

(* @src agent_event.rs Exporter::from_env *)
Definition exporter_from_env : AgentEvent.Exporter :=
  match env "TOKENFUSE_EVENTS_PATH" with
  | Some path => if is_empty_str path then AgentEvent.disabled
                 else default AgentEvent.disabled (open_events path)
  | None => AgentEvent.disabled
  end.

(* @src cloud/main.rs 43-65 main *)
Definition keys_from_env : gmap string Principal * list Notice :=
  let spec := default "" (env "TOKENFUSE_CLOUD_KEYS") in
  let allow_devkey := env_flag (env "TOKENFUSE_CLOUD_ALLOW_DEVKEY") in
  let keys := parse_keys spec allow_devkey in
  (keys, if bool_decide (keys = ∅) then [NoKeys]
         else if allow_devkey && bool_decide (parse_keys spec false = ∅) then [DevkeyActive] else []).

(** The store the process starts on: what was loaded, or the empty store. *)
(* @src cloud/main.rs 116-136 main *)
Definition load_store : Inner * option string * list Notice :=
  match env_nonempty env "TOKENFUSE_CLOUD_DATA" with
  | None => (empty_inner, None, [])
  | Some path =>
      match Store.load from_slice (snapshot_file path) empty_inner with
      | Ok i => (i, Some path, [])
      | Err e => (empty_inner, Some path, [SnapshotNotLoaded path e])
      end
  end.

(* @src cloud/main.rs main *)
Definition main (args : list string) : option Process :=
  if bool_decide (head args = Some "--openapi") then None
  else
    let port := default "8080" (env "PORT") in
    let '(keys, key_notices) := keys_from_env in
    let alert_pct := alert_pct_of (env "TOKENFUSE_CLOUD_ALERT_PCT") in
    let cfg := incident_cfg_of (env "TOKENFUSE_CLOUD_INCIDENT_BUDGET_BLOCKS")
                 (env "TOKENFUSE_CLOUD_INCIDENT_LOOP_REPEATS")
                 (env "TOKENFUSE_CLOUD_INCIDENT_SPEND_PER_MIN_USD")
                 (env "TOKENFUSE_CLOUD_INCIDENT_FANOUT_RUNS") in
    let events := exporter_from_env in
    let '(store, save, load_notices) := load_store in
    let push := build_push_sender apns_feature (apns_from_env env read pem_ok client_ok) in
    let st := with_replay_events_path
                (with_audit_signing_key (with_oidc (app_state_new keys alert_pct)
                   (oidc_from_env env read)) (signing_key_from_env env))
                (env "TOKENFUSE_CLOUD_REPLAY_EVENTS") in
    let host := default "127.0.0.1" (env "TOKENFUSE_CLOUD_HOST") in
    Some (mkProcess st cfg store save events push (host +:+ ":" +:+ port)
            (key_notices ++ load_notices
             ++ (if bool_decide (host ∈ ["127.0.0.1"; "localhost"; "::1"]) then []
                 else [NotLoopback host]))).

(** ** Without credentials *)

(** Nobody is known to the store and the configuration has no credentials either. *)
Definition locked (st : AppState) (i : Inner) : Prop :=
  keys st = ∅ ∧ oidc st = None ∧ devices i = ∅ ∧ pairings i = ∅.

(** What a task does when it runs in [i] alone: its operations leave [i] as it is, and [P] holds
    of its answer. *)
Fixpoint inert {A} (sha : string → string) (pct : f64) (cfg : IncidentConfig) (i : Inner)
    (P : A → Prop) (p : Task A) : Prop :=
  match p with
  | Ret a => P a
  | Read f k => inert sha pct cfg i P (k (f i))
  | Write op out k => apply_op sha pct cfg i op = i ∧ inert sha pct cfg i P (k (out i))
  end.
End start.

Section closed.
Context `{HashOrder} `{CloudLib} `{CloudWire} (sha : string → string) (pct : f64)
        (cfg : IncidentConfig) (i : Inner).
Abbreviation inert := (inert sha pct cfg i).

Lemma inert_bind {A B} (P : B → Prop) (p : Task A) (f : A → Task B) :
  inert (λ a, inert P (f a)) p → inert P (task_bind p f).
Proof. induction p as [a|C g k IH|C op out k IH]; cbn; [done|apply IH|]. intros [? ?]. auto. Qed.

Lemma inert_mono {A} (P Q : A → Prop) (p : Task A) : (∀ a, P a → Q a) → inert P p → inert Q p.
Proof. intros HPQ. induction p as [a|C g k IH|C op out k IH]; cbn; [auto..|]. intros [? ?]. auto. Qed.

Lemma idle_ops ops : Forall (λ op, apply_op sha pct cfg i op = i) ops → run_ops sha pct cfg i ops = i.
Proof. induction 1 as [|op ops Hop _ IH]; [done|]. cbn [run_ops foldl]. by rewrite Hop. Qed.

Lemma inert_exec {A} (P : A → Prop) (p : Task A) others :
  Forall (Forall (λ op, apply_op sha pct cfg i op = i)) others → inert P p →
  ∃ tr a, exec sha pct cfg p others i = (i, tr, a) ∧ P a.
Proof.
  revert others. induction p as [a|B f k IH|B op out k IH]; intros others Ho Hp; cbn [exec]; [by exists [], a|..].
  all: assert (run_ops sha pct cfg i (default [] (head others)) = i) as Hi
    by (destruct Ho; [done|by apply idle_ops]).
  all: assert (Forall (Forall (λ op, apply_op sha pct cfg i op = i)) (tail others)) as Ho'
    by (by destruct Ho).
  - rewrite Hi. destruct (IH _ _ Ho' Hp) as (tr & a & He & ?). rewrite He. eauto.
  - destruct Hp as [Hop Hp]. rewrite Hi, Hop. destruct (IH _ _ Ho' Hp) as (tr & a & He & ?). rewrite He. eauto.
Qed.

Context (st : AppState) (rq : HttpRequest) (inp : Inputs) (Hlocked : locked st i).

Lemma org_for_locked : inert (λ o, o = None) (org_for st (hq_headers rq)).
Proof.
  destruct Hlocked as (Hk & Ho & Hd & _). unfold org_for. destruct (bearer _); [|done].
  rewrite Hk, lookup_empty. cbn. unfold Store.device_by_token. rewrite Hd, lookup_empty. cbn.
  unfold oidc_principal. by rewrite Ho.
Qed.

Lemma device_locked body :
  inert (λ r, r = Err CloudAuth.Unauthorized)
    (verify_device_signature (hq_headers rq) "POST" (hq_path rq) body (now_unix inp)).
Proof.
  destruct Hlocked as (_ & _ & Hd & _). unfold verify_device_signature. destruct (bearer _); [|done].
  cbn. unfold Store.device_by_token. by rewrite Hd, lookup_empty.
Qed.

Lemma mutation_locked body :
  inert (λ r, r = Err CloudAuth.Unauthorized)
    (authorize_mutation st (hq_headers rq) "POST" (hq_path rq) body (now_unix inp)).
Proof.
  destruct Hlocked as (Hk & Ho & _). unfold authorize_mutation. destruct (bearer _); [|done].
  rewrite Hk, lookup_empty, Ho. cbn. apply inert_bind. eapply inert_mono; [|apply device_locked].
  by intros r ->.
Qed.

(** Refused, or one of the three answers that say nothing of the store: the health check, the
    dashboard's page and the published document. *)
Definition refused (r : Response) : Prop :=
  status r ∈ [204; 400; 401; 404; 405; 413] ∨
  (status r = 200 ∧ response_body r ∈ [Text "ok"; Dashboard; OpenApi]).

Lemma unauthorized_refused : refused Api.unauthorized.
Proof. left. cbn. set_solver. Qed.
Lemma bad_request_refused b : refused (Api.json 400 b).
Proof. left. cbn. set_solver. Qed.

Lemma status_refused s h b : s ∈ [204; 400; 401; 404; 405; 413] → refused (mkResponse s h b).
Proof. by left. Qed.
Lemma cors_refused r : refused r → refused (Api.set_cors_headers r).
Proof. done. Qed.

Lemma with_org_locked k : inert refused (Api.with_org st rq k).
Proof.
  apply inert_bind. eapply inert_mono; [|apply org_for_locked]. intros o ->. apply unauthorized_refused.
Qed.
Lemma with_mutator_locked body k : inert refused (Api.with_mutator st rq inp body k).
Proof.
  apply inert_bind. eapply inert_mono; [|apply mutation_locked]. intros o ->. apply unauthorized_refused.
Qed.
Lemma with_device_locked id k : inert refused (Api.with_device rq inp id k).
Proof.
  apply inert_bind. eapply inert_mono; [|apply device_locked]. intros o ->. apply unauthorized_refused.
Qed.

Lemma with_path_locked k param : (∀ p, inert refused (k p)) → inert refused (Api.with_path k param).
Proof. intros Hk. unfold Api.with_path. destruct (path_param param); [done|apply bad_request_refused]. Qed.
Lemma with_body_locked k : inert refused k → inert refused (Api.with_body rq k).
Proof. intros Hk. unfold Api.with_body. destruct (_ <? _); [apply status_refused; set_solver|done]. Qed.

Lemma pair_locked : inert refused (Api.pair rq inp).
Proof.
  unfold Api.pair. destruct (decode_pair _) as [req|]; [|apply bad_request_refused].
  apply inert_bind. cbn. destruct Hlocked as (_ & _ & _ & Hp).
  unfold Store.redeem_pairing_audited. rewrite Hp, lookup_empty. split; [done|apply bad_request_refused].
Qed.

Lemma pair_new_locked : inert refused (Api.pair_new st rq inp).
Proof.
  destruct Hlocked as (Hk & _). unfold Api.pair_new, admin_org_key, principal_for.
  destruct (bearer _) as [token|]; cbn; [rewrite Hk, lookup_empty; cbn|]; apply unauthorized_refused.
Qed.

Lemma routes_locked : Forall (λ route, ∀ param, inert refused (route.2.2 param)) (Api.app st rq inp).
Proof.
  unfold Api.app.
  repeat (apply Forall_cons_2; [intros param; cbn [fst snd Api.get Api.post]|]); [..|constructor].
  all: unfold Api.ingest, Api.runs, Api.agents, Api.units, Api.savings, Api.summary,
    Api.alerts, Api.series, Api.stream, Api.kill, Api.kills, Api.set_budget, Api.budgets,
    Api.set_unit_budget, Api.unit_budgets, Api.incidents, Api.ack_incident, Api.external_findings,
    Api.compliance, Api.compliance_evidence, Api.audit, Api.audit_verify, Api.audit_manifest,
    Api.replay, Api.register_apns, Api.register_activity, Api.view.
  all: try (apply with_path_locked; intros p); try apply with_body_locked.
  all: try first [apply with_org_locked | apply with_mutator_locked | apply with_device_locked
                 | apply pair_locked | apply pair_new_locked].
  all: try (case_match; [first [apply with_org_locked | apply with_body_locked, with_mutator_locked]
                        |apply bad_request_refused]).
  all: right; split; [done|cbn; set_solver].
Qed.

Lemma found_locked routes method h :
  Forall (λ route, ∀ param, inert refused (route.2.2 param)) routes →
  Api.find_route rq routes = Some (method, h) → inert refused h.
Proof.
  induction 1 as [|[path [m f]] routes Hf _ IH]; [done|]. cbn.
  destruct (Api.match_route _ _); [intros [= <- <-]; apply Hf|apply IH].
Qed.

Lemma routed_locked : inert refused (Api.routed st rq inp).
Proof.
  unfold Api.routed. pose proof routes_locked as Hr. revert Hr. generalize (Api.app st rq inp).
  intros routes Hr. destruct (Api.find_route rq routes) as [[method h]|] eqn:E.
  - destruct (Api.accepts _ _); [by eapply found_locked|apply status_refused; set_solver].
  - apply status_refused. set_solver.
Qed.

Lemma cors_locked : inert refused (Api.cors st rq inp).
Proof.
  unfold Api.cors. case_bool_decide; [apply cors_refused, status_refused; set_solver|].
  apply inert_bind. eapply inert_mono; [|apply routed_locked]. intros a Ha. by apply cors_refused.
Qed.
End closed.

(** C24: A control plane without credentials is closed.  When the key specification has no valid
    entry, the development key is not explicitly allowed, OIDC is not configured and the loaded
    snapshot has no device, then whatever is requested, among other requests that leave the store
    as it was loaded (as this one then does), every
    answer is a refusal or one of the three that say nothing of the store (the health check, the
    dashboard's page, the published document), and the store stays as it was loaded. *)
Theorem unconfigured_plane_is_closed `{HashOrder} `{StartLib} `{CloudWire} env read snapshot_file
    from_slice open_events apns pem_ok client_ok args p sha pct cfg others rq inp :
  main env read snapshot_file from_slice open_events apns pem_ok client_ok args = Some p →
  parse_keys (default "" (env "TOKENFUSE_CLOUD_KEYS")) false = ∅ →
  env_flag (env "TOKENFUSE_CLOUD_ALLOW_DEVKEY") = false →
  oidc_from_env env read = None → devices (pc_store p) = ∅ →
  Forall (Forall (λ op, apply_op sha pct cfg (pc_store p) op = pc_store p)) others →
  ∃ tr r, exec sha pct cfg (Api.cors (pc_state p) rq inp) others (pc_store p) = (pc_store p, tr, r) ∧
    refused r.
Proof.
  intros Hm Hk Hf Ho Hd Hothers. apply inert_exec; [done|]. apply cors_locked.
  unfold main in Hm. case_bool_decide; [done|].
  unfold keys_from_env in Hm. rewrite Hf, Hk in Hm. cbn in Hm.
  destruct (load_store _ _ _) as [[i save] notices] eqn:El. injection Hm as <-. cbn in *.
  split_and!; try done. unfold load_store in El.
  destruct (env_nonempty _ _); [|by injection El as <- _ _].
  unfold Store.load in El. destruct (snapshot_file _) as [data| |e]; [|by injection El as <- _ _..].
  destruct (from_slice data); by injection El as <- _ _.
Qed.

(** A snapshot that cannot be loaded is lost: the process starts on the empty store, and the
    first save after the first change overwrites the file. *)
Lemma unreadable_snapshot_overwritten `{HashOrder} env snapshot_file from_slice path e sha pct cfg op before :
  env_nonempty env "TOKENFUSE_CLOUD_DATA" = Some path →
  Store.load from_slice (snapshot_file path) empty_inner = Err e →
  dirty (apply_op sha pct cfg empty_inner op) = true →
  let '(i, save, _) := load_store env snapshot_file from_slice in
  let s := run_server sha pct cfg (mkServer i None) [Operate op; Tick before true] in
  save = Some path ∧
  file s = Some (Store.snapshot (run_ops sha pct cfg empty_inner (op :: TakeDirty :: before))).
Proof.
  intros Hp Hl Hd. unfold load_store. rewrite Hp, Hl. cbn. by rewrite Hd.
Qed.
