(* ===== verification/CloudApiDemo.v ===== *)
(** * The control plane's interface at work

    A deployment with an administrator key, a viewer key and a paired device, and the theorems
    about the interface applied to it. *)

From S2P Require Import Prelude Float Strings McpReport AuditChain.
From S2P Require Import Recency CloudTypes CloudIngest CloudStore CloudInv CloudAccess CloudDemo.
From S2P Require Import CloudAuth CloudApi CloudApiProps CloudTenants CloudApiFacts CloudContract CloudPush CloudStart.
From S2P Require Compliance Json.

#[local] Existing Instance listing_order.

(** Transparent stand-ins: a signature is the key followed by the text, a token its own claims. *)
#[local] Instance demo_lib : CloudLib := {|
  sha256 := toy; to_str := Some; b64_decode := Some; b64_encode := id;
  VerifyingKey := string; Signature := string;
  from_sec1_bytes := Some; signature_from_slice := Some;
  verify_bytes := λ vk text sig, bool_decide (sig = vk +:+ text);
  SigningKey := string; sign := λ k text, k +:+ text; public_point := id;
  Jwk := string; jwk_kind := λ _, RsaKey; DecodingKey := string; from_jwk := Some;
  JwkSet := list string; parse_jwks := λ s, Some [s]; jwks_empty := λ l, bool_decide (l = []);
  jwks_find := λ l k, find (λ x, bool_decide (x = k)) l;
  decode_header := λ _, None; jwt_decode := λ _ _ _, None
|}.

#[local] Instance demo_wire : CloudWire := {|
  decode_ingest := λ s, Some [row s "allow" "" 5];
  decode_budget := λ s, if bool_decide (s = "5") then Some (f64_of_Z 5) else None;
  decode_findings := λ s, Ok [];
  decode_pair_new := λ s, None;
  decode_pair := λ s, Some (mkPairRequest s "K" "ios" "phone");
  decode_apns := Some; decode_activity := λ s, Some (mkActivityBody s "r1");
  decode_event := λ s, Some (mkReplayEvent "" s "" "" None "" (Some "r1") None None None);
  query_alerts := λ _, Some None; query_series := λ _, Some (mkSeriesQuery None None None);
  query_source := λ _, Some None;
  path_param := λ s, if Strings.contains "%ff" s then None else Some s; debug_str := id
|}.

Definition demo_st : AppState :=
  app_state_new (parse_keys "k1:acme, k2:acme:viewer,k3:umbrella" false) demo_pct.

Definition demo_inp : Inputs :=
  mkInputs 1700000000 1700000000000 (λ _, 1700000000000) "abcdefgh" "id" "token"
    (Some [Some "2"; Some "1"; None]).

(** The device that redeemed a code of [acme]. *)
Definition demo_phone : Device := mkDevice "6964" "acme" "admin" "phone" "ios" "K" None.
Abbreviation paired := (set_devices <["746f6b656e" := demo_phone]> empty_inner).

Definition request (method path : string) (headers : list (string * string)) (body : string)
  : HttpRequest := mkHttp method path "" headers body.

Definition kill_path : string := "/v1/runs/r1/kill".
Definition signed_headers (nonce : string) : list (string * string) :=
  [("authorization", "Bearer 746f6b656e"); ("x-fuse-device", "6964"); ("x-fuse-ts", "1700000060");
   ("x-fuse-nonce", nonce);
   ("x-fuse-sig", "K" +:+ canonical_string "POST" kill_path "" "1700000060" nonce)].

Definition demo_kill : HttpRequest :=
  request "POST" kill_path (signed_headers "n1") "".
Definition with_key (k path : string) (body : string) : HttpRequest :=
  request "POST" path [("authorization", "Bearer " +:+ k)] body.

Abbreviation serve rq i := (exec toy demo_pct demo_cfg (Api.cors demo_st rq demo_inp) [] i).

Example demo_answers :
  status (serve demo_kill paired).2 = 200 ∧
  Store.kills (serve demo_kill paired).1.1 "acme" = ["r1"] ∧
  status (serve demo_kill (serve demo_kill paired).1.1).2 = 403 ∧
  status (serve (with_key "k2" kill_path "") paired).2 = 403 ∧
  status (serve (with_key "k4" kill_path "") paired).2 = 401 ∧
  status (serve (with_key "k1" "/v1/runs/r1/budget" "5") paired).2 = 200 ∧
  status (serve (with_key "k1" "/v1/runs/r1/budget" "x") paired).2 = 400 ∧
  status (serve (with_key "k1" "/v1/kills" "") paired).2 = 405 ∧
  status (serve (with_key "k1" "/nowhere" "") paired).2 = 404.
Proof. vm_compute. done. Qed.

(** A body over the limit is refused before any credential is looked at. *)
Lemma oversized_refused body i :
  Api.BODY_LIMIT < Z.of_nat (String.length body) →
  status (serve (request "POST" "/v1/ingest" [] body) i).2 = 413.
Proof.
  intros Hb. unfold Api.cors, Api.routed, request.
  match goal with |- context [Api.find_route ?rq ?l] =>
    change (Api.find_route rq l) with (Some ("POST", Api.with_body rq (Api.ingest demo_st rq demo_inp))) end.
  cbn -[Api.BODY_LIMIT]. unfold Api.with_body. cbn [hq_body]. by rewrite (proj2 (Z.ltb_lt _ _) Hb).
Qed.

(** So is a path segment that is not UTF-8; an empty one is no parameter; three answers need no
    credential. *)
Example extractors_refuse :
  status (serve (with_key "k1" "/v1/runs/%ff/kill" "") paired).2 = 400 ∧
  status (serve (with_key "k1" "/v1/runs//kill" "") paired).2 = 404 ∧
  (serve (request "GET" "/" [] "") paired).2 = Api.set_cors_headers (Api.json 200 Dashboard) ∧
  (serve (request "GET" "/openapi.json" [] "") paired).2 = Api.set_cors_headers (Api.json 200 OpenApi).
Proof. vm_compute. done. Qed.

(** Answers the published contract does not list. *)
Example undocumented_answers :
  status (serve (with_key "k1" "/v1/pair/new" "owner") paired).2 = 400 ∧
  status (serve (request "POST" "/v1/devices/6964/apns" [] "t") paired).2 = 401 ∧
  operation_of "/v1/findings" "POST" = None ∧
  o_responses doc_external_findings = [(200, Some "ExternalFindingsResponse")] ∧
  status (serve (with_key "k2" "/v1/findings" "") paired).2 = 403.
Proof. vm_compute. done. Qed.

Lemma triple_eta {A B C} (x : A * B * C) : x = (x.1.1, x.1.2, x.2).
Proof. by destruct x as [[? ?] ?]. Defined.

Lemma every_write_justified_witness :
  administrator demo_st demo_kill demo_inp (take 2 (serve demo_kill paired).1.2) "" "acme" "device:6964".
Proof.
  pose proof (every_write_justified demo_st demo_kill demo_inp toy demo_pct demo_cfg [] paired
    (serve demo_kill paired).1.1 (serve demo_kill paired).1.2 (serve demo_kill paired).2
    (triple_eta _) 2) as H.
  eapply (H _ (KillAudited 1700000000000 "acme" "r1" "device:6964")). vm_compute. reflexivity.
Defined.

Definition demo_list : HttpRequest := request "GET" "/v1/kills" [("authorization", "k1")] "".

(** Another deployment: more keys, other thresholds and inputs of the replay, and a store in which
    another organization has a killed run and a device. *)
Definition other_st : AppState :=
  app_state_new (parse_keys "k1:acme,k9:globex:viewer" false) demo_pct.
Definition other_inp : Inputs :=
  mkInputs 1700000000 1700000000000 (λ _, 1700000000000) "abcdefgh" "id" "token" None.
Definition other_cfg : IncidentConfig := mkIncidentConfig 1 1 60000 1 1 60000.
Abbreviation elsewhere := (Store.kill "umbrella" "r9" paired).1.
Abbreviation abroad :=
  (set_devices <["t9" := mkDevice "d9" "umbrella" "admin" "" "" "" None]> elsewhere).

Lemma demo_speaks i o : devices i !! "k1" = None → speaks_for demo_st demo_list i o → o = "acme".
Proof.
  intros Hd (token & Hb & Hc). vm_compute in Hb. injection Hb as <-.
  destruct Hc as [(p & Hp & ->)|[(d & Hp & ->)|(p & Hp & ->)]].
  - vm_compute in Hp. by injection Hp as <-.
  - rewrite Hd in Hp. discriminate Hp.
  - vm_compute in Hp. discriminate Hp.
Defined.

Abbreviation serve_other rq i :=
  (exec toy demo_pct other_cfg (Api.cors other_st rq other_inp) [] i).

Lemma tenant_isolated_witness : (serve demo_list paired).2 = (serve_other demo_list abroad).2.
Proof.
  apply (tenant_isolated demo_list demo_st other_st demo_inp other_inp) with
    (org := "acme") (sha := toy) (pct1 := demo_pct) (pct2 := demo_pct) (cfg1 := demo_cfg)
    (cfg2 := other_cfg) (others1 := []) (others2 := []) (i1 := paired) (i2 := abroad)
    (j1 := (serve demo_list paired).1.1) (j2 := (serve_other demo_list abroad).1.1)
    (tr1 := (serve demo_list paired).1.2) (tr2 := (serve_other demo_list abroad).1.2).
  - split; [|reflexivity]. intros token Hb. vm_compute in Hb. injection Hb as <-. vm_compute. reflexivity.
  - split; vm_compute; reflexivity.
  - apply triple_eta.
  - apply triple_eta.
  - intros [|n] e1 e2 H1 H2; [|vm_compute in H1; discriminate H1].
    vm_compute in H1. injection H1 as <-. vm_compute in H2. injection H2 as <-. split.
    + split; [vm_compute; reflexivity|split; [vm_compute; reflexivity|]].
      split; [intros pq [= <-]; vm_compute; reflexivity|]. intros id Hid. vm_compute in Hid. discriminate Hid.
    + intros o [Ho|Ho]; by eapply demo_speaks, Ho.
Defined.

Lemma writes_stay_in_tenant_witness :
  slice "umbrella" (apply_op toy demo_pct demo_cfg elsewhere (KillAudited 1 "acme" "r1" "k")) =
  slice "umbrella" elsewhere.
Proof. apply (writes_stay_in_tenant toy demo_pct demo_cfg "umbrella"); [reflexivity|by intros [=]]. Defined.

Lemma parse_keys_sound_witness :
  parse_keys "k1:acme, k2:acme:viewer,k1::x,k1:umbrella:viewer" true !! "k1"
  = Some (mkPrincipal "umbrella" "viewer").
Proof.
  destruct (parse_keys_sound "k1:acme, k2:acme:viewer,k1::x,k1:umbrella:viewer" true) as [H _].
  rewrite H; [vm_compute; reflexivity|vm_compute; discriminate].
Defined.

(** A run of [acme] was killed: the pack of [acme] shows the kill-switch as enforced. *)
Definition killed_once : Inner :=
  apply_op sha256 demo_pct demo_cfg paired (Ingest "acme" [row "r1" "killed" "" 5] 1700000000000).
Definition demo_evidence : HttpRequest :=
  request "GET" "/v1/compliance/evidence" [("authorization", "k2")] "".
Abbreviation evidence_served :=
  (exec sha256 demo_pct demo_cfg (Api.compliance_evidence demo_st demo_evidence) [] killed_once).
Abbreviation killed_pack := (Api.evidence_pack "acme" {["killed" := 1]} ∅ 0 (Ok tt)).

Lemma evidence_never_overclaims_witness :
  ∃ i1 i2 i3 i4, ((λ k, (k, None)) <$> [i1; i2; i3; i4]) `suffix_of` evidence_served.1.2 ∧
    backed (Store.decision_counts i1 "acme") (Store.incident_kind_counts i2 "acme")
      (length (Store.audit i3 "acme")) (Store.audit_verify sha256 i4 "acme")
      (mkEvidenceControl "TF.KILL (Operator kill-switch) - Art. 14 (Human oversight)" Enforced "killed=1").
Proof.
  destruct (evidence_never_overclaims demo_pct demo_cfg demo_st demo_evidence [] killed_once
    evidence_served.1.1 evidence_served.1.2 evidence_served.2 killed_pack (triple_eta _))
    as (i1 & i2 & i3 & i4 & Htr & Hrows & _); [vm_compute; reflexivity|].
  exists i1, i2, i3, i4. split; [exact Htr|]. apply Hrows; [|reflexivity].
  apply (bool_decide_unpack _). vm_compute. reflexivity.
Defined.

Definition finding (severity : string) : ExternalFinding :=
  mkExternalFinding "shadow_tool" "agent://a" severity None "".

Definition batch : list ExternalFinding := [finding "high"; finding "urgent"; finding "low"].
Abbreviation recorded_batch :=
  (exec sha256 demo_pct demo_cfg
     (Api.record_findings demo_inp (mkMutator "acme" "k") "idryx" 7 0 batch) [] paired).

Lemma findings_recorded_in_order_witness :
  recorded_batch.1.2.*2 =
    [Some (Finding 1700000000000 "acme" "k"
             (Store.mkFindingInput "idryx" "shadow_tool" High "agent://a" "" 7))] ∧
  recorded_batch.2 ≠ Api.json 200 (FindingsAccepted 3).
Proof.
  destruct (findings_recorded_in_order demo_pct demo_cfg demo_inp (mkMutator "acme" "k") "idryx" 7
    batch [] paired recorded_batch.1.1 recorded_batch.1.2 recorded_batch.2
    (triple_eta recorded_batch)) as (Ht & Hr & _).
  split; [exact Ht|]. intros H. apply Hr in H. vm_compute in H. discriminate H.
Defined.

Abbreviation verify_kill i :=
  (exec sha256 demo_pct demo_cfg (verify_device_signature (signed_headers "n1") "POST" kill_path ""
     1700000000) [] i).

Lemma signed_request_once_witness :
  (verify_kill (run_ops sha256 demo_pct demo_cfg (verify_kill paired).1.1
                  [Nonce "6964" "n2"; KillAudited 1 "acme" "r1" "k"])).2 ≠ Ok demo_phone.
Proof.
  intros He.
  refine (signed_request_once demo_pct demo_cfg (signed_headers "n1") (signed_headers "n1")
    "POST" kill_path "" 1700000000 "POST" kill_path "" 1700000000 [] paired
    (verify_kill paired).1.1 (verify_kill paired).1.2 demo_phone
    [Nonce "6964" "n2"; KillAudited 1 "acme" "r1" "k"] [] _ _ _ _ (triple_eta _)
    eq_refl _ _ demo_phone He eq_refl); vm_compute; reflexivity.
Defined.

Definition demo_rx : list Received :=
  [Event_ (KillEvent "acme" "r1") 1000 1000000; Event_ (KillEvent "acme" "r1") 1500 1500000;
   Event_ (KillEvent "acme" "r1") 1700 1700000; Lagged; Event_ (KillEvent "acme" "r2") 1800 1800000].
Abbreviation with_push := (set_devices <["t" := mkDevice "d" "acme" "admin" "" "" "" (Some "apns")]> empty_inner).
Abbreviation delivered :=
  (exec toy demo_pct demo_cfg (spawn demo_pct demo_rx ∅) [] with_push).

Example demo_delivered : length <$> delivered.2 = [1%nat; 0%nat; 1%nat].
Proof. vm_compute. reflexivity. Qed.

Lemma demo_alerted n t sent :
  demo_rx !! n = Some (Event_ (KillEvent "acme" "r1") t (t * 1000)) →
  delivered.2 !! n = Some [SentPush sent] → ps_reason sent = "kill" → ps_run_id sent = "r1" →
  alerted demo_rx delivered.2 n t ("acme", "r1", "kill").
Proof.
  intros Hr Ho Hk Hrun. exists (KillEvent "acme" "r1"), (t * 1000), [SentPush sent], sent.
  split_and!; [done|done|set_solver|by rewrite Hk|]. unfold alert_key. by rewrite Hk, Hrun.
Defined.

Lemma alerts_spaced_witness : DEDUP_SECS ≤ 1700 - 1000.
Proof.
  apply (alerts_spaced toy demo_pct demo_pct demo_cfg demo_rx [] with_push delivered.1.1 delivered.1.2
    delivered.2) with (m := 0%nat) (n := 2%nat) (k := ("acme", "r1", "kill")).
  - repeat constructor; vm_compute; intros [=].
  - apply triple_eta.
  - lia.
  - eapply demo_alerted; [reflexivity|vm_compute; reflexivity|reflexivity|reflexivity].
  - eapply demo_alerted; [reflexivity|vm_compute; reflexivity|reflexivity|reflexivity].
Defined.

Lemma no_change_goes_unsaved_witness :
  let s := mkServer empty_inner (Some (Store.snapshot empty_inner)) in
  let l := [Operate (KillAudited 1 "acme" "r1" "k"); Tick [] true; Operate (SetBudget "acme" "r1" 5)] in
  file (step toy demo_pct demo_cfg (run_server toy demo_pct demo_cfg s l) (Tick [] true)) ≠ file s.
Proof.
  intros s l.
  destruct (no_change_goes_unsaved toy demo_pct demo_cfg s l eq_refl eq_refl) as (_ & -> & _).
  intros H. apply (f_equal (λ f, bool_decide (Store.sn_budgets <$> f = Some ∅))) in H. vm_compute in H.
  discriminate H.
Defined.

(** ** A bare start *)

#[local] Instance demo_start : StartLib := {|
  from_pkcs8_pem := λ _, None; from_sec1_pem := λ _, None; key_from_slice := λ _, None;
  from_pkcs8_der := λ _, None; from_sec1_der := λ _, None
|}.

Definition bare_env : string → option string := λ _, None.
Definition bare_start : option Process :=
  main bare_env (λ _, None) (λ _, Store.NotFound) (λ _, None) (λ _, None) false
    (λ _, true) (λ _, true) [].

Example bare_start_listens : pc_addr <$> bare_start = Some "127.0.0.1:8080" ∧
  pc_notices <$> bare_start = Some [NoKeys].
Proof. vm_compute. done. Qed.

Lemma unconfigured_plane_is_closed_witness :
  ∃ p tr r, bare_start = Some p ∧
    exec toy demo_pct demo_cfg (Api.cors (pc_state p) demo_kill demo_inp) [] (pc_store p) =
      (pc_store p, tr, r) ∧ refused r.
Proof.
  destruct bare_start as [p|] eqn:E; [|vm_compute in E; discriminate E].
  assert (devices (pc_store p) = ∅) as Hd.
  { vm_compute in E. injection E as <-. reflexivity. }
  destruct (unconfigured_plane_is_closed _ _ _ _ _ _ _ _ _ p toy demo_pct demo_cfg [] demo_kill demo_inp E)
    as (tr & r & He & Hr); [vm_compute; reflexivity|vm_compute; reflexivity|vm_compute; reflexivity
                           |exact Hd|constructor|].
  exists p, tr, r. split; [reflexivity|]. split; [exact He|exact Hr].
Defined.
